(* ===== verification/_CoqProject ===== *)
-Q . S2P
Prelude.v
Float64.v
CScan.v
JsonString.v
JsonScoped.v
JsonSpec.v
JsonReaders.v
FloatFacts.v
Frames.v
Reflect.v
EngineCalls.v
StructCalls.v
ReflectCache.v
JsonBounds.v
JsonTop.v
Collapse.v
BridgeClient.v
BridgeProps.v
CoreLauncher.v
ScanFacts.v
NumberText.v
RemoteGhost.v
Lifecycle.v
BridgeLine.v
BridgeLineFacts.v
AssetCatalog.v
VfxMirror.v
VfxProps.v
PeerProps.v
GlideProps.v
PropFacts.v
DistanceTier.v
ObjectRegistry.v
PoseMirror.v
MontageMirror.v
GhostSweeps.v
Chaser.v
InputDisplay.v
PoseFacts.v
Nametag.v
TextCalls.v
RemoteTick.v
NametagProps.v
TickFacts.v
PoseProps.v
MontageProps.v
SweepProps.v
InputDisplayProps.v
LocalCapture.v
TrailCapture.v
VfxCapture.v
VfxCaptureProps.v
AfterimageOutline.v
AfterimageProps.v
LocalState.v
LocalWire.v
GhostGuards.v
GuardProps.v
IndicatorConfig.v
IndicatorProps.v
GhostDrive.v
DrivenTurn.v
DriveProps.v
Hud.v
HudCalls.v
SafeCalls.v
HudProps.v
InputTrack.v
InputTrackProps.v
Update.v
LocalTick.v
GameTick.v
UpdateProps.v
SystemProps.v
DrivenProps.v
LocalProps.v
GameProps.v
BridgeLineProps.v
CallProps.v
SpawnSetup.v
