(* ===== verification/Prelude.v ===== *)
(** * MeshGhost, the Pseudoregalia adapter

    MeshGhost shows the players of other copies of a game as ghosts.  Its C++ part is
    the adapter under src/adapters/pseudoregalia/MeshGhostPseudo/Mod/src/: a DLL that
    talks newline-delimited JSON to a local core over TCP, starts that core when none
    answers, draws the peers the core reports, and records the local player's input.
    This library models the adapter's own logic and proves what makes it correct.  What
    a peer sends is hostile input: most theorems quantify over every line of bytes.

    ** The parts and the files that model them

    - PeerJson.hpp.  [JsonString] (escaping, the string decoder, the whole-line field
      readers), [JsonScoped] (members of a named object, arrays), [JsonTop] (the
      readers of control words), [JsonBounds] (the clamps and [lerp_angle_deg]),
      [Collapse] ([collapse_latest_render_remote]).  [CScan] is the grammar of [sscanf],
      [strtod] and [strtoul]; [Float64] is exact binary64 arithmetic.
    - BridgeClient.hpp/.cpp.  [BridgeClient]: the record [client] and one definition per
      member function; [event], [step] and [runs] are the calls in sequence.
    - CoreLauncher.hpp/.cpp.  [CoreLauncher]: the config.json readers, the port, the
      child process.
    - Plugin.hpp.  [RemoteGhost]: one peer's entry and the plugin's state.
    - Plugin.cpp, what a peer's ghost is.  [Lifecycle] (spawn and release), [BridgeLine]
      ([handle_bridge_line] and its six messages), [AssetCatalog]
      ([resolve_peer_named_asset]), [VfxMirror] ([tick_remote_mirrored_vfx]),
      [PeerProps] (the thrown sword, the projectile, the empty-hand glow),
      [DistanceTier], [PoseMirror] (capsule, crouch, animation state, pulses),
      [MontageMirror] (the montage and the meshes worn), [GhostSweeps] (what a ghost owns,
      shown, hidden and dimmed), [Chaser] (the hurt reaction, the contact of a chaser),
      [Nametag] ([update_ghost_nametag]), [RemoteTick] (one whole turn of the loop over the
      remotes), [SpawnSetup] (what is done around SpawnActor and to the pawn it returns).
    - Plugin.cpp, what the local player is to the others.  [ObjectRegistry] (the registries
      of constructed objects), [LocalCapture] (deaths, hits, the chasers' resets, the
      freeze), [TrailCapture] (the sword, the shots, the afterimages), [VfxCapture] (the
      effects), [LocalState] (one frame of it, and the line that carries it), [NumberText]
      (numbers as the line prints them), [InputTrack] ([input_track_sample],
      [input_track_drain_and_send]).
    - Plugin.cpp, what keeps ghosts out of the player's own game.  [AfterimageOutline] (the
      guard on SetRenderCustomDepth and its sweep), [GhostGuards] (the pre-hooks on the
      listener, the shading parameter, the camera; the camera rigs; the light repair).
    - Plugin.cpp, the screen.  [InputDisplay] (the due edges of a replay, the panels' rows
      and text), [IndicatorConfig] (the settings polled from config.json and
      rec_indicator.txt), [Hud] (the recording indicator's and the panels' widgets).
    - Plugin.cpp, the ghost drive rig, a development tool in the shipped code: one replay
      ghost driven through its own input events instead of mirrored, for as long as
      ghost_drive.txt is there.  [GhostDrive] (the file, the selection, the
      timer, the recorded buttons and stick, the hook on the bound stick), [DrivenTurn] (the
      turn of the loop with the rig, [RemoteTick]'s when it is disarmed).
    - Plugin.cpp, the calls into the engine.  [Frames] (blocks of bytes, IEEE words),
      [Reflect] (what reflection reports, the steps of a helper), [EngineCalls],
      [StructCalls], [TextCalls], [HudCalls] (the helpers, and the asks of a turn and of the
      widgets as those calls), [ReflectCache] (the caches in front of reflection).
    - Plugin.cpp, the ticks.  [Update] ([on_update] on one thread, the drain of
      [game_thread_tick] on the other), [LocalTick] ([game_thread_tick] down to the drain),
      [GameTick] (the whole tick, the transitions of a level, the hooks).

    [GameTick.world] is the state of the program and [GameTick.event] what may happen to
    it: a move of [on_update], a poll of the settings, a tick, the end of a level, a hook.
    [GameTick.game_thread_tick] runs the gates, the freeze, the camera rigs, the capture of
    the local player ([LocalTick.capture_stage]), the drain of the lines
    ([Update.drain], [BridgeLine]), the outlines, the indicator and a turn for each remote
    ([RemoteTick.tick_remote]: the tiers, the name tag, the pose, the props, the sweeps, the
    effects, in the loop's order; [;>] is one block after another).  [on_update] is cut
    where the other thread may see the state between two of its writes ([Update.moves], its
    place is [Update.spot]): the write of player_frozen_sent after the hello is outside the
    lock.  A tick may fall between any two moves, and an interleaving is a list of events
    ([GameTick.runs]); [SystemProps.step] is the same seen by the plugin's state alone.  A hook is an event between ticks: one that fires inside a tick's own engine call
    is not interleaved there, except the outline sweep's own calls through its guard.

    ** Conventions

    A [std::string] is a list of bytes.  A [double] is exact ([Float64.double]): a
    finite value is a sign and a multiple of 2^-1074, so overflow, infinities and NaN
    are the hardware's.  Unsigned arithmetic is written with its [mod].  An engine
    object is a number, the null pointer [None].  The engine, the operating system and
    the clocks are arguments: one record per call holds what they answer
    ([connect_answer], [recv_answer], [spawn_env], [release_env], [engine], [level_view], [fx_env], [prop_env],
    [frame_env], [update_env], [local_view], [image_view], [tag_env], [widget_env], ...), and
    what the code asks of them is returned as a list of calls ([engine_call], [fx_call],
    [tier_call], [asset_call], [pose_call], [tag_call], [hud_call]); where a theorem is about
    what is then seen, the calls are folded into a screen ([NametagProps.screen],
    [HudProps.shown]).  The system's UTF-8 decoder, libm and the text of a [double] written
    in full are arguments as well; the last has its law ([LocalWire.DoubleFormat]).  A
    read of an engine object's property is a lookup in a [reflection]; each block of a turn
    has its own, since what an earlier block asked for may have changed the object.

    ** Loops and fuel

    A C++ loop is its body, a measure, and [Prelude.loop]; the fuel is the measure plus
    one and the [Decreasing] instance proves it enough, so [loop_unfold] and [loop_inv]
    reason about the loop with no fuel in sight.  [json_scans_terminate] states the
    bound for the scans of a peer's line.

    ** What the theorems show

    - The program, over every run of events: [runs_invariant] and [every_tick_draws_finite]
      (bounds of what is kept of a peer and of what is asked for it), [spawn_needs_play],
      [level_end_drops], [gates_hold]; [first_sample_baselines],
      [lost_bridge_releases], [despawn_disposes].
    - A spawn: [templates_restored] (the player class's defaults are given back, pawn or
      not, unless bare_ghost.txt is there), [spawned_ghost_cut_off] (what of the player's the
      pawn is parted from, setting by setting).
    - The local player: [frame_reaches_peer] (the line written is the sample another copy
      reads), [vfx_keys_looked_up], [registry_covers_find_all_of] (a
      registry has what the walk would find), [freeze_known] (the core knows the freeze, but
      after one race), [resets_answer_deaths].
    - The guards: [outlines_settled], [orphan_rigs_destroyed].
    - The screen: [nametag_settled], [hud_follows_recording], [panel_follows_setting] (over
      any life of the ghost or of the widgets, what is shown is what is meant, and nothing
      is left on the screen), [settings_bounded] (whatever the two files
      hold, each number is in its range, or a NaN where the file gives one).
    - The traffic: [queue_collapse_transparent], [hello_before_anything].
    - The client: [bridge_invariant], [poll_chunking] (framing does not depend on how the
      stream is cut), [ready_needs_bridge_ready], [tick_connect_sweeps],
      [reject_classification].
    - The readers: round trips with [json_escape] and with a strict UTF-8 decoder,
      termination, and the scoped readers against [JsonSpec]'s grammar of objects; the
      clamps and [lerp_angle_deg_shortest_arc].
    - A ghost's tick: [montage_start_wins], [attach_walk_own_tree],
      [disarm_restores_every_ghost], [contact_hurts_only_on_overlap], one-shots never
      replayed, the sword's glide, the hysteresis of the tiers, the asset catalog.
    - The drive rig: [disarmed_rig_transparent] (without its file the program is the one
      without it, so the invariants of [SystemProps], which leaves it out, hold of the code
      that has it), [hook_answers_driven] (armed, its hook answers for the
      pawn it drives and no other, over any run of [DrivenProps.rig_step]),
      [buttons_follow_mask], [attack_schedule].
    - The calls: [asks_keep_blocks] (no block is overrun, whatever a turn asks),
      [teleport_delivers], [touch_delivers] (what is asked is what the function reads),
      [guarded_helpers]; [caches_transparent] (the caches answer as the engine would,
      through any number of levels).
    - The panels: [due_edges_any_cadence], [history_rows_runs]; the input track:
      [input_queue_accounts].
    - What does not hold, as lemmas the findings name: [base_offset_unbounded],
      [fx_restore_first_only], [kill_strikes_every_tick], [landing_stops_started_montage],
      [respawn_leaks_handle], [reused_image_stays_off], [recycled_rig_destroyed],
      [hash_color_ignored], [plate_keeps_first_width], [half_collected_stays],
      [touch_stale_layout], [offset_past_the_block],
      [freeze_slips], [slip_lasts], [registry_between_seeds], [nan_size_redraws],
      [respawn_keeps_stick], [bare_keeps_templates_suppressed],
      [nan_unclamped], ...

    ** Not modelled

    - The properties read and written in place, outside a spawn: pointers into engine
      objects.  What UE4SS and the engine answer is an argument, [Reflected] the
      law on it: parameters inside their block and as wide as their kind.
    - The registration of the hooks and [on_unreal_init]; the bodies of the hooks are.
    - The traces, censuses and probes: development diagnostics.
    - Log output, and the state that exists only for it.
    - [ensure_ghost_hijacked] and the other branches compiled out by constants; the
      constants kept are the source's values.
    - dllmain.cpp, and peer_json_fuzz.cpp, the test of PeerJson.hpp.

    This file is the shared prelude: bytes, loops, record update, lemmas and tactics. *)

From Stdlib Require Export Ascii String.
From stdpp Require Export base list gmap strings option pretty.
From stdpp Require Export numbers.
From Stdlib Require Export Lia ZifyBool.

#[export] Set Default Goal Selector "!".

(** * Bytes *)

(** A [std::string] is a list of bytes.  [ascii] is the eight-bit byte. *)
Abbreviation bytes := (list ascii).

Declare Scope bytes_scope.
Delimit Scope bytes_scope with bytes.

(** A byte string literal. *)
Definition str (s : string) : bytes := list_ascii_of_string s.

Definition cQuote : ascii := ascii_of_nat 34.
Definition cBackslash : ascii := ascii_of_nat 92.
Definition cNul : ascii := ascii_of_nat 0.
Definition cTab : ascii := ascii_of_nat 9.
Definition cLF : ascii := ascii_of_nat 10.
Definition cCR : ascii := ascii_of_nat 13.

(** A literal written with apostrophes where the bytes hold double quotes; JSON
    samples read better this way. *)
Definition js (s : string) : bytes :=
  map (fun c => if Ascii.eqb c "'" then cQuote else c) (str s).

Notation "a =? b" := (Ascii.eqb a b) (at level 70) : bytes_scope.

(** [c >= lo && c <= hi] on the byte values (both bounds are below 128, so the
    signedness of [char] does not matter). *)
Definition in_range (lo hi c : ascii) : bool :=
  (N_of_ascii lo <=? N_of_ascii c)%N && (N_of_ascii c <=? N_of_ascii hi)%N.

Definition is_digit (c : ascii) : bool := in_range "0" "9" c.

(** [s[i]] for an index the code has already compared with a bound at most
    [s.size()]; [std::string] holds a NUL at [size()]. *)
Definition char_at (s : bytes) (i : nat) : ascii := default cNul (s !! i).

#[global] Arguments char_at : simpl never.

(** [s.substr(pos, len)]. *)
Definition substr (s : bytes) (pos len : nat) : bytes := take len (drop pos s).

(** [s.compare(pos, len, t) == 0]. *)
Definition compare_eq (s : bytes) (pos len : nat) (t : bytes) : bool :=
  bool_decide (substr s pos len = t).

(** [s] starts with [p]. *)
Fixpoint starts_with (p s : bytes) : bool :=
  match p, s with
  | [], _ => true
  | a :: p', b :: s' => Ascii.eqb a b && starts_with p' s'
  | _ :: _, [] => false
  end.

(** [s.find(needle)], relative to the start of [s]; [None] is [npos]. *)
Fixpoint find_str (needle s : bytes) : option nat :=
  if starts_with needle s then Some 0
  else match s with
       | [] => None
       | _ :: s' => S <$> find_str needle s'
       end.

(** [s.find(needle, pos)]. *)
Definition find_from (s needle : bytes) (pos : nat) : option nat :=
  if pos <=? length s then (fun i => pos + i) <$> find_str needle (drop pos s)
  else None.

(** [s.find(c, pos)]. *)
Definition find_char (s : bytes) (c : ascii) (pos : nat) : option nat := find_from s [c] pos.

(** [s.rfind(c)]. *)
Fixpoint rfind_char (s : bytes) (c : ascii) : option nat :=
  match s with
  | [] => None
  | a :: s' => match rfind_char s' c with
               | Some i => Some (S i)
               | None => if Ascii.eqb a c then Some 0 else None
               end
  end.

(** Unsigned 64-bit arithmetic wraps. *)
Definition u64 (z : Z) : Z := (z mod 2 ^ 64)%Z.

(** * Loops

    A C++ loop is modelled by its body, a function from the loop state to the next
    state or to the value the loop leaves with, and a measure.  The measure gives
    the fuel; [Decreasing] is the proof that it is enough, and [loop_unfold] is the
    equation of the loop, with no fuel in it. *)

Section Loop.
Context {St R : Type}.

Fixpoint iterate (fuel : nat) (body : St -> St + R) (s : St) : option R :=
  match fuel with
  | 0 => None
  | S n => match body s with
           | inl s' => iterate n body s'
           | inr r => Some r
           end
  end.

Definition loop (m : St -> nat) (body : St -> St + R) (dflt : R) (s : St) : R :=
  default dflt (iterate (S (m s)) body s).
End Loop.

(** Every iteration that continues lowers the measure. *)
Class Decreasing {St R} (m : St -> nat) (body : St -> St + R) : Prop :=
  decreasing : forall s s', body s = inl s' -> m s' < m s.

(** * Steps in sequence

    A step updates a state and returns the calls it makes. *)

Section Steps.
Context {St C : Type}.
Implicit Types a b : St -> St * list C.

(** The calls of [a], then those of [b] from the state [a] leaves. *)
Definition and_then a b : St -> St * list C :=
  fun s => let (s1, c1) := a s in let (s2, c2) := b s1 in (s2, c1 ++ c2).

(** A step that only makes calls. *)
Definition emit (f : St -> list C) : St -> St * list C := fun s => (s, f s).

(** A step over another kind of call. *)
Definition calling {D} (f : D -> C) (b : St -> St * list D) : St -> St * list C :=
  fun s => let (s', cs) := b s in (s', map f cs).
End Steps.
Notation "a ;> b" := (and_then a b) (at level 61, left associativity).

(** * Record update *)

(** [r <| f := v |>] sets field [f].  [Eta] holds the eta expansion of a record
    type, from which [solve_setter] computes the setter of any field. *)
Class Eta (R : Type) := eta : R -> R.
Class Setter {R T : Type} (f : R -> T) := set_field : T -> R -> R.

(** The eta expansion of [R], abstracted over the projection [f]: the setter. *)
Ltac solve_setter f :=
  match type of f with
  | ?R -> ?T =>
      let i := constr:(_ : Eta R) in
      let h := match i with ?h => h end in
      let e := eval cbv beta delta [h eta] in (@eta R i) in
      match eval pattern f in e with
      | ?g _ =>
          let s := eval cbv beta in (fun (v : T) (r : R) => g (fun _ => v) r) in
          exact s
      end
  end.

#[export] Hint Extern 1 (Setter ?f) => solve_setter f : typeclass_instances.

Declare Scope record_scope.
Delimit Scope record_scope with record.
Notation "r <| f := v |>" := (set_field (f := f) v r)
  (at level 12, f constr at level 11, v at level 200, left associativity,
   format "r  <| f  :=  v |>") : record_scope.
#[global] Open Scope record_scope.

(** * Lemmas on loops *)

Section LoopLemmas.
Context {St R : Type} (m : St -> nat) (body : St -> St + R) `{!Decreasing m body}.
Implicit Types (s : St) (d : R).

(** The fuel of [loop] is enough, and more fuel changes nothing. *)
Lemma iterate_terminates n d s :
  m s < n -> iterate n body s = Some (loop m body d s).
Proof.
  unfold loop. revert s.
  assert (forall n s, m s < n -> is_Some (iterate n body s)) as Hsome.
  { intros k. induction k as [|k IH]; [lia|]. intros s Hs; simpl.
    destruct (body s) as [s'|r] eqn:E; [|eauto].
    apply IH. pose proof (decreasing s s' E). lia. }
  assert (forall n k s r, iterate n body s = Some r -> n <= k -> iterate k body s = Some r)
    as Hmono.
  { intros a. induction a as [|a IH]; intros b s r; [done|].
    destruct b as [|b]; [lia|]. simpl. destruct (body s); [|done].
    intros; eapply IH; [done|lia]. }
  intros s Hs. destruct (Hsome (S (m s)) s ltac:(lia)) as [r Hr].
  rewrite Hr. simpl. eapply Hmono; [done|lia].
Qed.

Lemma loop_unfold d s :
  loop m body d s = match body s with
                    | inl s' => loop m body d s'
                    | inr r => r
                    end.
Proof.
  unfold loop at 1. simpl. destruct (body s) as [s'|r] eqn:E; [|done].
  pose proof (decreasing s s' E).
  by rewrite (iterate_terminates (m s) d s') by lia.
Qed.

(** The rule of invariants: [I] holds at every iteration, [Q] of the result. *)
Lemma loop_inv (I : St -> Prop) (Q : R -> Prop) d :
  (forall s s', I s -> body s = inl s' -> I s') ->
  (forall s r, I s -> body s = inr r -> Q r) ->
  forall s, I s -> Q (loop m body d s).
Proof.
  intros HI HQ s. remember (m s) as k eqn:Hk. revert s Hk.
  induction k as [k IH] using lt_wf_ind. intros s -> Hs.
  rewrite loop_unfold. destruct (body s) as [s'|r] eqn:E; [|eauto].
  pose proof (decreasing s s' E). eauto.
Qed.

(** Rule of invariants with the result compared to a specification: if the body
    preserves [spec], the loop computes it. *)
Lemma loop_spec (I : St -> Prop) (spec : St -> R) d :
  (forall s s', I s -> body s = inl s' -> I s' /\ spec s' = spec s) ->
  (forall s r, I s -> body s = inr r -> r = spec s) ->
  forall s, I s -> loop m body d s = spec s.
Proof.
  intros HI HQ s Hs.
  apply (loop_inv (fun s' => I s' /\ spec s' = spec s) (fun r => r = spec s)); [| |done].
  - intros s1 s2 [H1 H2] E. destruct (HI _ _ H1 E). split; congruence.
  - intros s1 r [H1 H2] E. rewrite (HQ _ _ H1 E). done.
Qed.
End LoopLemmas.

(** Two loops in step: related states go to related states or leave with related
    results. *)
Lemma loop_sim {S1 S2 R1 R2} (m1 : S1 -> nat) (b1 : S1 -> S1 + R1) (d1 : R1)
    (m2 : S2 -> nat) (b2 : S2 -> S2 + R2) (d2 : R2)
    `{!Decreasing m1 b1} `{!Decreasing m2 b2} (Rel : S1 -> S2 -> Prop) (P : R1 -> R2 -> Prop) :
  (forall s1 s2, Rel s1 s2 ->
     match b1 s1, b2 s2 with
     | inl s1', inl s2' => Rel s1' s2'
     | inr r1, inr r2 => P r1 r2
     | _, _ => False
     end) ->
  forall s1 s2, Rel s1 s2 -> P (loop m1 b1 d1 s1) (loop m2 b2 d2 s2).
Proof.
  intros H s1. remember (m1 s1) as k eqn:Hk. revert s1 Hk.
  induction k as [k IH] using lt_wf_ind. intros s1 -> s2 Hr.
  rewrite (loop_unfold m1 b1), (loop_unfold m2 b2). specialize (H s1 s2 Hr).
  destruct (b1 s1) as [s1'|r1] eqn:E1, (b2 s2) as [s2'|r2]; try done.
  pose proof (decreasing s1 s1' E1). eauto.
Qed.

(** * Lemmas on steps *)

Section StepLemmas.
Context {St C : Type}.
Implicit Types a b : St -> St * list C.

Lemma and_then_fst a b s : ((a ;> b) s).1 = (b (a s).1).1.
Proof. unfold and_then. destruct (a s) as [s1 c1]. cbn. by destruct (b s1). Qed.
Lemma and_then_snd a b s : ((a ;> b) s).2 = (a s).2 ++ (b (a s).1).2.
Proof. unfold and_then. destruct (a s) as [s1 c1]. cbn. by destruct (b s1). Qed.
Lemma calling_fst {D} (f : D -> C) (b : St -> St * list D) s : (calling f b s).1 = (b s).1.
Proof. unfold calling. by destruct (b s). Qed.
Lemma calling_snd {D} (f : D -> C) (b : St -> St * list D) s : (calling f b s).2 = map f (b s).2.
Proof. unfold calling. by destruct (b s). Qed.

(** What holds of each step holds of the sequence. *)
Lemma and_then_rel (R : relation St) `{!Transitive R} a b :
  (forall s, R s (a s).1) -> (forall s, R s (b s).1) -> forall s, R s ((a ;> b) s).1.
Proof. intros Ha Hb s. rewrite and_then_fst. exact (transitivity (Ha s) (Hb _)). Qed.

(** The calls of a sequence, under an invariant of the state. *)
Lemma and_then_calls (I : St -> Prop) (P : C -> Prop) a b :
  (forall s, I s -> I (a s).1) -> (forall s, I s -> Forall P (a s).2) -> (forall s, I s -> Forall P (b s).2) ->
  forall s, I s -> Forall P ((a ;> b) s).2.
Proof. intros H Ha Hb s Hs. rewrite and_then_snd. apply Forall_app. auto. Qed.
End StepLemmas.

(** * Lemmas on bytes *)

Lemma ascii_eqb_refl c : Ascii.eqb c c = true.
Proof. by apply Ascii.eqb_eq. Qed.

Lemma ascii_eqb_false a b : a <> b -> Ascii.eqb a b = false.
Proof. by intros ?%Ascii.eqb_neq. Qed.

(** Decides the byte comparisons of a goal, splitting on the ones it cannot. *)
Ltac byte_case :=
  match goal with
  | H : context [Ascii.eqb ?a ?b] |- _ =>
      destruct (Ascii.eqb_spec a b); simplify_eq
  | |- context [Ascii.eqb ?a ?b] =>
      destruct (Ascii.eqb_spec a b); simplify_eq
  end.

(** Decides a comparison of positions in the goal or a hypothesis, dropping the
    cases [lia] refutes. *)
Ltac nat_case :=
  match goal with
  | |- context [Nat.ltb ?a ?b] => destruct (Nat.ltb_spec a b); try lia
  | |- context [Nat.leb ?a ?b] => destruct (Nat.leb_spec a b); try lia
  | H : context [Nat.ltb ?a ?b] |- _ => destruct (Nat.ltb_spec a b); try lia
  | H : context [Nat.leb ?a ?b] |- _ => destruct (Nat.leb_spec a b); try lia
  end.

(** Splits on a discriminee that holds no match itself, in the goal or in [H]. *)
Ltac split_match :=
  match goal with
  | |- context [match ?x with _ => _ end] =>
      lazymatch x with
      | context [match _ with _ => _ end] => fail
      | _ => destruct x eqn:?
      end
  end.
Ltac split_match_in H :=
  match type of H with
  | context [match ?x with _ => _ end] =>
      lazymatch x with
      | context [match _ with _ => _ end] => fail
      | _ => destruct x eqn:?
      end
  end.

Lemma starts_with_spec p s : starts_with p s = true <-> exists t, s = p ++ t.
Proof.
  revert s; induction p as [|a p IH]; intros s; simpl; [by split; eauto|].
  destruct s as [|b s]; simpl.
  - split; [done|]. by intros [t ?].
  - rewrite andb_true_iff, Ascii.eqb_eq, IH. split.
    + intros [-> [t ->]]. eauto.
    + intros [t ?]; simplify_eq; eauto.
Qed.

Lemma starts_with_app p t : starts_with p (p ++ t) = true.
Proof. apply starts_with_spec; eauto. Qed.

Lemma find_str_Some needle s i :
  find_str needle s = Some i ->
  i + length needle <= length s /\ starts_with needle (drop i s) = true.
Proof.
  revert i; induction s as [|a s IH]; intros i; simpl.
  - destruct (starts_with needle []) eqn:E; [|done].
    intros ?; simplify_eq/=. apply starts_with_spec in E as [t E].
    symmetry in E; apply app_eq_nil in E as [-> ->]. split; [simpl; lia|done].
  - destruct (starts_with needle (a :: s)) eqn:E.
    + intros ?; simplify_eq/=. split; [|done].
      apply starts_with_spec in E as [t E]. apply (f_equal length) in E.
      rewrite length_app in E. simpl in E. lia.
    + destruct (find_str needle s) as [j|]; [|done]. intros ?; simplify_eq/=.
      destruct (IH j eq_refl). split; [lia|done].
Qed.

(** The first occurrence: nothing before it starts with the needle. *)
Lemma find_str_app needle p t :
  (forall i, i < length p -> starts_with needle (drop i (p ++ needle ++ t)) = false) ->
  find_str needle (p ++ needle ++ t) = Some (length p).
Proof.
  induction p as [|a p IH]; intros Hp; simpl.
  - destruct needle as [|c needle], t as [|d t]; simpl; try done;
      rewrite ?ascii_eqb_refl, ?starts_with_app; done.
  - specialize (Hp 0 ltac:(simpl; lia)) as H0. simpl in H0. simpl in H0 |- *. rewrite H0.
    rewrite IH; [done|]. intros i Hi. apply (Hp (S i)). simpl; lia.
Qed.

(** A byte that does not occur is at no position. *)
Lemma find_str_none c p i x u : find_str [c] p = None -> drop i p = x :: u -> Ascii.eqb c x = false.
Proof.
  revert i; induction p as [|a p IH]; intros i; simpl; [by rewrite drop_nil|].
  destruct (Ascii.eqb c a) eqn:E; simpl; [done|].
  destruct (find_str [c] p); [done|]. intros _ H.
  destruct i as [|i]; simpl in H; [by simplify_eq|]. by apply (IH i).
Qed.

Lemma find_from_bounds s needle pos i :
  find_from s needle pos = Some i -> pos <= i /\ i + length needle <= length s.
Proof.
  unfold find_from. nat_case; [|done].
  destruct (find_str needle (drop pos s)) as [j|] eqn:E; [|done].
  intros ?; simplify_eq/=. apply find_str_Some in E as [E _].
  rewrite length_drop in E. lia.
Qed.

Lemma char_at_app_l s t i : i < length s -> char_at (s ++ t) i = char_at s i.
Proof. intros. unfold char_at. by rewrite lookup_app_l. Qed.

Lemma char_at_app_r s t i : char_at (s ++ t) (length s + i) = char_at t i.
Proof.
  unfold char_at. rewrite lookup_app_r by lia. do 2 f_equal. lia.
Qed.

Lemma char_at_0 c t : char_at (c :: t) 0 = c.
Proof. done. Qed.

Lemma char_at_S c t i : char_at (c :: t) (S i) = char_at t i.
Proof. done. Qed.

Lemma char_at_mid s c t : char_at (s ++ c :: t) (length s) = c.
Proof. unfold char_at. by rewrite list_lookup_middle. Qed.

Lemma char_at_ge s i : length s <= i -> char_at s i = cNul.
Proof. intros. unfold char_at. by rewrite lookup_ge_None_2. Qed.

Lemma compare_eq_true s pos len t :
  compare_eq s pos len t = true <-> substr s pos len = t.
Proof. apply bool_decide_eq_true. Qed.

Lemma length_substr s pos len : length (substr s pos len) = len `min` (length s - pos).
Proof. unfold substr. by rewrite length_take, length_drop. Qed.

Lemma substr_mid p u t : substr (p ++ u ++ t) (length p) (length u) = u.
Proof. unfold substr. by rewrite drop_app_length, take_app_length. Qed.

Lemma length_snoc_S {A} (p : list A) c : S (length p) = length (p ++ [c]).
Proof. rewrite length_app; simpl; lia. Qed.

Lemma starts_with_ends w v c t :
  ~ (c ∈ w) -> starts_with w (v ++ c :: t) = starts_with w v.
Proof.
  revert v; induction w as [|x w IH]; intros v Hc; [done|].
  destruct v as [|y v]; cbn [starts_with app].
  - rewrite ascii_eqb_false; [done|]. intros ->. apply Hc. left.
  - rewrite IH; [done|]. intros ?. apply Hc. by right.
Qed.

Lemma compare_starts line q u w :
  line = q ++ u -> compare_eq line (length q) (length w) w = starts_with w u.
Proof.
  intros ->. apply eq_true_iff_eq. rewrite compare_eq_true, starts_with_spec.
  unfold substr. rewrite drop_app_length. split.
  - intros E. exists (drop (length w) u). by rewrite <- E at 1; rewrite take_drop.
  - intros [t ->]. apply take_app_length.
Qed.

(** * Hints *)

Create HintDb bytes.
Create Rewrite HintDb lengths.
#[export] Hint Rewrite @length_app @length_take @length_drop length_substr @length_map
  @length_replicate @length_cons @length_nil : lengths.
#[export] Hint Resolve starts_with_app substr_mid char_at_mid : bytes.

(** Concatenations, re-associated to the right. *)
Create Rewrite HintDb apps.
#[export] Hint Rewrite @app_nil_l @app_nil_r : apps.
#[export] Hint Rewrite <- @app_assoc @app_comm_cons : apps.
Ltac apps := autorewrite with apps; done.

(** Lengths and positions in lists of bytes, closed by [lia]. *)
Ltac len := autorewrite with lengths in *; lia.

(** A value found, with something known of it; computing the image is cheaper than
    computing the value. *)
Lemma option_map_some {A B} (f : A -> B) (o : option A) (b : B) :
  option_map f o = Some b -> exists a, o = Some a /\ f a = b.
Proof. destruct o as [a|]; [|done]. intros [= <-]. by exists a. Qed.

(** [found f in o is b as p]: evaluates the image of [o] and opens the value it has. *)
Tactic Notation "found" uconstr(f) "in" uconstr(o) "is" uconstr(b) "as" simple_intropattern(p) :=
  let H := fresh "Hfound" in
  assert (option_map f o = Some b) as H by (vm_compute; reflexivity);
  apply option_map_some in H; destruct H as p.
