(* ===== verification/Float64.v ===== *)
(** IEEE 754 binary64 (and the binary32 values, a subset) as exact integers.

    Every finite [double] is an integer multiple of 2^-1074, the smallest positive
    one, so a finite value is a sign and that integer.  Comparison, [fmod], [round]
    and truncation are then integer arithmetic, and the only rounding is
    [round_mag]: the nearest representable multiple, ties to even.  NaN payloads
    and the exception flags are not modelled; the program reads neither. *)
From S2P Require Import Prelude.
From Stdlib Require Import NArith ZArith.

Declare Scope double_scope.
Delimit Scope double_scope with double.

Inductive double : Set :=
  | DNaN
  | DInf (neg : bool)
  | DFin (neg : bool) (mag : N).   (* (-1)^neg * mag * 2^-1074 *)

#[export] Instance double_eq_dec : EqDecision double.
Proof. solve_decision. Defined.

(** 1.0 in units of 2^-1074. *)
Definition scale : N := N.shiftl 1 1074.
#[global] Arguments scale : simpl never.

(** * Rounding *)

Section Rounding.
(** Digits of precision less one, and the exponent of the smallest unit: 52 and 0
    for binary64, 23 and 925 for binary32 (in units of 2^-1074). *)
Variables (prec1 min_unit : N).

(** The spacing of the format at magnitude [q] is [2^quantum_log q]. *)
Definition quantum_log (q : N) : N := N.max min_unit (N.log2 q - prec1).

(** [num / (den * 2^sh)] rounded to the nearest multiple of the spacing, ties to
    even. *)
Definition round_mag (num den sh : N) : N :=
  let (q, r) := N.div_eucl num den in
  let j := quantum_log (N.shiftr q sh) in
  let k := (sh + j)%N in
  let lo := N.shiftr q k in
  let rest := ((q - N.shiftl lo k) * den + r)%N in
  N.shiftl (match (2 * rest ?= N.shiftl den k)%N with
            | Lt => lo
            | Gt => lo + 1
            | Eq => if N.even lo then lo else lo + 1
            end)%N j.

Definition representable (k : N) : bool :=
  (N.shiftl (N.shiftr k (quantum_log k)) (quantum_log k) =? k)%N.
End Rounding.

Definition prec64 : N := 52.
(** Magnitudes from 2^1024 on do not exist: rounding to one gives infinity. *)
Definition limit64 : N := N.shiftl 1 2098.
#[global] Arguments limit64 : simpl never.

(** The double nearest to [num / (den * 2^sh)] units. *)
Definition of_ratio (neg : bool) (num den sh : N) : double :=
  let k := round_mag prec64 0 num den sh in
  if (k <? limit64)%N then DFin neg k else DInf neg.

(** The value of a finite double, signed, in units of 2^-1074. *)
Definition signed (neg : bool) (mag : N) : Z := if neg then - Z.of_N mag else Z.of_N mag.

(** A signed number of units; an exact zero takes the sign [zneg]. *)
Definition of_signed (zneg : bool) (v : Z) : double :=
  if (v =? 0)%Z then DFin zneg 0 else of_ratio (v <? 0)%Z (Z.to_N (Z.abs v)) 1 0.

(** Conversion from an integer, and the nearest double to a decimal literal. *)
Definition of_Z (z : Z) : double := of_ratio (z <? 0)%Z (N.shiftl (Z.to_N (Z.abs z)) 1074) 1 0.
Definition lit (num den : N) : double := of_ratio false (N.shiftl num 1074) den 0.
Definition dzero : double := DFin false 0.

(** * Classification and comparison *)

Definition isnan (x : double) : bool := match x with DNaN => true | _ => false end.
Definition isfinite (x : double) : bool := match x with DFin _ _ => true | _ => false end.

(** [None] is unordered. *)
Definition dcmp (a b : double) : option comparison :=
  match a, b with
  | DNaN, _ | _, DNaN => None
  | DInf true, DInf true | DInf false, DInf false => Some Eq
  | DInf true, _ | _, DInf false => Some Lt
  | DInf false, _ | _, DInf true => Some Gt
  | DFin na ma, DFin nb mb => Some (signed na ma ?= signed nb mb)%Z
  end.

Definition dlt (a b : double) : bool := match dcmp a b with Some Lt => true | _ => false end.
Definition dle (a b : double) : bool :=
  match dcmp a b with Some Lt | Some Eq => true | _ => false end.
Definition deq (a b : double) : bool := match dcmp a b with Some Eq => true | _ => false end.
(** [a != b] in C++ is [!(a == b)]: true when unordered. *)
Definition dne (a b : double) : bool := negb (deq a b).
Notation "a <? b" := (dlt a b) : double_scope.
Notation "a <=? b" := (dle a b) : double_scope.
Notation "a >? b" := (dlt b a) (at level 70) : double_scope.
Notation "a >=? b" := (dle b a) (at level 70) : double_scope.

(** * Arithmetic *)

Definition dneg (a : double) : double :=
  match a with
  | DNaN => DNaN
  | DInf n => DInf (negb n)
  | DFin n m => DFin (negb n) m
  end.

Definition dadd (a b : double) : double :=
  match a, b with
  | DNaN, _ | _, DNaN => DNaN
  | DInf n, DInf n' => if Bool.eqb n n' then DInf n else DNaN
  | DInf n, DFin _ _ | DFin _ _, DInf n => DInf n
  | DFin n m, DFin n' m' => of_signed (n && n') (signed n m + signed n' m')
  end.

Definition dsub (a b : double) : double := dadd a (dneg b).

Definition dmul (a b : double) : double :=
  match a, b with
  | DNaN, _ | _, DNaN => DNaN
  | DInf n, DInf n' => DInf (xorb n n')
  | DInf n, DFin n' m | DFin n m, DInf n' =>
      if (m =? 0)%N then DNaN else DInf (xorb n n')
  | DFin n m, DFin n' m' => of_ratio (xorb n n') (m * m') 1 1074
  end.

Definition ddiv (a b : double) : double :=
  match a, b with
  | DNaN, _ | _, DNaN | DInf _, DInf _ => DNaN
  | DInf n, DFin n' _ => DInf (xorb n n')
  | DFin n _, DInf n' => DFin (xorb n n') 0
  | DFin n m, DFin n' m' =>
      if (m' =? 0)%N then (if (m =? 0)%N then DNaN else DInf (xorb n n'))
      else of_ratio (xorb n n') (N.shiftl m 1074) m' 0
  end.

(** [std::fmod]: exact, with the sign of the dividend. *)
Definition dfmod (a b : double) : double :=
  match a, b with
  | DNaN, _ | _, DNaN | DInf _, _ => DNaN
  | DFin n m, DInf _ => DFin n m
  | DFin n m, DFin _ m' => if (m' =? 0)%N then DNaN else DFin n (m mod m')
  end.

(** [std::round]: to the nearest integer, halves away from zero. *)
Definition dround (a : double) : double :=
  match a with
  | DFin n m => DFin n (N.shiftl (N.shiftr (m + N.shiftl 1 1073) 1074) 1074)
  | _ => a
  end.

(** The integer a conversion to an integer type takes from a finite value
    (truncation toward zero).  The conversion is undefined when the integer does
    not fit the type; each use in the program is preceded by a range test. *)
Definition dtrunc (a : double) : option Z :=
  match a with
  | DFin n m => Some (signed n (N.shiftr m 1074))
  | _ => None
  end.

Infix "+" := dadd : double_scope.
Infix "-" := dsub : double_scope.
Infix "*" := dmul : double_scope.
Infix "/" := ddiv : double_scope.

(** * binary32 *)

(** [static_cast<float>(double)] on a value in the range of [float]: the nearest
    binary32, kept as the double it equals.  Units below 2^-149 (2^925 units of
    2^-1074) do not exist; 2^128 and above is infinity. *)
Definition to_float (a : double) : double :=
  match a with
  | DFin n m =>
      let k := round_mag 23 925 m 1 0 in
      if (k <? N.shiftl 1 1202)%N then DFin n k else DInf n
  | _ => a
  end.

(** A [double] the hardware can hold. *)
Definition wf_double (a : double) : bool :=
  match a with
  | DFin _ m => representable prec64 0 m && (m <? limit64)%N
  | _ => true
  end.

(** * Lemmas on rounding *)

Lemma pow2_pos (k : N) : (0 < 2 ^ k)%N.
Proof. apply N.neq_0_lt_0, N.pow_nonzero. done. Qed.
#[export] Hint Resolve pow2_pos : core.

Section RoundingLemmas.
Variables (p m : N).
Local Abbreviation qlog := (quantum_log p m).

(** [round_mag] with its shifts written as the divisions they are. *)
Lemma round_mag_eq (num den sh : N) :
  (0 < den)%N ->
  let j := qlog (num / (den * 2 ^ sh)) in
  let d := (den * 2 ^ (sh + j))%N in
  round_mag p m num den sh =
  ((match (2 * (num mod d) ?= d)%N with
    | Lt => num / d
    | Gt => num / d + 1
    | Eq => if N.even (num / d) then num / d else num / d + 1
    end) * 2 ^ j)%N.
Proof.
  intros Hden. unfold round_mag.
  pose proof (N.div_eucl_spec num den) as Hs.
  assert (num mod den < den)%N as Hr by (apply N.mod_lt; lia).
  unfold N.modulo in Hr. assert (num / den = fst (N.div_eucl num den))%N as Hq by done.
  destruct (N.div_eucl num den) as [q r]. simpl in Hr, Hq. rewrite <- Hq in *. clear Hq.
  rewrite !N.shiftl_mul_pow2, !N.shiftr_div_pow2. simpl.
  cbv zeta. rewrite <- !N.Div0.div_div.
  set (j := qlog (num / den / 2 ^ sh)). set (k := (sh + j)%N).
  assert ((num / den - num / den / 2 ^ k * 2 ^ k) * den + r = num mod (den * 2 ^ k))%N as ->;
    [|done].
  pose proof (N.Div0.div_mod (num / den) (2 ^ k)).
  assert ((num / den) mod 2 ^ k < 2 ^ k)%N by (by apply N.mod_lt, N.pow_nonzero).
  set (u := (2 ^ k)%N) in *. set (v := (num / den)%N) in *.
  set (lo := (v / u)%N) in *. set (t := (v mod u)%N) in *.
  assert (v - lo * u = t)%N as -> by lia.
  apply (N.mod_unique _ _ lo); [|nia].
  assert ((t + 1) * den <= u * den)%N by (apply N.mul_le_mono_r; lia). lia.
Qed.

Lemma quantum_log_mono a b : (a <= b)%N -> (qlog a <= qlog b)%N.
Proof. intros H%N.log2_le_mono. unfold quantum_log. lia. Qed.

Lemma representable_iff k :
  representable p m k = true <-> exists c, k = (c * 2 ^ qlog k)%N.
Proof.
  unfold representable. rewrite N.eqb_eq, N.shiftl_mul_pow2, N.shiftr_div_pow2.
  split; [intros E; by eexists|]. intros [c E].
  revert E. generalize (qlog k) as j. intros j E.
  rewrite E, N.div_mul; [done|]. by apply N.pow_nonzero.
Qed.

(** Two representable numbers: the spacing of the smaller divides the larger. *)
Lemma representable_ge a k :
  representable p m k = true -> (a <= k)%N -> exists c, k = (c * 2 ^ qlog a)%N.
Proof.
  intros [c E]%representable_iff Ha%quantum_log_mono. rewrite E.
  exists (c * 2 ^ (qlog k - qlog a))%N.
  rewrite <- N.mul_assoc, <- N.pow_add_r. do 2 f_equal. lia.
Qed.

(** Rounding never passes a representable number, from below or from above. *)
Lemma round_mag_le num den sh k :
  (0 < den)%N -> representable p m k = true ->
  (num <= k * (den * 2 ^ sh))%N -> (round_mag p m num den sh <= k)%N.
Proof.
  intros Hden Hk Hle. rewrite round_mag_eq by done. cbv zeta.
  set (q := (num / (den * 2 ^ sh))%N).
  assert (0 < den * 2 ^ sh)%N as HD by (pose proof (pow2_pos sh); nia).
  assert (q <= k)%N as Hq by (apply N.Div0.div_le_upper_bound; lia).
  destruct (representable_ge q k Hk Hq) as [c ->]. set (j := qlog q) in *.
  apply N.mul_le_mono_r.
  rewrite N.pow_add_r, N.mul_assoc. set (D := (den * 2 ^ sh)%N) in *.
  set (U := (2 ^ j)%N) in *. assert (0 < U)%N by apply pow2_pos.
  pose proof (N.Div0.div_mod num (D * U)) as Hdm.
  assert (num mod (D * U) < D * U)%N as Hr by (apply N.mod_lt; nia).
  set (lo := (num / (D * U))%N) in *. set (r := (num mod (D * U))%N) in *.
  assert (lo <= c)%N as Hlo by (apply N.Div0.div_le_upper_bound; nia).
  destruct (N.eq_dec lo c) as [->|Hne].
  - assert (r = 0)%N as -> by nia.
    destruct (N.compare_spec (2 * 0) (D * U)); nia.
  - destruct (2 * r ?= D * U)%N; try destruct (N.even lo); lia.
Qed.

Lemma round_mag_ge num den sh k :
  (0 < den)%N -> representable p m k = true ->
  (k * (den * 2 ^ sh) <= num)%N -> (k <= round_mag p m num den sh)%N.
Proof.
  intros Hden Hk Hle. rewrite round_mag_eq by done. cbv zeta.
  set (q := (num / (den * 2 ^ sh))%N).
  assert (0 < den * 2 ^ sh)%N as HD by (pose proof (pow2_pos sh); nia).
  assert (k <= q)%N as Hq.
  { apply N.div_le_lower_bound; [lia|]. by rewrite N.mul_comm. }
  assert (num / (den * 2 ^ (sh + qlog q)) = q / 2 ^ qlog q)%N as ->.
  { unfold q. rewrite N.pow_add_r, N.mul_assoc. by rewrite N.Div0.div_div. }
  set (j := qlog q). set (U := (2 ^ j)%N).
  assert (0 < U)%N by apply pow2_pos.
  trans ((q / U) * U)%N.
  2:{ apply N.mul_le_mono_r. destruct (_ ?= _)%N; try destruct (N.even _); lia. }
  destruct (decide (qlog k = j)) as [Ej|Hj].
  - apply representable_iff in Hk as [c E]. rewrite Ej in E. fold U in E.
    rewrite E in Hq |- *. apply N.mul_le_mono_r, N.div_le_lower_bound; lia.
  - pose proof (quantum_log_mono _ _ Hq) as Hm. fold j in Hm.
    unfold quantum_log in Hj, Hm. fold j in Hj.
    assert (N.log2 q = p + j)%N as Hlog by (unfold j, quantum_log in *; lia).
    assert (N.log2 k < p + j)%N as Hlk by (unfold j, quantum_log in *; lia).
    assert (k < 2 ^ (p + j))%N as Hk2.
    { destruct (N.eq_dec k 0) as [->|]; [apply pow2_pos|].
      apply N.log2_lt_pow2; lia. }
    assert (2 ^ p <= q / U)%N as Hp.
    { apply N.div_le_lower_bound; [lia|]. unfold U.
      rewrite <- N.pow_add_r, N.add_comm, <- Hlog.
      apply N.log2_spec. destruct (N.eq_dec q 0) as [E0|]; [|lia].
      rewrite E0 in *. simpl in Hlog. unfold j, quantum_log in *. simpl in *. lia. }
    rewrite N.pow_add_r in Hk2. fold U in Hk2. nia.
Qed.

Lemma round_mag_exact k den sh :
  (0 < den)%N -> representable p m k = true ->
  round_mag p m (k * (den * 2 ^ sh)) den sh = k.
Proof.
  intros. apply N.le_antisymm; [apply round_mag_le|apply round_mag_ge]; done || lia.
Qed.

(** What rounding returns is representable. *)
Lemma round_mag_representable num den sh :
  (0 < den)%N -> representable p m (round_mag p m num den sh) = true.
Proof.
  intros Hden. rewrite round_mag_eq by done. cbv zeta.
  set (q := (num / (den * 2 ^ sh))%N).
  assert (num / (den * 2 ^ (sh + qlog q)) = q / 2 ^ qlog q)%N as ->.
  { unfold q. rewrite N.pow_add_r, N.mul_assoc. by rewrite N.Div0.div_div. }
  set (j := qlog q).
  assert (q / 2 ^ j < 2 ^ (p + 1))%N as Hlo.
  { apply N.Div0.div_lt_upper_bound. rewrite <- N.pow_add_r.
    destruct (N.eq_dec q 0) as [->|]; [apply pow2_pos|].
    apply N.log2_lt_pow2; unfold j, quantum_log; lia. }
  set (lo := (q / 2 ^ j)%N) in *.
  set (c := match _ with Eq => _ | Lt => _ | Gt => _ end).
  assert (c <= 2 ^ (p + 1))%N as Hc.
  { unfold c. destruct (_ ?= _)%N; try destruct (N.even _); lia. }
  apply representable_iff.
  destruct (N.eq_dec c 0) as [->|Hc0]; [by exists 0%N|].
  assert (m <= j)%N as Hmj by (unfold j, quantum_log; lia).
  destruct (N.eq_dec c (2 ^ (p + 1))) as [->|Hne].
  - rewrite <- N.pow_add_r.
    assert (qlog (2 ^ (p + 1 + j)) = j + 1 \/ qlog (2 ^ (p + 1 + j)) = m)%N as [->| ->].
    { unfold quantum_log. rewrite N.log2_pow2 by lia. lia. }
    + exists (2 ^ p)%N. rewrite <- N.pow_add_r. f_equal; lia.
    + exists (2 ^ (p + 1 + j - m))%N. rewrite <- N.pow_add_r. f_equal; lia.
  - assert (qlog (c * 2 ^ j) <= j)%N as Hl.
    { unfold quantum_log. rewrite N.log2_mul_pow2 by lia.
      assert (N.log2 c < p + 1)%N by (apply N.log2_lt_pow2; lia). lia. }
    exists (c * 2 ^ (j - qlog (c * 2 ^ j)))%N.
    rewrite <- N.mul_assoc, <- N.pow_add_r. do 2 f_equal. lia.
Qed.
End RoundingLemmas.
