(* ===== verification/CScan.v ===== *)
(** The number scanners of the C library the program calls: [sscanf] with [%lf],
    [strtod] and [strtoul] (base 10), in the "C" locale.

    The grammar is the one of C11 7.22.1.3: a decimal or hexadecimal floating
    constant, [inf], [infinity], [nan] or [nan(...)], with an optional sign after
    white space.  [strtod] takes the longest valid prefix; [sscanf] takes the
    longest prefix of a valid input and fails when that prefix is not itself valid
    (C11 7.21.6.2p9), which the [strict] flag selects.  Results are correctly
    rounded, as the Microsoft library documents. *)
From S2P Require Import Prelude Float64.
From Stdlib Require Import NArith ZArith.

(** [isspace] *)
Definition is_cspace (c : ascii) : bool :=
  Ascii.eqb c " " || in_range cTab cCR c.

Fixpoint span (p : ascii -> bool) (s : bytes) : bytes * bytes :=
  match s with
  | [] => ([], [])
  | c :: t => if p c then let (u, r) := span p t in (c :: u, r) else ([], s)
  end.

Definition skip_space (s : bytes) : bytes := (span is_cspace s).2.

Definition lower (c : ascii) : ascii :=
  if in_range "A" "Z" c then ascii_of_N (N_of_ascii c + 32) else c.

Definition digit_val (c : ascii) : N := (N_of_ascii c - 48)%N.

(** A hexadecimal digit's value, [None] for any other byte. *)
Definition hex_val (c : ascii) : option N :=
  if is_digit c then Some (digit_val c)
  else if in_range "a" "f" c then Some (N_of_ascii c - 97 + 10)%N
  else if in_range "A" "F" c then Some (N_of_ascii c - 65 + 10)%N
  else None.

Definition is_hex (c : ascii) : bool := match hex_val c with Some _ => true | None => false end.

(** The value of a digit string in base [b]. *)
Definition digits_value (b : N) (ds : bytes) : N :=
  foldl (fun a c => b * a + default 0 (hex_val c))%N 0%N ds.

Definition scan_sign (s : bytes) : bool * bytes :=
  match s with
  | c :: t => if Ascii.eqb c "-" then (true, t)
              else if Ascii.eqb c "+" then (false, t) else (false, s)
  | [] => (false, [])
  end.

(** An exponent after its letter: its value and the rest, [None] when no digit
    follows. *)
Definition scan_exponent (s : bytes) : option (Z * bytes) :=
  let (neg, s1) := scan_sign s in
  let (ds, r) := span is_digit s1 in
  match ds with
  | [] => None
  | _ => let v := Z.of_N (digits_value 10 ds) in Some (if neg then - v else v, r)%Z
  end.

(** [mant * base^e] *)
Definition of_scientific (neg : bool) (mant base : N) (e : Z) : double :=
  if (e <? 0)%Z then of_ratio neg (N.shiftl mant 1074) (base ^ Z.to_N (- e)) 0
  else of_ratio neg (N.shiftl (mant * base ^ Z.to_N e) 1074) 1 0.

(** The digits, the fraction and the exponent of a constant whose digits are the
    bytes of [isd], in base [b], with exponent letter [el] and exponent base [eb];
    a digit of the fraction is worth [per] of the exponent. *)
Definition scan_constant (strict neg : bool) (isd : ascii -> bool) (b : N) (el : ascii)
    (eb : N) (per : Z) (s : bytes) : option (double * bytes) :=
  let (ip, r1) := span isd s in
  let '(fp, r2) := match r1 with
                   | c :: t => if Ascii.eqb c "." then span isd t else ([], r1)
                   | [] => ([], [])
                   end in
  match ip ++ fp with
  | [] => None
  | ds =>
      let mant := digits_value b ds in
      let e0 := (- per * Z.of_nat (length fp))%Z in
      let plain := Some (of_scientific neg mant eb e0, r2) in
      match r2 with
      | c :: t =>
          if Ascii.eqb (lower c) el then
            match scan_exponent t with
            | Some (e, r3) => Some (of_scientific neg mant eb (e + e0)%Z, r3)
            | None => if strict then None else plain
            end
          else plain
      | [] => plain
      end
  end.

(** How much of [word] (lower case) the input spells. *)
Fixpoint common_len (word s : bytes) : nat :=
  match word, s with
  | a :: w, c :: t => if Ascii.eqb a (lower c) then S (common_len w t) else 0
  | _, _ => 0
  end.

Definition is_nchar (c : ascii) : bool :=
  is_digit c || in_range "a" "z" c || in_range "A" "Z" c || Ascii.eqb c "_".

Definition scan_word (strict neg : bool) (s : bytes) : option (double * bytes) :=
  let ni := common_len (str "infinity") s in
  let nn := common_len (str "nan") s in
  if bool_decide (3 <= ni) then
    if bool_decide (ni = 8) then Some (DInf neg, drop 8 s)
    else if strict && bool_decide (3 < ni) then None
    else Some (DInf neg, drop 3 s)
  else if bool_decide (nn = 3) then
    match drop 3 s with
    | c :: t =>
        if Ascii.eqb c "(" then
          match (span is_nchar t).2 with
          | c' :: t' => if Ascii.eqb c' ")" then Some (DNaN, t')
                        else if strict then None else Some (DNaN, c :: t)
          | [] => if strict then None else Some (DNaN, c :: t)
          end
        else Some (DNaN, c :: t)
    | [] => Some (DNaN, [])
    end
  else None.

(** A number after white space; the value and what follows it. *)
Definition scan_double (strict : bool) (s : bytes) : option (double * bytes) :=
  let (neg, s1) := scan_sign (skip_space s) in
  match s1 with
  | c :: t =>
      if Ascii.eqb c "0" && match t with x :: _ => Ascii.eqb (lower x) "x" | [] => false end
      then
        match scan_constant strict neg is_hex 16 "p" 2 4 (tail t) with
        | Some r => Some r
        | None => if strict then None else Some (DFin neg 0, t)
        end
      else if is_digit c || Ascii.eqb c "." then
        scan_constant strict neg is_digit 10 "e" 10 1 s1
      else scan_word strict neg s1
  | [] => None
  end.

(** [std::sscanf(s, "%lf", &out) == 1]: the value stored. *)
Definition sscanf_lf (s : bytes) : option double := fst <$> scan_double true s.

(** [std::sscanf(s, "%lf,%lf,%lf", &a, &b, &c)]: the values stored, in order; their
    number is what the call returns. *)
Definition sscanf_lf3 (s : bytes) : list double :=
  match scan_double true s with
  | None => []
  | Some (a, r) =>
      match r with
      | c1 :: r1 =>
          if Ascii.eqb c1 "," then
            match scan_double true r1 with
            | None => [a]
            | Some (b, r2) =>
                match r2 with
                | c2 :: r3 =>
                    if Ascii.eqb c2 "," then
                      match scan_double true r3 with
                      | None => [a; b]
                      | Some (c, _) => [a; b; c]
                      end
                    else [a; b]
                | [] => [a; b]
                end
            end
          else [a]
      | [] => [a]
      end
  end.

(** [std::strtod]: the value and the rest, [None] when nothing converts (the end
    pointer is then the start). *)
Definition strtod (s : bytes) : option (double * bytes) := scan_double false s.

(** [std::strtoul(s, nullptr, 10)], with the 32-bit [unsigned long] of Windows: a
    value that does not fit is [ULONG_MAX], a minus sign negates modulo 2^32. *)
Definition ULONG_MAX : N := 4294967295.
Definition strtoul (s : bytes) : N :=
  let (neg, s1) := scan_sign (skip_space s) in
  let v := digits_value 10 (span is_digit s1).1 in
  if (ULONG_MAX <? v)%N then ULONG_MAX
  else if neg then ((ULONG_MAX + 1 - v) mod (ULONG_MAX + 1))%N else v.
