(* ===== verification/JsonString.v ===== *)
(** PeerJson.hpp, first part: escaping, UTF-8 output, decoding of a JSON string
    body, and the whole-line field readers built on it. *)
From S2P Require Import Prelude Float64 CScan.
From Stdlib Require Import NArith ZifyN.

(** * Operations *)

Definition json_escape (s : bytes) : bytes :=
  flat_map (fun c => if Ascii.eqb c cQuote || Ascii.eqb c cBackslash
                     then [cBackslash; c] else [c]) s.

(** [static_cast<char>]: the low eight bits. *)
Definition to_char (n : N) : ascii := ascii_of_N n.

(** The bytes [append_utf8] pushes for code point [cp]. *)
Definition append_utf8 (out : bytes) (cp : N) : bytes :=
  out ++
  if (cp <=? 0x7F)%N then [to_char cp]
  else if (cp <=? 0x7FF)%N then
    [to_char (N.lor 0xC0 (N.shiftr cp 6)); to_char (N.lor 0x80 (N.land cp 0x3F))]
  else if (cp <=? 0xFFFF)%N then
    [to_char (N.lor 0xE0 (N.shiftr cp 12));
     to_char (N.lor 0x80 (N.land (N.shiftr cp 6) 0x3F));
     to_char (N.lor 0x80 (N.land cp 0x3F))]
  else
    [to_char (N.lor 0xF0 (N.shiftr cp 18));
     to_char (N.lor 0x80 (N.land (N.shiftr cp 12) 0x3F));
     to_char (N.lor 0x80 (N.land (N.shiftr cp 6) 0x3F));
     to_char (N.lor 0x80 (N.land cp 0x3F))].

(** Exactly four hex digits at [pos]. *)
Fixpoint json_hex_digits (n : nat) (v : N) (s : bytes) : option N :=
  match n with
  | 0 => Some v
  | S n' => match s with
            | c :: t => match hex_val c with
                        | Some d => json_hex_digits n' (N.lor (N.shiftl v 4) d) t
                        | None => None
                        end
            | [] => None
            end
  end.

Definition json_hex4 (s : bytes) (pos : nat) : option N :=
  if length s <? pos + 4 then None else json_hex_digits 4 0 (drop pos s).

(** The one-character escapes of the [switch]; ['u'] is apart. *)
Definition simple_escape (c : ascii) : option ascii :=
  if Ascii.eqb c cQuote then Some cQuote
  else if Ascii.eqb c cBackslash then Some cBackslash
  else if Ascii.eqb c "/" then Some "/"%char
  else if Ascii.eqb c "b" then Some (ascii_of_nat 8)
  else if Ascii.eqb c "f" then Some (ascii_of_nat 12)
  else if Ascii.eqb c "n" then Some cLF
  else if Ascii.eqb c "r" then Some cCR
  else if Ascii.eqb c "t" then Some cTab
  else None.

(** The code point of a [\u] escape whose four digits gave [cp] and end at [i], and
    the index of the last byte it used: a surrogate pair uses the next escape too,
    a lone or mispaired surrogate is U+FFFD. *)
Definition decode_surrogate (s : bytes) (i : nat) (cp : N) : N * nat :=
  if (0xD800 <=? cp)%N && (cp <=? 0xDBFF)%N then
    let lo := if i + 6 <? length s then
                if Ascii.eqb (char_at s (i + 1)) cBackslash && Ascii.eqb (char_at s (i + 2)) "u"
                then json_hex4 s (i + 3) else None
              else None in
    match lo with
    | Some lo =>
        if (0xDC00 <=? lo)%N && (lo <=? 0xDFFF)%N
        then ((0x10000 + N.shiftl (cp - 0xD800) 10 + (lo - 0xDC00))%N, i + 6)
        else (0xFFFD%N, i)
    | None => (0xFFFD%N, i)
    end
  else if (0xDC00 <=? cp)%N && (cp <=? 0xDFFF)%N then (0xFFFD%N, i)
  else (cp, i).

(** One turn of the decoding loop: the index and the output so far. *)
Definition decode_body (s : bytes) (st : nat * bytes) : (nat * bytes) + bytes :=
  let (i, out) := st in
  if i <? length s then
    let c := char_at s i in
    if Ascii.eqb c cQuote then inr out
    else if negb (Ascii.eqb c cBackslash) then inl (S i, out ++ [c])
    else
      let i := S i in
      if length s <=? i then inr []
      else
        let e := char_at s i in
        match simple_escape e with
        | Some d => inl (S i, out ++ [d])
        | None =>
            if Ascii.eqb e "u" then
              match json_hex4 s (i + 1) with
              | None => inr []
              | Some cp => let (cp', i') := decode_surrogate s (i + 4) cp in
                           inl (S i', append_utf8 out cp')
              end
            else inr []
        end
  else inr [].

(** Measure of the loops that walk an index up to a limit. *)
Definition to_go (limit : nat) (i : nat) : nat := limit - i.

Definition json_decode_string_at (s : bytes) (pos : nat) : bytes :=
  loop (fun st => to_go (length s) st.1) (decode_body s) [] (pos, []).

(** ["\"key\":"] followed by [suffix]. *)
Definition needle (key suffix : bytes) : bytes := cQuote :: key ++ cQuote :: suffix.

Definition json_string_field (s key : bytes) : bytes :=
  let n := needle key [":"%char; cQuote] in
  match find_from s n 0 with
  | None => []
  | Some pos => json_decode_string_at s (pos + length n)
  end.

(** A reader with [double&] results: the success flag and the new values, the old
    ones where the scan stored nothing. *)
Definition vec3 : Type := double * double * double.
Definition store3 (vs : list double) (old : vec3) : vec3 :=
  let '(a, b, c) := old in
  match vs with
  | [] => (a, b, c)
  | [x] => (x, b, c)
  | [x; y] => (x, y, c)
  | x :: y :: z :: _ => (x, y, z)
  end.

(** [sscanf(s.c_str() + pos, "%lf,%lf,%lf", &a, &b, &c) == 3] *)
Definition scan_vec3 (s : bytes) (pos : nat) (old : vec3) : bool * vec3 :=
  let vs := sscanf_lf3 (drop pos s) in
  (bool_decide (length vs = 3), store3 vs old).

Definition json_vec3_field (s key : bytes) (old : vec3) : bool * vec3 :=
  let n := needle key [":"%char; "["%char] in
  match find_from s n 0 with
  | None => (false, old)
  | Some pos => scan_vec3 s (pos + length n) old
  end.

(** [sscanf(s.c_str() + pos, "%lf", &out) == 1] *)
Definition scan_number (s : bytes) (pos : nat) (old : double) : bool * double :=
  match sscanf_lf (drop pos s) with
  | Some v => (true, v)
  | None => (false, old)
  end.

Definition json_number_field (s key : bytes) (old : double) : bool * double :=
  let n := needle key [":"%char] in
  match find_from s n 0 with
  | None => (false, old)
  | Some pos => scan_number s (pos + length n) old
  end.

(** * The decoding loop *)

Lemma decode_surrogate_ge s i cp : i <= (decode_surrogate s i cp).2.
Proof. unfold decode_surrogate. repeat case_match; simpl; lia. Qed.

#[export] Instance decode_decreasing s :
  Decreasing (fun st : nat * bytes => to_go (length s) st.1) (decode_body s).
Proof.
  intros [i out] [i' out'] E. unfold decode_body, to_go in *. simpl.
  repeat (case_match; simplify_eq/=; try lia).
  match goal with H : decode_surrogate _ ?j ?cp = _ |- _ =>
    pose proof (decode_surrogate_ge s j cp) as Hge; rewrite H in Hge end.
  simpl in Hge. lia.
Qed.

(** The decoder from index [i] with output [out]. *)
Definition decode (s : bytes) (i : nat) (out : bytes) : bytes :=
  loop (fun st => to_go (length s) st.1) (decode_body s) [] (i, out).

Lemma json_hex4_shift p s i : json_hex4 (p ++ s) (length p + i) = json_hex4 s i.
Proof.
  unfold json_hex4. rewrite length_app. do 2 nat_case; [done|].
  by rewrite drop_app_add'.
Qed.

Lemma decode_surrogate_shift p s i cp :
  decode_surrogate (p ++ s) (length p + i) cp =
  prod_map id (Nat.add (length p)) (decode_surrogate s i cp).
Proof.
  unfold decode_surrogate. rewrite length_app.
  rewrite <- !Nat.add_assoc, !char_at_app_r, json_hex4_shift.
  case_match; [|by case_match].
  do 2 nat_case; [|done].
  case_match; [|done]. case_match; [|done]. case_match; [|done].
  done.
Qed.

Lemma decode_shift p s i out : decode (p ++ s) (length p + i) out = decode s i out.
Proof.
  apply (loop_sim _ _ _ _ _ _ (fun st1 st2 => st1 = (length p + st2.1, st2.2)) eq); [|done].
  intros ? [j o] ->. unfold decode_body. simpl.
  rewrite length_app, char_at_app_r.
  rewrite <- !Nat.add_succ_r, char_at_app_r.
  rewrite <- !Nat.add_assoc, json_hex4_shift.
  repeat nat_case; try done.
  all: repeat (split_match; try done).
  rewrite decode_surrogate_shift in *.
  match goal with H : prod_map _ _ ?x = _, H' : ?x = _ |- _ => rewrite H' in H end.
  simplify_eq/=. f_equal; lia.
Qed.

Lemma decode_unfold s i out :
  decode s i out = match decode_body s (i, out) with
                   | inl (i', out') => decode s i' out'
                   | inr r => r
                   end.
Proof.
  unfold decode at 1. rewrite (loop_unfold _ (decode_body s)).
  by destruct (decode_body s (i, out)) as [[? ?]|].
Qed.

(** The decoder on the bytes from its index on: one equation per case of the
    [switch]. *)
Lemma decode_at p s out : decode (p ++ s) (length p) out = decode s 0 out.
Proof. rewrite <- (Nat.add_0_r (length p)). apply decode_shift. Qed.

Lemma decode_tail c s out : decode (c :: s) 1 out = decode s 0 out.
Proof. apply (decode_at [c]). Qed.

Lemma decode_drop s k out : decode s k out = decode (drop k s) 0 out.
Proof.
  destruct (Nat.le_gt_cases k (length s)).
  - rewrite <- (take_drop k s) at 1.
    rewrite <- (decode_at (take k s)). f_equal. len.
  - rewrite drop_ge by lia. rewrite !decode_unfold. unfold decode_body.
    by repeat nat_case.
Qed.

Lemma decode_quote s out : decode (cQuote :: s) 0 out = out.
Proof. by rewrite decode_unfold. Qed.

Lemma decode_plain c s out :
  c <> cQuote -> c <> cBackslash -> decode (c :: s) 0 out = decode s 0 (out ++ [c]).
Proof.
  intros H1 H2. rewrite <- (decode_tail c s (out ++ [c])), decode_unfold.
  unfold decode_body. simpl. rewrite char_at_0.
  by rewrite !ascii_eqb_false by done.
Qed.

Lemma decode_escape e d s out :
  simple_escape e = Some d ->
  decode (cBackslash :: e :: s) 0 out = decode s 0 (out ++ [d]).
Proof.
  intros He. rewrite <- (decode_at [cBackslash; e] s (out ++ [d])), decode_unfold.
  unfold decode_body. simpl. by rewrite char_at_S, char_at_0, He.
Qed.

Lemma decode_unicode h s cp cp' k out :
  length h = 4 -> json_hex_digits 4 0 h = Some cp ->
  decode_surrogate (cBackslash :: "u"%char :: h ++ s) 5 cp = (cp', 5 + k) ->
  decode (cBackslash :: "u"%char :: h ++ s) 0 out = decode (drop k s) 0 (append_utf8 out cp').
Proof.
  intros Hl Hh Hs.
  assert (json_hex4 (cBackslash :: "u"%char :: h ++ s) 2 = Some cp) as Hh4.
  { unfold json_hex4. simpl length. rewrite length_app. nat_case.
    rewrite skipn_cons, skipn_cons. destruct h as [|? [|? [|? [|? [|]]]]]; done. }
  rewrite decode_unfold. unfold decode_body.
  rewrite char_at_0, char_at_S, char_at_0. simpl.
  rewrite Hh4, Hs, <- decode_drop.
  rewrite <- (decode_shift (cBackslash :: "u"%char :: h) s k).
  by simpl; rewrite Hl.
Qed.

(** * Escaping *)

Lemma decode_escaped s t out : decode (json_escape s ++ t) 0 out = decode t 0 (out ++ s).
Proof.
  revert out; induction s as [|c s IH]; intros out; simpl; [by rewrite app_nil_r|].
  destruct (Ascii.eqb_spec c cQuote) as [->|H1]; simpl.
  { rewrite (decode_escape cQuote cQuote) by done. by rewrite IH, <- app_assoc. }
  destruct (Ascii.eqb_spec c cBackslash) as [->|H2]; simpl.
  { rewrite (decode_escape cBackslash cBackslash) by done. by rewrite IH, <- app_assoc. }
  rewrite decode_plain by done. by rewrite IH, <- app_assoc.
Qed.

(** C31: a string [json_escape] wrote between two quotes, anywhere in a line, is read
    back by [json_decode_string_at] byte for byte, whatever the bytes are and
    whatever follows. *)
Theorem json_escape_roundtrip (p s t : bytes) :
  json_decode_string_at (p ++ json_escape s ++ cQuote :: t) (length p) = s.
Proof.
  change (decode (p ++ json_escape s ++ cQuote :: t) (length p) [] = s).
  rewrite decode_at, decode_escaped. apply decode_quote.
Qed.

(** * UTF-8

    A reference decoder, strict as RFC 3629: no overlong form, no surrogate, nothing
    past U+10FFFF. *)

Definition scalar (cp : N) : bool :=
  ((cp <? 0xD800) || (0xE000 <=? cp) && (cp <=? 0x10FFFF))%N.

Definition cont (c : ascii) : option N :=
  let b := N_of_ascii c in
  if ((0x80 <=? b) && (b <=? 0xBF))%N then Some (b - 0x80)%N else None.

(** One code point and what follows it. *)
Definition utf8_next (s : bytes) : option (N * bytes) :=
  match s with
  | [] => None
  | c :: t =>
      let b := N_of_ascii c in
      let checked lo cp r := if ((lo <=? cp) && scalar cp)%N then Some (cp, r) else None in
      if (b <=? 0x7F)%N then Some (b, t)
      else if ((0xC0 <=? b) && (b <=? 0xDF))%N then
        match t with
        | c1 :: r => x ← cont c1; checked 0x80 ((b - 0xC0) * 64 + x) r
        | _ => None
        end%N
      else if ((0xE0 <=? b) && (b <=? 0xEF))%N then
        match t with
        | c1 :: c2 :: r => x ← cont c1; y ← cont c2;
                           checked 0x800 ((b - 0xE0) * 4096 + x * 64 + y) r
        | _ => None
        end%N
      else if ((0xF0 <=? b) && (b <=? 0xF7))%N then
        match t with
        | c1 :: c2 :: c3 :: r => x ← cont c1; y ← cont c2; z ← cont c3;
                     checked 0x10000 ((b - 0xF0) * 262144 + x * 4096 + y * 64 + z) r
        | _ => None
        end%N
      else None
  end.

(** [s] is the UTF-8 of the code points [cps]. *)
Inductive utf8 : bytes -> list N -> Prop :=
  | utf8_nil : utf8 [] []
  | utf8_cons s cp t cps : utf8_next s = Some (cp, t) -> utf8 t cps -> utf8 s (cp :: cps).

(** The number [lor]ed under a lead or continuation mark is added to it. *)
Lemma lor_mark (hi x k : N) : (x < 2 ^ k)%N -> N.lor (hi * 2 ^ k) x = (hi * 2 ^ k + x)%N.
Proof.
  intros Hx. assert (N.land (hi * 2 ^ k) x = 0)%N as Hl.
  { apply N.bits_inj. intros i. rewrite N.land_spec, N.bits_0.
    destruct (N.lt_ge_cases i k).
    - by rewrite N.mul_pow2_bits_low.
    - rewrite <- (N.mod_small x (2 ^ k)) by done.
      rewrite N.mod_pow2_bits_high by done. apply andb_false_r. }
  rewrite N.add_nocarry_lxor by done. by rewrite N.lxor_lor.
Qed.

Lemma lor_80 x : (x < 64)%N -> N.lor 0x80 x = (0x80 + x)%N.
Proof. exact (lor_mark 2 x 6). Qed.
Lemma lor_C0 x : (x < 32)%N -> N.lor 0xC0 x = (0xC0 + x)%N.
Proof. exact (lor_mark 6 x 5). Qed.
Lemma lor_E0 x : (x < 16)%N -> N.lor 0xE0 x = (0xE0 + x)%N.
Proof. exact (lor_mark 14 x 4). Qed.
Lemma lor_F0 x : (x < 8)%N -> N.lor 0xF0 x = (0xF0 + x)%N.
Proof. exact (lor_mark 30 x 3). Qed.

Lemma cont_mark x : (x < 64)%N -> cont (to_char (0x80 + x)) = Some x.
Proof.
  intros. unfold cont, to_char. rewrite N_ascii_embedding by lia.
  replace _ with true by lia. f_equal; lia.
Qed.

(** Settles the comparisons of a goal by [lia]. *)
Ltac settle_leb :=
  repeat match goal with
  | |- context [(?a <=? ?b)%N] =>
      first [replace (a <=? b)%N with true by lia | replace (a <=? b)%N with false by lia]
  | |- context [(?a <? ?b)%N] =>
      first [replace (a <? b)%N with true by lia | replace (a <? b)%N with false by lia]
  end; simpl andb; cbv iota.

Lemma append_utf8_out out cp : append_utf8 out cp = out ++ append_utf8 [] cp.
Proof. done. Qed.

Lemma utf8_next_append cp t :
  scalar cp = true -> utf8_next (append_utf8 [] cp ++ t) = Some (cp, t).
Proof.
  intros Hs. unfold append_utf8. simpl app.
  change 0x3F%N with (N.ones 6). rewrite !N.land_ones, !N.shiftr_div_pow2.
  change (2 ^ 6)%N with 64%N. change (2 ^ 12)%N with 4096%N. change (2 ^ 18)%N with 262144%N.
  assert (scalar cp = true -> cp <= 0x10FFFF)%N as Hmax by (unfold scalar; lia).
  specialize (Hmax Hs).
  assert (forall a, a mod 64 < 64)%N as Hm by (intros; apply N.mod_lt; done).
  destruct (N.leb_spec cp 0x7F); [|destruct (N.leb_spec cp 0x7FF);
    [|destruct (N.leb_spec cp 0xFFFF)]]; simpl app; unfold utf8_next.
  - unfold to_char. rewrite N_ascii_embedding by lia. settle_leb. done.
  - assert (cp / 64 < 32)%N by (apply N.Div0.div_lt_upper_bound; lia).
    rewrite lor_C0, lor_80 by auto. rewrite cont_mark by auto.
    unfold to_char. rewrite N_ascii_embedding by lia.
    pose proof (N.Div0.div_mod cp 64). simpl.
    assert (((0xC0 + cp / 64) - 0xC0) * 64 + cp mod 64 = cp)%N as -> by lia.
    settle_leb. by rewrite Hs.
  - assert (cp / 4096 < 16)%N by (apply N.Div0.div_lt_upper_bound; lia).
    rewrite lor_E0, !lor_80 by auto. rewrite !cont_mark by auto.
    unfold to_char. rewrite N_ascii_embedding by lia.
    pose proof (N.Div0.div_mod cp 64). pose proof (N.Div0.div_mod (cp / 64) 64) as H'.
    rewrite N.Div0.div_div in H'. change (64 * 64)%N with 4096%N in H'. simpl.
    assert (((0xE0 + cp / 4096) - 0xE0) * 4096 + ((cp / 64) mod 64) * 64 + cp mod 64 = cp)%N
      as -> by lia.
    settle_leb. by rewrite Hs.
  - assert (cp / 262144 < 8)%N by (apply N.Div0.div_lt_upper_bound; lia).
    rewrite lor_F0, !lor_80 by auto. rewrite !cont_mark by auto.
    unfold to_char. rewrite N_ascii_embedding by lia.
    pose proof (N.Div0.div_mod cp 64). pose proof (N.Div0.div_mod (cp / 64) 64) as H'.
    pose proof (N.Div0.div_mod (cp / 4096) 64) as H''.
    rewrite N.Div0.div_div in H', H''. change (64 * 64)%N with 4096%N in H'.
    change (4096 * 64)%N with 262144%N in H''. simpl.
    assert (((0xF0 + cp / 262144) - 0xF0) * 262144 + ((cp / 4096) mod 64) * 4096
            + ((cp / 64) mod 64) * 64 + cp mod 64 = cp)%N as -> by lia.
    settle_leb. by rewrite Hs.
Qed.

Lemma utf8_next_app s cp t u : utf8_next s = Some (cp, t) -> utf8_next (s ++ u) = Some (cp, t ++ u).
Proof.
  unfold utf8_next. destruct s as [|c0 s]; [done|]. simpl.
  intros H. repeat split_match_in H; simplify_eq/=; try done.
  all: repeat match goal with
         | H : (_ ≫= _) = Some _ |- _ => apply bind_Some in H as (?&?&H)
         | H : cont _ = Some _ |- _ => rewrite H; clear H; simpl
         | H : (if ?b then _ else _) = Some _ |- _ => destruct b eqn:?; simplify_eq/=
         end; done.
Qed.

Lemma utf8_app a b x y : utf8 a x -> utf8 b y -> utf8 (a ++ b) (x ++ y).
Proof.
  intros Ha Hb. induction Ha as [|s cp t cps Hn _ IH]; [done|].
  simpl. econstructor; [by apply utf8_next_app|done].
Qed.

Lemma utf8_one cp : scalar cp = true -> utf8 (append_utf8 [] cp) [cp].
Proof.
  intros. econstructor; [|constructor].
  rewrite <- (app_nil_r (append_utf8 [] cp)). by apply utf8_next_append.
Qed.

(** * Unicode escapes *)

(** The escape the Go encoder writes for a code point: one [\uXXXX], or the
    surrogate pair of a code point past the basic plane. *)
Definition hex_char (d : N) : ascii := ascii_of_N (if d <? 10 then 48 + d else 87 + d)%N.
Definition hex4_of (n : N) : bytes :=
  [hex_char (n / 4096); hex_char (n / 256 mod 16); hex_char (n / 16 mod 16);
   hex_char (n mod 16)]%N.
Definition u_escape (n : N) : bytes := cBackslash :: "u"%char :: hex4_of n.
Definition json_u_escape (cp : N) : bytes :=
  if (cp <=? 0xFFFF)%N then u_escape cp
  else u_escape (0xD800 + (cp - 0x10000) / 1024)%N ++ u_escape (0xDC00 + (cp - 0x10000) mod 1024)%N.

Lemma hex_val_char d : (d < 16)%N -> hex_val (hex_char d) = Some d.
Proof.
  intros Hd. assert (forallb (fun k => bool_decide (hex_val (hex_char (N.of_nat k)) = Some (N.of_nat k)))
    (seq 0 16) = true) as H by done.
  rewrite forallb_forall in H. specialize (H (N.to_nat d)).
  rewrite bool_decide_eq_true, N2Nat.id in H. apply H, in_seq. lia.
Qed.

Lemma json_hex4_of n : (n < 65536)%N -> json_hex_digits 4 0 (hex4_of n) = Some n.
Proof.
  intros Hn.
  assert (forall v d, (d < 16)%N -> N.lor (N.shiftl v 4) d = (v * 16 + d)%N) as Hl.
  { intros v d ?. rewrite N.shiftl_mul_pow2. by apply (lor_mark v d 4). }
  assert (forall a, a mod 16 < 16)%N as Hm by (intros; apply N.mod_lt; done).
  assert (n / 4096 < 16)%N by (apply N.Div0.div_lt_upper_bound; lia).
  simpl. rewrite !hex_val_char, !Hl by auto. f_equal.
  pose proof (N.Div0.div_mod n 16) as H1. pose proof (N.Div0.div_mod (n / 16) 16) as H2.
  pose proof (N.Div0.div_mod (n / 256) 16) as H3.
  rewrite N.Div0.div_div in H2, H3. change (16 * 16)%N with 256%N in H2.
  change (256 * 16)%N with 4096%N in H3. lia.
Qed.

Lemma json_hex_digits_bound k v s n :
  json_hex_digits k v s = Some n -> (n < (v + 1) * 16 ^ N.of_nat k)%N.
Proof.
  revert v s. induction k as [|k IH]; intros v s; simpl; [intros; simplify_eq; simpl; lia|].
  destruct s as [|c s]; [done|]. destruct (hex_val c) as [d|] eqn:E; [|done].
  intros H%IH. assert (d < 16)%N.
  { unfold hex_val, digit_val, is_digit, in_range in E. repeat split_match_in E; simplify_eq; 
      cbn in *; lia. }
  rewrite N.shiftl_mul_pow2, (lor_mark v d 4) in H by done.
  replace (N.of_nat (S k)) with (N.succ (N.of_nat k)) by lia. rewrite N.pow_succ_r'.
  change (2 ^ 4)%N with 16%N in H. nia.
Qed.

Lemma json_hex4_bound s i n : json_hex4 s i = Some n -> (n < 65536)%N.
Proof. unfold json_hex4. split_match; [done|]. apply json_hex_digits_bound. Qed.

Lemma decode_surrogate_scalar s i cp :
  (cp < 65536)%N -> scalar (decode_surrogate s i cp).1 = true.
Proof.
  intros. unfold decode_surrogate, scalar.
  repeat (split_match; simpl; try lia).
  rewrite N.shiftl_mul_pow2. change (2 ^ 10)%N with 1024%N. lia.
Qed.

Lemma decode_u_escape cp t out :
  scalar cp = true ->
  decode (json_u_escape cp ++ t) 0 out = decode t 0 (append_utf8 out cp).
Proof.
  intros Hs. unfold json_u_escape. destruct (N.leb_spec cp 0xFFFF).
  - assert (cp < 65536)%N by lia.
    assert (decode_surrogate (u_escape cp ++ t) 5 cp = (cp, 5 + 0)) as E.
    { unfold decode_surrogate. unfold scalar in Hs.
      replace ((0xD800 <=? cp) && (cp <=? 0xDBFF))%N with false by lia.
      by replace ((0xDC00 <=? cp) && (cp <=? 0xDFFF))%N with false by lia. }
    simpl app in E |- *.
    change (hex_char (cp / 4096) :: _) with (hex4_of cp ++ t) in E |- *.
    erewrite decode_unicode; [|done|by apply json_hex4_of|exact E]. by rewrite drop_0.
  - assert (cp <= 0x10FFFF)%N by (unfold scalar in Hs; lia).
    set (hi := (0xD800 + (cp - 0x10000) / 1024)%N).
    set (lo := (0xDC00 + (cp - 0x10000) mod 1024)%N).
    assert (hi < 0xDC00)%N as Hhi.
    { unfold hi. assert ((cp - 0x10000) / 1024 < 1024)%N by (apply N.Div0.div_lt_upper_bound; lia).
      lia. }
    assert (lo < 0xE000)%N as Hlo.
    { unfold lo. assert ((cp - 0x10000) mod 1024 < 1024)%N by (apply N.mod_lt; done). lia. }
    assert (decode_surrogate (u_escape hi ++ u_escape lo ++ t) 5 hi = (cp, 5 + 6)) as E.
    { unfold decode_surrogate.
      replace ((0xD800 <=? hi) && (hi <=? 0xDBFF))%N with true by lia.
      assert (json_hex4 (u_escape hi ++ u_escape lo ++ t) (5 + 3) = Some lo) as ->.
      { apply (json_hex4_of lo). lia. }
      simpl. replace ((0xDC00 <=? lo) && (lo <=? 0xDFFF))%N with true by lia.
      f_equal. rewrite N.shiftl_mul_pow2. change (2 ^ 10)%N with 1024%N.
      pose proof (N.Div0.div_mod (cp - 0x10000) 1024). unfold hi, lo. lia. }
    rewrite <- app_assoc. simpl app in E |- *.
    change (hex_char (hi / 4096) :: _) with (hex4_of hi ++ u_escape lo ++ t) in E |- *.
    erewrite decode_unicode; [|done|apply json_hex4_of; lia|exact E]. done.
Qed.

(** The [\uXXXX] escapes of any code points, surrogate pairs included, decode to
    bytes that a strict UTF-8 decoder reads as exactly those code points. *)
Theorem json_unicode_roundtrip (p t : bytes) (cps : list N) (Hcps : Forall (fun cp => scalar cp = true) cps) :
  utf8 (json_decode_string_at (p ++ flat_map json_u_escape cps ++ cQuote :: t) (length p)) cps.
Proof.
  change (utf8 (decode (p ++ flat_map json_u_escape cps ++ cQuote :: t) (length p) []) cps).
  rewrite decode_at.
  assert (forall out x, utf8 out x ->
    utf8 (decode (flat_map json_u_escape cps ++ cQuote :: t) 0 out) (x ++ cps)) as H.
  { induction Hcps as [|cp cps Hcp _ IH]; intros out x Hx; simpl.
    - by rewrite decode_quote, app_nil_r.
    - rewrite <- app_assoc, decode_u_escape, append_utf8_out by done.
      replace (x ++ cp :: cps) with ((x ++ [cp]) ++ cps) by (by rewrite <- app_assoc).
      apply IH, utf8_app, utf8_one; done. }
  apply (H [] []). constructor.
Qed.

(** A code point of one byte, of three, and of a surrogate pair. *)
Example json_unicode_roundtrip_witness :
  Forall (fun cp => scalar cp = true) [65; 8364; 128512]%N /\
  utf8 (json_decode_string_at (str "x" ++ flat_map json_u_escape [65; 8364; 128512]%N ++ cQuote :: str "y")
          (length (str "x"))) [65; 8364; 128512]%N.
Proof.
  split; [by repeat constructor|].
  apply (json_unicode_roundtrip (str "x") (str "y") [65; 8364; 128512]%N).
  by repeat constructor.
Defined.

(** C32: no escape a peer writes, lone and mispaired surrogates included, makes the
    decoder produce an invalid UTF-8 string: on an ASCII line the result is always
    valid. *)
Theorem json_decode_valid_utf8 (s : bytes) (pos : nat) (Hs : Forall (fun c => (N_of_ascii c < 128)%N) s) :
  exists cps, utf8 (json_decode_string_at s pos) cps.
Proof.
  unfold json_decode_string_at.
  apply (loop_inv _ (decode_body s) (fun st => exists cps, utf8 st.2 cps)
    (fun r => exists cps, utf8 r cps)).
  - intros [i out] [i' out'] [cps Hu] E. unfold decode_body in E.
    assert (forall c, (N_of_ascii c < 128)%N -> utf8 (out ++ [c]) (cps ++ [N_of_ascii c])) as Hc.
    { intros c Hc. apply utf8_app; [done|]. econstructor; [|constructor].
      unfold utf8_next. settle_leb. done. }
    assert (N_of_ascii (char_at s i) < 128)%N.
    { unfold char_at. destruct (s !! i) as [c|] eqn:Ei; simpl; [|done].
      by eapply Forall_lookup_1 in Ei; [|exact Hs]. }
    repeat split_match_in E; simplify_eq/=; eauto.
    + match goal with H : simple_escape _ = Some ?d |- _ => 
        assert (N_of_ascii d < 128)%N by (unfold simple_escape in H; 
          repeat split_match_in H; simplify_eq; done) end. eauto.
    + rewrite append_utf8_out. eexists. apply utf8_app; [done|]. apply utf8_one.
      match goal with H : decode_surrogate ?a ?b ?c = _, H' : json_hex4 _ _ = Some ?c |- _ => 
        apply json_hex4_bound in H'; pose proof (decode_surrogate_scalar a b c H') as Hsc;
        rewrite H in Hsc; exact Hsc end.
  - intros [i out] r [cps Hu] E. unfold decode_body in E.
    repeat split_match_in E; simplify_eq/=; eauto using utf8_nil.
  - exists []. constructor.
Qed.

(** A lone high surrogate followed by a letter. *)
Example json_decode_valid_utf8_witness :
  Forall (fun c => (N_of_ascii c < 128)%N) (js "\ud83dA'") /\
  exists cps, utf8 (json_decode_string_at (js "\ud83dA'") 0) cps.
Proof.
  split; [by repeat constructor|].
  apply (json_decode_valid_utf8 (js "\ud83dA'") 0). by repeat constructor.
Defined.
