(* ===== verification/JsonScoped.v ===== *)
(** PeerJson.hpp, second part: scoped reading.  A named member of a named object is
    found at that object's own top level, whatever its siblings nest.

    Positions are [nat] ([size_t] that never exceeds the length of the string), and
    [None] is [npos].  A reader with span results returns the span, [None] when the
    code returns false.  [int depth] is a [nat]: the code never decrements it at
    zero, and a line is shorter than 2^31 bytes. *)
From S2P Require Import Prelude Float64 CScan JsonString.

(** * Operations *)

Definition json_is_space (c : ascii) : bool :=
  Ascii.eqb c " " || Ascii.eqb c cTab || Ascii.eqb c cLF || Ascii.eqb c cCR.

(** From the index after the opening quote. *)
Definition skip_string_body (s : bytes) (limit i : nat) : nat + option nat :=
  if i <? limit then
    let c := char_at s i in
    if Ascii.eqb c cBackslash then inl (S (S i))
    else if Ascii.eqb c cQuote then inr (Some i)
    else inl (S i)
  else inr None.

Definition json_skip_string (s : bytes) (i limit : nat) : option nat :=
  loop (to_go limit) (skip_string_body s limit) None (S i).

(** [while (k < end && json_is_space(s[k])) ++k;] *)
Definition skip_space_body (s : bytes) (limit k : nat) : nat + nat :=
  if (k <? limit) && json_is_space (char_at s k) then inl (S k) else inr k.
Definition json_skip_space (s : bytes) (k limit : nat) : nat :=
  loop (to_go limit) (skip_space_body s limit) k k.

Definition is_open (c : ascii) : bool := Ascii.eqb c "{" || Ascii.eqb c "[".
Definition is_close (c : ascii) : bool := Ascii.eqb c "}" || Ascii.eqb c "]".

(** At depth 0, with a string from [i] to [close]: the position of its value when it
    is the member [key]. *)
Definition member_here (s : bytes) (limit : nat) (key : bytes) (i close : nat)
    : option (option nat) :=
  let k := json_skip_space s (S close) limit in
  if (k <? limit) && Ascii.eqb (char_at s k) ":" then
    let len := close - S i in
    if (len =? length key) && compare_eq s (S i) len key then
      let v := json_skip_space s (S k) limit in
      Some (if v <? limit then Some v else None)
    else None
  else None.

Definition member_body (s : bytes) (limit : nat) (key : bytes) (st : nat * nat)
    : (nat * nat) + option nat :=
  let (i, depth) := st in
  if i <? limit then
    let c := char_at s i in
    if Ascii.eqb c cQuote then
      match json_skip_string s i limit with
      | None => inr None
      | Some close =>
          match (if depth =? 0 then member_here s limit key i close else None) with
          | Some r => inr r
          | None => inl (S close, depth)
          end
      end
    else if is_open c then inl (S i, S depth)
    else if is_close c then
      if depth =? 0 then inr None else inl (S i, depth - 1)
    else inl (S i, depth)
  else inr None.

Definition json_member_value (s : bytes) (begin limit : nat) (key : bytes) : option nat :=
  let limit := limit `min` length s in
  loop (fun st => to_go limit st.1) (member_body s limit key) None (begin, 0).

(** The body of an object: the state is the index and the depth. *)
Definition body_at_body (s : bytes) (limit : nat) (st : nat * nat) : (nat * nat) + option nat :=
  let (i, depth) := st in
  if i <? limit then
    let c := char_at s i in
    if Ascii.eqb c cQuote then
      match json_skip_string s i limit with
      | None => inr None
      | Some close => inl (S close, depth)
      end
    else if Ascii.eqb c "{" then inl (S i, S depth)
    else if Ascii.eqb c "}" then
      if depth - 1 =? 0 then inr (Some i) else inl (S i, depth - 1)
    else inl (S i, depth)
  else inr None.

Definition json_body_at (s : bytes) (pos limit : nat) : option (nat * nat) :=
  let limit := limit `min` length s in
  if (limit <=? pos) || negb (Ascii.eqb (char_at s pos) "{") then None
  else pair (S pos) <$>
       loop (fun st => to_go limit st.1) (body_at_body s limit) None (S pos, 1).

Definition json_root_body (s : bytes) : option (nat * nat) :=
  match find_char s "{" 0 with
  | None => None
  | Some open => json_body_at s open (length s)
  end.

Definition json_object_member (s : bytes) (begin limit : nat) (key : bytes) : option (nat * nat) :=
  match json_member_value s begin limit key with
  | None => None
  | Some v => json_body_at s v limit
  end.

Definition json_string_member (s : bytes) (begin limit : nat) (key : bytes) : bytes :=
  match json_member_value s begin limit key with
  | None => []
  | Some v => if Ascii.eqb (char_at s v) cQuote then json_decode_string_at s (S v) else []
  end.

(** A digit, or a minus then a digit, at [v]. *)
Definition starts_number (s : bytes) (limit v : nat) : bool :=
  let d := if Ascii.eqb (char_at s v) "-" then S v else v in
  (d <? limit) && is_digit (char_at s d).

Definition json_number_member (s : bytes) (begin limit : nat) (key : bytes) (old : double)
    : bool * double :=
  match json_member_value s begin limit key with
  | None => (false, old)
  | Some v => if starts_number s (length s) v then scan_number s v old else (false, old)
  end.

Definition json_bool_member (s : bytes) (begin limit : nat) (key : bytes) : bool :=
  match json_member_value s begin limit key with
  | None => false
  | Some v => compare_eq s v 4 (str "true")
  end.

Definition json_vec3_member (s : bytes) (begin limit : nat) (key : bytes) (old : vec3)
    : bool * vec3 :=
  match json_member_value s begin limit key with
  | None => (false, old)
  | Some v => if Ascii.eqb (char_at s v) "[" then scan_vec3 s (S v) old else (false, old)
  end.

(** * Arrays *)

Definition array_at_body (s : bytes) (limit : nat) (st : nat * nat) : (nat * nat) + option nat :=
  let (i, depth) := st in
  if i <? limit then
    let c := char_at s i in
    if Ascii.eqb c cQuote then
      match json_skip_string s i limit with
      | None => inr None
      | Some close => inl (S close, depth)
      end
    else if is_open c then inl (S i, S depth)
    else if is_close c then
      if depth - 1 =? 0 then inr (if Ascii.eqb c "]" then Some i else None)
      else inl (S i, depth - 1)
    else inl (S i, depth)
  else inr None.

Definition json_array_body_at (s : bytes) (pos limit : nat) : option (nat * nat) :=
  let limit := limit `min` length s in
  if (limit <=? pos) || negb (Ascii.eqb (char_at s pos) "[") then None
  else pair (S pos) <$>
       loop (fun st => to_go limit st.1) (array_at_body s limit) None (S pos, 1).

Definition json_array_member (s : bytes) (begin limit : nat) (key : bytes) : option (nat * nat) :=
  match json_member_value s begin limit key with
  | None => None
  | Some v => json_array_body_at s v limit
  end.

(** The next object of an array span: the new [pos] and the object's body. *)
Definition next_object_body (s : bytes) (limit pos : nat) : nat + option (nat * (nat * nat)) :=
  if pos <? limit then
    let c := char_at s pos in
    if Ascii.eqb c "{" then
      match json_body_at s pos limit with
      | None => inr None
      | Some (b, e) => inr (Some (S e, (b, e)))
      end
    else if Ascii.eqb c cQuote then
      match json_skip_string s pos limit with
      | None => inr None
      | Some close => inl (S close)
      end
    else if Ascii.eqb c "[" then
      match json_array_body_at s pos limit with
      | None => inr None
      | Some (_, e) => inl (S e)
      end
    else inl (S pos)
  else inr None.

Definition json_next_object (s : bytes) (pos limit : nat) : option (nat * (nat * nat)) :=
  let limit := limit `min` length s in
  loop (to_go limit) (next_object_body s limit) None pos.

(** The end of a nested object or array that starts at [i]. *)
Definition nested_at (s : bytes) (i limit : nat) : option (nat * nat) :=
  if Ascii.eqb (char_at s i) "{" then json_body_at s i limit else json_array_body_at s i limit.

Definition string_array_body (s : bytes) (limit max : nat) (st : nat * list bytes)
    : (nat * list bytes) + list bytes :=
  let (i, out) := st in
  if (i <? limit) && (length out <? max) then
    let c := char_at s i in
    if Ascii.eqb c cQuote then
      let out := out ++ [json_decode_string_at s (S i)] in
      match json_skip_string s i limit with
      | None => inr out
      | Some close => inl (S close, out)
      end
    else if is_open c then
      match nested_at s i limit with
      | None => inr out
      | Some (_, e) => inl (S e, out)
      end
    else inl (S i, out)
  else inr out.

Definition json_string_array (s : bytes) (begin limit max : nat) : list bytes :=
  let limit := limit `min` length s in
  loop (fun st => to_go limit st.1) (string_array_body s limit max) [] (begin, []).

(** The bytes a number may go on with. *)
Definition is_number_char (c : ascii) : bool :=
  Ascii.eqb c "." || Ascii.eqb c "e" || Ascii.eqb c "E" || Ascii.eqb c "+"
  || Ascii.eqb c "-" || is_digit c.
Definition skip_number_body (s : bytes) (limit d : nat) : nat + nat :=
  if (d <? limit) && is_number_char (char_at s d) then inl (S d) else inr d.
Definition skip_number (s : bytes) (d limit : nat) : nat :=
  loop (to_go limit) (skip_number_body s limit) d d.

Definition number_array_body (s : bytes) (limit max : nat) (st : nat * list double)
    : (nat * list double) + list double :=
  let (i, out) := st in
  if (i <? limit) && (length out <? max) then
    let c := char_at s i in
    let d := if Ascii.eqb c "-" then S i else i in
    if (d <? limit) && is_digit (char_at s d) then
      let out := match sscanf_lf (drop i s) with Some v => out ++ [v] | None => out end in
      inl (skip_number s d limit, out)
    else if Ascii.eqb c cQuote then
      match json_skip_string s i limit with
      | None => inr out
      | Some close => inl (S close, out)
      end
    else if is_open c then
      match nested_at s i limit with
      | None => inr out
      | Some (_, e) => inl (S e, out)
      end
    else inl (S i, out)
  else inr out.

(** The numbers written to [out], in order; their count is the result. *)
Definition json_number_array (s : bytes) (begin limit max : nat) : list double :=
  let limit := limit `min` length s in
  loop (fun st => to_go limit st.1) (number_array_body s limit max) [] (begin, []).

(** * Termination *)

#[export] Instance skip_string_decreasing s limit :
  Decreasing (to_go limit) (skip_string_body s limit).
Proof.
  intros i i' E. unfold skip_string_body, to_go in *.
  repeat split_match_in E; simplify_eq; lia.
Qed.

#[export] Instance skip_space_decreasing s limit :
  Decreasing (to_go limit) (skip_space_body s limit).
Proof.
  intros i i' E. unfold skip_space_body, to_go in *.
  repeat split_match_in E; simplify_eq; lia.
Qed.

#[export] Instance skip_number_decreasing s limit :
  Decreasing (to_go limit) (skip_number_body s limit).
Proof.
  intros i i' E. unfold skip_number_body, to_go in *.
  repeat split_match_in E; simplify_eq; lia.
Qed.

(** The closing quote: after the opening one, inside the limit, a quote. *)
Lemma json_skip_string_Some s i limit close :
  json_skip_string s i limit = Some close ->
  i < close < limit /\ char_at s close = cQuote.
Proof.
  unfold json_skip_string.
  apply (loop_inv _ (skip_string_body s limit) (fun j => i < j)
    (fun r => r = Some close -> i < close < limit /\ char_at s close = cQuote)).
  - intros j j' Hj E. unfold skip_string_body in E. repeat split_match_in E; simplify_eq; lia.
  - intros j r Hj E ->. unfold skip_string_body in E. repeat split_match_in E; simplify_eq.
    split; [lia|]. by apply Ascii.eqb_eq.
  - lia.
Qed.

Lemma json_skip_space_ge s k limit : k <= json_skip_space s k limit.
Proof.
  apply (loop_inv _ (skip_space_body s limit) (fun j => k <= j) (fun r => k <= r)); [| |done].
  all: intros j j' Hj E; unfold skip_space_body in E; repeat split_match_in E; simplify_eq; lia.
Qed.

(** Facts about the closing quotes and spans in scope. *)
Ltac spans :=
  repeat match goal with
  | H : json_skip_string _ _ _ = Some _ |- _ => apply json_skip_string_Some in H as [? ?]
  end.

#[export] Instance member_decreasing s limit key :
  Decreasing (fun st : nat * nat => to_go limit st.1) (member_body s limit key).
Proof.
  intros [i d] [i' d'] E. unfold member_body, to_go in *. simpl.
  repeat split_match_in E; simplify_eq; spans; lia.
Qed.

#[export] Instance body_at_decreasing s limit :
  Decreasing (fun st : nat * nat => to_go limit st.1) (body_at_body s limit).
Proof.
  intros [i d] [i' d'] E. unfold body_at_body, to_go in *. simpl.
  repeat split_match_in E; simplify_eq; spans; lia.
Qed.

#[export] Instance array_at_decreasing s limit :
  Decreasing (fun st : nat * nat => to_go limit st.1) (array_at_body s limit).
Proof.
  intros [i d] [i' d'] E. unfold array_at_body, to_go in *. simpl.
  repeat split_match_in E; simplify_eq; spans; lia.
Qed.

(** The span of an object lies between its braces, inside the limit and the line. *)
Lemma json_body_at_Some s pos limit b e :
  json_body_at s pos limit = Some (b, e) ->
  b = S pos /\ b <= e < limit /\ e < length s /\ char_at s pos = "{"%char /\ char_at s e = "}"%char.
Proof.
  unfold json_body_at. split_match; [done|].
  match goal with |- context [loop ?m ?f ?d ?st] =>
    assert (forall e', loop m f d st = Some e' ->
      S pos <= e' < limit `min` length s /\ char_at s e' = "}"%char) as Hl end.
  { intros e'. apply (loop_inv _ (body_at_body s _) (fun st => S pos <= st.1)
      (fun r => r = Some e' -> S pos <= e' < limit `min` length s /\ char_at s e' = "}"%char));
      [| |simpl; lia].
    - intros [i d] [i' d'] Hi E. unfold body_at_body in E.
      repeat split_match_in E; simplify_eq/=; spans; lia.
    - intros [i d] r Hi E ->. unfold body_at_body in E.
      repeat split_match_in E; simplify_eq/=. split; [lia|]. by apply Ascii.eqb_eq. }
  intros (e' & He & ?)%fmap_Some. simplify_eq.
  apply Hl in He as [? ?]. repeat split; try lia; [|done].
  apply Ascii.eqb_eq. lia.
Qed.

Lemma json_array_body_at_Some s pos limit b e :
  json_array_body_at s pos limit = Some (b, e) ->
  b = S pos /\ b <= e < limit /\ e < length s /\ char_at s pos = "["%char /\ char_at s e = "]"%char.
Proof.
  unfold json_array_body_at. split_match; [done|].
  match goal with |- context [loop ?m ?f ?d ?st] =>
    assert (forall e', loop m f d st = Some e' ->
      S pos <= e' < limit `min` length s /\ char_at s e' = "]"%char) as Hl end.
  { intros e'. apply (loop_inv _ (array_at_body s _) (fun st => S pos <= st.1)
      (fun r => r = Some e' -> S pos <= e' < limit `min` length s /\ char_at s e' = "]"%char));
      [| |simpl; lia].
    - intros [i d] [i' d'] Hi E. unfold array_at_body in E.
      repeat split_match_in E; simplify_eq/=; spans; lia.
    - intros [i d] r Hi E ->. unfold array_at_body in E.
      repeat split_match_in E; simplify_eq/=. split; [lia|]. by apply Ascii.eqb_eq. }
  intros (e' & He & ?)%fmap_Some. simplify_eq.
  apply Hl in He as [? ?]. repeat split; try lia; [|done].
  apply Ascii.eqb_eq. lia.
Qed.

Ltac spans ::=
  repeat match goal with
  | H : json_skip_string _ _ _ = Some _ |- _ => apply json_skip_string_Some in H as [? ?]
  | H : json_body_at _ _ _ = Some _ |- _ => apply json_body_at_Some in H as (?&?&?&?&?)
  | H : json_array_body_at _ _ _ = Some _ |- _ => apply json_array_body_at_Some in H as (?&?&?&?&?)
  end.

#[export] Instance next_object_decreasing s limit :
  Decreasing (to_go limit) (next_object_body s limit).
Proof.
  intros i i' E. unfold next_object_body, to_go in *.
  repeat split_match_in E; simplify_eq; spans; lia.
Qed.

#[export] Instance string_array_decreasing s limit max :
  Decreasing (fun st : nat * list bytes => to_go limit st.1) (string_array_body s limit max).
Proof.
  intros [i o] [i' o'] E. unfold string_array_body, nested_at, to_go in *. simpl.
  repeat split_match_in E; simplify_eq; spans; lia.
Qed.

Lemma skip_number_gt s d limit :
  (d <? limit) && is_digit (char_at s d) = true -> d < skip_number s d limit.
Proof.
  intros Hd. unfold skip_number. rewrite (loop_unfold _ (skip_number_body s limit)).
  unfold skip_number_body at 1. unfold is_number_char.
  apply andb_true_iff in Hd as [-> ->]. rewrite !orb_true_r. simpl.
  apply (loop_inv _ (skip_number_body s limit) (fun j => d < j) (fun r => d < r)); [| |lia].
  all: intros j j' Hj E; unfold skip_number_body in E; repeat split_match_in E; simplify_eq; lia.
Qed.

#[export] Instance number_array_decreasing s limit max :
  Decreasing (fun st : nat * list double => to_go limit st.1) (number_array_body s limit max).
Proof.
  intros [i o] [i' o'] E. unfold number_array_body, nested_at, to_go in *. simpl.
  split_match_in E; [|done].
  destruct ((_ <? limit) && is_digit _) eqn:Hd.
  - pose proof (skip_number_gt _ _ _ Hd). simplify_eq. split_match; lia.
  - repeat split_match_in E; simplify_eq; spans; lia.
Qed.

Lemma member_here_Some s limit key i close v :
  member_here s limit key i close = Some (Some v) -> close < v < limit.
Proof.
  unfold member_here. intros E. repeat split_match_in E; simplify_eq.
  pose proof (json_skip_space_ge s (S close) limit).
  pose proof (json_skip_space_ge s (S (json_skip_space s (S close) limit)) limit). lia.
Qed.

(** The position a member is found at lies inside the body. *)
Lemma json_member_value_Some s begin limit key v :
  json_member_value s begin limit key = Some v -> begin < v < limit /\ v < length s.
Proof.
  unfold json_member_value.
  apply (loop_inv _ (member_body s _ key) (fun st => begin <= st.1)
    (fun r => r = Some v -> begin < v < limit /\ v < length s)); [| |simpl; lia].
  - intros [i d] [i' d'] Hi E. unfold member_body in E.
    repeat split_match_in E; simplify_eq/=; spans; lia.
  - intros [i d] r Hi E ->. unfold member_body in E.
    repeat split_match_in E; simplify_eq/=; spans.
    repeat split_match_in Heqo0; simplify_eq. apply member_here_Some in Heqo0. lia.
Qed.

(** The next object of an array: the scan moves past it, so the loop that collects
    the objects of an array ends. *)
Lemma json_next_object_Some s pos limit pos' b e :
  json_next_object s pos limit = Some (pos', (b, e)) ->
  pos < b /\ b <= e /\ pos' = S e /\ pos' <= limit /\ pos' <= length s.
Proof.
  unfold json_next_object.
  apply (loop_inv _ (next_object_body s _) (fun j => pos <= j)
    (fun r => r = Some (pos', (b, e)) ->
      pos < b /\ b <= e /\ pos' = S e /\ pos' <= limit /\ pos' <= length s)); [| |lia].
  - intros i i' Hi E. unfold next_object_body in E.
    repeat split_match_in E; simplify_eq/=; spans; lia.
  - intros i r Hi E ->. unfold next_object_body in E.
    repeat split_match_in E; simplify_eq/=; spans; lia.
Qed.
