(* ===== verification/JsonSpec.v ===== *)
(** What the scoped readers promise: a lexical grammar of JSON text and the reading
    of its members.

    The grammar is wider than JSON: a value may nest any text whose strings are
    closed and whose brackets balance, which is all a relay that forwards
    well-formed JSON guarantees, and white space may stand wherever JSON allows it.
    The theorems say that the first member of a name is the one found, whatever
    the values of the other members hold. *)
From S2P Require Import Prelude Float64 CScan JsonString JsonScoped.

(** * Grammar *)

(** What stands between the quotes of a string: no bare quote, every backslash
    followed by the byte it escapes. *)
Inductive str_body : bytes -> Prop :=
  | sb_nil : str_body []
  | sb_char c t : c <> cQuote -> c <> cBackslash -> str_body t -> str_body (c :: t)
  | sb_esc c t : str_body t -> str_body (cBackslash :: c :: t).

Definition quoted (u : bytes) : bytes := cQuote :: u ++ [cQuote].

(** A byte that is no quote and no bracket. *)
Definition plain (c : ascii) : bool :=
  negb (Ascii.eqb c cQuote) && negb (is_open c) && negb (is_close c).

(** Closed strings, balanced brackets, anything else. *)
Inductive balanced : bytes -> Prop :=
  | bal_nil : balanced []
  | bal_char c t : plain c = true -> balanced t -> balanced (c :: t)
  | bal_str u t : str_body u -> balanced t -> balanced (quoted u ++ t)
  | bal_obj u t : balanced u -> balanced t -> balanced ("{"%char :: u ++ "}"%char :: t)
  | bal_arr u t : balanced u -> balanced t -> balanced ("["%char :: u ++ "]"%char :: t).

(** A byte of a number, [true], [false] or [null]. *)
Definition scalar_char (c : ascii) : bool :=
  plain c && negb (json_is_space c) && negb (Ascii.eqb c ":") && negb (Ascii.eqb c ",").

(** The text of one value. *)
Inductive value_text : bytes -> Prop :=
  | v_scalar c u : Forall (fun c => scalar_char c = true) (c :: u) -> value_text (c :: u)
  | v_str u : str_body u -> value_text (quoted u)
  | v_obj u : balanced u -> value_text ("{"%char :: u ++ ["}"%char])
  | v_arr u : balanced u -> value_text ("["%char :: u ++ ["]"%char]).

Definition spaces (w : bytes) : Prop := Forall (fun c => json_is_space c = true) w.

(** A member: its key as written, its value, and the white space around them. *)
Record member := Member { m_key : bytes; m_val : bytes; ws1 : bytes; ws2 : bytes;
                          ws3 : bytes; ws4 : bytes }.

Record member_ok (m : member) : Prop := MemberOk {
  key_ok : str_body (m_key m);
  val_ok : value_text (m_val m);
  ws1_ok : spaces (ws1 m); ws2_ok : spaces (ws2 m);
  ws3_ok : spaces (ws3 m); ws4_ok : spaces (ws4 m)
}.

(** Up to the value, and the whole member. *)
Definition member_head (m : member) : bytes :=
  ws1 m ++ quoted (m_key m) ++ ws2 m ++ ":"%char :: ws3 m.
Definition member_text (m : member) : bytes := member_head m ++ m_val m ++ ws4 m.

(** The body of an object: its members, separated by commas. *)
Fixpoint members_text (ms : list member) : bytes :=
  match ms with
  | [] => []
  | [m] => member_text m
  | m :: ms' => member_text m ++ ","%char :: members_text ms'
  end.

(** [ms] with a comma after each: what precedes a member that is not the first. *)
Definition members_before (ms : list member) : bytes :=
  flat_map (fun m => member_text m ++ [","%char]) ms.

Definition object_text (ms : list member) : bytes := "{"%char :: members_text ms ++ ["}"%char].

(** * Scanning lemmas

    Each lemma takes the text as [p ++ u ++ t] and the scan from [length p]. *)

(** Reads the byte under the index. *)
Lemma char_at_len p c t : char_at (p ++ c :: t) (length p) = c.
Proof. apply char_at_mid. Qed.

Lemma char_here s p c t i : s = p ++ c :: t -> i = length p -> char_at s i = c.
Proof. intros -> ->. apply char_at_len. Qed.

Lemma snoc_assoc {A} (p : list A) c t : p ++ c :: t = (p ++ [c]) ++ t.
Proof. by rewrite <- app_assoc. Qed.

Lemma length_snoc {A} (p : list A) c : S (length p) = length (p ++ [c]).
Proof. rewrite length_app; simpl; lia. Qed.

Definition skip_from (s : bytes) (limit i : nat) : option nat :=
  loop (to_go limit) (skip_string_body s limit) None i.

Lemma skip_from_unfold s limit i :
  skip_from s limit i = match skip_string_body s limit i with
                        | inl i' => skip_from s limit i'
                        | inr r => r
                        end.
Proof. apply (loop_unfold _ (skip_string_body s limit)). Qed.

Lemma skip_from_body u p t limit :
  str_body u -> length p + length u < limit ->
  skip_from (p ++ u ++ cQuote :: t) limit (length p) = Some (length p + length u).
Proof.
  intros Hu. revert p. induction Hu as [|c u H1 H2 _ IH|c u _ IH]; intros p Hl;
    rewrite skip_from_unfold; unfold skip_string_body; simpl in *;
    nat_case; rewrite char_at_len.
  - simpl. f_equal. lia.
  - rewrite !ascii_eqb_false by done.
    rewrite snoc_assoc, (length_snoc p c), IH; len || (f_equal; len).
  - rewrite ascii_eqb_refl.
    rewrite (snoc_assoc p), (snoc_assoc (p ++ _)), (length_snoc p cBackslash),
      (length_snoc (p ++ _) c), IH; len || (f_equal; len).
Qed.

Lemma json_skip_string_quoted u p t limit :
  str_body u -> S (length p + length u) < limit ->
  json_skip_string (p ++ quoted u ++ t) (length p) limit = Some (S (length p + length u)).
Proof.
  intros Hu Hl.
  change (skip_from (p ++ quoted u ++ t) limit (S (length p)) = Some (S (length p + length u))).
  unfold quoted. rewrite <- app_comm_cons, <- app_assoc. simpl.
  rewrite snoc_assoc, (length_snoc p cQuote).
  rewrite (skip_from_body u (p ++ [cQuote])) by (done || len). f_equal. len.
Qed.

Lemma json_skip_space_unfold s k limit :
  json_skip_space s k limit =
  if (k <? limit) && json_is_space (char_at s k) then json_skip_space s (S k) limit else k.
Proof.
  unfold json_skip_space. rewrite (loop_unfold _ (skip_space_body s limit)).
  unfold skip_space_body at 1. split_match; [|done].
  match goal with |- loop ?m ?f ?d ?st = loop ?m ?f ?d' ?st =>
    pose proof (iterate_terminates m f (S (m st)) d st ltac:(lia)) as H1;
    pose proof (iterate_terminates m f (S (m st)) d' st ltac:(lia)) as H2 end.
  congruence.
Qed.

Lemma json_skip_space_spaces w p t limit :
  spaces w -> length p + length w <= limit ->
  json_skip_space (p ++ w ++ t) (length p) limit =
  json_skip_space (p ++ w ++ t) (length p + length w) limit.
Proof.
  intros Hw. revert p. induction Hw as [|c w Hc _ IH]; intros p Hl.
  - f_equal. simpl. lia.
  - rewrite json_skip_space_unfold. simpl. rewrite char_at_len, Hc.
    simpl in Hl. nat_case. simpl.
    rewrite (snoc_assoc p c), (length_snoc p c), IH by len. f_equal. len.
Qed.

(** Past white space, at a byte that is none (or at the limit). *)
Lemma json_skip_space_stop w p c t limit :
  spaces w -> json_is_space c = false -> length p + length w <= limit ->
  json_skip_space (p ++ w ++ c :: t) (length p) limit = length p + length w.
Proof.
  intros Hw Hc Hl. rewrite json_skip_space_spaces by done.
  rewrite json_skip_space_unfold.
  rewrite app_assoc, <- length_app, char_at_len, Hc. by rewrite andb_false_r.
Qed.

Lemma json_skip_space_limit w p t :
  spaces w ->
  json_skip_space (p ++ w ++ t) (length p) (length p + length w) = length p + length w.
Proof.
  intros Hw. rewrite json_skip_space_spaces by done.
  rewrite json_skip_space_unfold. by nat_case.
Qed.

(** Any loop that keeps its depth over plain bytes and strings, and moves it by [wb]
    over braces and by [wa] over brackets, passes a balanced text. *)
Section Balanced.
Context (body : bytes -> nat -> nat * nat -> (nat * nat) + option nat) (wb wa : nat).
Context `{!forall s limit, Decreasing (fun st : nat * nat => to_go limit st.1) (body s limit)}.
Context (s : bytes) (limit : nat).

Definition run (st : nat * nat) : option nat :=
  loop (fun st => to_go limit st.1) (body s limit) None st.

Lemma run_step st st' : body s limit st = inl st' -> run st = run st'.
Proof. intros E. unfold run at 1. rewrite (loop_unfold _ (body s limit)), E. done. Qed.

Lemma run_exit st r : body s limit st = inr r -> run st = r.
Proof. intros E. unfold run. rewrite (loop_unfold _ (body s limit)), E. done. Qed.

Record passes : Prop := Passes {
  pass_plain i d : i < limit -> plain (char_at s i) = true ->
    body s limit (i, S d) = inl (S i, S d);
  pass_str i d c : i < limit -> char_at s i = cQuote -> json_skip_string s i limit = Some c ->
    body s limit (i, S d) = inl (S c, S d);
  pass_obj_open i d : i < limit -> char_at s i = "{"%char ->
    body s limit (i, S d) = inl (S i, S (wb + d));
  pass_obj_close i d : i < limit -> char_at s i = "}"%char ->
    body s limit (i, S (wb + d)) = inl (S i, S d);
  pass_arr_open i d : i < limit -> char_at s i = "["%char ->
    body s limit (i, S d) = inl (S i, S (wa + d));
  pass_arr_close i d : i < limit -> char_at s i = "]"%char ->
    body s limit (i, S (wa + d)) = inl (S i, S d)
}.

Lemma run_balanced (u p t : bytes) d :
  passes -> balanced u -> s = p ++ u ++ t -> length p + length u <= limit ->
  run (length p, S d) = run (length p + length u, S d).
Proof.
  intros Hp Hu. revert p t d.
  induction Hu as [|c u Hc _ IH|v u Hv _ IH|v u _ IHv _ IH|v u _ IHv _ IH];
    intros p t d E Hl.
  - simpl. by rewrite Nat.add_0_r.
  - rewrite (run_step _ (S (length p), S d)).
    2:{ apply (pass_plain Hp); [len|]. by rewrite (char_here _ p c (u ++ t)) by first [done | rewrite E; apps]. }
    rewrite (length_snoc p c), (IH (p ++ [c]) t); [f_equal; f_equal; len|rewrite E; apps|len].
  - assert (json_skip_string s (length p) limit
            = Some (S (length p + length v))) as Hs.
    { rewrite E, <- app_assoc. apply json_skip_string_quoted; [done|]. unfold quoted in Hl. len. }
    rewrite (run_step _ (S (S (length p + length v)), S d)).
    2:{ apply (pass_str Hp) with (c := S (length p + length v)); [unfold quoted in Hl; len| |done].
        apply (char_here _ p _ ((v ++ [cQuote]) ++ u ++ t)); [rewrite E; unfold quoted; apps|done]. }
    replace (S (S (length p + length v))) with (length (p ++ quoted v)) by (unfold quoted; len).
    rewrite (IH (p ++ quoted v) t); [f_equal; f_equal; len|rewrite E; apps|len].
  - rewrite (run_step _ (S (length p), S (wb + d))).
    2:{ apply (pass_obj_open Hp); [len|]. eapply char_here; [rewrite E; apps|done]. }
    rewrite (length_snoc p "{"%char), (IHv (p ++ ["{"%char]) ("}"%char :: u ++ t)); [|rewrite E; apps|len].
    rewrite <- length_app.
    rewrite (run_step _ (S (length ((p ++ ["{"%char]) ++ v)), S d)).
    2:{ apply (pass_obj_close Hp); [len|].
        apply (char_here _ ((p ++ ["{"%char]) ++ v) _ (u ++ t)); [rewrite E; apps|done]. }
    rewrite (length_snoc _ "}"%char), (IH _ t); [f_equal; f_equal; len|rewrite E; apps|len].
  - rewrite (run_step _ (S (length p), S (wa + d))).
    2:{ apply (pass_arr_open Hp); [len|]. eapply char_here; [rewrite E; apps|done]. }
    rewrite (length_snoc p "["%char), (IHv (p ++ ["["%char]) ("]"%char :: u ++ t)); [|rewrite E; apps|len].
    rewrite <- length_app.
    rewrite (run_step _ (S (length ((p ++ ["["%char]) ++ v)), S d)).
    2:{ apply (pass_arr_close Hp); [len|].
        apply (char_here _ ((p ++ ["["%char]) ++ v) _ (u ++ t)); [rewrite E; apps|done]. }
    rewrite (length_snoc _ "]"%char), (IH _ t); [f_equal; f_equal; len|rewrite E; apps|len].
Qed.
End Balanced.

Lemma plain_spec c :
  plain c = true ->
  Ascii.eqb c cQuote = false /\ Ascii.eqb c "{" = false /\ Ascii.eqb c "[" = false /\
  Ascii.eqb c "}" = false /\ Ascii.eqb c "]" = false.
Proof.
  unfold plain, is_open, is_close.
  repeat (destruct (Ascii.eqb c _); try done).
Qed.

Ltac pass_tac f :=
  split; intros; unfold f, is_open, is_close; simpl;
    match goal with
    | H : plain _ = true |- _ =>
        apply plain_spec in H as (E1 & E2 & E3 & E4 & E5); rewrite ?E1, ?E2, ?E3, ?E4, ?E5
    | H : char_at _ _ = _ |- _ => rewrite H
    end;
    nat_case; rewrite ?Nat.sub_0_r; try done;
    repeat match goal with H : json_skip_string _ _ _ = _ |- _ => rewrite H end; done.

Lemma body_at_passes s limit : passes body_at_body 1 0 s limit.
Proof. pass_tac body_at_body. Qed.

Lemma array_at_passes s limit : passes array_at_body 1 1 s limit.
Proof. pass_tac array_at_body. Qed.

Lemma member_passes key s limit : passes (fun s l => member_body s l key) 1 1 s limit.
Proof. pass_tac member_body. Qed.

(** * Spans of objects and arrays *)

Lemma json_body_at_object u p t limit :
  balanced u -> length p + S (length u) < limit ->
  json_body_at (p ++ "{"%char :: u ++ "}"%char :: t) (length p) limit
  = Some (S (length p), S (length p) + length u).
Proof.
  intros Hu Hl. unfold json_body_at.
  set (s := p ++ _). assert (length s = length p + S (length u + S (length t))) as Hs by (unfold s; len).
  assert (char_at s (length p) = "{"%char) as -> by apply char_at_len.
  nat_case. simpl.
  change (loop _ _ _ _) with (run body_at_body s (limit `min` length s) (S (length p), 1)).
  rewrite (length_snoc p "{"%char).
  rewrite (run_balanced body_at_body 1 0 s _ u _ ("}"%char :: t)) by
    first [apply body_at_passes | done | len | (unfold s; by rewrite <- app_assoc)].
  rewrite <- length_app.
  rewrite (run_exit body_at_body _ _ _ (Some (length ((p ++ ["{"%char]) ++ u)))).
  - simpl. do 2 f_equal; len.
  - unfold body_at_body.
    assert (char_at s (length ((p ++ ["{"%char]) ++ u)) = "}"%char) as ->
      by (unfold s; rewrite snoc_assoc, app_assoc; apply char_at_len).
    nat_case; [done|len].
Qed.

Lemma json_array_body_at_array u p t limit :
  balanced u -> length p + S (length u) < limit ->
  json_array_body_at (p ++ "["%char :: u ++ "]"%char :: t) (length p) limit
  = Some (S (length p), S (length p) + length u).
Proof.
  intros Hu Hl. unfold json_array_body_at.
  set (s := p ++ _). assert (length s = length p + S (length u + S (length t))) as Hs by (unfold s; len).
  assert (char_at s (length p) = "["%char) as -> by apply char_at_len.
  nat_case. simpl.
  change (loop _ _ _ _) with (run array_at_body s (limit `min` length s) (S (length p), 1)).
  rewrite (length_snoc p "["%char).
  rewrite (run_balanced array_at_body 1 1 s _ u _ ("]"%char :: t)) by
    first [apply array_at_passes | done | len | (unfold s; by rewrite <- app_assoc)].
  rewrite <- length_app.
  rewrite (run_exit array_at_body _ _ _ (Some (length ((p ++ ["["%char]) ++ u)))).
  - simpl. do 2 f_equal; len.
  - unfold array_at_body.
    assert (char_at s (length ((p ++ ["["%char]) ++ u)) = "]"%char) as ->
      by (unfold s; rewrite snoc_assoc, app_assoc; apply char_at_len).
    nat_case; [done|len].
Qed.

(** * The members of an object *)

Lemma value_text_head v :
  value_text v ->
  exists c u, v = c :: u /\ json_is_space c = false /\ Ascii.eqb c ":" = false.
Proof.
  intros [c u Hc|u _|u _|u _].
  - exists c, u. apply Forall_inv in Hc. unfold scalar_char in Hc.
    rewrite !andb_true_iff, !negb_true_iff in Hc. tauto.
  - by exists cQuote, (u ++ [cQuote]).
  - by exists "{"%char, (u ++ ["}"%char]).
  - by exists "["%char, (u ++ ["]"%char]).
Qed.

Lemma space_plain c : json_is_space c = true -> plain c = true.
Proof.
  unfold json_is_space. rewrite !orb_true_iff, !Ascii.eqb_eq.
  by intros [[[-> | ->] | ->] | ->].
Qed.

Lemma plains_spaces w : spaces w -> Forall (fun c => plain c = true) w.
Proof. apply Forall_impl. exact space_plain. Qed.

Section Members.
Context (key s : bytes) (limit : nat).
Abbreviation find := (run (fun s l => member_body s l key) s limit).

(** Text without quotes and brackets is passed at any depth. *)
Lemma find_plains w p t d :
  Forall (fun c => plain c = true) w -> s = p ++ w ++ t -> length p + length w <= limit ->
  find (length p, d) = find (length (p ++ w), d).
Proof.
  intros Hw. revert p. induction Hw as [|c w Hc _ IH]; intros p E Hl.
  - by rewrite app_nil_r.
  - rewrite (run_step _ _ _ _ (S (length p), d)).
    + rewrite (length_snoc p c), IH; [f_equal; f_equal; len|rewrite E; apps|len].
    + unfold member_body. rewrite (char_here _ p c (w ++ t)) by done.
      apply plain_spec in Hc as (E1 & E2 & E3 & E4 & E5). unfold is_open, is_close.
      rewrite E1, E2, E3, E4, E5. simpl in Hl. by nat_case.
Qed.

(** A string at the object's own level that is not the member sought. *)
Lemma find_string u p t :
  str_body u -> s = p ++ quoted u ++ t -> length p + length (quoted u) <= limit ->
  member_here s limit key (length p) (S (length p + length u)) = None ->
  find (length p, 0) = find (length (p ++ quoted u), 0).
Proof.
  intros Hu E Hl Hm.
  assert (json_skip_string s (length p) limit = Some (S (length p + length u))) as Hs.
  { rewrite E. apply json_skip_string_quoted; [done|]. unfold quoted in Hl. len. }
  rewrite (run_step _ _ _ _ (S (S (length p + length u)), 0)).
  - f_equal. f_equal. unfold quoted. len.
  - unfold member_body.
    rewrite (char_here _ p cQuote ((u ++ [cQuote]) ++ t)) by (rewrite ?E; done).
    rewrite Hs. simpl. rewrite Hm. unfold quoted in Hl. nat_case; [done|len].
Qed.

(** A nested object or array is passed over, whatever it holds. *)
Lemma find_nested o c u p t :
  (o, c) = ("{", "}")%char \/ (o, c) = ("[", "]")%char ->
  balanced u -> s = p ++ (o :: u ++ [c]) ++ t -> length p + length (o :: u ++ [c]) <= limit ->
  find (length p, 0) = find (length (p ++ o :: u ++ [c]), 0).
Proof.
  intros Hoc Hu E Hl.
  assert (is_open o = true /\ is_close c = true /\ Ascii.eqb o cQuote = false /\
          Ascii.eqb c cQuote = false /\ is_open c = false) as (H1 & H2 & H3 & H4 & H5)
    by (destruct Hoc; simplify_eq; done).
  rewrite (run_step _ _ _ _ (S (length p), 1)).
  2:{ unfold member_body. rewrite (char_here _ p o ((u ++ [c]) ++ t)), H3, H1 by (rewrite ?E; apps).
      simpl in Hl. by nat_case. }
  rewrite (length_snoc p o).
  rewrite (run_balanced _ 1 1 s limit u _ (c :: t)) by
    first [apply member_passes | done | rewrite E; apps | len].
  rewrite <- length_app, (run_step _ _ _ _ (S (length ((p ++ [o]) ++ u)), 0)).
  2:{ unfold member_body. rewrite (char_here _ ((p ++ [o]) ++ u) c t), H4, H5, H2 by (rewrite ?E; apps).
      simpl. nat_case; [done|len]. }
  f_equal. f_equal. len.
Qed.

(** A value whose end no colon follows is passed over. *)
Lemma find_value v p t :
  value_text v -> s = p ++ v ++ t -> length p + length v <= limit ->
  (let k := json_skip_space s (length p + length v) limit in
   (k <? limit) && Ascii.eqb (char_at s k) ":" = false) ->
  find (length p, 0) = find (length (p ++ v), 0).
Proof.
  intros [c u Hc|u Hu|u Hu|u Hu] E Hl Hk.
  - eapply find_plains; [|done|done]. revert Hc. apply Forall_impl.
    intros x Hx. simpl in Hx. unfold scalar_char in Hx.
    rewrite !andb_true_iff in Hx. tauto.
  - eapply find_string; [done..|]. unfold member_here.
    replace (S (S (length p + length u))) with (length p + length (quoted u)) by (unfold quoted; len).
    cbv zeta in Hk. cbv zeta. by rewrite Hk.
  - eapply (find_nested "{"); eauto.
  - eapply (find_nested "["); eauto.
Qed.

Lemma member_here_hit q u w2 w3 c r :
  u = key -> spaces w2 -> spaces w3 -> json_is_space c = false ->
  s = q ++ quoted u ++ w2 ++ ":"%char :: w3 ++ c :: r ->
  length (q ++ quoted u ++ w2 ++ ":"%char :: w3) < limit ->
  member_here s limit key (length q) (S (length q + length u))
  = Some (Some (length (q ++ quoted u ++ w2 ++ ":"%char :: w3))).
Proof.
  intros Hu H2 H3 Hc E Hl. unfold member_here.
  replace (S (S (length q + length u))) with (length (q ++ quoted u)) by (unfold quoted; len).
  assert (json_skip_space s (length (q ++ quoted u)) limit = length (q ++ quoted u ++ w2)) as ->.
  { rewrite E, app_assoc, json_skip_space_stop by first [done | len]. len. }
  rewrite (char_here s (q ++ quoted u ++ w2) ":"%char (w3 ++ c :: r)) by
    first [rewrite E; apps | len].
  nat_case; [|len]. cbn [andb].
  replace (S (length q + length u) - S (length q)) with (length u) by lia.
  assert (compare_eq s (S (length q)) (length u) key = true) as ->.
  { apply compare_eq_true. rewrite E. unfold quoted. simpl.
    rewrite snoc_assoc, (length_snoc q cQuote), <- (app_assoc u). by rewrite substr_mid. }
  rewrite Hu, Nat.eqb_refl. cbn [andb].
  rewrite <- Hu, (length_snoc (q ++ quoted u ++ w2) ":"%char).
  assert (json_skip_space s (length ((q ++ quoted u ++ w2) ++ [":"%char])) limit
          = length (q ++ quoted u ++ w2 ++ ":"%char :: w3)) as ->.
  { replace s with (((q ++ quoted u ++ w2) ++ [":"%char]) ++ w3 ++ c :: r) by (rewrite E; apps).
    rewrite json_skip_space_stop by first [done | len]. len. }
  by nat_case.
Qed.

Lemma member_here_miss q u w2 t :
  u <> key -> s = q ++ quoted u ++ w2 ++ t ->
  member_here s limit key (length q) (S (length q + length u)) = None.
Proof.
  intros Hu E. unfold member_here. split_match; [|done].
  replace (S (length q + length u) - S (length q)) with (length u) by lia.
  destruct (compare_eq s (S (length q)) (length u) key) eqn:Hc; [|by rewrite andb_false_r].
  apply compare_eq_true in Hc. rewrite E in Hc. unfold quoted in Hc. simpl in Hc.
  rewrite snoc_assoc, (length_snoc q cQuote), <- (app_assoc u), substr_mid in Hc. done.
Qed.

(** The member sought: the position of its value. *)
Lemma find_member_hit m p c r :
  member_ok m -> m_key m = key -> json_is_space c = false ->
  s = p ++ member_head m ++ c :: r -> length (p ++ member_head m) < limit ->
  find (length p, 0) = Some (length (p ++ member_head m)).
Proof.
  intros [Hkey _ H1 H2 H3 _] Hk Hc E Hl. unfold member_head in *.
  rewrite (find_plains (ws1 m) p (quoted (m_key m) ++ ws2 m ++ ":"%char :: ws3 m ++ c :: r))
    by first [by apply plains_spaces | rewrite E; apps | len].
  set (q := p ++ ws1 m).
  assert (s = q ++ quoted (m_key m) ++ ws2 m ++ ":"%char :: ws3 m ++ c :: r) as Es
    by (rewrite E; unfold q; apps).
  unfold quoted in Hl.
  rewrite (run_exit _ _ _ _ (Some (length (p ++ ws1 m ++ quoted (m_key m) ++ ws2 m ++ ":"%char :: ws3 m)))); [done|].
  unfold member_body.
  rewrite (char_here _ q cQuote ((m_key m ++ [cQuote]) ++ ws2 m ++ ":"%char :: ws3 m ++ c :: r)) by (rewrite ?Es; done).
  assert (json_skip_string s (length q) limit = Some (S (length q + length (m_key m)))) as ->
    by (rewrite Es; apply json_skip_string_quoted; [done|unfold q; len]).
  unfold q at 1. nat_case; [|len]. simpl.
  assert (member_here s limit key (length q) (S (length q + length (m_key m)))
          = Some (Some (length (q ++ quoted (m_key m) ++ ws2 m ++ ":"%char :: ws3 m)))) as ->;
    [|unfold q; by rewrite <- app_assoc].
  apply (member_here_hit q (m_key m) (ws2 m) (ws3 m) c r); try done.
  unfold q, quoted; len.
Qed.

(** Another member: past its colon. *)
Lemma find_member_key_miss m p t :
  member_ok m -> m_key m <> key ->
  s = p ++ member_head m ++ t -> length (p ++ member_head m) <= limit ->
  find (length p, 0) = find (length (p ++ member_head m), 0).
Proof.
  intros [Hkey _ H1 H2 H3 _] Hk E Hl. unfold member_head in *.
  rewrite (find_plains (ws1 m) p (quoted (m_key m) ++ ws2 m ++ ":"%char :: ws3 m ++ t))
    by first [by apply plains_spaces | rewrite E; apps | len].
  set (q := p ++ ws1 m). set (q' := q ++ quoted (m_key m)).
  rewrite (find_string (m_key m) q (ws2 m ++ ":"%char :: ws3 m ++ t)).
  - rewrite (find_plains (ws2 m ++ ":"%char :: ws3 m) q' t).
    + unfold q', q. f_equal. f_equal. len.
    + apply Forall_app; split; [by apply plains_spaces|].
      constructor; [done|by apply plains_spaces].
    + rewrite E; unfold q', q; apps.
    + unfold q', q; len.
  - done.
  - rewrite E; unfold q; apps.
  - unfold q; len.
  - apply (member_here_miss q (m_key m) (ws2 m) (":"%char :: ws3 m ++ t)); [done|].
    rewrite E; unfold q; apps.
Qed.

Lemma find_member_miss m p t :
  member_ok m -> m_key m <> key ->
  s = p ++ member_text m ++ t -> length (p ++ member_text m) <= limit ->
  (limit = length (p ++ member_text m) \/ exists t', t = ","%char :: t') ->
  find (length p, 0) = find (length (p ++ member_text m), 0).
Proof.
  intros Hm Hk E Hl Hend. unfold member_text in *.
  rewrite (find_member_key_miss m p (m_val m ++ ws4 m ++ t)) by first [done | rewrite E; apps | len].
  set (q := p ++ member_head m). set (q' := q ++ m_val m).
  assert (s = q' ++ ws4 m ++ t) as Es by (rewrite E; unfold q', q; apps).
  rewrite (find_value (m_val m) q (ws4 m ++ t)).
  - rewrite (find_plains (ws4 m) q' t); [unfold q', q; f_equal; f_equal; len| |done|unfold q', q; len].
    apply plains_spaces, Hm.
  - apply Hm.
  - rewrite Es; unfold q'; apps.
  - unfold q; len.
  - rewrite <- length_app. fold q'. cbv zeta. destruct Hend as [Hlim|[t' ->]].
    + assert (limit = length q' + length (ws4 m)) as -> by (rewrite Hlim; unfold q', q; len).
      rewrite Es, json_skip_space_limit by apply Hm. by nat_case.
    + rewrite Es, (json_skip_space_stop (ws4 m)) by
        first [apply Hm | done | unfold q', q; len].
      rewrite app_assoc, <- length_app, char_at_len. by rewrite andb_false_r.
Qed.
End Members.

(** * Members of an object in a line

    [object_at s b e ms]: the bytes [b..e) of [s] are the members [ms], and the closing
    brace follows. *)

Definition object_at (s : bytes) (b e : nat) (ms : list member) : Prop :=
  exists p t, s = p ++ members_text ms ++ "}"%char :: t /\ b = length p /\
    e = length p + length (members_text ms) /\ Forall member_ok ms.

(** The value of the first member of a name, and where it stands in [members_text]. *)
Fixpoint first (key : bytes) (ms : list member) : option (nat * bytes) :=
  match ms with
  | [] => None
  | m :: ms' =>
      if bool_decide (m_key m = key) then Some (length (member_head m), m_val m)
      else (fun r => (S (length (member_text m)) + r.1, r.2)) <$> first key ms'
  end.

(** The same with the position dropped: what an object maps a name to. *)
Definition field (key : bytes) (ms : list member) : option bytes := snd <$> first key ms.

Lemma members_text_cons m m' ms :
  members_text (m :: m' :: ms) = member_text m ++ ","%char :: members_text (m' :: ms).
Proof. done. Qed.

Lemma find_members key s limit ms : forall p t,
  Forall member_ok ms -> s = p ++ members_text ms ++ t ->
  limit = length p + length (members_text ms) ->
  run (fun s l => member_body s l key) s limit (length p, 0)
  = (fun r => length p + r.1) <$> first key ms.
Proof.
  induction ms as [|m ms IH]; intros p t Hms E Hl.
  - simpl in *. apply (run_exit _ _ _ _ None). unfold member_body. by nat_case.
  - apply Forall_cons_1 in Hms as [Hm Hms].
    destruct (value_text_head (m_val m) (val_ok m Hm)) as (c & u & Hv & Hc & _).
    simpl first. case_bool_decide as Hk.
    + assert (exists r, members_text (m :: ms) = member_head m ++ m_val m ++ r) as [r Er].
      { destruct ms as [|m' ms]; simpl; unfold member_text.
        - exists (ws4 m). apps.
        - eexists. rewrite <- !app_assoc. done. }
      rewrite Er, Hv in Hl, E.
      rewrite (find_member_hit key s limit m p c (u ++ r ++ t)) by first [done | rewrite E; apps | len].
      simpl. f_equal. len.
    + destruct ms as [|m' ms].
      * simpl members_text in *.
        rewrite (find_member_miss key s limit m p t) by first [done | len | left; len].
        simpl. apply (run_exit _ _ _ _ None). unfold member_body. nat_case; [len|done].
      * rewrite members_text_cons in E, Hl.
        rewrite (find_member_miss key s limit m p (","%char :: members_text (m' :: ms) ++ t)) by
          first [done | rewrite E; apps | len | right; eauto].
        set (q := p ++ member_text m).
        rewrite (find_plains key s limit [","%char] q (members_text (m' :: ms) ++ t)) by
          first [by repeat constructor | rewrite E; unfold q; apps | unfold q; len].
        rewrite (IH (q ++ [","%char]) t) by first [done | rewrite E; unfold q; apps | unfold q; len].
        destruct (first key (m' :: ms)) as [[i v]|]; [|done]. simpl. f_equal. unfold q; len.
Qed.

(** The scan of an object's members, as the readers run it. *)
Lemma json_member_value_at s b e ms key :
  object_at s b e ms ->
  json_member_value s b e key = (fun r => b + r.1) <$> first key ms.
Proof.
  intros (p & t & E & -> & -> & Hms). unfold json_member_value.
  replace ((length p + length (members_text ms)) `min` length s)
    with (length p + length (members_text ms)) by (rewrite E; len).
  by apply (find_members key s _ ms p ("}"%char :: t)).
Qed.

(** A byte that may follow a value. *)
Definition ends_value (c : ascii) : bool :=
  json_is_space c || Ascii.eqb c "," || Ascii.eqb c "}".

Lemma ends_value_true c : ends_value c = true -> ~ (c ∈ str "true").
Proof.
  unfold ends_value, json_is_space. rewrite !orb_true_iff, !Ascii.eqb_eq.
  intros [[[[[-> | ->] | ->] | ->] | ->] | ->]; unfold str; simpl;
    rewrite !not_elem_of_cons; repeat split; done || apply not_elem_of_nil.
Qed.

Lemma ws_head w x t :
  spaces w -> ends_value x = true -> exists c t', w ++ x :: t = c :: t' /\ ends_value c = true /\ length t <= length t'.
Proof.
  intros Hw Hx. destruct w as [|y w]; simpl; eexists _, _; [done|]. split; [done|].
  split; [|len]. apply Forall_inv in Hw. unfold ends_value. by rewrite Hw.
Qed.

(** Where the value stands, and what follows it. *)
Lemma first_at s b e ms key i v :
  object_at s b e ms -> first key ms = Some (i, v) ->
  exists q c t, s = q ++ v ++ c :: t /\ length q = b + i /\ b + i + length v <= e /\
    value_text v /\ ends_value c = true /\ e < length s.
Proof.
  intros (p & t & -> & -> & -> & Hms). revert p i. induction ms as [|m ms IH]; [done|].
  intros p i Hf. apply Forall_cons_1 in Hms as [Hm Hms]. simpl in Hf. case_bool_decide.
  - simplify_eq. assert (exists c t',
      members_text (m :: ms) ++ "}"%char :: t = member_head m ++ m_val m ++ c :: t' /\ ends_value c = true /\
      length t <= length t') as (c & t' & E & Hc & Ht).
    { destruct ms as [|m' ms].
      - destruct (ws_head (ws4 m) "}" t) as (c & t' & E & Hc & Ht); [apply Hm|done|].
        exists c, t'. rewrite <- E. split; [|done]. simpl. unfold member_text. apps.
      - destruct (ws_head (ws4 m) "," (members_text (m' :: ms) ++ "}"%char :: t)) as (c & t' & E & Hc & Ht);
          [apply Hm|done|].
        exists c, t'. rewrite <- E. split; [|split; [done|len]]. rewrite members_text_cons. unfold member_text. apps. }
    exists (p ++ member_head m), c, t'. rewrite E. repeat split; [apps|len| |apply Hm|done|].
    all: apply (f_equal length) in E; len.
  - destruct (first key ms) as [[j v']|] eqn:Ef; [|done]. simpl in Hf. simplify_eq.
    destruct ms as [|m' ms]; [done|].
    destruct (IH Hms (p ++ member_text m ++ [","%char]) j eq_refl) as (q & c & r & E & Hq & He & Hv & Hc & Hl).
    exists q, c, r. rewrite members_text_cons.
    repeat split; [rewrite <- E; apps|len|len|done|done|len].
Qed.
