(* ===== verification/JsonReaders.v ===== *)
(** The scoped readers against the abstract object they read: [object_at] relates a
    span of the line to a list of members, and every reader of PeerJson.hpp returns
    what [field] of that list says. *)
From S2P Require Import Prelude Float64 CScan JsonString JsonScoped JsonSpec.

(** * Helpers *)

Lemma substr_at q (v t : bytes) i : length q = i -> substr (q ++ v ++ t) i (length v) = v.
Proof. intros <-. apply substr_mid. Qed.

(** The position a reader works from, with the text there. *)
Lemma field_at s b e ms key v :
  object_at s b e ms -> field key ms = Some v ->
  exists q c t, s = q ++ v ++ c :: t /\ json_member_value s b e key = Some (length q) /\
    b <= length q /\ length q + length v <= e /\ value_text v /\ ends_value c = true /\ e < length s.
Proof.
  intros Ho Hf. unfold field in Hf. destruct (first key ms) as [[i v']|] eqn:Ef; [|done].
  simpl in Hf. simplify_eq.
  destruct (first_at _ _ _ _ _ _ _ Ho Ef) as (q & c & t & E & Hq & He & Hv & Hc & Hl).
  exists q, c, t. repeat split; [done| |lia|lia|done|done|done].
  rewrite (json_member_value_at _ _ _ _ _ Ho), Ef. simpl. by rewrite Hq.
Qed.

Lemma field_none s b e ms key :
  object_at s b e ms -> field key ms = None -> json_member_value s b e key = None.
Proof.
  intros Ho Hf. rewrite (json_member_value_at _ _ _ _ _ Ho).
  unfold field in Hf. by destruct (first key ms) as [[]|].
Qed.

Lemma balanced_app u t : balanced u -> balanced t -> balanced (u ++ t).
Proof.
  induction 1; intros Ht; [done|by apply bal_char; auto|..].
  - rewrite <- app_assoc. apply bal_str; auto.
  - simpl. rewrite <- app_assoc. apply bal_obj; auto.
  - simpl. rewrite <- app_assoc. apply bal_arr; auto.
Qed.

Lemma balanced_plains w t :
  Forall (fun c => plain c = true) w -> balanced t -> balanced (w ++ t).
Proof. induction 1; simpl; auto using balanced. Qed.

Lemma value_balanced v t : value_text v -> balanced t -> balanced (v ++ t).
Proof.
  intros [c u Hc|u Hu|u Hu|u Hu] Ht.
  - apply balanced_plains; [|done]. revert Hc. apply Forall_impl. intros x Hx.
    unfold scalar_char in Hx. rewrite !andb_true_iff in Hx. tauto.
  - by apply bal_str.
  - simpl. rewrite <- app_assoc. by apply bal_obj.
  - simpl. rewrite <- app_assoc. by apply bal_arr.
Qed.

Lemma member_balanced m t : member_ok m -> balanced t -> balanced (member_text m ++ t).
Proof.
  intros [Hk Hv H1 H2 H3 H4] Ht. unfold member_text, member_head.
  rewrite <- !app_assoc. apply balanced_plains; [by apply plains_spaces|].
  apply bal_str; [done|]. rewrite <- app_comm_cons.
  apply balanced_plains; [by apply plains_spaces|]. constructor; [done|].
  apply balanced_plains; [by apply plains_spaces|]. apply value_balanced; [done|].
  by apply balanced_plains; [apply plains_spaces|].
Qed.

Lemma members_balanced ms : Forall member_ok ms -> balanced (members_text ms).
Proof.
  induction 1 as [|m ms Hm Hms IH]; [constructor|]. destruct ms as [|m' ms].
  - change (members_text [m]) with (member_text m). rewrite <- (app_nil_r (member_text m)).
    apply member_balanced; [done|constructor].
  - rewrite members_text_cons. apply member_balanced; [done|]. by constructor.
Qed.

Lemma object_value ms : Forall member_ok ms -> value_text (object_text ms).
Proof. intros. by apply v_obj, members_balanced. Qed.

(** The body of an object of members. *)
Lemma body_at_members q ms t limit :
  Forall member_ok ms -> length q + length (object_text ms) <= limit ->
  exists b e, json_body_at (q ++ object_text ms ++ t) (length q) limit = Some (b, e) /\
    object_at (q ++ object_text ms ++ t) b e ms /\ b = S (length q) /\
    S e = length q + length (object_text ms).
Proof.
  intros Hms Hl. unfold object_text in *.
  exists (S (length q)), (S (length q) + length (members_text ms)).
  repeat split; [| |len].
  - replace (q ++ ("{"%char :: members_text ms ++ ["}"%char]) ++ t)
      with (q ++ "{"%char :: members_text ms ++ "}"%char :: t) by apps.
    apply json_body_at_object; [by apply members_balanced|len].
  - exists (q ++ ["{"%char]), t. repeat split; [apps|len|len|done].
Qed.

(** * A sample line *)

Definition sample_members : list member := [
  Member (str "type") (quoted (str "render")) [] [] [] [];
  Member (str "pos") (str "[1,2]") [] [] [] (str " ");
  Member (str "n") (str "12.5") (str " ") [] [] []
].

Lemma sample_ok : Forall member_ok sample_members.
Proof.
  repeat apply Forall_cons_2; [..|apply Forall_nil_2];
    (split; [by repeat constructor|..|by repeat constructor|by repeat constructor
            |by repeat constructor|by repeat constructor]).
  - apply v_str. by repeat constructor.
  - apply (v_arr (str "1,2")). by repeat constructor.
  - apply v_scalar. by repeat constructor.
Qed.

Lemma sample_object :
  object_at (object_text sample_members) 1 (1 + length (members_text sample_members)) sample_members.
Proof. exists ["{"%char], []. repeat split; apply sample_ok. Qed.

(** * Properties *)

(** C34: a name is looked up at an object's own level: the scan finds the first member
    of that name, whatever the keys and values of the other members are and however
    deep they nest the same text, and finds nothing when no member has the name. *)
Theorem json_member_value_first (s : bytes) (b e : nat) (ms : list member) (key : bytes)
    (Hobj : object_at s b e ms) :
  match field key ms with
  | None => json_member_value s b e key = None
  | Some v => exists i, json_member_value s b e key = Some i /\
                b <= i /\ i + length v <= e /\ substr s i (length v) = v
  end.
Proof.
  destruct (field key ms) as [v|] eqn:Hf; [|by eapply field_none].
  destruct (field_at _ _ _ _ _ _ Hobj Hf) as (q & c & t & E & Hv & Hb & He & _).
  exists (length q). repeat split; [done..|]. rewrite E. apply substr_mid.
Qed.

(** The array member, which stands between the other two. *)
Example json_member_value_first_witness :
  match field (str "pos") sample_members with
  | None => json_member_value (object_text sample_members) 1
              (1 + length (members_text sample_members)) (str "pos") = None
  | Some v => exists i, json_member_value (object_text sample_members) 1
                  (1 + length (members_text sample_members)) (str "pos") = Some i /\
                1 <= i /\ i + length v <= 1 + length (members_text sample_members) /\
                substr (object_text sample_members) i (length v) = v
  end.
Proof.
  apply (json_member_value_first _ _ _ _ (str "pos") sample_object).
Defined.

(** The body of the outermost object of a line is that object's members, whatever
    follows it. *)
Theorem json_root_body_members (p t : bytes) (ms : list member)
    (Hp : find_char p "{" 0 = None) (Hms : Forall member_ok ms) :
  exists b e, json_root_body (p ++ object_text ms ++ t) = Some (b, e) /\
    object_at (p ++ object_text ms ++ t) b e ms.
Proof.
  unfold json_root_body.
  assert (find_char (p ++ object_text ms ++ t) "{" 0 = Some (length p)) as ->.
  { revert Hp. unfold find_char, find_from. simpl.
    rewrite !drop_0. intros Hp. destruct (find_str ["{"%char] p) eqn:Hn; [done|].
    pose proof (find_str_app ["{"%char] p ((members_text ms ++ ["}"%char]) ++ t)) as Hfind.
    simpl app in Hfind. rewrite Hfind; [done|]. intros i Hi. rewrite drop_app_le by lia.
    destruct (drop i p) as [|c u] eqn:Ed.
    { apply (f_equal length) in Ed. rewrite length_drop in Ed. simpl in Ed. lia. }
    cbn [starts_with app]. by rewrite (find_str_none _ _ _ _ _ Hn Ed). }
  destruct (body_at_members p ms t (length (p ++ object_text ms ++ t))) as (b & e & E & Ho & _);
    [done|len|eauto].
Qed.

(** An object after a prefix and before a comma. *)
Example json_root_body_members_witness :
  find_char (str "x ") "{" 0 = None /\ Forall member_ok sample_members /\
  exists b e, json_root_body (str "x " ++ object_text sample_members ++ str ",") = Some (b, e) /\
    object_at (str "x " ++ object_text sample_members ++ str ",") b e sample_members.
Proof.
  repeat split; [apply sample_ok|].
  by apply (json_root_body_members (str "x ") (str ",") _); [|apply sample_ok].
Defined.

(** Following a member that is an object gives that object's members, inside the
    object it is a member of: paths compose. *)
Theorem json_object_member_nested (s : bytes) (b e : nat) (ms ms' : list member) (key : bytes)
    (Hobj : object_at s b e ms) (Hf : field key ms = Some (object_text ms'))
    (Hms : Forall member_ok ms') :
  exists b' e', json_object_member s b e key = Some (b', e') /\
    object_at s b' e' ms' /\ b < b' /\ e' < e.
Proof.
  destruct (field_at _ _ _ _ _ _ Hobj Hf) as (q & c & t & E & Hv & Hb & He & _).
  destruct (body_at_members q ms' (c :: t) e) as (b' & e' & E' & Ho & Eb & Ee); [done|lia|].
  exists b', e'. unfold json_object_member. rewrite Hv, E. repeat split; [done|done|lia|].
  unfold object_text in *. len.
Qed.

(** A string member comes back as the bytes [json_escape] was given; a member that
    is absent or no string reads as empty. *)
Theorem json_string_member_value (s : bytes) (b e : nat) (ms : list member) (key : bytes)
    (Hobj : object_at s b e ms) :
  match field key ms with
  | None => json_string_member s b e key = []
  | Some v =>
      (forall u, v = quoted (json_escape u) -> json_string_member s b e key = u) /\
      (head v <> Some cQuote -> json_string_member s b e key = [])
  end.
Proof.
  unfold json_string_member. destruct (field key ms) as [v|] eqn:Hf.
  2:{ by rewrite (field_none _ _ _ _ _ Hobj Hf). }
  destruct (field_at _ _ _ _ _ _ Hobj Hf) as (q & c & t & E & -> & _ & _ & Hv & _).
  destruct (value_text_head v Hv) as (x & u & -> & _).
  assert (char_at s (length q) = x) as -> by (eapply char_here; [rewrite E; apps|done]).
  split.
  - intros w Hw. assert (s = (q ++ [cQuote]) ++ json_escape w ++ cQuote :: c :: t) as ->
      by (rewrite E, Hw; unfold quoted; apps).
    unfold quoted in Hw. injection Hw as -> _. rewrite ascii_eqb_refl, (length_snoc q cQuote).
    change (decode ((q ++ [cQuote]) ++ json_escape w ++ cQuote :: c :: t) (length (q ++ [cQuote])) [] = w).
    by rewrite decode_at, decode_escaped, decode_quote.
  - intros Hx. rewrite ascii_eqb_false; [done|]. simpl in Hx. congruence.
Qed.

(** The control word of the line. *)
Example json_string_member_value_witness :
  field (str "type") sample_members = Some (quoted (json_escape (str "render"))) /\
  json_string_member (object_text sample_members) 1
    (1 + length (members_text sample_members)) (str "type") = str "render".
Proof.
  split; [done|].
  by apply (json_string_member_value _ _ _ _ (str "type") sample_object).
Defined.

(** A boolean member is true exactly when its text starts with the literal, so not
    for a string that spells it, and not when it is absent. *)
Theorem json_bool_member_value (s : bytes) (b e : nat) (ms : list member) (key : bytes)
    (Hobj : object_at s b e ms) :
  json_bool_member s b e key =
  match field key ms with Some v => starts_with (str "true") v | None => false end.
Proof.
  unfold json_bool_member. destruct (field key ms) as [v|] eqn:Hf.
  2:{ by rewrite (field_none _ _ _ _ _ Hobj Hf). }
  destruct (field_at _ _ _ _ _ _ Hobj Hf) as (q & c & t & E & -> & _ & _ & _ & Hc & _).
  rewrite <- (starts_with_ends (str "true") v c t) by (by apply ends_value_true).
  by apply (compare_starts s q (v ++ c :: t) (str "true")).
Qed.

(** * Numbers

    A JSON number without an exponent: its sign, integer part and fraction. *)

Definition number_text (neg : bool) (ip fp : bytes) : bytes :=
  (if neg then ["-"%char] else []) ++ ip ++ match fp with [] => [] | _ => "."%char :: fp end.

(** The decimal value of those digits, rounded once to the nearest double. *)
Definition number_value (neg : bool) (ip fp : bytes) : double :=
  of_scientific neg (digits_value 10 (ip ++ fp)) 10 (- Z.of_nat (length fp)).

Abbreviation digits := (Forall (fun c => is_digit c = true)).

Lemma span_digits ip r :
  digits ip -> (forall c t, r = c :: t -> is_digit c = false) -> span is_digit (ip ++ r) = (ip, r).
Proof.
  intros Hd Hr. induction Hd as [|c ip Hc _ IH]; simpl.
  - destruct r as [|c t]; [done|]. simpl. by rewrite (Hr c t).
  - by rewrite Hc, IH.
Qed.

(** No digit is a space, a sign, a point or a letter the scanner looks for. *)
Lemma digit_cases c : is_digit c = true -> c ∈ str "0123456789".
Proof.
  unfold is_digit, in_range. rewrite andb_true_iff, !N.leb_le. intros [H1 H2].
  rewrite <- (ascii_N_embedding c). revert H1 H2. generalize (N_of_ascii c) as n. intros n.
  change (N_of_ascii "0") with 48%N. change (N_of_ascii "9") with 57%N. intros H1 H2.
  assert (n = 48 \/ n = 49 \/ n = 50 \/ n = 51 \/ n = 52 \/ n = 53 \/ n = 54 \/ n = 55 \/
          n = 56 \/ n = 57)%N as Hn by lia.
  unfold str. simpl. repeat destruct Hn as [-> | Hn]; subst; set_solver.
Qed.

Lemma digit_facts c :
  is_digit c = true ->
  is_cspace c = false /\ Ascii.eqb c "-" = false /\ Ascii.eqb c "+" = false /\
  Ascii.eqb (lower c) "x" = false.
Proof.
  intros Hc%digit_cases. unfold str in Hc. simpl in Hc.
  repeat (apply elem_of_cons in Hc as [-> | Hc]; [done|]). by apply elem_of_nil in Hc.
Qed.

(** A byte no number goes on with. *)
Definition number_end (c : ascii) : bool :=
  negb (is_digit c) && negb (Ascii.eqb c ".") && negb (Ascii.eqb (lower c) "e") && negb (Ascii.eqb (lower c) "x").

Lemma number_end_facts c :
  number_end c = true ->
  is_digit c = false /\ Ascii.eqb c "." = false /\ Ascii.eqb (lower c) "e" = false /\
  Ascii.eqb (lower c) "x" = false.
Proof. unfold number_end. rewrite !andb_true_iff, !negb_true_iff. tauto. Qed.

Lemma ends_value_number c : ends_value c = true -> number_end c = true.
Proof.
  unfold ends_value, json_is_space. rewrite !orb_true_iff, !Ascii.eqb_eq.
  by intros [[[[[-> | ->] | ->] | ->] | ->] | ->].
Qed.

Lemma scan_constant_number strict neg ip fp c t :
  digits ip -> digits fp -> ip <> [] -> number_end c = true ->
  scan_constant strict neg is_digit 10 "e" 10 1
    (ip ++ match fp with [] => [] | _ => "."%char :: fp end ++ c :: t)
  = Some (number_value neg ip fp, c :: t).
Proof.
  intros Hi Hf Hne (Hc1 & Hc2 & Hc3 & _)%number_end_facts. unfold scan_constant, number_value.
  rewrite span_digits; [|done|].
  2:{ intros x u E. destruct fp; simpl in E; simplify_eq; done. }
  destruct fp as [|f fp].
  - simpl. rewrite Hc2. destruct ip as [|i ip]; [done|]. rewrite app_nil_r. simpl. by rewrite Hc3.
  - rewrite <- app_comm_cons, (span_digits (f :: fp)); [|done|intros; by simplify_eq].
    cbn [Ascii.eqb Bool.eqb]. destruct ip as [|i ip]; [done|].
    cbn [app]. rewrite Hc3. by do 3 f_equal.
Qed.

Lemma scan_double_number strict neg ip fp c t :
  digits ip -> digits fp -> ip <> [] -> number_end c = true ->
  scan_double strict (number_text neg ip fp ++ c :: t) = Some (number_value neg ip fp, c :: t).
Proof.
  intros Hi Hf Hne Hc. destruct ip as [|d ip]; [done|].
  pose proof (Forall_inv Hi) as Hd. pose proof (digit_facts d Hd) as (D1 & D2 & D3 & _).
  pose proof (scan_constant_number strict neg (d :: ip) fp c t Hi Hf Hne Hc) as Hscan.
  assert (scan_sign (skip_space (number_text neg (d :: ip) fp ++ c :: t))
    = (neg, (d :: ip) ++ match fp with [] => [] | _ => "."%char :: fp end ++ c :: t)) as E.
  { unfold number_text, skip_space. rewrite <- !app_assoc.
    destruct neg; simpl; rewrite ?D1; simpl; by rewrite ?D2, ?D3. }
  unfold scan_double. rewrite E. simpl app in *. cbv zeta beta iota.
  assert (Ascii.eqb d "0" && match ip ++ match fp with [] => [] | _ => "."%char :: fp end ++ c :: t with
          | [] => false | x :: _ => Ascii.eqb (lower x) "x" end = false) as ->.
  { apply andb_false_iff; right. destruct ip as [|x ip]; simpl.
    - destruct fp; simpl; [|done]. by apply number_end_facts in Hc as (_ & _ & _ & ->).
    - apply digit_facts, (Forall_inv (Forall_inv_tail Hi)). }
  by rewrite Hd, orb_true_l.
Qed.

(** A numeric member is the double nearest to its decimal text, and the output is
    left alone when the member is absent or does not start with a digit. *)
Theorem json_number_member_value (s : bytes) (b e : nat) (ms : list member) (key : bytes)
    (old : double) (Hobj : object_at s b e ms) :
  match field key ms with
  | None => json_number_member s b e key old = (false, old)
  | Some v =>
      (forall neg ip fp, v = number_text neg ip fp -> digits ip -> digits fp -> ip <> [] ->
         json_number_member s b e key old = (true, number_value neg ip fp)) /\
      (forall c u, v = c :: u -> is_digit c = false -> c <> "-"%char ->
         json_number_member s b e key old = (false, old))
  end.
Proof.
  unfold json_number_member. destruct (field key ms) as [v|] eqn:Hf.
  2:{ by rewrite (field_none _ _ _ _ _ Hobj Hf). }
  destruct (field_at _ _ _ _ _ _ Hobj Hf) as (q & c & t & E & -> & _ & He & Hv & Hc & Hl).
  split.
  - intros neg ip fp -> Hi Hfp Hne. unfold scan_number, sscanf_lf.
    assert (starts_number s (length s) (length q) = true) as ->.
    { destruct ip as [|d ip]; [done|]. pose proof (Forall_inv Hi) as Hd.
      pose proof (digit_facts d Hd) as (_ & D2 & _). unfold starts_number, number_text in *.
      destruct neg; simpl app in *.
      - erewrite (char_here s q "-"%char) by (rewrite ?E; apps || done). simpl.
        rewrite (length_snoc q "-"%char).
        erewrite (char_here s (q ++ ["-"%char]) d) by (rewrite ?E; apps || done).
        rewrite Hd, andb_true_r. apply Nat.ltb_lt. rewrite E. len.
      - erewrite (char_here s q d) by (rewrite ?E; apps || done). rewrite D2.
        erewrite (char_here s q d) by (rewrite ?E; apps || done). rewrite Hd, andb_true_r.
        apply Nat.ltb_lt. rewrite E. len. }
    rewrite E, drop_app_length, scan_double_number by eauto using ends_value_number. done.
  - intros x u -> Hx Hm. unfold starts_number.
    erewrite (char_here s q x) by (rewrite ?E; apps || done).
    rewrite ascii_eqb_false by done.
    erewrite (char_here s q x) by (rewrite ?E; apps || done). by rewrite Hx, andb_false_r.
Qed.

(** A number with a fraction. *)
Example json_number_member_value_witness :
  field (str "n") sample_members = Some (number_text false (str "12") (str "5")) /\
  json_number_member (object_text sample_members) 1
    (1 + length (members_text sample_members)) (str "n") (of_Z 0) =
    (true, number_value false (str "12") (str "5")).
Proof.
  split; [done|].
  apply (json_number_member_value _ _ _ _ (str "n") (of_Z 0) sample_object);
    by repeat constructor.
Defined.
