(* ===== verification/FloatFacts.v ===== *)
(** Lemmas on doubles: comparison as integer comparison, exactness of integer
    arithmetic, bounds of rounded sums, and rounding to binary32 inside bounds. *)
From S2P Require Import Prelude Float64.
From Stdlib Require Import NArith ZArith.

(** * Comparison *)

Lemma dle_fin n m n' m' : dle (DFin n m) (DFin n' m') = (signed n m <=? signed n' m')%Z.
Proof. unfold dle, dcmp, Z.leb. by destruct (_ ?= _)%Z. Qed.

Lemma dlt_fin n m n' m' : dlt (DFin n m) (DFin n' m') = (signed n m <? signed n' m')%Z.
Proof. unfold dlt, dcmp, Z.ltb. by destruct (_ ?= _)%Z. Qed.

(** On numbers that are not NaN the order is total. *)
Lemma dlt_false_dle a b :
  isnan a = false -> isnan b = false -> dlt a b = false -> dle b a = true.
Proof.
  destruct a as [|[]|n m], b as [|[]|n' m']; try done.
  rewrite dlt_fin, dle_fin. lia.
Qed.

Lemma dlt_dle_false a b : dlt a b = true -> dle b a = false.
Proof.
  destruct a as [|[]|n m], b as [|[]|n' m']; try done.
  rewrite dlt_fin, dle_fin. lia.
Qed.

Lemma dle_notnan a b : dle a b = true -> isnan a = false /\ isnan b = false.
Proof. by destruct a as [|[]|], b as [|[]|]. Qed.

(** * Rounding of a signed number of units *)

Definition SC : Z := Z.of_N scale.

Lemma SC_pos : (0 < SC)%Z.
Proof. done. Qed.
#[export] Hint Resolve SC_pos : core.

Lemma scale_pow : scale = (2 ^ 1074)%N.
Proof. unfold scale. by rewrite N.shiftl_mul_pow2, N.mul_1_l. Qed.

Lemma limit64_pow : limit64 = (2 ^ 1024 * scale)%N.
Proof.
  unfold limit64. rewrite scale_pow, N.shiftl_mul_pow2, N.mul_1_l, <- N.pow_add_r. done.
Qed.

(** Multiples of 1.0 up to 2^53 are representable. *)
Lemma representable_int n : (n <= 2 ^ 53)%N -> representable prec64 0 (n * scale) = true.
Proof.
  intros Hn. apply representable_iff. rewrite scale_pow.
  destruct (N.eq_dec n 0) as [->|Hn0]; [by exists 0%N|].
  unfold quantum_log, prec64. rewrite N.log2_mul_pow2 by lia.
  apply N.log2_le_mono in Hn as Hl. rewrite N.log2_pow2 in Hl by lia.
  destruct (N.eq_dec n (2 ^ 53)) as [->|Hne].
  - rewrite N.log2_pow2 by lia. exists (2 ^ 52)%N. rewrite <- !N.pow_add_r. f_equal.
  - assert (N.log2 n < 53)%N by (apply N.log2_lt_pow2; lia).
    exists (n * 2 ^ (1074 - N.max 0 (1074 + N.log2 n - 52)))%N.
    rewrite <- N.mul_assoc, <- N.pow_add_r. do 2 f_equal. lia.
Qed.

Lemma int_limit n : (n <= 2 ^ 53)%N -> (n * scale <? limit64)%N = true.
Proof.
  intros Hn. apply N.ltb_lt. rewrite limit64_pow. apply N.mul_lt_mono_pos_r; [done|].
  eapply N.le_lt_trans; [exact Hn|]. done.
Qed.

(** A ratio bounded by a representable magnitude rounds to a finite double within it. *)
Lemma of_ratio_le neg num den sh k :
  (0 < den)%N -> representable prec64 0 k = true -> (k < limit64)%N ->
  (num <= k * (den * 2 ^ sh))%N ->
  exists m, of_ratio neg num den sh = DFin neg m /\ (m <= k)%N /\ wf_double (DFin neg m) = true.
Proof.
  intros Hd Hk Hlim Hle. unfold of_ratio.
  pose proof (round_mag_le prec64 0 num den sh k Hd Hk Hle) as Hr.
  exists (round_mag prec64 0 num den sh).
  destruct (N.ltb_spec (round_mag prec64 0 num den sh) limit64); [|lia].
  repeat split; [done|]. unfold wf_double. apply andb_true_iff. split; [|by apply N.ltb_lt].
  by apply round_mag_representable.
Qed.

Lemma of_ratio_exact neg k : (* an exact magnitude *)
  representable prec64 0 k = true -> (k <? limit64)%N = true -> of_ratio neg k 1 0 = DFin neg k.
Proof.
  intros Hk Hl. unfold of_ratio.
  pose proof (round_mag_exact prec64 0 k 1 0 ltac:(lia) Hk) as Hr.
  rewrite N.pow_0_r, !N.mul_1_r in Hr. by rewrite Hr, Hl.
Qed.

Lemma of_signed_le z v k :
  (Z.abs v <= Z.of_N k)%Z -> representable prec64 0 k = true -> (k <? limit64)%N = true ->
  exists n m, of_signed z v = DFin n m /\ (m <= k)%N /\
    ((v <= 0)%Z -> (signed n m <= 0)%Z) /\ ((0 <= v)%Z -> (0 <= signed n m)%Z).
Proof.
  intros Hv Hk Hl. unfold of_signed. destruct (Z.eqb_spec v 0) as [->|Hn].
  - exists z, 0%N. repeat split; [lia|intros _; by destruct z..].
  - destruct (of_ratio_le (v <? 0)%Z (Z.to_N (Z.abs v)) 1 0 k) as (m & E & Hm & _);
      [lia|done|by apply N.ltb_lt|rewrite N.pow_0_r; lia|].
    exists (v <? 0)%Z, m. repeat split; [done|done| |];
      intros; destruct (Z.ltb_spec v 0); simpl; lia.
Qed.

(** * Integers *)

(** [x] is the integer [z], possibly a signed zero. *)
Definition is_int (x : double) (z : Z) : Prop :=
  exists n m, x = DFin n m /\ signed n m = (z * SC)%Z.

Lemma is_int_intro n k : is_int (DFin n (k * scale)) (if n then - Z.of_N k else Z.of_N k).
Proof. exists n, (k * scale)%N. split; [done|]. unfold SC, signed. destruct n; lia. Qed.

Lemma is_int_finite x z : is_int x z -> isfinite x = true.
Proof. by intros (n & m & -> & _). Qed.

Lemma of_signed_int b z : (Z.abs z <= 2 ^ 53)%Z -> is_int (of_signed b (z * SC)) z.
Proof.
  intros Hz. unfold of_signed. destruct (Z.eqb_spec (z * SC) 0) as [E|E].
  - exists b, 0%N. split; [done|]. rewrite E. by destruct b.
  - assert (Z.to_N (Z.abs (z * SC)) = Z.to_N (Z.abs z) * scale)%N as -> by (unfold SC; lia).
    rewrite of_ratio_exact by first [apply representable_int; lia | apply int_limit; lia].
    eexists _, _. split; [done|]. pose proof SC_pos.
    destruct (Z.ltb_spec (z * SC) 0); simpl; unfold SC in *; lia.
Qed.

Lemma of_Z_int z : (Z.abs z <= 2 ^ 53)%Z -> is_int (of_Z z) z.
Proof.
  intros Hz. unfold of_Z. rewrite N.shiftl_mul_pow2, <- scale_pow.
  rewrite of_ratio_exact by first [apply representable_int; lia | apply int_limit; lia].
  eexists _, _. split; [done|]. destruct (Z.ltb_spec z 0); simpl; unfold SC; lia.
Qed.

Lemma signed_abs n m : Z.of_N m = Z.abs (signed n m).
Proof. unfold signed. destruct n; lia. Qed.

(** Its magnitude. *)
Lemma is_int_mag n m a : signed n m = (a * SC)%Z -> m = (Z.to_N (Z.abs a) * scale)%N.
Proof.
  intros E. apply N2Z.inj. rewrite (signed_abs n m), E, Z.abs_mul, N2Z.inj_mul, Z2N.id by lia. done.
Qed.

Lemma is_int_add x y a b :
  is_int x a -> is_int y b -> (Z.abs (a + b) <= 2 ^ 53)%Z -> is_int (dadd x y) (a + b).
Proof.
  intros (n & m & -> & E) (n' & m' & -> & E') H. unfold dadd.
  rewrite E, E', <- Z.mul_add_distr_r. by apply of_signed_int.
Qed.

Lemma is_int_neg x a : is_int x a -> is_int (dneg x) (- a).
Proof.
  intros (n & m & -> & E). exists (negb n), m. split; [done|]. destruct n; simpl in *; lia.
Qed.

Lemma is_int_sub x y a b :
  is_int x a -> is_int y b -> (Z.abs (a - b) <= 2 ^ 53)%Z -> is_int (dsub x y) (a - b).
Proof. intros. unfold dsub. apply is_int_add; [done|by apply is_int_neg|done]. Qed.

Lemma is_int_lt x y a b : is_int x a -> is_int y b -> dlt x y = (a <? b)%Z.
Proof.
  intros (n & m & -> & E) (n' & m' & -> & E'). rewrite dlt_fin, E, E'. pose proof SC_pos.
  destruct (Z.ltb_spec a b); [apply Z.ltb_lt|apply Z.ltb_ge]; nia.
Qed.

Lemma is_int_le x y a b : is_int x a -> is_int y b -> dle x y = (a <=? b)%Z.
Proof.
  intros (n & m & -> & E) (n' & m' & -> & E'). rewrite dle_fin, E, E'. pose proof SC_pos.
  destruct (Z.leb_spec a b); [apply Z.leb_le|apply Z.leb_gt]; nia.
Qed.

Lemma is_int_fmod x y a b :
  is_int x a -> is_int y b -> (0 < b)%Z -> is_int (dfmod x y) (Z.rem a b).
Proof.
  intros (n & m & -> & E) (n' & m' & -> & E') Hb. unfold dfmod. pose proof SC_pos.
  assert (Z.of_N m' = b * SC)%Z as Em' by (destruct n'; simpl in E'; nia).
  destruct (N.eqb_spec m' 0); [nia|].
  exists n, (m mod m')%N. split; [done|].
  assert (Z.of_N (m mod m') = Z.rem (Z.of_N m) (Z.of_N m')) as Er.
  { rewrite Z.rem_mod_nonneg, N2Z.inj_mod by lia. done. }
  rewrite <- Z.mul_rem_distr_r, <- E, <- Em' by lia.
  destruct n; simpl; rewrite Er; [by rewrite Z.rem_opp_l by lia|done].
Qed.

Lemma is_int_mul x y a b :
  is_int x a -> is_int y b -> (Z.abs (a * b) <= 2 ^ 53)%Z -> is_int (dmul x y) (a * b).
Proof.
  intros (n & m & -> & E) (n' & m' & -> & E') H. unfold dmul, of_ratio. pose proof SC_pos.
  pose proof (is_int_mag _ _ _ E) as Em. pose proof (is_int_mag _ _ _ E') as Em'.
  assert (m * m' = (Z.to_N (Z.abs (a * b)) * scale) * (1 * 2 ^ 1074))%N as ->.
  { rewrite <- scale_pow, Em, Em', Z.abs_mul, Z2N.inj_mul by lia. lia. }
  rewrite round_mag_exact by first [lia | apply representable_int; lia].
  rewrite int_limit by lia. eexists _, _. split; [done|].
  destruct n, n'; simpl in *; unfold SC in *; nia.
Qed.

(** The integer part of a double between two integers is between them. *)
Lemma dtrunc_between x a b :
  dle (of_Z a) x = true -> dle x (of_Z b) = true ->
  (Z.abs a <= 2 ^ 53)%Z -> (Z.abs b <= 2 ^ 53)%Z ->
  exists k, dtrunc x = Some k /\ (a <= k <= b)%Z.
Proof.
  intros H1 H2 Ha Hb.
  destruct (of_Z_int a Ha) as (na & ma & Ea & Sa), (of_Z_int b Hb) as (nb & mb & Eb & Sb).
  rewrite Ea in H1. rewrite Eb in H2. clear Ea Eb.
  destruct x as [|[]|n m]; try done. rewrite dle_fin in *. rewrite Sa in H1. rewrite Sb in H2.
  eexists. split; [done|]. rewrite N.shiftr_div_pow2, <- scale_pow. pose proof SC_pos as HS.
  unfold SC in *. set (S := scale) in *. clearbody S.
  pose proof (N.Div0.div_mod m S). assert (m mod S < S)%N by (apply N.mod_lt; lia).
  set (q := (m / S)%N) in *. set (r := (m mod S)%N) in *.
  apply Z.leb_le in H1, H2. destruct n; simpl in *; nia.
Qed.

(** * binary32 *)

Definition wf_float (a : double) : bool :=
  match a with
  | DFin _ m => representable 23 925 m && (m <? N.shiftl 1 1202)%N
  | _ => false
  end.

(** Rounding to binary32 stays between two binary32 values. *)
Lemma to_float_between lo hi v :
  wf_float lo = true -> wf_float hi = true -> dle lo v = true -> dle v hi = true ->
  wf_float (to_float v) = true /\ dle lo (to_float v) = true /\ dle (to_float v) hi = true.
Proof.
  destruct lo as [| |nl ml], hi as [| |nh mh]; try done.
  unfold wf_float at 1 2. rewrite !andb_true_iff, !N.ltb_lt. intros [Rl Ll] [Rh Lh].
  destruct v as [|[]|n m]; try done. rewrite !dle_fin. intros H1 H2.
  apply Z.leb_le in H1, H2. unfold to_float. set (k := round_mag 23 925 m 1 0).
  assert (forall c, representable 23 925 c = true -> (m <= c)%N -> (k <= c)%N) as Hle
    by (intros; apply round_mag_le; [lia|done|lia]).
  assert (forall c, representable 23 925 c = true -> (c <= m)%N -> (c <= k)%N) as Hge
    by (intros; apply round_mag_ge; [lia|done|lia]).
  pose proof (Hle 0%N eq_refl) as H0.
  assert (signed n k <= signed nh mh)%Z as B2.
  { destruct n, nh; simpl in *; [specialize (Hge mh Rh)|..|specialize (Hle mh Rh)]; lia. }
  assert (signed nl ml <= signed n k)%Z as B1.
  { destruct n, nl; simpl in *; [specialize (Hle ml Rl)|..|specialize (Hge ml Rl)]; lia. }
  assert (k < N.shiftl 1 1202)%N as Hk.
  { revert Ll Lh. generalize (N.shiftl 1 1202). intros L. unfold signed in B1, B2.
    clear - B1 B2. destruct n, nl, nh; lia. }
  apply N.ltb_lt in Hk. rewrite Hk, !dle_fin. repeat split; [|lia|lia].
  unfold wf_float. apply andb_true_iff. split; [by apply round_mag_representable|done].
Qed.

(** * Well-formed doubles *)

Lemma of_ratio_wf neg num den sh : (0 < den)%N -> wf_double (of_ratio neg num den sh) = true.
Proof.
  intros Hd. unfold of_ratio. destruct (_ <? limit64)%N eqn:E; [|done].
  unfold wf_double. rewrite E, andb_true_r. by apply round_mag_representable.
Qed.

(** The largest magnitude, and half a unit in its last place past it. *)
Definition max_mag : N := (2 ^ 53 - 1) * 2 ^ 2045.
#[global] Arguments max_mag : simpl never.

Lemma max_mag_representable : representable prec64 0 max_mag = true.
Proof. by vm_compute. Qed.

Lemma round_mag_top num :
  (num <= max_mag + 2 ^ 2043)%N -> (round_mag prec64 0 num 1 0 <= max_mag)%N.
Proof.
  intros Hn. destruct (N.le_gt_cases num max_mag) as [Hle|Hgt].
  { apply round_mag_le; [lia|apply max_mag_representable|]. rewrite N.pow_0_r. lia. }
  rewrite round_mag_eq by lia. cbv zeta. rewrite N.pow_0_r, N.mul_1_l, N.div_1_r.
  assert (N.log2 num = 2097)%N as Hlog.
  { apply N.log2_unique; [lia|]. unfold max_mag in *.
    replace (2 ^ N.succ 2097)%N with (2 ^ 53 * 2 ^ 2045)%N by (by rewrite <- N.pow_add_r).
    replace (2 ^ 2097)%N with (2 ^ 52 * 2 ^ 2045)%N by (by rewrite <- N.pow_add_r).
    replace (2 ^ 2045)%N with (4 * 2 ^ 2043)%N in * by (by vm_compute).
    revert Hn Hgt. generalize (2 ^ 2043)%N (pow2_pos 2043). intros u Hu Hn Hgt. lia. }
  unfold quantum_log, prec64. rewrite Hlog. cbn [N.sub N.add]. change (N.max 0 (2097 - 52)) with 2045%N.
  rewrite N.add_0_l. unfold max_mag in *.
  assert (2 ^ 2043 * 4 = 2 ^ 2045)%N as Hu by (by vm_compute).
  revert Hn Hgt Hu. generalize (2 ^ 2043)%N (pow2_pos 2043) (2 ^ 2045)%N. intros h Hh u Hn Hgt Hu.
  assert (num / u = 2 ^ 53 - 1)%N as Hq by (symmetry; apply (N.div_unique _ _ _ (num - (2 ^ 53 - 1) * u)); lia).
  assert (num mod u = num - (2 ^ 53 - 1) * u)%N as Hr by (rewrite N.Div0.mod_eq, Hq; lia).
  rewrite Hq, Hr. destruct (N.compare_spec (2 * (num - (2 ^ 53 - 1) * u)) u); lia.
Qed.

(** Adding little to a double does not overflow. *)
Lemma dadd_small x d :
  wf_double x = true -> isfinite x = true -> isfinite d = true ->
  (forall n m, d = DFin n m -> (m <= 2 ^ 2043)%N) ->
  isfinite (dadd x d) = true /\ wf_double (dadd x d) = true.
Proof.
  destruct x as [| |n m], d as [| |n' m']; try done. intros Hwf _ _ Hd.
  specialize (Hd n' m' eq_refl). unfold wf_double in Hwf. apply andb_true_iff in Hwf as [Hr Hl].
  assert (m <= max_mag)%N as Hm.
  { apply N.ltb_lt in Hl. rewrite limit64_pow, scale_pow in Hl. destruct (N.le_gt_cases m max_mag) as [|Hgt]; [done|].
    exfalso. assert (qlog_max : (N.log2 m = 2097)%N).
    { apply N.log2_unique; [lia|]. unfold max_mag in Hgt.
      replace (2 ^ N.succ 2097)%N with (2 ^ 1024 * 2 ^ 1074)%N by (by rewrite <- N.pow_add_r).
      split; [|done]. eapply N.le_trans; [|apply N.lt_le_incl, Hgt].
      by vm_compute. }
    apply representable_iff in Hr as [c E]. unfold quantum_log, prec64 in E. rewrite qlog_max in E.
    change (N.max 0 (2097 - 52)) with 2045%N in E. unfold max_mag in Hgt.
    replace (2 ^ 1024 * 2 ^ 1074)%N with (2 ^ 53 * 2 ^ 2045)%N in Hl by (by vm_compute).
    revert E Hgt Hl. generalize (2 ^ 2045)%N. intros u -> Hgt Hl.
    apply N.mul_lt_mono_pos_r in Hl; [|lia]. apply N.mul_lt_mono_pos_r in Hgt; lia. }
  unfold dadd, of_signed. destruct (Z.eqb_spec (signed n m + signed n' m') 0); [done|].
  assert (round_mag prec64 0 (Z.to_N (Z.abs (signed n m + signed n' m'))) 1 0 <= max_mag)%N as Hb.
  { apply round_mag_top. pose proof (signed_abs n m). pose proof (signed_abs n' m'). revert Hm Hd.
    generalize max_mag (2 ^ 2043)%N. intros. lia. }
  split; [|apply of_ratio_wf; lia]. unfold of_ratio.
  assert (max_mag < limit64)%N as Hlt by (by vm_compute).
  destruct (N.ltb_spec (round_mag prec64 0 (Z.to_N (Z.abs (signed n m + signed n' m'))) 1 0) limit64);
    [done|lia].
Qed.
