(* ===== verification/Frames.v ===== *)
(** The parameter block of a reflected call: a vector of bytes, written and read at the
    offsets reflection gives.

    A C++ value is its object representation, little endian: a pointer or an integer is
    its bytes, a [float] or a [double] its IEEE 754 word.  An access that leaves the
    block is undefined behaviour in the program and [None] here. *)
From S2P Require Import Prelude Float64 FloatFacts.
From Stdlib Require Import NArith ZArith.

(** * IEEE words *)

Section Word.
(** The widths of the fraction and of the exponent, and the exponent of the smallest
    unit in units of 2^-1074. *)
Variables (fraction exponent unit : N).

(** The magnitude's exponent field and fraction field: below the first binade the field
    is 0 and the unit is the smallest. *)
Definition magnitude_word (m : N) : N :=
  let k := N.shiftr m unit in
  if (k <? 2 ^ fraction)%N then k
  else let e := (N.log2 k - fraction)%N in ((e + 1) * 2 ^ fraction + (N.shiftr k e - 2 ^ fraction))%N.

Definition special : N := (2 ^ exponent - 1)%N.

(** The sign apart.  A NaN is the quiet one without a payload. *)
Definition word_of (d : double) : bool * N :=
  match d with
  | DFin neg m => (neg, magnitude_word m)
  | DInf neg => (neg, special * 2 ^ fraction)%N
  | DNaN => (false, special * 2 ^ fraction + 2 ^ (fraction - 1))%N
  end.

Definition double_of (neg : bool) (w : N) : double :=
  let e := (w / 2 ^ fraction)%N in
  let f := (w mod 2 ^ fraction)%N in
  if (e =? special)%N then (if (f =? 0)%N then DInf neg else DNaN)
  else if (e =? 0)%N then DFin neg (N.shiftl f unit)
  else DFin neg (N.shiftl (2 ^ fraction + f) (e - 1 + unit)).

Definition float_word (d : double) : Z :=
  let (neg, w) := word_of d in ((if neg then 2 ^ Z.of_N (fraction + exponent) else 0) + Z.of_N w)%Z.

Definition word_float (z : Z) : double :=
  let top := (2 ^ Z.of_N (fraction + exponent))%Z in
  double_of (top <=? z)%Z (Z.to_N (z mod top)).
End Word.

Definition bits64 : double -> Z := float_word 52 11 0.
Definition of_bits64 : Z -> double := word_float 52 11 0.
Definition bits32 : double -> Z := float_word 23 8 925.
Definition of_bits32 : Z -> double := word_float 23 8 925.

(** A value a [float] holds. *)
Definition is_float (d : double) : bool := match d with DFin _ _ => wf_float d | _ => true end.

(** * Values in memory *)

Definition le (n z : Z) : list Z := Z_to_little_endian n 8 z.
Definition un_le (bs : list Z) : Z := little_endian_to_Z 8 bs.

(** What a helper stores: bytes, 32-bit integers, pointers (and [FName]s, whose eight
    bytes stand for the name), floats, doubles, and representations given whole. *)
Inductive cell := U8 (z : Z) | I32 (z : Z) | Ptr (z : Z) | F32 (d : double) | F64 (d : double) | Raw (bs : list Z).

Definition cell_bytes (c : cell) : list Z :=
  match c with
  | U8 z => le 1 z | I32 z => le 4 z | Ptr z => le 8 z
  | F32 d => le 4 (bits32 d) | F64 d => le 8 (bits64 d)
  | Raw bs => bs
  end.

Definition width (c : cell) : Z :=
  match c with U8 _ => 1 | I32 _ | F32 _ => 4 | Ptr _ | F64 _ => 8 | Raw bs => Z.of_nat (length bs) end%Z.

Definition bool_cell (b : bool) : cell := U8 (if b then 1 else 0).

(** A null pointer is 0. *)
Definition ptr (o : option Z) : cell := Ptr (default 0%Z o).
Definition as_ptr (z : Z) : option Z := if (z =? 0)%Z then None else Some z.

Notation frame := (list Z).
Definition zeroed (size : Z) : frame := replicate (Z.to_nat size) 0%Z.

(** Inside the block, wholly. *)
Definition within (o n : Z) (b : frame) : bool := ((0 <=? o) && (o + n <=? Z.of_nat (length b)))%Z.

Definition store (o : Z) (c : cell) (b : frame) : option frame :=
  if within o (width c) b then Some (list_inserts (Z.to_nat o) (cell_bytes c) b) else None.

Definition load (o n : Z) (b : frame) : option Z :=
  if within o n b then Some (un_le (take (Z.to_nat n) (drop (Z.to_nat o) b))) else None.

(** * Lemmas *)

Lemma length_cell_bytes c : Z.of_nat (length (cell_bytes c)) = width c.
Proof. destruct c; cbn [cell_bytes width]; [by apply length_Z_to_little_endian..|done]. Qed.

Lemma width_nonneg c : (0 <= width c)%Z.
Proof. rewrite <- length_cell_bytes. lia. Qed.

Lemma length_zeroed n : Z.of_nat (length (zeroed n)) = Z.max 0 n.
Proof. unfold zeroed. rewrite length_replicate. lia. Qed.

Lemma within_iff o n b : within o n b = true <-> (0 <= o /\ o + n <= Z.of_nat (length b))%Z.
Proof. unfold within. lia. Qed.

Lemma store_inside o c b : within o (width c) b = true -> is_Some (store o c b).
Proof. unfold store. intros ->. by eexists. Qed.

Lemma length_store o c b b' : store o c b = Some b' -> length b' = length b.
Proof. unfold store. case_match; [|done]. intros [= <-]. apply length_inserts. Qed.

Lemma take_drop_inserts (b bs : frame) (o : nat) :
  o + length bs <= length b -> take (length bs) (drop o (list_inserts o bs b)) = bs.
Proof.
  intros Hl. apply list_eq. intros i. destruct (decide (i < length bs)).
  - rewrite lookup_take_lt, lookup_drop, list_lookup_inserts by lia. f_equal. lia.
  - by rewrite !lookup_ge_None_2 by (rewrite ?length_take, ?length_drop, ?length_inserts; lia).
Qed.

Lemma take_drop_inserts_other (b bs : frame) (o p n : nat) :
  (p + n <= o \/ o + length bs <= p) -> take n (drop p (list_inserts o bs b)) = take n (drop p b).
Proof.
  intros Hd. apply list_eq. intros i. destruct (decide (i < n)).
  - rewrite !lookup_take_lt, !lookup_drop by done.
    destruct Hd; [apply list_lookup_inserts_lt|apply list_lookup_inserts_ge]; lia.
  - by rewrite !lookup_take_ge by lia.
Qed.

(** What is read where it was stored, and elsewhere. *)
Lemma load_store o c b b' : store o c b = Some b' -> load o (width c) b' = Some (un_le (cell_bytes c)).
Proof.
  intros Hs. pose proof (length_store _ _ _ _ Hs) as Hl. revert Hs. unfold store, load, within. rewrite Hl.
  destruct (_ && _) eqn:W; [|done]. intros [= <-]. do 2 f_equal.
  pose proof (length_cell_bytes c). replace (Z.to_nat (width c)) with (length (cell_bytes c)) by lia.
  apply take_drop_inserts. lia.
Qed.

Definition apart (o n p k : Z) : Prop := (o + n <= p \/ p + k <= o)%Z.

Lemma load_store_other o c b b' p k :
  store o c b = Some b' -> (0 <= p)%Z -> (0 <= k)%Z -> apart o (width c) p k -> load p k b' = load p k b.
Proof.
  intros Hs Hp Hk Ha. pose proof (length_store _ _ _ _ Hs) as Hl. revert Hs. unfold store, load, within. rewrite Hl.
  destruct (_ && _) eqn:W; [|done]. intros [= <-]. pose proof (length_cell_bytes c). unfold apart in Ha.
  rewrite take_drop_inserts_other by lia. done.
Qed.

Lemma un_le_le n z : (0 <= n)%Z -> un_le (le n z) = (z mod 2 ^ (n * 8))%Z.
Proof. intros. by apply little_endian_to_Z_to_little_endian. Qed.

(** A word is read as the value it was made of. *)
Section WordLemmas.
Context (fraction exponent unit : N) (Hf : (1 <= fraction)%N) (He : (1 < exponent)%N).
Local Abbreviation mword := (magnitude_word fraction unit).
Local Abbreviation top := (special exponent).

Lemma special_pos : (2 <= top)%N.
Proof.
  unfold special. assert (2 ^ 2 <= 2 ^ exponent)%N by (apply N.pow_le_mono_r; lia). cbn in H. lia.
Qed.

(** The largest finite magnitude is below [2 ^ (fraction + special - 1 + unit)]. *)
Definition fits_word (m : N) : Prop :=
  representable fraction unit m = true /\ (m < 2 ^ (fraction + (top - 1) + unit))%N.

Lemma scaled m : fits_word m ->
  exists k, m = (k * 2 ^ unit)%N /\ (k < 2 ^ (fraction + (top - 1)))%N /\
    ((2 ^ fraction <= k)%N -> exists c, k = (c * 2 ^ (N.log2 k - fraction))%N).
Proof.
  intros [[c E]%representable_iff Hm]. revert E. unfold quantum_log. intros E.
  set (q := N.max unit (N.log2 m - fraction)) in *.
  exists (c * 2 ^ (q - unit))%N.
  assert (m = c * 2 ^ (q - unit) * 2 ^ unit)%N as Em.
  { rewrite <- N.mul_assoc, <- N.pow_add_r. replace (q - unit + unit)%N with q by lia. done. }
  split; [done|]. set (k := (c * 2 ^ (q - unit))%N) in *. split.
  - rewrite Em, N.pow_add_r in Hm. by apply N.mul_lt_mono_pos_r in Hm.
  - intros Hk. exists c. unfold k at 1. do 2 f_equal.
    assert (k <> 0)%N by (pose proof (pow2_pos fraction); lia).
    assert (N.log2 m = N.log2 k + unit)%N as L by (rewrite Em, N.log2_mul_pow2; lia).
    assert (fraction <= N.log2 k)%N by (apply N.log2_le_pow2; lia). lia.
Qed.

Lemma double_of_magnitude neg m : fits_word m -> double_of fraction exponent unit neg (mword m) = DFin neg m.
Proof.
  intros (k & Em & Hk & Hc)%scaled. unfold magnitude_word, double_of.
  pose proof special_pos as Ht. pose proof (pow2_pos fraction) as Hp.
  rewrite N.shiftr_div_pow2. replace (m / 2 ^ unit)%N with k
    by (by rewrite Em, N.div_mul by (by apply N.pow_nonzero)).
  destruct (N.ltb_spec k (2 ^ fraction)) as [Lt|Ge].
  - rewrite N.div_small, N.mod_small by done. destruct (N.eqb_spec 0 top); [lia|]. cbn [N.eqb].
    by rewrite N.shiftl_mul_pow2, Em.
  - destruct (Hc Ge) as [c Ec]. set (e := (N.log2 k - fraction)%N) in *.
    assert (k <> 0)%N by lia.
    assert (fraction <= N.log2 k)%N by (apply N.log2_le_pow2; lia).
    assert (N.shiftr k e = c) as ->.
    { rewrite N.shiftr_div_pow2. rewrite Ec. apply N.div_mul, N.pow_nonzero. done. }
    pose proof (N.log2_spec k ltac:(lia)) as [Lo Hi].
    replace (N.log2 k) with (fraction + e)%N in Lo by lia.
    replace (N.succ (N.log2 k)) with (N.succ fraction + e)%N in Hi by lia.
    rewrite N.pow_add_r in Lo, Hi. rewrite Ec in Lo, Hi.
    apply N.mul_le_mono_pos_r in Lo; [|done]. apply N.mul_lt_mono_pos_r in Hi; [|done].
    rewrite N.pow_succ_r' in Hi.
    rewrite N.div_add_l, N.div_small by lia. rewrite N.add_0_r.
    rewrite (N.add_comm (_ * _)), N.Div0.mod_add, N.mod_small by lia.
    assert (N.log2 k < fraction + (top - 1))%N by (apply N.log2_lt_pow2; lia).
    destruct (N.eqb_spec (e + 1) top); [lia|]. destruct (N.eqb_spec (e + 1) 0); [lia|].
    replace (2 ^ fraction + (c - 2 ^ fraction))%N with c by lia.
    rewrite N.shiftl_mul_pow2, Em, Ec. f_equal. rewrite <- N.mul_assoc, <- N.pow_add_r. do 2 f_equal. lia.
Qed.

Lemma magnitude_word_lt m : fits_word m -> (mword m < top * 2 ^ fraction)%N.
Proof.
  intros (k & Em & Hk & Hc)%scaled. unfold magnitude_word.
  pose proof special_pos as Ht. pose proof (pow2_pos fraction) as Hp.
  rewrite N.shiftr_div_pow2. replace (m / 2 ^ unit)%N with k
    by (by rewrite Em, N.div_mul by (by apply N.pow_nonzero)).
  destruct (N.ltb_spec k (2 ^ fraction)); [nia|].
  set (e := (N.log2 k - fraction)%N). assert (k <> 0)%N by lia.
  assert (fraction <= N.log2 k)%N by (apply N.log2_le_pow2; lia).
  assert (N.log2 k < fraction + (top - 1))%N by (apply N.log2_lt_pow2; lia).
  assert (N.shiftr k e < 2 * 2 ^ fraction)%N; [|nia].
  rewrite N.shiftr_div_pow2. apply N.Div0.div_lt_upper_bound.
  rewrite <- N.pow_succ_r', <- N.pow_add_r. replace (e + N.succ fraction)%N with (N.succ (N.log2 k)) by lia.
  apply N.log2_spec. lia.
Qed.

Definition storable (d : double) : Prop :=
  match d with DFin _ m => fits_word m | _ => True end.

Lemma word_bound d : storable d -> (snd (word_of fraction exponent unit d) < 2 ^ (fraction + exponent))%N.
Proof.
  pose proof special_pos as Ht. pose proof (pow2_pos fraction) as Hp.
  assert (top * 2 ^ fraction + 2 ^ fraction = 2 ^ (fraction + exponent))%N as Es.
  { rewrite N.pow_add_r. unfold special. pose proof (pow2_pos exponent). nia. }
  assert (2 ^ (fraction - 1) < 2 ^ fraction)%N by (apply N.pow_lt_mono_r; lia).
  destruct d as [|neg|neg m]; cbn [word_of snd storable]; [lia..|].
  intros Hm%magnitude_word_lt. lia.
Qed.

(** Round trip of the word. *)
Lemma word_float_word d : storable d -> word_float fraction exponent unit (float_word fraction exponent unit d) = d.
Proof.
  intros Hd. pose proof (word_bound d Hd) as Hb. unfold word_float, float_word.
  assert (double_of fraction exponent unit (fst (word_of fraction exponent unit d)) (snd (word_of fraction exponent unit d)) = d) as Eq.
  { pose proof special_pos. pose proof (pow2_pos fraction).
    assert (2 ^ (fraction - 1) < 2 ^ fraction)%N by (apply N.pow_lt_mono_r; lia).
    destruct d as [|neg|neg m]; cbn [word_of fst snd].
    - unfold double_of. rewrite N.div_add_l, N.div_small, N.add_0_r, N.eqb_refl by lia.
      rewrite (N.add_comm (_ * _)), N.Div0.mod_add, N.mod_small by lia. pose proof (pow2_pos (fraction - 1)).
      destruct (N.eqb_spec (2 ^ (fraction - 1)) 0); [lia|done].
    - unfold double_of. by rewrite N.div_mul, N.eqb_refl, N.Div0.mod_mul by lia.
    - by apply double_of_magnitude. }
  destruct (word_of fraction exponent unit d) as [neg w]. cbn [fst snd] in *.
  assert (Z.of_N w < 2 ^ Z.of_N (fraction + exponent))%Z.
  { change 2%Z with (Z.of_N 2). rewrite <- N2Z.inj_pow. lia. }
  set (T := (2 ^ Z.of_N (fraction + exponent))%Z) in *. rewrite <- Eq. destruct neg.
  - destruct (Z.leb_spec T (T + Z.of_N w)); [|lia]. f_equal.
    rewrite Z.add_comm, <- (Z.mul_1_l T) at 1. rewrite Z.mod_add, Z.mod_small by lia. lia.
  - rewrite Z.add_0_l. destruct (Z.leb_spec T (Z.of_N w)); [lia|]. f_equal. rewrite Z.mod_small by lia. lia.
Qed.

Lemma float_word_bound d : storable d ->
  (0 <= float_word fraction exponent unit d < 2 * 2 ^ Z.of_N (fraction + exponent))%Z.
Proof.
  intros Hd. pose proof (word_bound d Hd) as Hb. unfold float_word. destruct (word_of _ _ _ d) as [neg w].
  cbn [snd] in Hb. assert (Z.of_N w < 2 ^ Z.of_N (fraction + exponent))%Z.
  { change 2%Z with (Z.of_N 2). rewrite <- N2Z.inj_pow. lia. }
  destruct neg; lia.
Qed.
End WordLemmas.

Lemma wf_double_storable d : wf_double d = true -> storable 52 11 0 d.
Proof.
  destruct d as [| |neg m]; [done..|]. cbn [wf_double storable]. unfold fits_word, prec64.
  intros [Hr Hl]%andb_true_iff. split; [done|]. apply N.ltb_lt in Hl. unfold limit64 in Hl.
  rewrite N.shiftl_mul_pow2, N.mul_1_l in Hl. exact Hl.
Qed.

Lemma wf_float_storable d : is_float d = true -> storable 23 8 925 d.
Proof.
  destruct d as [| |neg m]; [done..|]. cbn [is_float wf_float storable]. unfold fits_word.
  intros [Hr Hl]%andb_true_iff. split; [done|]. apply N.ltb_lt in Hl.
  rewrite N.shiftl_mul_pow2, N.mul_1_l in Hl. exact Hl.
Qed.

Lemma of_bits64_bits64 d : wf_double d = true -> of_bits64 (bits64 d) = d.
Proof. intros Hd%wf_double_storable. by apply word_float_word. Qed.

Lemma of_bits32_bits32 d : is_float d = true -> of_bits32 (bits32 d) = d.
Proof. intros Hd%wf_float_storable. by apply word_float_word. Qed.

Lemma bits64_mod d : wf_double d = true -> (bits64 d mod 2 ^ (8 * 8))%Z = bits64 d.
Proof. intros Hd%wf_double_storable. apply Z.mod_small. by apply (float_word_bound 52 11 0). Qed.

Lemma bits32_mod d : is_float d = true -> (bits32 d mod 2 ^ (4 * 8))%Z = bits32 d.
Proof. intros Hd%wf_float_storable. apply Z.mod_small. by apply (float_word_bound 23 8 925). Qed.

(** The conversion to [float] gives one. *)
Lemma to_float_is_float d : is_float (to_float d) = true.
Proof.
  destruct d as [| |neg m]; [done..|]. unfold to_float. destruct (_ <? _)%N eqn:E; [|done].
  unfold is_float, wf_float. rewrite E, andb_true_r. by apply round_mag_representable.
Qed.
