(* ===== verification/Reflect.v ===== *)
(** Plugin.cpp, calls through reflection: what UE4SS tells of a function's parameters,
    and the steps every helper is made of.

    A helper finds a function by name, zeroes a block of the size reflection gives, puts
    its arguments at the parameters' offsets and hands the block to [ProcessEvent].  Here
    it is a value of [M]: the calls made, in order, and the helper's answer; [None] when a
    store or a read leaves the block or a cast goes to a property of another kind, which
    is undefined behaviour, or when the block cannot be made.  The log lines are left out,
    and so are the null entries every loop over the properties skips. *)
From S2P Require Import Prelude Float64 FloatFacts JsonString Frames.
From Stdlib Require Import ZArith.

(** * What reflection tells *)

Inductive fproperty := FProperty {
  pname : string;                     (* GetName *)
  pclass : string;                    (* GetClass().GetName() *)
  poffset : Z;                        (* GetOffset_Internal *)
  psize : Z;                          (* GetSize *)
  pstruct : option (list fproperty)   (* an FStructProperty's GetStruct: its fields *)
}.

Record ufunction := UFunction { fn_name : string; parms_size : Z; params : list fproperty }.

(** The engine and UE4SS, as the helpers use them. *)
Record engine := Engine {
  class_of : Z -> option Z;                                     (* GetClassPrivate *)
  function_of : Z -> string -> option ufunction;                (* GetFunctionByNameInChain *)
  static_function : string -> option ufunction;                 (* StaticFindObject, a function's path *)
  static_object : string -> option Z;
  find_property : list fproperty -> string -> option fproperty; (* UStruct::FindProperty *)
  below_5_0 : bool;                                             (* Version::IsBelow(5, 0) *)
  set_bool : fproperty -> Z -> bool -> frame -> option frame;   (* FBoolProperty::SetPropertyValueInContainer *)
  fname : string -> Z;                                          (* FName(name, FNAME_Add), its bytes *)
  fvector : vec3 -> list Z;                                     (* the SDK's FVector, its bytes *)
  ftext : list Z -> list Z;                                       (* the SDK's FText, its bytes *)
  process_event : Z -> ufunction -> frame -> frame              (* the block after the call *)
}.

(** * Calls *)

Record process := Process { on : Z; what : ufunction; given : option frame }.

Definition M (A : Type) : Type := option (list process * A).
Definition ret {A} (a : A) : M A := Some ([], a).
Definition bind {A B} (m : M A) (k : A -> M B) : M B :=
  match m with
  | Some (calls, a) => match k a with Some (more, b) => Some (calls ++ more, b) | None => None end
  | None => None
  end.
Declare Scope call_scope.
Notation "x <- m ;; k" := (bind m (fun x => k)) (at level 100, m at next level, k at level 200, right associativity) : call_scope.
Notation "m ;; k" := (bind m (fun _ => k)) (at level 100, k at level 200, right associativity) : call_scope.
#[global] Open Scope call_scope.
Definition attempt {A} (o : option A) : M A := match o with Some a => Some ([], a) | None => None end.
Definition undefined {A} : M A := None.

Section Steps.
Context (e : engine).

Definition process_frame (o : Z) (f : ufunction) (b : frame) : M frame :=
  Some ([Process o f (Some b)], process_event e o f b).
(** [ProcessEvent(f, nullptr)]. *)
Definition process_bare (o : Z) (f : ufunction) : M unit := Some ([Process o f None], tt).

(** [std::vector<uint8_t>(static_cast<size_t>(size), 0)]: a negative size throws. *)
Definition new_frame (size : Z) : M frame := if (size <? 0)%Z then undefined else ret (zeroed size).

Definition on_function {A} (o : option Z) (name : string) (missing : A) (k : Z -> ufunction -> M A) : M A :=
  match o with
  | Some o => match function_of e o name with Some f => k o f | None => ret missing end
  | None => ret missing
  end.

(** A loop over the properties, left by no [break]. *)
Fixpoint each {S} (body : fproperty -> S -> option S) (ps : list fproperty) (s : S) : option S :=
  match ps with
  | [] => Some s
  | p :: ps => match body p s with Some s => each body ps s | None => None end
  end.

Definition named (n : string) (p : fproperty) : bool := bool_decide (pname p = n).
Definition of_class (c : string) (p : fproperty) : bool := bool_decide (pclass p = c).

(** Every parameter a test picks is given the value; whether one was. *)
Definition store_at (pick : fproperty -> bool) (c : cell) (f : ufunction) (b : frame) : option (frame * bool) :=
  each (fun p (st : frame * bool) => let (b, found) := st in
    if pick p then match store (poffset p) c b with Some b => Some (b, true) | None => None end
    else Some (b, found)) (params f) (b, false).

(** Only the first one a test picks. *)
Definition store_first (pick : fproperty -> bool) (c : cell) (f : ufunction) (b : frame) : option (frame * bool) :=
  match List.find pick (params f) with
  | Some p => match store (poffset p) c b with Some b => Some (b, true) | None => None end
  | None => Some (b, false)
  end.

(** The shape most helpers have: a block of at least [least] bytes, the parameter found, or
    no call. *)
Definition call_with (fill : ufunction -> frame -> option (frame * bool)) (least : Z) (o : Z) (f : ufunction) : M bool :=
  if (parms_size f <? least)%Z then ret false
  else
    b <- new_frame (parms_size f) ;;
    filled <- attempt (fill f b) ;;
    if snd filled then (process_frame o f (fst filled) ;; ret true) else ret false.

(** [static_cast<FStructProperty*>(p)->GetStruct()]. *)
Definition struct_of (p : fproperty) : option (option (list fproperty)) :=
  if of_class "StructProperty" p then Some (pstruct p) else None.
(** [CastField<FStructProperty>(p)], and its struct. *)
Definition cast_struct (p : fproperty) : option (list fproperty) :=
  if of_class "StructProperty" p then pstruct p else None.

(** * Three numbers in a struct *)

Definition real_cell (v : double) : cell := if below_5_0 e then F32 (to_float v) else F64 v.

Definition write_triple_at (base : Z) (at3 : Z * Z * Z) (v : vec3) (b : frame) : option frame :=
  let '(a1, a2, a3) := at3 in let '(x, y, z) := v in
  b ← store (base + a1) (real_cell x) b;
  b ← store (base + a2) (real_cell y) b;
  store (base + a3) (real_cell z) b.

(** The fields' offsets from where the struct's own offset starts, when all three resolve. *)
Definition resolve_struct_triple (p : fproperty) (n1 n2 n3 : string) : option (option (Z * Z * Z)) :=
  match struct_of p with
  | None => None
  | Some None => Some None
  | Some (Some fields) =>
      Some match find_property e fields n1, find_property e fields n2, find_property e fields n3 with
           | Some f1, Some f2, Some f3 =>
               Some (poffset p + poffset f1, poffset p + poffset f2, poffset p + poffset f3)%Z
           | _, _, _ => None
           end
  end.

(** Nothing is written when a field is missing: the block back, and whether it was filled. *)
Definition write_struct_triple (base : Z) (p : fproperty) (n1 n2 n3 : string) (v : vec3) (b : frame)
    : option (frame * bool) :=
  match resolve_struct_triple p n1 n2 n3 with
  | None => None
  | Some None => Some (b, false)
  | Some (Some at3) => match write_triple_at base at3 v b with Some b => Some (b, true) | None => None end
  end.

Definition write_vector_param (base : Z) (p : fproperty) (v : vec3) (b : frame) : option (frame * bool) :=
  write_struct_triple base p "X" "Y" "Z" v b.
Definition write_rotator_param (base : Z) (p : fproperty) (v : vec3) (b : frame) : option (frame * bool) :=
  write_struct_triple base p "Pitch" "Yaw" "Roll" v b.
End Steps.
