(* ===== verification/EngineCalls.v ===== *)
(** Plugin.cpp, the helpers that call a function of a pawn, a component or an actor by
    reflection.

    Each is a value of [M]: the calls it makes and what it answers.  A parameter is found
    by its name, by its place or by its size, as each helper does; a helper that writes
    without comparing the offset with the block's size is [None] where the write leaves
    the block. *)
From S2P Require Import Prelude Float64 FloatFacts JsonString Frames Reflect.
From Stdlib Require Import ZArith.

(** [static_cast<int32_t>] of a [size_t], and a sum of two [int32_t]s, undefined when it
    does not fit. *)
Definition i32 (z : Z) : Z := ((z + 2 ^ 31) mod 2 ^ 32 - 2 ^ 31)%Z.
Definition add32 (a b : Z) : option Z :=
  if ((- 2 ^ 31 <=? a + b) && (a + b <? 2 ^ 31))%Z then Some (a + b)%Z else None.

Section Calls.
Context (e : engine).

(** For a helper that returns nothing. *)
Definition quietly {A} (m : M A) : M unit := m ;; ret tt.

(** * One parameter *)

Definition any (_ : fproperty) : bool := true.

Definition call_ufunction_with_leading_actor_arg (target : option Z) (function : option ufunction) (actor : option Z) : M unit :=
  match target, function with
  | Some o, Some f =>
      if (parms_size f <? 8)%Z then ret tt
      else
        b <- new_frame (parms_size f) ;;
        b <- attempt (store 0 (ptr actor) b) ;;
        quietly (process_frame e o f b)
  | _, _ => ret tt
  end.

Definition call_set_collision_object_type (target : option Z) (object_type : Z) : M unit :=
  on_function e target "SetCollisionObjectType" tt (fun o f =>
    quietly (call_with e (store_first any (U8 object_type)) 1 o f)).

Definition call_set_render_custom_depth (component : option Z) (value : bool) : M unit :=
  on_function e component "SetRenderCustomDepth" tt (fun o f =>
    quietly (call_with e (store_first any (bool_cell value)) 1 o f)).

(** The one helper of this kind that compares the offset with the block's size. *)
Definition call_set_light_intensity (component : option Z) (value : double) : M unit :=
  on_function e component "SetIntensity" tt (fun o f =>
    if (parms_size f <? 4)%Z then ret tt
    else
      b <- new_frame (parms_size f) ;;
      match params f with
      | [] => ret tt
      | p :: _ =>
          if (poffset p <? 0)%Z then ret tt
          else
            past <- attempt (add32 (poffset p) 4) ;;
            if (past >? parms_size f)%Z then ret tt
            else
              b <- attempt (store (poffset p) (F32 value) b) ;;
              quietly (process_frame e o f b)
      end).

(** The first two parameters, each only where it is inside the block. *)
Fixpoint visibility_bytes (size : Z) (values : list bool) (ps : list fproperty) (b : frame) : option frame :=
  match values, ps with
  | v :: values, p :: ps =>
      match (if (0 <=? poffset p) && (poffset p <? size) then store (poffset p) (bool_cell v) b else Some b)%Z with
      | Some b => visibility_bytes size values ps b
      | None => None
      end
  | _, _ => Some b
  end.

Definition call_set_visibility (component : option Z) (visible propagate : bool) : M unit :=
  on_function e component "SetVisibility" tt (fun o f =>
    if (parms_size f <? 1)%Z then ret tt
    else
      b <- new_frame (parms_size f) ;;
      b <- attempt (visibility_bytes (parms_size f) [visible; propagate] (params f) b) ;;
      if bool_decide (params f = []) then ret tt else quietly (process_frame e o f b)).

(** * Collision *)

Definition disable_component_collision (component : option Z) : M bool :=
  on_function e component "SetCollisionEnabled" false (fun o f =>
    if (parms_size f <? 1)%Z then ret false
    else
      b <- new_frame (parms_size f) ;;
      filled <- attempt (store_at (named "NewType") (U8 0) f b) ;;
      process_frame e o f (fst filled) ;; ret true).

(** A byte the function returned: of the first parameter of that name. *)
Definition returned_byte (f : ufunction) (b : frame) : option (option Z) :=
  match List.find (named "ReturnValue") (params f) with
  | Some p => match load (poffset p) 1 b with Some v => Some (Some v) | None => None end
  | None => Some None
  end.

Definition ask_byte (o : Z) (f : ufunction) : M (option Z) :=
  b <- new_frame (parms_size f) ;;
  b <- process_frame e o f b ;;
  attempt (returned_byte f b).

Definition component_collision_enabled (component : option Z) : M Z :=
  on_function e component "GetCollisionEnabled" (-1)%Z (fun o f =>
    if (parms_size f <? 1)%Z then ret (-1)%Z
    else v <- ask_byte o f ;; ret (default (-1)%Z v)).

Definition timeline_is_playing (timeline : option Z) : M bool :=
  on_function e timeline "IsPlaying" false (fun o f =>
    if (parms_size f <? 1)%Z then ret false
    else v <- ask_byte o f ;; ret (match v with Some v => negb (v =? 0)%Z | None => false end)).

(** Existence stands in for an answer that cannot be had. *)
Definition component_is_active (component : option Z) : M bool :=
  match component with
  | None => ret false
  | Some _ =>
      on_function e component "IsActive" true (fun o f =>
        if (parms_size f <? 1)%Z then ret true
        else v <- ask_byte o f ;; ret (match v with Some v => negb (v =? 0)%Z | None => true end))
  end.

Definition call_set_collision_response_to_channel (target : option Z) (function : option ufunction) (channel response : Z) : M unit :=
  match target, function with
  | Some o, Some f =>
      if (parms_size f <? 2)%Z then ret tt
      else
        b <- new_frame (parms_size f) ;;
        match params f with
        | p :: q :: _ =>
            b <- attempt (store (poffset p) (U8 channel) b) ;;
            b <- attempt (store (poffset q) (U8 response) b) ;;
            quietly (process_frame e o f b)
        | [p] => attempt (store (poffset p) (U8 channel) b) ;; ret tt
        | [] => ret tt
        end
  | _, _ => ret tt
  end.

(** * A parameter by its name *)

Definition call_montage_stop (anim_instance : option Z) (blend_out_time : double) : M unit :=
  on_function e anim_instance "Montage_Stop" tt (fun o f =>
    quietly (call_with e (store_at (named "InBlendOutTime") (F32 blend_out_time)) 4 o f)).

Definition call_custom_play_montage (pawn montage : option Z) : M bool :=
  match montage with
  | None => ret false
  | Some _ => on_function e pawn "CustomPlayMontage" false
                (call_with e (store_at (named "MontageToPlay") (ptr montage)) 8)
  end.

(** The block of [Montage_Play], and the last return parameter. *)
Definition montage_params (montage : option Z) (f : ufunction) (b : frame) : option (frame * bool * option fproperty) :=
  each (fun p (st : frame * bool * option fproperty) => let '(b, found, ret_p) := st in
    if named "MontageToPlay" p then
      match store (poffset p) (ptr montage) b with Some b => Some (b, true, ret_p) | None => None end
    else if named "InPlayRate" p then
      match store (poffset p) (F32 (of_Z 1)) b with Some b => Some (b, found, ret_p) | None => None end
    else if named "ReturnValue" p then Some (b, found, Some p)
    else Some st) (params f) (b, false, None).

(** What it started, in seconds: -1 when it was not called, 0 when the answer cannot be
    read.  The sum is of [int]s. *)
Definition call_montage_play (anim_instance montage : option Z) : M double :=
  match montage with
  | None => ret (of_Z (-1))
  | Some _ =>
      on_function e anim_instance "Montage_Play" (of_Z (-1)) (fun o f =>
        if (parms_size f <? 8)%Z then ret (of_Z (-1))
        else
          b <- new_frame (parms_size f) ;;
          st <- attempt (montage_params montage f b) ;;
          let '(b, found, ret_p) := st in
          if (found : bool) then
            b <- process_frame e o f b ;;
            match ret_p with
            | Some p =>
                if of_class "FloatProperty" p then
                  past <- attempt (add32 (poffset p) 4) ;;
                  if (parms_size f >=? past)%Z then v <- attempt (load (poffset p) 4 b) ;; ret (of_bits32 v)
                  else ret dzero
                else ret dzero
            | None => ret dzero
            end
          else ret (of_Z (-1)))
  end.

(** The montage an anim instance plays: [None] when the getter cannot be used. *)
Definition read_current_active_montage (anim_instance : option Z) : M (option (option Z)) :=
  on_function e anim_instance "GetCurrentActiveMontage" None (fun o f =>
    match List.find (named "ReturnValue") (rev (params f)) with
    | Some p =>
        if of_class "ObjectProperty" p then
          past <- attempt (add32 (poffset p) 8) ;;
          if (parms_size f <? past)%Z then ret None
          else
            b <- new_frame (parms_size f) ;;
            b <- process_frame e o f b ;;
            v <- attempt (load (poffset p) 8 b) ;;
            ret (Some (as_ptr v))
        else ret None
    | None => ret None
    end).

Definition call_update_weapon_equip (anim_instance : option Z) (equipped : bool) : M unit :=
  on_function e anim_instance "updateWeaponEquip" tt (fun o f =>
    quietly (call_with e (store_at (named "animEquippedWeapon") (bool_cell equipped)) 1 o f)).

Definition call_set_simulate_physics (component : option Z) (simulate : bool) : M bool :=
  on_function e component "SetSimulatePhysics" false (fun o f =>
    if (parms_size f <? 1)%Z then ret false
    else
      b <- new_frame (parms_size f) ;;
      b <- attempt (store 0 (bool_cell simulate) b) ;;
      process_frame e o f b ;; ret true).

(** Called whether or not the parameter is there. *)
Definition call_perform_damage_response (ghost : option Z) (damage_type : Z) : M bool :=
  on_function e ghost "BPI_PerformDamageResponse" false (fun o f =>
    if (parms_size f <? 1)%Z then ret false
    else
      b <- new_frame (parms_size f) ;;
      filled <- attempt (store_at (named "DamageType") (U8 damage_type) f b) ;;
      process_frame e o f (fst filled) ;; ret true).

Definition call_die_fade (ghost : option Z) (die_not_rez : bool) : M bool :=
  on_function e ghost "dieFade" false (call_with e (store_at (named "DieNotRez") (bool_cell die_not_rez)) 1).

Definition call_contact_damage_response (hitable : option Z) : M bool :=
  on_function e hitable "BPI_ContactDamageResponse" false (fun o f => process_bare o f ;; ret true).

Definition call_combat_death (hitable : option Z) (dissolve_delay : double) : M bool :=
  on_function e hitable "BPI_CombatDeath" false
    (call_with e (store_at (fun p => named "dissolveDelay" p && of_class "DoubleProperty" p) (F64 dissolve_delay)) 1).

(** The first parameter of one byte. *)
Definition call_change_weapon_state (weapon_actor : option Z) (new_state : Z) : M unit :=
  on_function e weapon_actor "Change Weapon State" tt (fun o f =>
    quietly (call_with e (store_first (fun p => psize p =? 1)%Z (U8 new_state)) 1 o f)).

Definition call_change_equipped_weapon (pawn : option Z) (equipped : bool) : M unit :=
  on_function e pawn "changeEquippedWeapon" tt (fun o f =>
    quietly (call_with e (store_at (named "weaponEquipped?") (bool_cell equipped)) 1 o f)).

Definition call_bool_ufunction (target : option Z) (function_name param_name : string) (value : bool) : M bool :=
  on_function e target function_name false (call_with e (store_at (named param_name) (bool_cell value)) 1).

Definition call_spawn_after_image (pawn : option Z) (duration : double) : M unit :=
  on_function e pawn "Spawn After Image" tt (fun o f =>
    quietly (call_with e (store_at (named "Duration") (F32 duration)) 4 o f)).

Definition call_object_param_ufunction (target : option Z) (function_name param_name : string) (value : option Z) : M bool :=
  on_function e target function_name false (fun o f =>
    match find_property e (params f) param_name with
    | Some p =>
        if (parms_size f <? i32 (poffset p + 8))%Z then ret false
        else
          b <- new_frame (parms_size f) ;;
          b <- attempt (store (poffset p) (ptr value) b) ;;
          process_frame e o f b ;; ret true
    | None => ret false
    end).

(** * A zeroed block *)

(** A block of the size reflection gives, empty when it is negative. *)
Definition call_zeroed (o : Z) (f : ufunction) : M unit := quietly (process_frame e o f (zeroed (parms_size f))).

Definition call_do_wall_run (pawn : option Z) : M unit := on_function e pawn "doWallRun" tt call_zeroed.
Definition call_spawn_num_afterimages (pawn : option Z) : M unit := on_function e pawn "spawnNumAfterimages" tt call_zeroed.
Definition call_manage_recall_idle_fx (pawn : option Z) : M unit := on_function e pawn "manageRecallIdleFX" tt call_zeroed.
Definition call_named_no_arg (pawn : option Z) (function_name : string) : M bool :=
  on_function e pawn function_name false (fun o f => call_zeroed o f ;; ret true).

(** These two refuse a negative size. *)
Definition call_start_blink (ghost : option Z) : M bool :=
  on_function e ghost "startBlink" false (fun o f =>
    if (parms_size f <? 0)%Z then ret false else call_zeroed o f ;; ret true).
Definition call_manage_blob_shadow (ghost : option Z) : M bool :=
  on_function e ghost "manageBlobShadow" false (fun o f =>
    if (parms_size f <? 0)%Z then ret false else call_zeroed o f ;; ret true).

Definition call_two_float_event (pawn : option Z) (function_name : string) (x y : double) : M bool :=
  on_function e pawn function_name false (fun o f =>
    if (parms_size f <? 8)%Z then ret false
    else
      b <- new_frame (parms_size f) ;;
      b <- attempt (store 0 (F32 x) b) ;;
      b <- attempt (store 4 (F32 y) b) ;;
      process_frame e o f b ;; ret true).

Definition call_destroy_actor (actor : option Z) : M bool :=
  on_function e actor "K2_DestroyActor" false (fun o f => process_bare o f ;; ret true).

(** On the level's light manager, with 256 bytes whatever the function's own size. *)
Definition call_fix_lights (manager : option Z) (which : string) : M bool :=
  on_function e manager which false (fun o f => process_frame e o f (zeroed 256) ;; ret true).

(** * A mesh's asset *)

(** [overrides] is the component's array of override materials; how many were dropped,
    and the array after. *)
Definition clear_override_materials (mesh_component : option Z) (overrides : option (list (option Z))) : Z * option (list (option Z)) :=
  match mesh_component, overrides with
  | Some _, Some ms => (Z.of_nat (length ms), Some [])
  | _, _ => (0%Z, overrides)
  end.

Definition call_set_skeletal_mesh_asset (mesh_component new_mesh : option Z) (overrides : option (list (option Z)))
    : M (option (list (option Z))) :=
  match mesh_component, new_mesh with
  | Some _, Some _ =>
      let overrides := (clear_override_materials mesh_component overrides).2 in
      on_function e mesh_component "SetSkeletalMeshAsset" overrides (fun o f =>
        call_with e (store_first any (ptr new_mesh)) 8 o f ;; ret overrides)
  | _, _ => ret overrides
  end.
End Calls.
