(* ===== verification/StructCalls.v ===== *)
(** Plugin.cpp, the helpers whose calls carry vectors and structs: the effects spawned, the
    placement of actors and components, the damage of a chaser's touch, the components made
    on a ghost. *)
From S2P Require Import Prelude Float64 FloatFacts JsonString Frames Reflect EngineCalls.
From Stdlib Require Import ZArith.

Section Calls.
Context (e : engine).

(** * Effects *)

(** A loop that stores what its parameters' names ask for, and notes which were seen. *)
Record spawn_frame := SpawnFrame { sf_frame : frame; has_system : bool; has_place : bool; return_slot : option Z }.
#[export] Instance spawn_frame_eta : Eta spawn_frame := fun r =>
  SpawnFrame (sf_frame r) (has_system r) (has_place r) (return_slot r).

Definition put (o : Z) (c : cell) (s : spawn_frame) : option spawn_frame :=
  match store o c (sf_frame s) with Some b => Some (s <| sf_frame := b |>) | None => None end.

Definition attached_param (system_asset attach : Z) (socket : option string) (p : fproperty) (s : spawn_frame) : option spawn_frame :=
  let slot := poffset p in
  if named "SystemTemplate" p then put slot (Ptr system_asset) (s <| has_system := true |>)
  else if named "AttachToComponent" p then put slot (Ptr attach) (s <| has_place := true |>)
  else if named "AttachPointName" p then
    match socket with Some n => put slot (Ptr (fname e n)) s | None => Some s end
  else if named "bAutoActivate" p then put slot (U8 1) s
  else if named "bAutoDestroy" p then put slot (U8 0) s
  else if named "ReturnValue" p then Some (s <| return_slot := Some slot |>)
  else Some s.

Definition located_param (world_context system_asset : Z) (location : vec3) (yaw : double) (auto_destroy : bool)
    (p : fproperty) (s : spawn_frame) : option spawn_frame :=
  let slot := poffset p in
  if named "SystemTemplate" p then put slot (Ptr system_asset) (s <| has_system := true |>)
  else if named "WorldContextObject" p then put slot (Ptr world_context) s
  else if named "Location" p then put slot (Raw (fvector e location)) (s <| has_place := true |>)
  else if named "Scale" p then put slot (Raw (fvector e (of_Z 1, of_Z 1, of_Z 1))) s
  else if named "Rotation" p && dne yaw dzero then
    if (psize p =? 24)%Z then put (slot + 8) (F64 yaw) s
    else if (psize p =? 12)%Z then put (slot + 4) (F32 (to_float yaw)) s
    else Some s
  else if named "bAutoActivate" p then put slot (U8 1) s
  else if named "bAutoDestroy" p then put slot (bool_cell auto_destroy) s
  else if named "ReturnValue" p then Some (s <| return_slot := Some slot |>)
  else Some s.

(** On the library's class default object; the component, where the block has a slot for
    it. *)
Definition spawn_with (fill : fproperty -> spawn_frame -> option spawn_frame) (function : option ufunction) (library : option Z)
    : M (option Z) :=
  match function, library with
  | Some f, Some cdo =>
      if (parms_size f <? 1)%Z then ret None
      else
        b <- new_frame (parms_size f) ;;
        s <- attempt (each fill (params f) (SpawnFrame b false false None)) ;;
        if has_system s && has_place s then
          b <- process_frame e cdo f (sf_frame s) ;;
          match return_slot s with
          | Some slot => v <- attempt (load slot 8 b) ;; ret (as_ptr v)
          | None => ret None
          end
        else ret None
  | _, _ => ret None
  end.

Definition niagara_library : option Z := static_object e "/Script/Niagara.Default__NiagaraFunctionLibrary".

Definition spawn_niagara_attached (system_asset attach : option Z) (socket : option string) : M (option Z) :=
  match system_asset, attach with
  | Some asset, Some parent =>
      spawn_with (attached_param asset parent socket)
        (static_function e "/Script/Niagara.NiagaraFunctionLibrary:SpawnSystemAttached") niagara_library
  | _, _ => ret None
  end.

Definition spawn_niagara_at_location (world_context system_asset : option Z) (location : vec3) (yaw : double) (auto_destroy : bool)
    : M (option Z) :=
  match system_asset, world_context with
  | Some asset, Some context =>
      spawn_with (located_param context asset location yaw auto_destroy)
        (static_function e "/Script/Niagara.NiagaraFunctionLibrary:SpawnSystemAtLocation") niagara_library
  | _, _ => ret None
  end.

(** * Placement *)

Definition param (f : ufunction) (n : string) : option fproperty := find_property e (params f) n.

(** A location and a rotation; whether both were written. *)
Definition write_place (location rotation : fproperty) (loc rot : vec3) (b : frame) : option (frame * bool) :=
  match write_vector_param e 0 location loc b with
  | Some (b, true) => write_rotator_param e 0 rotation rot b
  | other => other
  end.

(** Both layouts resolved before anything is written. *)
Definition write_place_static (location rotation : fproperty) (loc rot : vec3) (b : frame) : option (frame * bool) :=
  match resolve_struct_triple e location "X" "Y" "Z", resolve_struct_triple e rotation "Pitch" "Yaw" "Roll" with
  | Some (Some l3), Some r3 =>
      match write_triple_at e 0 l3 loc b, r3 with
      | Some b, Some r3 => match write_triple_at e 0 r3 rot b with Some b => Some (b, true) | None => None end
      | Some b, None => Some (b, false)
      | None, _ => None
      end
  | Some None, Some _ => Some (b, false)
  | _, _ => None
  end.

Definition room_for (p : fproperty) (f : ufunction) : option bool :=
  match add32 (poffset p) (psize p) with Some past => Some (past <=? parms_size f)%Z | None => None end.

(** The two that sweep: room is tested for the structs, not for the two flags. *)
Definition place_swept (write : fproperty -> fproperty -> vec3 -> vec3 -> frame -> option (frame * bool)) (o : Z) (f : ufunction) (loc rot : vec3) : M unit :=
  match param f "NewLocation", param f "NewRotation", param f "bSweep", param f "bTeleport" with
  | Some l, Some r, Some sweep, Some teleport =>
      room_l <- attempt (room_for l f) ;;
      if negb room_l then ret tt
      else
        room_r <- attempt (room_for r f) ;;
        if negb room_r then ret tt
        else
          b <- new_frame (parms_size f) ;;
          filled <- attempt (write l r loc rot b) ;;
          if snd filled then
            b <- attempt (store (poffset sweep) (U8 0) (fst filled)) ;;
            b <- attempt (store (poffset teleport) (U8 1) b) ;;
            quietly (process_frame e o f b)
          else ret tt
  | _, _, _, _ => ret tt
  end.

Definition on_static {A} (o : option Z) (path : string) (missing : A) (k : Z -> ufunction -> M A) : M A :=
  match o, static_function e path with Some o, Some f => k o f | _, _ => ret missing end.

Definition call_set_actor_location_and_rotation (actor : option Z) (loc rot : vec3) : M unit :=
  on_static actor "/Script/Engine.Actor:K2_SetActorLocationAndRotation" tt (fun o f => place_swept write_place_static o f loc rot).

Definition call_set_component_world_location_and_rotation (component : option Z) (loc rot : vec3) : M unit :=
  on_static component "/Script/Engine.SceneComponent:K2_SetWorldLocationAndRotation" tt (fun o f => place_swept write_place o f loc rot).

(** The two that write only the place. *)
Definition place_plain (o : Z) (f : ufunction) (loc rot : vec3) : M unit :=
  match param f "NewLocation", param f "NewRotation" with
  | Some l, Some r =>
      if (parms_size f <? 1)%Z then ret tt
      else
        b <- new_frame (parms_size f) ;;
        filled <- attempt (write_place l r loc rot b) ;;
        if snd filled then quietly (process_frame e o f (fst filled)) else ret tt
  | _, _ => ret tt
  end.

Definition set_text_render_transform (component : option Z) (loc rot : vec3) : M unit :=
  on_static component "/Script/Engine.SceneComponent:K2_SetWorldLocationAndRotation" tt (fun o f => place_plain o f loc rot).

Definition set_component_relative_transform (component : option Z) (loc rot : vec3) : M unit :=
  on_static component "/Script/Engine.SceneComponent:K2_SetRelativeLocationAndRotation" tt (fun o f => place_plain o f loc rot).

(** * Damage *)

Definition call_touch_hazard (hitable : option Z) (location : vec3) : M bool :=
  on_function e hitable "BPI_TouchHazard" false (fun o f =>
    if (parms_size f <? 1)%Z then ret false
    else
      b <- new_frame (parms_size f) ;;
      filled <- attempt (each (fun p (st : frame * bool) =>
        if named "Location" p && of_class "StructProperty" p then write_vector_param e 0 p location (fst st) else Some st)
        (params f) (b, false)) ;;
      if snd filled then process_frame e o f (fst filled) ;; ret true else ret false).

(** Where [BPI_TryDamage] takes each argument; the hit box's members from its own start. *)
Record TryDamageLayout := TryLayout {
  l_function : ufunction;
  l_attacker : fproperty; l_hitbox : fproperty; l_forward : fproperty; l_query : fproperty;
  l_damage : fproperty; l_hit_stop : fproperty; l_sound : fproperty; l_socket : fproperty;
  l_extent : fproperty; l_damage_type : fproperty
}.

(** The last of the properties a test picks. *)
Definition last_such (pick : fproperty -> bool) (ps : list fproperty) : option fproperty := List.find pick (rev ps).

(** [short_is]: the short name, an underscore and a digit start a Blueprint member's. *)
Definition short_is (short full : string) : bool :=
  let prefix := (short ++ "_")%string in
  (String.length prefix <? String.length full)%nat && String.prefix prefix full
  && match String.get (String.length prefix) full with Some c => is_digit c | None => false end.

(** [None] is undefined behaviour, [Some None] a layout that is not [ok]. *)
Definition resolve_try_damage_layout (hitable : Z) : option (option TryDamageLayout) :=
  match function_of e hitable "BPI_TryDamage" with
  | None => Some None
  | Some f =>
      let find_param n c := last_such (fun p => named n p && of_class c p) (params f) in
      match find_param "HitboxInfo" "StructProperty" with
      | None => Some None
      | Some hitbox =>
          match struct_of hitbox with
          | None => None
          | Some None => Some None
          | Some (Some fields) =>
              let field n c := last_such (fun p => short_is n (pname p) && of_class c p) fields in
              Some (
                attacker ← find_param "Attacker" "ObjectProperty"; forward ← find_param "ForwardVector" "StructProperty";
                query ← find_param "QueryLocation" "StructProperty";
                damage ← field "Damage" "DoubleProperty"; hit_stop ← field "HitStopDuration" "DoubleProperty";
                sound ← field "HitSound" "ObjectProperty"; socket ← field "hitboxSocketName" "NameProperty";
                extent ← field "lengthRadiusHalfHeight" "StructProperty"; damage_type ← field "DamageType" "ByteProperty";
                Some (TryLayout f attacker hitbox forward query damage hit_stop sound socket extent damage_type))
          end
      end
  end.

(** The function's static locals: the layout by the class last seen, and the sound once it
    is loaded. *)
Record try_statics := TryStatics { layout_class : option Z; layout : option TryDamageLayout; contact_cue : option Z }.
Definition try_statics_initial : try_statics := TryStatics None None None.

Definition CONTACT_CUE : string := "/Game/Audio/Sounds/Actions/Cue_contact.Cue_contact".

(** The block, in the order it is filled. *)
Definition try_damage_frame (l : TryDamageLayout) (attacker : Z) (cue : option Z) (damage : double) (forward query : vec3) (b : frame)
    : option (frame * bool) :=
  let info := poffset (l_hitbox l) in
  let at_info p := (info + poffset p)%Z in
  b ← store (poffset (l_attacker l)) (Ptr attacker) b;
  b ← store (at_info (l_damage l)) (F64 damage) b;
  b ← store (at_info (l_hit_stop l)) (F64 (lit 1 5)) b;
  b ← store (at_info (l_sound l)) (ptr cue) b;
  b ← store (at_info (l_socket l)) (Ptr (fname e "handSlot_RSocket")) b;
  b ← store (at_info (l_damage_type l)) (U8 5) b;
  match write_vector_param e info (l_extent l) (of_Z 120, of_Z 80, of_Z 80) b with
  | Some (b, true) =>
      match write_vector_param e 0 (l_forward l) forward b with
      | Some (b, true) => write_vector_param e 0 (l_query l) query b
      | other => other
      end
  | other => other
  end.

Definition call_try_damage (st : try_statics) (hitable attacker : option Z) (damage : double) (forward query : vec3) : M (try_statics * bool) :=
  match hitable, attacker with
  | Some o, Some attacker =>
      let cls := class_of e o in
      st <- (if bool_decide (cls = layout_class st) then ret st
             else l <- attempt (resolve_try_damage_layout o) ;; ret (TryStatics cls l (contact_cue st))) ;;
      match layout st with
      | None => ret (st, false)
      | Some l =>
          let cue := match contact_cue st with Some c => Some c | None => static_object e CONTACT_CUE end in
          let st := TryStatics (layout_class st) (layout st) cue in
          b <- new_frame (parms_size (l_function l)) ;;
          filled <- attempt (try_damage_frame l attacker cue damage forward query b) ;;
          if snd filled then process_frame e o (l_function l) (fst filled) ;; ret (st, true) else ret (st, false)
      end
  | _, _ => ret (st, false)
  end.

(** * Components made *)

(** A member of a struct member, as a float or a double by its own size. *)
Definition write_named_float (base : Z) (outer : option fproperty) (inner : string) (v : double) (b : frame) : option frame :=
  match outer ≫= fun p => fields ← cast_struct p; field ← find_property e fields inner; Some (poffset p, field) with
  | Some (at_, field) =>
      store (base + at_ + poffset field) (if (psize field =? 8)%Z then F64 v else F32 (to_float v)) b
  | None => Some b
  end.

(** The identity transform, whose zeroed block would be invisible. *)
Definition write_identity (transform : fproperty) (b : frame) : option frame :=
  match cast_struct transform with
  | None => Some b
  | Some fields =>
      let rotation := find_property e fields "Rotation" in
      let scale := find_property e fields "Scale3D" in
      let base := poffset transform in
      b ← write_named_float base rotation "W" (of_Z 1) b;
      b ← write_named_float base scale "X" (of_Z 1) b;
      b ← write_named_float base scale "Y" (of_Z 1) b;
      write_named_float base scale "Z" (of_Z 1) b
  end.

Definition store_opt (p : option fproperty) (c : cell) (b : frame) : option frame :=
  match p with Some p => store (poffset p) c b | None => Some b end.

(** [AddComponentByClass] on an actor. *)
Definition add_component (owner cls : Z) (f : ufunction) : M (option Z) :=
  match param f "Class", param f "RelativeTransform", param f "ReturnValue" with
  | Some class_param, Some transform, Some return_param =>
      if (parms_size f <? 1)%Z then ret None
      else
        b <- new_frame (parms_size f) ;;
        b <- attempt (store (poffset class_param) (Ptr cls) b) ;;
        b <- attempt (store_opt (param f "bManualAttachment") (U8 0) b) ;;
        b <- attempt (store_opt (param f "bDeferredFinish") (U8 0) b) ;;
        b <- attempt (write_identity transform b) ;;
        b <- process_frame e owner f b ;;
        v <- attempt (load (poffset return_param) 8 b) ;;
        ret (as_ptr v)
  | _, _, _ => ret None
  end.

Definition ADD_COMPONENT : string := "/Script/Engine.Actor:AddComponentByClass".

(** The setters a mesh family has carried, in the order they are tried. *)
Definition SETTERS : list (string * string) :=
  [("SetSkeletalMesh", "NewMesh"); ("SetSkeletalMeshAsset", "NewMesh"); ("SetSkinnedAssetAndUpdate", "InSkinnedAsset");
   ("SetSkinnedAsset", "InSkinnedAsset"); ("SetStaticMesh", "NewMesh")]%string.

Fixpoint try_setters (component mesh : Z) (setters : list (string * string)) : M (option string) :=
  match setters with
  | [] => ret None
  | (fn, p) :: setters =>
      applied <- call_object_param_ufunction e (Some component) fn p (Some mesh) ;;
      if (applied : bool) then ret (Some fn) else try_setters component mesh setters
  end.

(** Collision off; the block's size is not tested here. *)
Definition flyer_collision_off (component : Z) : M unit :=
  match function_of e component "SetCollisionEnabled" with
  | Some f =>
      match param f "NewType" with
      | Some p =>
          b <- new_frame (parms_size f) ;;
          b <- attempt (store (poffset p) (U8 0) b) ;;
          quietly (process_frame e component f b)
      | None => ret tt
      end
  | None => ret tt
  end.

(** [asset_of] reads an object property of the hand's mesh, when it resolves and is set. *)
Definition create_ghost_weapon_flyer (asset_of : string -> option Z) (ghost hand_mesh : option Z) : M (option Z) :=
  match ghost, hand_mesh with
  | Some owner, Some hand =>
      match class_of e hand, static_function e ADD_COMPONENT with
      | Some cls, Some f =>
          made <- add_component owner cls f ;;
          match made with
          | None => ret None
          | Some component =>
              match omap asset_of ["SkeletalMeshAsset"; "SkeletalMesh"; "StaticMesh"]%string with
              | mesh :: _ => quietly (try_setters component mesh SETTERS)
              | [] => ret tt
              end ;;
              flyer_collision_off component ;; ret (Some component)
          end
      | _, _ => ret None
      end
  | _, _ => ret None
  end.
End Calls.
