(* ===== verification/ReflectCache.v ===== *)
(** Plugin.cpp, the caches in front of reflection: a property or a function by class and
    name, and the object properties of a class, misses included, for the life of a level.

    What UE4SS answers is a parameter, one per level ([level_view]); [lookups] runs a
    level's questions through the caches and lists the walks made, [levels] one level after
    another with the caches dropped in between.  They answer as the walks would and walk
    once per key ([caches_transparent]). *)
From S2P Require Import Prelude.
From Stdlib Require Import ZArith.

(** * What a walk answers *)

Record level_view := LevelView {
  is_struct : Z -> bool;                                (* IsA<UStruct> *)
  class_private : Z -> option Z;                        (* GetClassPrivate *)
  property_in_chain : Z -> string -> option Z;          (* GetPropertyByNameInChain *)
  function_in_chain : Z -> string -> option Z;          (* GetFunctionByNameInChain *)
  field_range : Z -> list (option (Z * string))         (* TFieldRange: a property, its class's name *)
}.

Definition key : Type := Z * string.
Record caches := Caches {
  g_property_cache : gmap key (option Z);
  g_function_cache : gmap key (option Z);
  g_object_property_cache : gmap Z (list Z)
}.
#[export] Instance caches_eta : Eta caches := fun r =>
  Caches (g_property_cache r) (g_function_cache r) (g_object_property_cache r).
Definition no_caches : caches := Caches ∅ ∅ ∅.

Inductive walk := WalkProperty (k : key) | WalkFunction (k : key) | WalkObjects (cls : Z).

(** * The three lookups *)

(** The entry of a key, or what [make] finds, stored. *)
Definition entry_of {A} `{Countable K} (m : gmap K A) (k : K) (w : walk) (make : A) : A * gmap K A * list walk :=
  match m !! k with Some v => (v, m, []) | None => (make, <[k := make]> m, [w]) end.

Definition property_owner (r : level_view) (object : Z) : option Z :=
  if is_struct r object then Some object else class_private r object.

(** A null object, name or owner is answered with no entry. *)
Definition keyed (owner : Z -> option Z) (object : option Z) (name : option string) : option (Z * key) :=
  o ← object; n ← name; c ← owner o; Some (o, (c, n)).

Definition mg_cached_property (r : level_view) (object : option Z) (name : option string) (c : caches) : option Z * caches * list walk :=
  match keyed (property_owner r) object name with
  | None => (None, c, [])
  | Some (o, k) =>
      let '(found, m, ws) := entry_of (g_property_cache c) k (WalkProperty k) (property_in_chain r o k.2) in
      (found, c <| g_property_cache := m |>, ws)
  end.

Definition mg_cached_function (r : level_view) (object : option Z) (name : option string) (c : caches) : option Z * caches * list walk :=
  match keyed (class_private r) object name with
  | None => (None, c, [])
  | Some (o, k) =>
      let '(found, m, ws) := entry_of (g_function_cache c) k (WalkFunction k) (function_in_chain r o k.2) in
      (found, c <| g_function_cache := m |>, ws)
  end.

Definition object_properties (r : level_view) (cls : Z) : list Z :=
  omap (fun p => match p with Some (a, n) => if bool_decide (n = "ObjectProperty"%string) then Some a else None | None => None end)
       (field_range r cls).

Definition mg_object_properties (r : level_view) (owner_class : option Z) (c : caches) : list Z * caches * list walk :=
  match owner_class with
  | None => ([], c, [])
  | Some cls =>
      let '(found, m, ws) := entry_of (g_object_property_cache c) cls (WalkObjects cls) (object_properties r cls) in
      (found, c <| g_object_property_cache := m |>, ws)
  end.

(** * A level's questions *)

Inductive question :=
  | AskProperty (object : option Z) (name : option string)
  | AskFunction (object : option Z) (name : option string)
  | AskObjects (owner_class : option Z).
Inductive answer := Found (p : option Z) | Listed (ps : list Z).

Definition ask (r : level_view) (q : question) (c : caches) : answer * caches * list walk :=
  match q with
  | AskProperty o n => let '(p, c, ws) := mg_cached_property r o n c in (Found p, c, ws)
  | AskFunction o n => let '(p, c, ws) := mg_cached_function r o n c in (Found p, c, ws)
  | AskObjects cls => let '(ps, c, ws) := mg_object_properties r cls c in (Listed ps, c, ws)
  end.

(** As the engine would answer, with a walk each time. *)
Definition uncached (r : level_view) (q : question) : answer :=
  match q with
  | AskProperty o n => Found (x ← keyed (property_owner r) o n; property_in_chain r x.1 x.2.2)
  | AskFunction o n => Found (x ← keyed (class_private r) o n; function_in_chain r x.1 x.2.2)
  | AskObjects cls => Listed (match cls with Some cls => object_properties r cls | None => [] end)
  end.

Fixpoint lookups (r : level_view) (qs : list question) (c : caches) : list answer * caches * list walk :=
  match qs with
  | [] => ([], c, [])
  | q :: qs =>
      let '(a, c, ws) := ask r q c in
      let '(rest, c, more) := lookups r qs c in
      (a :: rest, c, ws ++ more)
  end.

(** [release_all_ghosts], its lines on these caches. *)
Definition drop_caches (c : caches) : caches :=
  c <| g_property_cache := ∅ |> <| g_function_cache := ∅ |> <| g_object_property_cache := ∅ |>.

(** Levels one after another; the same addresses may name other classes in the next. *)
Fixpoint levels (ls : list (level_view * list question)) (c : caches) : list (list answer) * caches * list (list walk) :=
  match ls with
  | [] => ([], c, [])
  | (r, qs) :: ls =>
      let '(answers, c, ws) := lookups r qs c in
      let '(rest, c, more) := levels ls (drop_caches c) in
      (answers :: rest, c, ws :: more)
  end.

(** * What holds *)

(** What is walked depends on the owner, not on the object: UE4SS's lookups walk the
    owner's chain, which cannot change while the class is loaded. *)
Record by_owner (r : level_view) : Prop := ByOwner {
  bo_property o o' n c : property_owner r o = Some c -> property_owner r o' = Some c -> property_in_chain r o n = property_in_chain r o' n;
  bo_function o o' n c : class_private r o = Some c -> class_private r o' = Some c -> function_in_chain r o n = function_in_chain r o' n
}.

(** Every entry is what a walk would find now. *)
Record honest (r : level_view) (c : caches) : Prop := Honest {
  h_property k v : g_property_cache c !! k = Some v ->
    forall o, property_owner r o = Some k.1 -> v = property_in_chain r o k.2;
  h_function k v : g_function_cache c !! k = Some v ->
    forall o, class_private r o = Some k.1 -> v = function_in_chain r o k.2;
  h_objects cls v : g_object_property_cache c !! cls = Some v -> v = object_properties r cls
}.

(** The keys walked so far have an entry. *)
Definition walked (c : caches) (w : walk) : Prop :=
  match w with
  | WalkProperty k => is_Some (g_property_cache c !! k)
  | WalkFunction k => is_Some (g_function_cache c !! k)
  | WalkObjects cls => is_Some (g_object_property_cache c !! cls)
  end.

Lemma honest_none r : honest r no_caches.
Proof. split; intros ? ?; cbn; by rewrite lookup_empty. Qed.

Lemma keyed_owner owner o n x k : keyed owner o n = Some (x, k) -> owner x = Some k.1.
Proof. unfold keyed. destruct o, n; cbn; try done. destruct (owner z) eqn:E; cbn; [|done]. by intros [= <- <-]. Qed.

(** What one lookup leaves: an honest answer, an honest cache, a walk only of a key that
    had no entry. *)
Record step_ok (r : level_view) (c : caches) (st : answer * caches * list walk) (want : answer) : Prop := StepOk {
  so_answer : st.1.1 = want;
  so_honest : honest r st.1.2;
  so_kept w : walked c w -> walked st.1.2 w;
  so_new w : w ∈ st.2 -> ~ walked c w /\ walked st.1.2 w;
  so_once : NoDup st.2
}.

Lemma asked_known r c a a' : honest r c -> a = a' -> step_ok r c (a, c, []) a'.
Proof. intros Hc ->. split; [done|done|done| |by constructor]. by intros w ?%elem_of_nil. Qed.

Lemma asked_new r c c' a w :
  honest r c' -> (forall v, walked c' v <-> walked c v \/ v = w) -> ~ walked c w -> step_ok r c (a, c', [w]) a.
Proof.
  intros Hc Hw Hn. split; cbn; [done|done| | |by apply NoDup_singleton].
  - intros v Hv. apply Hw. by left.
  - intros v ->%list_elem_of_singleton. split; [done|]. apply Hw. by right.
Qed.

Lemma is_Some_insert `{Countable K} {A} (m : gmap K A) k v k' : is_Some (<[k := v]> m !! k') <-> is_Some (m !! k') \/ k' = k.
Proof. rewrite lookup_insert_is_Some'. naive_solver. Qed.

Ltac walked_cases Ek :=
  intros [?|?|?]; cbn; rewrite ?is_Some_insert; naive_solver.

Lemma ask_ok r c q : by_owner r -> honest r c -> step_ok r c (ask r q c) (uncached r q).
Proof.
  intros [Bp Bf] Hc. pose proof Hc as [Hp Hf Ho]. destruct q as [o n|o n|cls]; cbn [ask uncached].
  - unfold mg_cached_property. destruct (keyed _ o n) as [[x k]|] eqn:Ek; [|by apply asked_known].
    apply keyed_owner in Ek. unfold entry_of. destruct (g_property_cache c !! k) as [v|] eqn:Ev; cbn.
    + destruct c. apply asked_known; [done|]. by rewrite (Hp k v Ev x Ek).
    + apply asked_new; [|walked_cases Ev|by cbn; rewrite Ev; intros []]. split; cbn; [|done|done].
      intros k' v' [[-> <-]|[_ H]]%lookup_insert_Some o' Ho'; [by eapply Bp|by eapply Hp].
  - unfold mg_cached_function. destruct (keyed _ o n) as [[x k]|] eqn:Ek; [|by apply asked_known].
    apply keyed_owner in Ek. unfold entry_of. destruct (g_function_cache c !! k) as [v|] eqn:Ev; cbn.
    + destruct c. apply asked_known; [done|]. by rewrite (Hf k v Ev x Ek).
    + apply asked_new; [|walked_cases Ev|by cbn; rewrite Ev; intros []]. split; cbn; [done| |done].
      intros k' v' [[-> <-]|[_ H]]%lookup_insert_Some o' Ho'; [by eapply Bf|by eapply Hf].
  - unfold mg_object_properties. destruct cls as [cls|]; [|by apply asked_known]. unfold entry_of.
    destruct (g_object_property_cache c !! cls) as [v|] eqn:Ev; cbn.
    + destruct c. apply asked_known; [done|]. by rewrite (Ho cls v Ev).
    + apply asked_new; [|walked_cases Ev|by cbn; rewrite Ev; intros []]. split; cbn; [done|done|].
      intros k' v' [[-> <-]|[_ H]]%lookup_insert_Some; [done|by eapply Ho].
Qed.

(** A level from honest caches: the answers of the walks, no key walked twice. *)
Lemma lookups_ok r qs c :
  by_owner r -> honest r c ->
  (lookups r qs c).1.1 = map (uncached r) qs /\ NoDup (lookups r qs c).2
  /\ Forall (fun w => ~ walked c w) (lookups r qs c).2.
Proof.
  intros Hr. revert c. induction qs as [|q qs IH]; intros c Hc; cbn; [split_and!; [done|constructor..]|].
  destruct (ask_ok r c q Hr Hc) as [Ha Hh Hk Hn Ho]. destruct (ask r q c) as [[a c1] ws]. cbn in *.
  destruct (IH c1 Hh) as (Ea & Nd & Fw). destruct (lookups r qs c1) as [[rest c2] more]. cbn in *. subst.
  rewrite list.Forall_forall in Fw. split_and!; [done| |].
  - apply list.NoDup_app. split_and!; [done| |done]. intros w Hw Hm. by apply (Fw w Hm), Hn.
  - apply Forall_app. split; apply list.Forall_forall; intros w Hw; [by apply Hn|]. intros Hc'. by apply (Fw w Hw), Hk.
Qed.

(** C9: the reflection caches are transparent: through any number of levels, whose classes
    may change from one to the next, every property, function and list of object properties
    answered from the caches is what UE4SS's own walk answers in that level, a null object
    or name included; and a level walks each class and name at most once. *)
Theorem caches_transparent (ls : list (level_view * list question)) (Hl : Forall (fun l => by_owner l.1) ls) :
  (levels ls no_caches).1.1 = map (fun l => map (uncached l.1) l.2) ls
  /\ Forall NoDup (levels ls no_caches).2.
Proof.
  induction Hl as [|[r qs] ls Hr Hls IH]; cbn [levels]; [by split|].
  destruct (lookups_ok r qs no_caches Hr (honest_none r)) as (Ea & Nd & _). destruct (lookups r qs no_caches) as [[answers c] ws].
  cbn in Ea, Nd. change (drop_caches c) with no_caches. destruct (levels ls no_caches) as [[rest c'] more]. cbn in *.
  destruct IH as [Er Hm]. split; [by rewrite Ea, Er|by constructor].
Qed.

(** Two levels in which the address 7 names different classes. *)
Definition sample_level (property function : Z) : level_view :=
  LevelView (fun _ => false) (fun o => if (o <? 100)%Z then Some 7%Z else None)
    (fun _ n => if bool_decide (n = "Health"%string) then Some property else None)
    (fun _ n => if bool_decide (n = "IsActive"%string) then Some function else None)
    (fun _ => [Some (property, "ObjectProperty"%string); None; Some (function, "BoolProperty"%string)]).
Definition sample_questions : list question :=
  [AskProperty (Some 1%Z) (Some "Health"%string); AskProperty (Some 2%Z) (Some "Health"%string); AskProperty (Some 2%Z) (Some "None"%string);
   AskFunction (Some 3%Z) (Some "IsActive"%string); AskFunction None (Some "IsActive"%string); AskFunction (Some 200%Z) None;
   AskProperty (Some 1%Z) (Some "None"%string); AskObjects (Some 7%Z); AskObjects None; AskObjects (Some 7%Z)].

Lemma caches_transparent_witness :
  let ls := [(sample_level 31 32, sample_questions); (sample_level 41 42, sample_questions)] in
  length <$> (levels ls no_caches).2 = [4; 4]
  /\ (levels ls no_caches).1.1 = map (fun l => map (uncached l.1) l.2) ls /\ Forall NoDup (levels ls no_caches).2.
Proof.
  split; [done|]. apply caches_transparent. repeat constructor; cbn; done.
Defined.
