(* ===== verification/JsonBounds.v ===== *)
(** PeerJson.hpp, the bounds put on the numbers a peer sends: the narrowing clamps and
    the shortest-arc angle interpolation. *)
From S2P Require Import Prelude Float64 FloatFacts.
From Stdlib Require Import ZArith.
Local Open Scope double_scope.

(** * Operations *)

(** A cast to an integer type whose operand the code has range-tested; the value of an
    out-of-range cast is undefined and stands as 0 here. *)
Definition cast_int (value : double) : Z := default 0%Z (dtrunc value).

Definition clamp_to_uint8 (value : double) : Z :=
  if isnan value || (value <? dzero) then 0%Z
  else if value >? of_Z 255 then 255%Z
  else cast_int value.

Definition finite_or (value fallback : double) : double :=
  if isfinite value then value else fallback.

Definition clamp_to_float (value lo hi : double) : double :=
  if isnan value || (value <? lo) then lo
  else if value >? hi then hi
  else to_float value.

Definition clamp_count_to_int (value : double) (lo hi fallback : Z) : Z :=
  if negb (isfinite value) || (value <? of_Z lo) || (value >? of_Z hi) then fallback
  else cast_int value.

(** The arc from one folded angle to the other, in degrees. *)
Definition angle_delta (from to : double) : double :=
  let folded_from := dfmod from (of_Z 360) in
  let folded_to := dfmod to (of_Z 360) in
  let delta := dfmod (folded_to - folded_from) (of_Z 360) in
  if delta >? of_Z 180 then delta - of_Z 360
  else if delta <? of_Z (-180) then delta + of_Z 360
  else delta.

Definition lerp_angle_deg (from to t : double) : double :=
  if negb (isfinite from) || negb (isfinite to) || negb (isfinite t) then
    (if isfinite from then from else dzero)
  else
    let out := from + angle_delta from to * t in
    if isfinite out then out else from.

(** * Lemmas *)

Ltac small_int := first [ apply of_Z_int; lia | assumption ].

Lemma dsub_fin n m n' m' : DFin n m - DFin n' m' = DFin n m + DFin (negb n') m'.
Proof. done. Qed.

(** A folded angle is a finite number of units below a full turn. *)
Lemma dfmod_bound n m n' m' :
  signed n' m' = (360 * SC)%Z ->
  exists n'' m'', dfmod (DFin n m) (DFin n' m') = DFin n'' m'' /\ (Z.abs (signed n'' m'') < 360 * SC)%Z.
Proof.
  intros E. unfold dfmod. pose proof SC_pos.
  assert (Z.of_N m' = 360 * SC)%Z as Em by (rewrite (signed_abs n' m'), E; lia).
  destruct (N.eqb_spec m' 0); [lia|]. exists n, (m mod m')%N. split; [done|].
  rewrite <- signed_abs. pose proof (N.mod_lt m m'). lia.
Qed.

Lemma fold_bound x :
  isfinite x = true ->
  exists n m, dfmod x (of_Z 360) = DFin n m /\ (Z.abs (signed n m) < 360 * SC)%Z.
Proof.
  destruct x as [| |n m]; try done. intros _.
  destruct (of_Z_int 360 ltac:(lia)) as (n' & m' & -> & E). by apply dfmod_bound.
Qed.

(** A sum of finite doubles within [k] whole units rounds to a finite double within
    [k] whole units. *)
Lemma dadd_bound n m n' m' (k : Z) :
  (0 <= k <= 2 ^ 53)%Z -> (Z.abs (signed n m + signed n' m') <= k * SC)%Z ->
  exists n'' m'', DFin n m + DFin n' m' = DFin n'' m'' /\ (Z.abs (signed n'' m'') <= k * SC)%Z /\
    ((signed n m + signed n' m' <= 0)%Z -> (signed n'' m'' <= 0)%Z) /\
    ((0 <= signed n m + signed n' m')%Z -> (0 <= signed n'' m'')%Z).
Proof.
  intros Hk Hb. unfold dadd.
  destruct (of_signed_le (n && n') (signed n m + signed n' m') (Z.to_N k * scale)) as (a & b & -> & H & Hs).
  - unfold SC in *. lia.
  - apply representable_int. lia.
  - apply int_limit. lia.
  - exists a, b. split; [done|]. split; [|done]. rewrite <- signed_abs. unfold SC. lia.
Qed.

Lemma angle_delta_bound from to :
  isfinite from = true -> isfinite to = true ->
  exists n m, angle_delta from to = DFin n m /\ (Z.abs (signed n m) <= 180 * SC)%Z.
Proof.
  intros Hf Ht. unfold angle_delta. pose proof SC_pos as HS.
  destruct (fold_bound from Hf) as (nf & mf & -> & Bf), (fold_bound to Ht) as (nt & mt & -> & Bt).
  destruct (of_Z_int 360 ltac:(lia)) as (n3 & m3 & -> & E3).
  destruct (of_Z_int 180 ltac:(lia)) as (n4 & m4 & -> & E4).
  destruct (of_Z_int (-180) ltac:(lia)) as (n5 & m5 & -> & E5).
  cbv zeta. rewrite dsub_fin.
  assert (signed (negb nf) mf = - signed nf mf)%Z as Eneg by (destruct nf; simpl; lia).
  destruct (dadd_bound nt mt (negb nf) mf 720) as (n1 & m1 & -> & _); [lia|lia|].
  destruct (dfmod_bound n1 m1 n3 m3 E3) as (n & m & -> & B).
  rewrite !dlt_fin, E4, E5, dsub_fin.
  assert (signed (negb n3) m3 = - signed n3 m3)%Z as Eneg3 by (destruct n3; simpl; lia).
  destruct (Z.ltb_spec (180 * SC) (signed n m)); [|destruct (Z.ltb_spec (signed n m) (-180 * SC))].
  - destruct (dadd_bound n m (negb n3) m3 180) as (a & b & -> & Hb & _); [lia|lia|eauto].
  - destruct (dadd_bound n m n3 m3 180) as (a & b & -> & Hb & _); [lia|lia|eauto].
  - exists n, m. split; [done|lia].
Qed.

(** The interpolation never leaves the finite doubles. *)
Lemma lerp_isfinite from to t : isfinite (lerp_angle_deg from to t) = true.
Proof.
  unfold lerp_angle_deg. destruct (isfinite from) eqn:Hf; [|done].
  destruct (isfinite to), (isfinite t); cbn [negb orb]; try done. cbv zeta.
  by destruct (isfinite (from + angle_delta from to * t)) eqn:E.
Qed.

Lemma dle_refl_notnan x : isnan x = false -> dle x x = true.
Proof. destruct x as [|[]|n m]; try done. intros _. rewrite dle_fin. lia. Qed.

(** The clamp to a [float], between its bounds. *)
Lemma clamp_to_float_between value lo hi :
  wf_float lo = true -> wf_float hi = true -> dle lo hi = true ->
  wf_float (clamp_to_float value lo hi) = true /\
  dle lo (clamp_to_float value lo hi) = true /\ dle (clamp_to_float value lo hi) hi = true.
Proof.
  intros Hlo Hhi Hle. destruct (dle_notnan _ _ Hle) as [Nlo Nhi]. unfold clamp_to_float.
  destruct (isnan value) eqn:Hn; cbn [orb]; [by auto using dle_refl_notnan|].
  destruct (value <? lo) eqn:H0; [by auto using dle_refl_notnan|].
  destruct (value >? hi) eqn:H1; [by auto using dle_refl_notnan|].
  apply to_float_between; auto using dlt_false_dle.
Qed.

(** A value that passes the range tests is cast inside the range. *)
Lemma cast_int_between value a b :
  isnan value = false -> (value <? of_Z a) = false -> (value >? of_Z b) = false ->
  (Z.abs a <= 2 ^ 53)%Z -> (Z.abs b <= 2 ^ 53)%Z ->
  dtrunc value = Some (cast_int value) /\ (a <= cast_int value <= b)%Z.
Proof.
  intros Hn Ha Hb Ba Bb. unfold cast_int.
  destruct (dtrunc_between value a b) as (k & -> & Hk); [| |done..].
  - apply dlt_false_dle; [done| |done]. by destruct (of_Z_int a Ba) as (? & ? & -> & _).
  - apply dlt_false_dle; [|done|done]. by destruct (of_Z_int b Bb) as (? & ? & -> & _).
Qed.

(** A refused count falls back, an accepted one is in range: either way in range when
    the fallback is. *)
Lemma clamp_count_between value lo hi fb :
  (Z.abs lo <= 2 ^ 31)%Z -> (Z.abs hi <= 2 ^ 31)%Z -> (lo <= fb <= hi)%Z ->
  (lo <= clamp_count_to_int value lo hi fb <= hi)%Z.
Proof.
  intros Hlo Hhi Hfb. unfold clamp_count_to_int.
  destruct (negb (isfinite value) || (value <? of_Z lo) || (value >? of_Z hi)) eqn:E; [done|].
  apply orb_false_iff in E as [[E1 E2]%orb_false_iff E3].
  apply (cast_int_between value lo hi); [by destruct value|done|done|lia|lia].
Qed.

(** Integer degrees are folded and subtracted without rounding. *)
Lemma angle_delta_int x y a b :
  is_int x a -> is_int y b -> (Z.abs a <= 2 ^ 52)%Z -> (Z.abs b <= 2 ^ 52)%Z ->
  exists d, is_int (angle_delta x y) d /\ (-180 <= d <= 180)%Z /\ ((a + d - b) mod 360 = 0)%Z.
Proof.
  intros Hx Hy Ha Hb. unfold angle_delta. cbv zeta.
  assert (is_int (of_Z 360) 360) as H360 by small_int.
  pose proof (Z.rem_bound_abs a 360 ltac:(lia)). pose proof (Z.rem_bound_abs b 360 ltac:(lia)).
  pose proof (Z.quot_rem' a 360). pose proof (Z.quot_rem' b 360).
  pose proof (Z.quot_rem' (Z.rem b 360 - Z.rem a 360) 360).
  pose proof (Z.rem_bound_abs (Z.rem b 360 - Z.rem a 360) 360 ltac:(lia)).
  set (d := Z.rem (Z.rem b 360 - Z.rem a 360) 360) in *.
  assert (is_int (dfmod (dfmod y (of_Z 360) - dfmod x (of_Z 360)) (of_Z 360)) d) as Hd.
  { apply is_int_fmod; [|done|lia]. apply is_int_sub; [by apply is_int_fmod..|lia]. }
  rewrite (is_int_lt _ _ 180 d), (is_int_lt _ _ d (-180)) by small_int.
  assert (exists k, a + d - b = k * 360)%Z as [k Hk].
  { eexists (Z.quot a 360 - Z.quot b 360 - Z.quot (Z.rem b 360 - Z.rem a 360) 360)%Z. lia. }
  destruct (Z.ltb_spec 180 d); [|destruct (Z.ltb_spec d (-180))].
  - exists (d - 360)%Z. split; [apply is_int_sub; [done..|lia]|]. split; [lia|].
    replace (a + (d - 360) - b)%Z with ((k - 1) * 360)%Z by lia. by apply Z_mod_mult.
  - exists (d + 360)%Z. split; [apply is_int_add; [done..|lia]|]. split; [lia|].
    replace (a + (d + 360) - b)%Z with ((k + 1) * 360)%Z by lia. by apply Z_mod_mult.
  - exists d. split; [done|]. split; [lia|]. rewrite Hk. by apply Z_mod_mult.
Qed.

(** * Properties *)

(** What a clamp returns is in its range whatever the peer sent, NaN and infinities
    included, and a value already in range is only truncated: [clamp_to_uint8]. *)
Theorem clamp_to_uint8_bounds (value : double) :
  (0 <= clamp_to_uint8 value <= 255)%Z /\
  (dle dzero value && dle value (of_Z 255) = true ->
   dtrunc value = Some (clamp_to_uint8 value)).
Proof.
  unfold clamp_to_uint8. assert (dzero = of_Z 0) as -> by (by vm_compute).
  destruct (isnan value) eqn:Hn; [by destruct value|].
  destruct (value <? of_Z 0) eqn:H0; [|destruct (value >? of_Z 255) eqn:H255]; cbn [orb].
  - by rewrite (dlt_dle_false _ _ H0).
  - by rewrite (dlt_dle_false _ _ H255), andb_false_r.
  - destruct (cast_int_between value 0 255 Hn H0 H255) as [E ?]; [lia|lia|]. by rewrite E.
Qed.

(** [clamp_to_float] returns a [float] between its bounds, never NaN and never an
    infinity, so no cast in it is undefined. *)
Theorem clamp_to_float_bounds (value lo hi : double)
    (Hlo : wf_float lo = true) (Hhi : wf_float hi = true) (Hle : dle lo hi = true) :
  wf_float (clamp_to_float value lo hi) = true /\
  dle lo (clamp_to_float value lo hi) = true /\ dle (clamp_to_float value lo hi) hi = true.
Proof.
  by apply clamp_to_float_between.
Qed.

Definition clamp_to_float_sample : double := of_Z 1000000.
Lemma clamp_to_float_bounds_witness :
  wf_float (of_Z 0) = true /\ wf_float clamp_to_float_sample = true /\
  wf_float (clamp_to_float (lit 1 3) (of_Z 0) clamp_to_float_sample) = true /\
  dle (of_Z 0) (clamp_to_float (lit 1 3) (of_Z 0) clamp_to_float_sample) = true /\
  dle (clamp_to_float (lit 1 3) (of_Z 0) clamp_to_float_sample) clamp_to_float_sample = true.
Proof.
  split; [vm_compute; reflexivity|]. split; [vm_compute; reflexivity|].
  apply (clamp_to_float_bounds (lit 1 3) (of_Z 0) clamp_to_float_sample);
    vm_compute; reflexivity.
Defined.

(** [clamp_count_to_int] refuses to the fallback, and otherwise returns the integer
    part of the value, inside the bounds. *)
Theorem clamp_count_to_int_bounds (value : double) (lo hi fallback : Z)
    (Hlo : (Z.abs lo <= 2 ^ 31)%Z) (Hhi : (Z.abs hi <= 2 ^ 31)%Z) :
  clamp_count_to_int value lo hi fallback =
    (if isfinite value && dle (of_Z lo) value && dle value (of_Z hi)
     then cast_int value else fallback) /\
  (isfinite value && dle (of_Z lo) value && dle value (of_Z hi) = true ->
   dtrunc value = Some (clamp_count_to_int value lo hi fallback) /\
   (lo <= clamp_count_to_int value lo hi fallback <= hi)%Z).
Proof.
  unfold clamp_count_to_int. destruct (of_Z_int lo) as (? & ? & Elo & _); [lia|].
  destruct (of_Z_int hi) as (? & ? & Ehi & _); [lia|].
  destruct (isfinite value) eqn:Hf; cbn [negb orb andb]; [|done].
  assert (isnan value = false) as Hn by (by destruct value).
  destruct (value <? of_Z lo) eqn:H0; cbn [orb].
  { by rewrite (dlt_dle_false _ _ H0). }
  destruct (value >? of_Z hi) eqn:H1.
  { by rewrite (dlt_dle_false _ _ H1), andb_false_r. }
  rewrite (dlt_false_dle _ _ Hn) by (done || by rewrite Elo).
  rewrite (dlt_false_dle (of_Z hi) value) by (done || by rewrite Ehi).
  split; [done|]. intros _. apply cast_int_between; done || lia.
Qed.

Lemma clamp_count_to_int_bounds_witness :
  clamp_count_to_int (lit 7 2) 0 4 (-1) = 3%Z /\
  clamp_count_to_int (lit 7 2) 0 4 (-1) =
    (if isfinite (lit 7 2) && dle (of_Z 0) (lit 7 2) && dle (lit 7 2) (of_Z 4)
     then cast_int (lit 7 2) else (-1)%Z).
Proof.
  split; [vm_compute; reflexivity|].
  apply (clamp_count_to_int_bounds (lit 7 2) 0 4 (-1)); vm_compute; discriminate.
Defined.

(** The interpolated angle is finite whatever the three inputs are, and the arc it
    travels is at most half a turn. *)
Theorem lerp_angle_deg_finite (from to t : double) :
  isfinite (lerp_angle_deg from to t) = true /\
  (isfinite from && isfinite to = true ->
   dle (of_Z (-180)) (angle_delta from to) = true /\ dle (angle_delta from to) (of_Z 180) = true).
Proof.
  split.
  - apply lerp_isfinite.
  - intros [Hf Ht]%andb_true_iff. destruct (angle_delta_bound from to Hf Ht) as (n & m & -> & B).
    destruct (of_Z_int (-180) ltac:(lia)) as (n1 & m1 & -> & E1).
    destruct (of_Z_int 180 ltac:(lia)) as (n2 & m2 & -> & E2).
    rewrite !dle_fin, E1, E2. lia.
Qed.

(** On whole degrees the interpolation is the shortest arc: at the end of the step
    it has turned by at most half a turn to an angle equal to the target modulo a full
    turn, and at its start it has not turned. *)
Theorem lerp_angle_deg_shortest_arc (x y : double) (a b : Z)
    (Hx : is_int x a) (Hy : is_int y b) (Ha : (Z.abs a <= 2 ^ 51)%Z) (Hb : (Z.abs b <= 2 ^ 51)%Z) :
  exists d, (-180 <= d <= 180)%Z /\ ((a + d - b) mod 360 = 0)%Z /\
    is_int (lerp_angle_deg x y (of_Z 1)) (a + d) /\ is_int (lerp_angle_deg x y (of_Z 0)) a.
Proof.
  destruct (angle_delta_int x y a b Hx Hy) as (d & Hd & Bd & Md); [lia|lia|].
  exists d. split; [done|]. split; [done|]. unfold lerp_angle_deg.
  assert (forall k, (0 <= k <= 1)%Z -> is_int (of_Z k) k) as Hk by (intros; small_int).
  rewrite (is_int_finite _ _ Hx), (is_int_finite _ _ Hy),
    (is_int_finite _ _ (Hk 1%Z ltac:(lia))), (is_int_finite _ _ (Hk 0%Z ltac:(lia))).
  cbn [negb orb]. cbv zeta.
  assert (forall k, (0 <= k <= 1)%Z -> is_int (x + angle_delta x y * of_Z k) (a + d * k)) as Hout.
  { intros k Bk. apply is_int_add; [done| |nia]. apply is_int_mul; [done|auto|nia]. }
  pose proof (Hout 1%Z ltac:(lia)) as H1. pose proof (Hout 0%Z ltac:(lia)) as H0.
  rewrite (is_int_finite _ _ H1), (is_int_finite _ _ H0).
  replace (a + d * 1)%Z with (a + d)%Z in H1 by lia. by replace (a + d * 0)%Z with a in H0 by lia.
Qed.

Lemma lerp_angle_deg_shortest_arc_witness :
  exists d, (-180 <= d <= 180)%Z /\ ((350 + d - 10) mod 360 = 0)%Z /\
    is_int (lerp_angle_deg (of_Z 350) (of_Z 10) (of_Z 1)) (350 + d) /\
    is_int (lerp_angle_deg (of_Z 350) (of_Z 10) (of_Z 0)) 350.
Proof.
  apply (lerp_angle_deg_shortest_arc (of_Z 350) (of_Z 10) 350 10);
    [apply of_Z_int|apply of_Z_int| |]; vm_compute; discriminate.
Defined.
