(* ===== verification/JsonTop.v ===== *)
(** PeerJson.hpp, the top-level readers of a bridge line: [json_top_level_string] and
    [json_top_level_true] never look inside a nested object, so no text a peer sends
    can forge a control word. *)
From S2P Require Import Prelude JsonString JsonScoped JsonSpec JsonReaders.
From Stdlib Require Import ZArith.

(** * Operations *)

Definition is_blank (c : ascii) : bool := Ascii.eqb c " " || Ascii.eqb c cTab.
Definition skip_blank_body (line : bytes) (j : nat) : nat + nat :=
  if (j <? length line) && is_blank (char_at line j) then inl (S j) else inr j.
Definition skip_blank (line : bytes) (j : nat) : nat :=
  loop (to_go (length line)) (skip_blank_body line) j j.

(** The escapes of a control word: three are decoded, any other byte passes. *)
Definition word_escape (c : ascii) : ascii :=
  if Ascii.eqb c "n" then cLF else if Ascii.eqb c "t" then cTab
  else if Ascii.eqb c "r" then cCR else c.

(** The value from after its opening quote: [esc] is the pending backslash. *)
Definition word_body (line : bytes) (st : nat * bool * bytes) : (nat * bool * bytes) + bytes :=
  let '(j, esc, out) := st in
  if j <? length line then
    let v := char_at line j in
    if esc then inl (S j, false, out ++ [word_escape v])
    else if Ascii.eqb v cBackslash then inl (S j, true, out)
    else if Ascii.eqb v cQuote then inr out
    else inl (S j, false, out ++ [v])
  else inr [].
Definition read_word (line : bytes) (j : nat) : bytes :=
  loop (fun st => to_go (length line) st.1.1) (word_body line) [] (j, false, []).

(** The scan both readers share.  [at_key j] is what the reader does with [want] found
    at depth 1, [j] past it: [None] to go on. *)
Record scan := Scan { s_i : nat; s_in_string : bool; s_escaped : bool; s_depth : Z }.

Definition top_body {R} (line want : bytes) (at_key : nat -> option R) (dflt : R) (st : scan)
    : scan + R :=
  let '(Scan i in_string escaped depth) := st in
  if i <? length line then
    let c := char_at line i in
    if escaped then inl (Scan (S i) in_string false depth)
    else if in_string then
      if Ascii.eqb c cBackslash then inl (Scan (S i) true true depth)
      else if Ascii.eqb c cQuote then inl (Scan (S i) false false depth)
      else inl (Scan (S i) true false depth)
    else if Ascii.eqb c cQuote then
      match (if (depth =? 1)%Z && compare_eq line i (length want) want
             then at_key (i + length want) else None) with
      | Some r => inr r
      | None => inl (Scan (S i) true false depth)
      end
    else if is_open c then inl (Scan (S i) false false (depth + 1)%Z)
    else if is_close c then inl (Scan (S i) false false (depth - 1)%Z)
    else inl (Scan (S i) false false depth)
  else inr dflt.

Definition string_at_key (line : bytes) (j : nat) : option bytes :=
  let j := skip_blank line j in
  if (length line <=? j) || negb (Ascii.eqb (char_at line j) ":") then None
  else
    let j := skip_blank line (S j) in
    if (length line <=? j) || negb (Ascii.eqb (char_at line j) cQuote) then Some []
    else Some (read_word line (S j)).

Definition true_at_key (line : bytes) (j : nat) : option bool :=
  let j := skip_blank line j in
  if (j <? length line) && Ascii.eqb (char_at line j) ":" then
    Some (compare_eq line (skip_blank line (S j)) 4 (str "true"))
  else None.

Definition json_top_level_string (line key : bytes) : bytes :=
  loop (fun st => to_go (length line) (s_i st))
       (top_body line (cQuote :: key ++ [cQuote]) (string_at_key line) []) [] (Scan 0 false false 0).

Definition json_top_level_true (line key : bytes) : bool :=
  loop (fun st => to_go (length line) (s_i st))
       (top_body line (cQuote :: key ++ [cQuote]) (true_at_key line) false) false (Scan 0 false false 0).

(** * Termination *)

#[export] Instance skip_blank_decreasing line :
  Decreasing (to_go (length line)) (skip_blank_body line).
Proof.
  intros j j' E. unfold skip_blank_body, to_go in *. repeat split_match_in E; simplify_eq; lia.
Qed.

#[export] Instance word_decreasing line :
  Decreasing (fun st : nat * bool * bytes => to_go (length line) st.1.1) (word_body line).
Proof.
  intros [[j esc] out] [[j' esc'] out'] E. unfold word_body, to_go in *. simpl.
  repeat split_match_in E; simplify_eq; lia.
Qed.

#[export] Instance top_decreasing {R} line want (at_key : nat -> option R) dflt :
  Decreasing (fun st => to_go (length line) (s_i st)) (top_body line want at_key dflt).
Proof.
  intros [i b e d] [i' b' e' d'] E. unfold top_body, to_go in *. simpl.
  repeat split_match_in E; simplify_eq; simpl; lia.
Qed.

Example top_string_1 :
  json_top_level_string (js "{'type':'reject','payload':{'reason':'x'},'reason':'busy'}") (str "reason") = str "busy".
Proof. vm_compute. reflexivity. Qed.
Example top_true_1 :
  json_top_level_true (js "{'type':'reject','o':{'retryable':true},'retryable' : true}") (str "retryable") = true
  /\ json_top_level_true (js "{'type':'reject','o':{'retryable':true}}") (str "retryable") = false.
Proof. vm_compute. split; reflexivity. Qed.

(** * The scan over well-formed text *)

Section Top.
Context {R : Type} (line key : bytes) (at_key : nat -> option R) (dflt : R).
Hypothesis Hkey : Forall (fun c => c <> cQuote /\ c <> cBackslash) key.
Abbreviation want := (cQuote :: key ++ [cQuote]).
Abbreviation body := (top_body line want at_key dflt).

Definition trun (st : scan) : R := loop (fun st => to_go (length line) (s_i st)) body dflt st.

Lemma trun_step st st' : body st = inl st' -> trun st = trun st'.
Proof. intros E. unfold trun at 1. by rewrite (loop_unfold _ body), E. Qed.
Lemma trun_exit st r : body st = inr r -> trun st = r.
Proof. intros E. unfold trun. by rewrite (loop_unfold _ body), E. Qed.

(** One byte outside strings. *)
Lemma trun_char p c t d :
  line = p ++ c :: t -> Ascii.eqb c cQuote = false ->
  trun (Scan (length p) false false d) =
  trun (Scan (length (p ++ [c])) false false
    (if is_open c then d + 1 else if is_close c then d - 1 else d)%Z).
Proof.
  intros E Hc. apply trun_step. unfold top_body.
  rewrite (char_here line p c t), Hc by done. rewrite <- length_snoc_S.
  destruct (Nat.ltb_spec (length p) (length line)) as [|Hl]; [|rewrite E in Hl; len].
  by destruct (is_open c), (is_close c).
Qed.

(** Inside a string, to past its closing quote. *)
Lemma trun_str_body u p t d :
  str_body u -> line = p ++ u ++ cQuote :: t ->
  trun (Scan (length p) true false d) = trun (Scan (length (p ++ u ++ [cQuote])) false false d).
Proof.
  intros Hu. revert p. induction Hu as [|c u H1 H2 _ IH|c u _ IH]; intros p E.
  - apply trun_step. unfold top_body. rewrite (char_here line p cQuote t) by done.
    destruct (Nat.ltb_spec (length p) (length line)) as [|Hl]; [|rewrite E in Hl; len].
    simpl. by rewrite length_snoc_S with (c := cQuote).
  - rewrite (trun_step _ (Scan (length (p ++ [c])) true false d)).
    + rewrite IH; [|rewrite E; apps]. do 2 f_equal. len.
    + unfold top_body. rewrite (char_here line p c (u ++ cQuote :: t)) by done.
      destruct (Nat.ltb_spec (length p) (length line)) as [|Hl]; [|rewrite E in Hl; len].
      rewrite !ascii_eqb_false by done. by rewrite <- length_snoc_S.
  - rewrite (trun_step _ (Scan (length (p ++ [cBackslash])) true true d)).
    + rewrite (trun_step _ (Scan (length ((p ++ [cBackslash]) ++ [c])) true false d)).
      * rewrite IH; [|rewrite E; apps]. do 2 f_equal. len.
      * unfold top_body.
        destruct (Nat.ltb_spec (length (p ++ [cBackslash])) (length line)) as [|Hl];
          [|rewrite E in Hl; len]. by rewrite (length_snoc_S _ c).
    + unfold top_body. rewrite (char_here line p cBackslash (c :: u ++ cQuote :: t)) by done.
      destruct (Nat.ltb_spec (length p) (length line)) as [|Hl]; [|rewrite E in Hl; len].
      by rewrite <- length_snoc_S.
Qed.

(** A string that the reader does not stop at. *)
Lemma trun_string u p t d :
  str_body u -> line = p ++ quoted u ++ t ->
  (d = 1%Z -> compare_eq line (length p) (length want) want = true ->
   at_key (length p + length want) = None) ->
  trun (Scan (length p) false false d) = trun (Scan (length (p ++ quoted u)) false false d).
Proof.
  intros Hu E Hk. rewrite (trun_step _ (Scan (length (p ++ [cQuote])) true false d)).
  - rewrite (trun_str_body u _ t) by first [done | rewrite E; unfold quoted; apps].
    do 2 f_equal. unfold quoted; len.
  - unfold top_body. rewrite (char_here line p cQuote ((u ++ [cQuote]) ++ t)) by (rewrite ?E; done).
    destruct (Nat.ltb_spec (length p) (length line)) as [|Hl]; [|rewrite E in Hl; unfold quoted in Hl; len].
    rewrite ascii_eqb_refl, <- length_snoc_S.
    destruct (Z.eqb_spec d 1) as [Hd|], (compare_eq _ _ _ _); cbn [andb]; try done. by rewrite Hk.
Qed.

(** Nested text is passed at any depth past the first. *)
Lemma trun_balanced u p t d :
  balanced u -> line = p ++ u ++ t -> (2 <= d)%Z ->
  trun (Scan (length p) false false d) = trun (Scan (length (p ++ u)) false false d).
Proof.
  intros Hu. revert p t d.
  induction Hu as [|c u Hc _ IH|v u Hv _ IH|v u _ IHv _ IH|v u _ IHv _ IH]; intros p t d E Hd.
  - by rewrite app_nil_r.
  - apply plain_spec in Hc as (E1 & E2 & E3 & E4 & E5).
    rewrite (trun_char p c (u ++ t)) by done. unfold is_open, is_close. rewrite E2, E3, E4, E5.
    rewrite (IH _ t) by first [done | rewrite E; apps]. do 2 f_equal. len.
  - rewrite (trun_string v p (u ++ t)) by first [done | rewrite E; apps | lia].
    rewrite (IH _ t) by first [done | rewrite E; apps]. do 2 f_equal. len.
  - rewrite (trun_char p "{" ((v ++ "}"%char :: u) ++ t)) by first [done | rewrite E; apps].
    simpl. rewrite (IHv _ ("}"%char :: u ++ t)) by first [lia | rewrite E; apps].
    rewrite (trun_char _ "}" (u ++ t)) by first [done | rewrite E; apps]. simpl.
    rewrite (IH _ t) by first [lia | rewrite E; apps]. f_equal; f_equal; len || lia.
  - rewrite (trun_char p "[" ((v ++ "]"%char :: u) ++ t)) by first [done | rewrite E; apps].
    simpl. rewrite (IHv _ ("]"%char :: u ++ t)) by first [lia | rewrite E; apps].
    rewrite (trun_char _ "]" (u ++ t)) by first [done | rewrite E; apps]. simpl.
    rewrite (IH _ t) by first [lia | rewrite E; apps]. f_equal; f_equal; len || lia.
Qed.

(** The quoted key matches a string that is the key, no other. *)
Lemma want_string u p t :
  str_body u -> line = p ++ quoted u ++ t ->
  compare_eq line (length p) (length want) want = true <-> u = key.
Proof.
  intros Hu E. rewrite compare_eq_true. split.
  - intros Hc. unfold substr in Hc. rewrite E, drop_app_length in Hc. unfold quoted in Hc.
    rewrite length_cons in Hc. cbn [take app] in Hc. injection Hc as Hc.
    rewrite <- app_assoc in Hc. revert Hu Hkey Hc. clear. revert u.
    assert (cBackslash <> cQuote) as Hne by done.
    induction key as [|k ks IH]; intros u Hu Hk Hc.
    + destruct Hu as [|c u ? ? _|c u _]; [done|..]; cbn [take app length] in Hc; congruence.
    + apply Forall_cons_1 in Hk as [[Hq Hb] Hk].
      destruct Hu as [|c u H1 H2 Hu|c u _]; cbn [take app length] in Hc; [congruence| |congruence].
      injection Hc as -> Hc. f_equal. by apply IH.
  - intros ->. rewrite E. apply (substr_mid p want t).
Qed.

(** What the reader does with a key found, and with one no colon follows. *)
Context (found : bytes -> R).
Hypothesis at_key_value : forall q w w' v c t,
  line = q ++ w ++ ":"%char :: w' ++ v ++ c :: t -> Forall (fun c => is_blank c = true) w ->
  Forall (fun c => is_blank c = true) w' -> value_text v -> ends_value c = true ->
  at_key (length q) = Some (found v).
Hypothesis at_key_other : forall q w c t,
  line = q ++ w ++ c :: t -> spaces w -> is_blank c = false -> c <> ":"%char ->
  at_key (length q) = None.

Definition compact_member (m : member) : Prop :=
  Forall (fun c => is_blank c = true) (ws2 m) /\ Forall (fun c => is_blank c = true) (ws3 m).

Lemma trun_spaces w p t d :
  spaces w -> line = p ++ w ++ t ->
  trun (Scan (length p) false false d) = trun (Scan (length (p ++ w)) false false d).
Proof.
  intros Hw. revert p. induction Hw as [|c w Hc _ IH]; intros p E; [by rewrite app_nil_r|].
  apply space_plain, plain_spec in Hc as (E1 & E2 & E3 & E4 & E5).
  rewrite (trun_char p c (w ++ t)) by done. unfold is_open, is_close. rewrite E2, E3, E4, E5.
  rewrite (IH _) by (rewrite E; apps). do 2 f_equal. len.
Qed.

Lemma trun_plains u p t d :
  Forall (fun c => plain c = true) u -> line = p ++ u ++ t ->
  trun (Scan (length p) false false d) = trun (Scan (length (p ++ u)) false false d).
Proof.
  intros Hw. revert p. induction Hw as [|c w Hc _ IH]; intros p E; [by rewrite app_nil_r|].
  apply plain_spec in Hc as (E1 & E2 & E3 & E4 & E5).
  rewrite (trun_char p c (w ++ t)) by done. unfold is_open, is_close. rewrite E2, E3, E4, E5.
  rewrite (IH _) by (rewrite E; apps). do 2 f_equal. len.
Qed.

(** The value of another member. *)
Lemma trun_value v p w c t :
  value_text v -> line = p ++ v ++ w ++ c :: t -> spaces w -> is_blank c = false -> c <> ":"%char ->
  trun (Scan (length p) false false 1) = trun (Scan (length (p ++ v)) false false 1).
Proof.
  intros [x u Hx|u Hu|u Hu|u Hu] E Hw Hc Hcol.
  - eapply trun_plains; [|done]. revert Hx. apply Forall_impl. intros y Hy.
    unfold scalar_char in Hy. rewrite !andb_true_iff in Hy. tauto.
  - apply (trun_string u p (w ++ c :: t)); [done..|]. intros _ Hk.
    apply (want_string u p (w ++ c :: t)) in Hk as ->; [|done..].
    replace (length p + length want) with (length (p ++ want)) by len.
    apply (at_key_other _ w c t); try done. rewrite E. unfold quoted. apps.
  - rewrite (trun_char p "{" ((u ++ ["}"%char]) ++ w ++ c :: t)) by first [done | rewrite E; apps].
    simpl. rewrite (trun_balanced u _ ("}"%char :: w ++ c :: t)) by first [done | lia | rewrite E; apps].
    rewrite (trun_char _ "}" (w ++ c :: t)) by first [done | rewrite E; apps].
    simpl. do 2 f_equal. len.
  - rewrite (trun_char p "[" ((u ++ ["]"%char]) ++ w ++ c :: t)) by first [done | rewrite E; apps].
    simpl. rewrite (trun_balanced u _ ("]"%char :: w ++ c :: t)) by first [done | lia | rewrite E; apps].
    rewrite (trun_char _ "]" (w ++ c :: t)) by first [done | rewrite E; apps].
    simpl. do 2 f_equal. len.
Qed.

Lemma trun_member_hit m p c t :
  member_ok m -> compact_member m -> m_key m = key -> ends_value c = true ->
  line = p ++ member_head m ++ m_val m ++ c :: t ->
  trun (Scan (length p) false false 1) = found (m_val m).
Proof.
  intros [Hk Hv H1 H2 H3 _] [B2 B3] Ek Hc E. unfold member_head in E.
  rewrite (trun_spaces (ws1 m) p (quoted (m_key m) ++ ws2 m ++ ":"%char :: ws3 m ++ m_val m ++ c :: t))
    by first [done | rewrite E; apps].
  set (q := p ++ ws1 m).
  assert (line = q ++ quoted (m_key m) ++ ws2 m ++ ":"%char :: ws3 m ++ m_val m ++ c :: t) as Eq
    by (rewrite E; unfold q; apps).
  apply trun_exit. unfold top_body.
  rewrite (char_here line q cQuote ((m_key m ++ [cQuote]) ++ ws2 m ++ ":"%char :: ws3 m ++ m_val m ++ c :: t))
    by (rewrite ?Eq; done).
  destruct (Nat.ltb_spec (length q) (length line)) as [|Hl]; [|rewrite Eq in Hl; unfold quoted in Hl; len].
  rewrite ascii_eqb_refl, (proj2 (want_string _ q _ Hk Eq) Ek). cbn [Z.eqb Pos.eqb andb].
  replace (length q + length want) with (length (q ++ quoted (m_key m)))
    by (rewrite Ek; unfold quoted; len).
  rewrite (at_key_value _ (ws2 m) (ws3 m) (m_val m) c t); try done. rewrite Eq. apps.
Qed.

Lemma trun_member_miss m p c t :
  member_ok m -> m_key m <> key -> is_blank c = false -> c <> ":"%char ->
  line = p ++ member_text m ++ c :: t ->
  trun (Scan (length p) false false 1) = trun (Scan (length (p ++ member_text m)) false false 1).
Proof.
  intros [Hk Hv H1 H2 H3 H4] Ek Hc Hcol E. unfold member_text, member_head in *.
  rewrite (trun_spaces (ws1 m) p (quoted (m_key m) ++ ws2 m ++ ":"%char :: ws3 m ++ m_val m ++ ws4 m ++ c :: t))
    by first [done | rewrite E; apps].
  rewrite (trun_string (m_key m) _ (ws2 m ++ ":"%char :: ws3 m ++ m_val m ++ ws4 m ++ c :: t)).
  2: done. 2: rewrite E; apps.
  2:{ intros _ Hw. exfalso. apply Ek.
      eapply want_string; [done| |exact Hw]. rewrite E. apps. }
  rewrite (trun_plains (ws2 m ++ ":"%char :: ws3 m) _ (m_val m ++ ws4 m ++ c :: t)).
  2:{ apply Forall_app; split; [by apply plains_spaces|]. constructor; [done|by apply plains_spaces]. }
  2: rewrite E; apps.
  rewrite (trun_value (m_val m) _ (ws4 m) c t) by first [done | rewrite E; apps].
  rewrite (trun_spaces (ws4 m) _ (c :: t)) by first [done | rewrite E; apps].
  do 2 f_equal. len.
Qed.

Lemma trun_members ms : forall p,
  Forall member_ok ms -> Forall compact_member ms -> line = p ++ members_text ms ++ ["}"%char] ->
  trun (Scan (length p) false false 1) =
  match field key ms with Some v => found v | None => dflt end.
Proof.
  induction ms as [|m ms IH]; intros p Hms Hcs E.
  - rewrite (trun_char p "}" []) by done. simpl. apply trun_exit. unfold top_body.
    destruct (Nat.ltb_spec (length (p ++ ["}"%char])) (length line)) as [Hl|]; [|done].
    rewrite E in Hl. simpl in Hl. len.
  - apply Forall_cons_1 in Hms as [Hm Hms]. apply Forall_cons_1 in Hcs as [Hc Hcs].
    unfold field. simpl first. case_bool_decide as Hk.
    + assert (exists c t, members_text (m :: ms) ++ ["}"%char] = member_head m ++ m_val m ++ c :: t
        /\ ends_value c = true) as (c & t & E' & Hv).
      { destruct ms as [|m' ms].
        - destruct (ws_head (ws4 m) "}" []) as (c & t & E' & Hv & _); [apply Hm|done|].
          exists c, t. split; [|done]. rewrite <- E'. simpl. unfold member_text. apps.
        - destruct (ws_head (ws4 m) "," (members_text (m' :: ms) ++ ["}"%char])) as (c & t & E' & Hv & _);
            [apply Hm|done|].
          exists c, t. split; [|done]. rewrite <- E', members_text_cons. unfold member_text. apps. }
      simpl. apply (trun_member_hit m p c t); try done. by rewrite E, E'.
    + destruct ms as [|m' ms].
      * change (members_text [m]) with (member_text m) in E.
        rewrite (trun_member_miss m p "}" []) by done.
        rewrite (IH (p ++ member_text m)); [done..|]. rewrite E. apps.
      * rewrite members_text_cons in E.
        rewrite (trun_member_miss m p "," (members_text (m' :: ms) ++ ["}"%char])) by
          first [done | rewrite E; apps].
        rewrite (trun_char _ "," (members_text (m' :: ms) ++ ["}"%char])) by first [done | rewrite E; apps].
        simpl is_open. simpl is_close. cbn iota.
        rewrite IH; [|done..|rewrite E; apps].
        unfold field. destruct (first key (m' :: ms)) as [[]|]; done.
Qed.

Lemma trun_object ms :
  Forall member_ok ms -> Forall compact_member ms -> line = object_text ms ->
  trun (Scan 0 false false 0) = match field key ms with Some v => found v | None => dflt end.
Proof.
  intros Hms Hcs E. rewrite (trun_char [] "{" (members_text ms ++ ["}"%char])) by done.
  by apply (trun_members ms).
Qed.
End Top.

(** * The two readers *)

Lemma skip_blank_unfold line j :
  skip_blank line j =
  if (j <? length line) && is_blank (char_at line j) then skip_blank line (S j) else j.
Proof.
  unfold skip_blank. rewrite (loop_unfold _ (skip_blank_body line)).
  unfold skip_blank_body at 1. split_match; [|done].
  match goal with |- loop ?m ?f ?d ?st = loop ?m ?f ?d' ?st =>
    pose proof (iterate_terminates m f (S (m st)) d st ltac:(lia)) as H1;
    pose proof (iterate_terminates m f (S (m st)) d' st ltac:(lia)) as H2 end.
  congruence.
Qed.

Lemma skip_blank_stop w line q c t :
  line = q ++ w ++ c :: t -> Forall (fun c => is_blank c = true) w -> is_blank c = false ->
  skip_blank line (length q) = length (q ++ w).
Proof.
  intros E Hw Hc. revert q E. induction Hw as [|x w Hx _ IH]; intros q E.
  - rewrite skip_blank_unfold, (char_here line q c t), Hc, andb_false_r by done. len.
  - rewrite skip_blank_unfold, (char_here line q x (w ++ c :: t)), Hx, andb_true_r by done.
    destruct (Nat.ltb_spec (length q) (length line)) as [|Hl]; [|rewrite E in Hl; len].
    rewrite (length_snoc_S q x), IH; [len|rewrite E; apps].
Qed.

(** White space of which only part is skipped. *)
Lemma skip_blank_spaces w line q c t :
  line = q ++ w ++ c :: t -> spaces w -> is_blank c = false -> c <> ":"%char ->
  exists x, char_at line (skip_blank line (length q)) = x /\ x <> ":"%char.
Proof.
  intros E Hw Hc Hcol. revert q E. induction Hw as [|y w Hy _ IH]; intros q E.
  - rewrite (skip_blank_stop [] line q c t), app_nil_r by done.
    exists c. split; [|done]. by apply (char_here line q c t).
  - destruct (is_blank y) eqn:Hb.
    + rewrite skip_blank_unfold. rewrite (char_here line q y (w ++ c :: t) _ E eq_refl), Hb, andb_true_r.
      destruct (Nat.ltb_spec (length q) (length line)) as [|Hl]; [|rewrite E in Hl; len].
      rewrite (length_snoc_S q y). apply IH. rewrite E. apps.
    + rewrite (skip_blank_stop [] line q y (w ++ c :: t)), app_nil_r by done.
      exists y. split; [by apply (char_here line q y (w ++ c :: t))|]. by intros ->.
Qed.

Lemma value_blank v :
  value_text v -> exists x u, v = x :: u /\ is_blank x = false.
Proof.
  intros (x & u & -> & Hx & _)%value_text_head. exists x, u. split; [done|].
  unfold json_is_space in Hx. rewrite !orb_false_iff in Hx. unfold is_blank.
  destruct Hx as [[[-> ->] _] _]. done.
Qed.

(** A control word from the text between its quotes. *)
Fixpoint unescape (esc : bool) (u : bytes) : bytes :=
  match u with
  | [] => []
  | c :: u' =>
      if esc then word_escape c :: unescape false u'
      else if Ascii.eqb c cBackslash then unescape true u'
      else c :: unescape false u'
  end.

Lemma unescape_escape w : unescape false (json_escape w) = w.
Proof.
  induction w as [|c w IH]; [done|]. simpl.
  destruct (Ascii.eqb_spec c cQuote) as [->|H1]; simpl; [by rewrite IH|].
  destruct (Ascii.eqb_spec c cBackslash) as [->|H2]; simpl; [by rewrite IH|].
  by rewrite ascii_eqb_false, IH.
Qed.

Lemma str_body_escape w : str_body (json_escape w).
Proof.
  induction w as [|c w IH]; simpl; [constructor|].
  destruct (Ascii.eqb_spec c cQuote); simpl; [by constructor|].
  destruct (Ascii.eqb_spec c cBackslash); simpl; by constructor.
Qed.

Definition words (line : bytes) (st : nat * bool * bytes) : bytes :=
  loop (fun st => to_go (length line) st.1.1) (word_body line) [] st.

Lemma words_unfold line st :
  words line st = match word_body line st with inl st' => words line st' | inr r => r end.
Proof. apply (loop_unfold _ (word_body line)). Qed.

Lemma words_body u line p t out :
  str_body u -> line = p ++ u ++ cQuote :: t ->
  words line (length p, false, out) = out ++ unescape false u.
Proof.
  intros Hu. revert p out. induction Hu as [|c u H1 H2 _ IH|c u _ IH]; intros p out E;
    rewrite words_unfold; unfold word_body;
    (destruct (Nat.ltb_spec (length p) (length line)) as [|Hl]; [|rewrite E in Hl; len]).
  - rewrite (char_here line p cQuote t) by done. by rewrite app_nil_r.
  - rewrite (char_here line p c (u ++ cQuote :: t)), !ascii_eqb_false by done.
    rewrite (length_snoc_S p c), IH by (rewrite E; apps). simpl.
    rewrite ascii_eqb_false by done. by rewrite <- app_assoc.
  - rewrite (char_here line p cBackslash (c :: u ++ cQuote :: t)), ascii_eqb_refl by done.
    rewrite words_unfold. unfold word_body.
    destruct (Nat.ltb_spec (S (length p)) (length line)) as [|Hl2]; [|rewrite E in Hl2; len].
    rewrite (length_snoc_S p cBackslash), (char_here line (p ++ [cBackslash]) c (u ++ cQuote :: t))
      by first [done | rewrite E; apps].
    rewrite (length_snoc_S _ c), IH by (rewrite E; apps). simpl. by rewrite <- app_assoc.
Qed.

(** What each reader finds in a value. *)
Definition word_found (v : bytes) : bytes :=
  match v with
  | c :: u => if Ascii.eqb c cQuote then unescape false (removelast u) else []
  | [] => []
  end.

Lemma string_at_key_value line q w w' v c t :
  line = q ++ w ++ ":"%char :: w' ++ v ++ c :: t -> Forall (fun c => is_blank c = true) w ->
  Forall (fun c => is_blank c = true) w' -> value_text v -> ends_value c = true ->
  string_at_key line (length q) = Some (word_found v).
Proof.
  intros E Hw Hw' Hv _. destruct (value_blank v Hv) as (x & u & Ev & Hx). unfold string_at_key.
  rewrite (skip_blank_stop w line q ":" (w' ++ v ++ c :: t)) by done. cbv zeta.
  rewrite (char_here line (q ++ w) ":" (w' ++ v ++ c :: t)) by first [done | rewrite E; apps].
  destruct (Nat.leb_spec (length line) (length (q ++ w))) as [Hl|_]; [rewrite E in Hl; len|].
  rewrite (length_snoc_S (q ++ w) ":"%char), (skip_blank_stop w' line _ x (u ++ c :: t)) by
    first [done | rewrite E, Ev; apps].
  set (p := ((q ++ w) ++ [":"%char]) ++ w').
  assert (line = p ++ v ++ c :: t) as Ep by (rewrite E; unfold p; apps).
  rewrite (char_here line p x (u ++ c :: t)) by first [done | rewrite Ep, Ev; apps].
  destruct (Nat.leb_spec (length line) (length p)) as [Hl|_]; [rewrite Ep in Hl; len|].
  rewrite Ev. cbn [orb negb Ascii.eqb word_found].
  destruct (Ascii.eqb x cQuote) eqn:Hq; [|done]. apply Ascii.eqb_eq in Hq as ->. simpl. f_equal.
  assert (exists b, u = b ++ [cQuote] /\ str_body b) as (b & -> & Hb).
  { destruct Hv as [y r Hy|b Hb|b Hb|b Hb]; unfold quoted in Ev; simplify_eq; [|eauto].
    apply Forall_inv in Hy. done. }
  rewrite removelast_last. change (read_word line (S (length p))) with (words line (S (length p), false, [])).
  rewrite (length_snoc_S p cQuote), (words_body b line _ (c :: t)); [done|done|].
  rewrite Ep, Ev. apps.
Qed.

Lemma string_at_key_other line q w c t :
  line = q ++ w ++ c :: t -> spaces w -> is_blank c = false -> c <> ":"%char ->
  string_at_key line (length q) = None.
Proof.
  intros E Hw Hc Hcol. destruct (skip_blank_spaces w line q c t E Hw Hc Hcol) as (x & Hx & Hne).
  unfold string_at_key. rewrite Hx, ascii_eqb_false by done. by rewrite orb_true_r.
Qed.

Lemma true_at_key_value line q w w' v c t :
  line = q ++ w ++ ":"%char :: w' ++ v ++ c :: t -> Forall (fun c => is_blank c = true) w ->
  Forall (fun c => is_blank c = true) w' -> value_text v -> ends_value c = true ->
  true_at_key line (length q) = Some (starts_with (str "true") v).
Proof.
  intros E Hw Hw' Hv Hc. destruct (value_blank v Hv) as (x & u & Ev & Hx). unfold true_at_key.
  rewrite (skip_blank_stop w line q ":" (w' ++ v ++ c :: t)) by done. cbv zeta.
  rewrite (char_here line (q ++ w) ":" (w' ++ v ++ c :: t)) by first [done | rewrite E; apps].
  destruct (Nat.ltb_spec (length (q ++ w)) (length line)) as [_|Hl]; [|rewrite E in Hl; len].
  rewrite ascii_eqb_refl. cbn [andb]. f_equal.
  rewrite (length_snoc_S (q ++ w) ":"%char), (skip_blank_stop w' line _ x (u ++ c :: t)) by
    first [done | rewrite E, Ev; apps].
  rewrite <- (starts_with_ends (str "true") v c t) by (by apply ends_value_true).
  apply (compare_starts line _ (v ++ c :: t) (str "true")). rewrite E. apps.
Qed.

Lemma true_at_key_other line q w c t :
  line = q ++ w ++ c :: t -> spaces w -> is_blank c = false -> c <> ":"%char ->
  true_at_key line (length q) = None.
Proof.
  intros E Hw Hc Hcol. destruct (skip_blank_spaces w line q c t E Hw Hc Hcol) as (x & Hx & Hne).
  unfold true_at_key. by rewrite Hx, ascii_eqb_false, andb_false_r by done.
Qed.

(** * Properties *)

(** A control word is the first top-level member of its name, never a nested one,
    and comes back as written; a member that is no string reads as empty. *)
Theorem json_top_level_string_value (ms : list member) (key : bytes)
    (Hkey : Forall (fun c => c <> cQuote /\ c <> cBackslash) key)
    (Hms : Forall member_ok ms) (Hcs : Forall compact_member ms) :
  match field key ms with
  | None => json_top_level_string (object_text ms) key = []
  | Some v =>
      (forall w, v = quoted (json_escape w) -> json_top_level_string (object_text ms) key = w) /\
      (head v <> Some cQuote -> json_top_level_string (object_text ms) key = [])
  end.
Proof.
  pose proof (trun_object (object_text ms) key (string_at_key (object_text ms)) [] Hkey word_found
    ltac:(intros; by eapply string_at_key_value) ltac:(intros; by eapply string_at_key_other)
    ms Hms Hcs eq_refl) as H.
  change (trun _ _ _ _ _) with (json_top_level_string (object_text ms) key) in H. rewrite H.
  destruct (field key ms) as [v|]; [|done]. split.
  - intros w ->. unfold quoted, word_found. rewrite ascii_eqb_refl, removelast_last.
    apply unescape_escape.
  - destruct v as [|c u]; [done|]. simpl. intros Hc. rewrite ascii_eqb_false; [done|]. congruence.
Qed.

(** The control word of the sample line. *)
Example json_top_level_string_value_witness :
  Forall (fun c => c <> cQuote /\ c <> cBackslash) (str "type") /\
  Forall compact_member sample_members /\
  json_top_level_string (object_text sample_members) (str "type") = str "render".
Proof.
  split; [by repeat constructor|]. split; [by repeat constructor|].
  apply (json_top_level_string_value sample_members (str "type"));
    [by repeat constructor|apply sample_ok|by repeat constructor|done].
Defined.

(** A reject is retryable exactly when its first top-level member of that name is
    the literal true; no nested member and no string that spells it counts. *)
Theorem json_top_level_true_value (ms : list member) (key : bytes)
    (Hkey : Forall (fun c => c <> cQuote /\ c <> cBackslash) key)
    (Hms : Forall member_ok ms) (Hcs : Forall compact_member ms) :
  json_top_level_true (object_text ms) key =
  match field key ms with Some v => starts_with (str "true") v | None => false end.
Proof.
  apply (trun_object (object_text ms) key (true_at_key (object_text ms)) false Hkey);
    try done; intros; [by eapply true_at_key_value|by eapply true_at_key_other].
Qed.

(** C33: no line a peer sends holds a scan up: each loop of the readers, the loops inside
    them included (the end of a string, the blanks, an object's and an array's closing
    bracket, a number's digits, a control word), written as plain iteration of its body,
    has left with its result after at most one turn more than the line has bytes, whatever
    position, limit and key it is started with. *)
Theorem json_scans_terminate (s key : bytes) (pos limit max : nat) :
  let fuel := S (length s) in
  let lim := limit `min` length s in
  let want := cQuote :: key ++ [cQuote] in
  iterate fuel (decode_body s) (pos, []) = Some (json_decode_string_at s pos) /\
  iterate fuel (skip_string_body s lim) (S pos) = Some (json_skip_string s pos lim) /\
  iterate fuel (skip_space_body s lim) pos = Some (json_skip_space s pos lim) /\
  iterate fuel (member_body s lim key) (pos, 0) = Some (json_member_value s pos limit key) /\
  (exists close, iterate fuel (body_at_body s lim) (S pos, 1) = Some close /\
     json_body_at s pos limit = if (lim <=? pos) || negb (Ascii.eqb (char_at s pos) "{") then None else pair (S pos) <$> close) /\
  (exists close, iterate fuel (array_at_body s lim) (S pos, 1) = Some close /\
     json_array_body_at s pos limit = if (lim <=? pos) || negb (Ascii.eqb (char_at s pos) "[") then None else pair (S pos) <$> close) /\
  iterate fuel (next_object_body s lim) pos = Some (json_next_object s pos limit) /\
  iterate fuel (string_array_body s lim max) (pos, []) = Some (json_string_array s pos limit max) /\
  iterate fuel (skip_number_body s lim) pos = Some (skip_number s pos lim) /\
  iterate fuel (number_array_body s lim max) (pos, []) = Some (json_number_array s pos limit max) /\
  iterate fuel (skip_blank_body s) pos = Some (skip_blank s pos) /\
  iterate fuel (word_body s) (pos, false, []) = Some (read_word s pos) /\
  iterate fuel (top_body s want (string_at_key s) []) (Scan 0 false false 0)
    = Some (json_top_level_string s key) /\
  iterate fuel (top_body s want (true_at_key s) false) (Scan 0 false false 0)
    = Some (json_top_level_true s key).
Proof.
  cbv zeta. pose proof (Nat.le_min_r limit (length s)) as Hl.
  split_and!; try (eexists; split; [|reflexivity]); (apply iterate_terminates; [apply _|unfold to_go; simpl; lia]).
Qed.
