(* ===== verification/Collapse.v ===== *)
(** PeerJson.hpp, [collapse_latest_render_remote]: the state plane of the bridge is
    latest-wins, so a [render_remote] line superseded by a newer one for the same
    player is dropped and every other line keeps its place. *)
From S2P Require Import Prelude JsonString.

(** * The routine *)

(** The player a line renders, [None] for any other line. *)
Definition render_id (line : bytes) : option bytes :=
  if bool_decide (json_string_field line (str "type") = str "render_remote")
  then Some (json_string_field line (str "player_id")) else None.

(** The backward pass: the ids seen and the [keep] flags of the lines behind. *)
Definition keep_step (line : bytes) (st : gset bytes * list bool) : gset bytes * list bool :=
  let (seen_ids, keep) := st in
  match render_id line with
  | None => (seen_ids, true :: keep)
  | Some id => ({[id]} ∪ seen_ids, bool_decide (id ∉ seen_ids) :: keep)
  end.

Definition keep_flags (lines : list bytes) : list bool := (foldr keep_step (∅, []) lines).2.

(** The forward pass from index [i]: kept lines move down in place, over the dropped
    ones; the result is the vector and its new size. *)
Fixpoint compact_from (keep : list bool) (i out : nat) (lines : list bytes) : list bytes * nat :=
  match keep with
  | [] => (lines, out)
  | true :: keep' =>
      compact_from keep' (S i) (S out)
        (if out =? i then lines else <[out := default [] (lines !! i)]> lines)
  | false :: keep' => compact_from keep' (S i) out lines
  end.

Definition compact (lines : list bytes) (keep : list bool) : list bytes :=
  let (lines', out) := compact_from keep 0 0 lines in take out lines'.

Definition collapse_latest_render_remote (lines : list bytes) : list bytes :=
  if length lines <? 2 then lines else compact lines (keep_flags lines).

(** * Specification *)

(** A line is superseded when a later one renders the same player. *)
Definition superseded (line : bytes) (later : list bytes) : bool :=
  match render_id line with
  | None => false
  | Some id => bool_decide (id ∈ omap render_id later)
  end.

Fixpoint latest (lines : list bytes) : list bytes :=
  match lines with
  | [] => []
  | line :: later => if superseded line later then latest later else line :: latest later
  end.

(** * Lemmas *)

Fixpoint keep_spec (lines : list bytes) : list bool :=
  match lines with
  | [] => []
  | line :: later => negb (superseded line later) :: keep_spec later
  end.

Lemma keep_flags_spec lines :
  (foldr keep_step (∅, []) lines).2 = keep_spec lines /\
  forall id, id ∈ (foldr keep_step (∅, []) lines).1 <-> id ∈ omap render_id lines.
Proof.
  induction lines as [|line later [IH1 IH2]]; [set_solver|].
  simpl. destruct (foldr keep_step (∅, []) later) as [seen keep]. simpl in *.
  unfold superseded. destruct (render_id line) as [p|] eqn:E; simpl; rewrite IH1.
  - split; [|set_solver]. f_equal. rewrite <- bool_decide_not.
    apply bool_decide_ext. by rewrite IH2.
  - split; [done|set_solver].
Qed.

(** The lines whose flag is set. *)
Fixpoint pick (lines : list bytes) (keep : list bool) : list bytes :=
  match lines, keep with
  | l :: ls, k :: ks => if k then l :: pick ls ks else pick ls ks
  | _, _ => []
  end.

(** The in-place pass: what is settled, what may be overwritten, what is to come. *)
Lemma compact_pick keep : forall settled gap rest,
  length rest = length keep ->
  let '(ls, out) := compact_from keep (length (settled ++ gap)) (length settled)
                      (settled ++ gap ++ rest) in
  take out ls = settled ++ pick rest keep.
Proof.
  induction keep as [|k keep IH]; intros settled gap [|l rest] Hl; try done.
  - simpl. by rewrite take_app_length, app_nil_r.
  - simpl in Hl. apply eq_add_S in Hl. destruct k; simpl.
    + assert (exists gap', length gap' = length gap /\
        (if length settled =? length (settled ++ gap) then settled ++ gap ++ l :: rest
         else <[length settled := default [] ((settled ++ gap ++ l :: rest) !! length (settled ++ gap))]>
              (settled ++ gap ++ l :: rest)) = (settled ++ [l]) ++ gap' ++ rest)
        as (gap' & Hg & ->).
      { rewrite app_assoc, list_lookup_middle by done. rewrite <- app_assoc, length_app.
        destruct gap as [|g gap]; simpl.
        - rewrite Nat.add_0_r, Nat.eqb_refl. exists []. by rewrite <- app_assoc.
        - replace (length settled =? length settled + S (length gap)) with false
            by (symmetry; apply Nat.eqb_neq; lia).
          exists (gap ++ [l]). rewrite length_app. split; [simpl; lia|].
          rewrite insert_app_r_alt, Nat.sub_diag by lia. simpl. by rewrite <- !app_assoc. }
      specialize (IH (settled ++ [l]) gap' rest Hl).
      replace (length ((settled ++ [l]) ++ gap')) with (S (length (settled ++ gap))) in IH by len.
      rewrite <- (length_snoc_S settled l) in IH.
      destruct (compact_from _ _ _ _) as [ls out]. rewrite IH. by rewrite <- app_assoc.
    + specialize (IH settled (gap ++ [l]) rest Hl).
      replace (length (settled ++ gap ++ [l])) with (S (length (settled ++ gap))) in IH by len.
      by rewrite <- app_assoc in IH.
Qed.

Lemma pick_latest lines : pick lines (keep_spec lines) = latest lines.
Proof. induction lines as [|l lines IH]; simpl; [done|]. rewrite IH. by destruct (superseded l lines). Qed.

Lemma length_keep_spec lines : length (keep_spec lines) = length lines.
Proof. induction lines; simpl; congruence. Qed.

Lemma collapse_latest lines : collapse_latest_render_remote lines = latest lines.
Proof.
  unfold collapse_latest_render_remote. nat_case.
  - destruct lines as [|l [|]]; simpl in *; try lia; [done|].
    unfold superseded. by destruct (render_id l).
  - unfold compact, keep_flags. rewrite (proj1 (keep_flags_spec lines)).
    pose proof (compact_pick (keep_spec lines) [] [] lines (eq_sym (length_keep_spec lines))) as Hp.
    simpl in Hp. destruct (compact_from _ _ _ _) as [ls out]. by rewrite Hp, pick_latest.
Qed.

Lemma omap_latest lines id : id ∈ omap render_id (latest lines) <-> id ∈ omap render_id lines.
Proof.
  induction lines as [|l lines IH]; simpl; [done|].
  unfold superseded. destruct (render_id l) as [p|] eqn:E; simpl.
  - case_bool_decide; simpl; rewrite ?E; set_solver.
  - by rewrite E.
Qed.

Lemma latest_app_superseded l a b :
  superseded l (latest a ++ b) = superseded l (a ++ b).
Proof.
  unfold superseded. destruct (render_id l) as [p|]; [|done].
  apply bool_decide_ext. rewrite !omap_app, !elem_of_app, omap_latest. done.
Qed.

Lemma superseded_app l a b : superseded l a = true -> superseded l (a ++ b) = true.
Proof.
  unfold superseded. destruct (render_id l) as [p|]; [|done].
  rewrite !bool_decide_eq_true, omap_app, elem_of_app. auto.
Qed.

Lemma latest_latest_app a b : latest (latest a ++ b) = latest (a ++ b).
Proof.
  induction a as [|l a IH]; simpl; [done|].
  destruct (superseded l a) eqn:E; simpl.
  - by rewrite (superseded_app _ _ _ E).
  - by rewrite latest_app_superseded, IH.
Qed.

Lemma filter_latest_kept lines :
  filter (fun l => render_id l = None) (latest lines) = filter (fun l => render_id l = None) lines.
Proof.
  induction lines as [|l lines IH]; [done|]. simpl latest.
  unfold superseded. destruct (render_id l) as [p|] eqn:E.
  - case_bool_decide; rewrite ?filter_cons_False by congruence; done.
  - rewrite !filter_cons_True by done. by rewrite IH.
Qed.

Lemma filter_latest_id lines id :
  filter (fun l => render_id l = Some id) (latest lines)
  = option_list (list.last (filter (fun l => render_id l = Some id) lines)).
Proof.
  induction lines as [|l lines IH]; [done|]. simpl latest.
  assert (forall ls, id ∈ omap render_id ls <-> filter (fun l => render_id l = Some id) ls <> []) as Hin.
  { intros ls. rewrite list_elem_of_omap. split.
    - intros (x & Hx & Ex) Hn. assert (x ∈ filter (fun l => render_id l = Some id) ls) as H
        by (by apply list_elem_of_filter). rewrite Hn in H. by apply elem_of_nil in H.
    - destruct (filter _ ls) as [|x r] eqn:Ef; [done|]. intros _.
      assert (x ∈ filter (fun l => render_id l = Some id) ls) as H by (rewrite Ef; left).
      apply list_elem_of_filter in H as [? ?]. eauto. }
  unfold superseded. destruct (decide (render_id l = Some id)) as [E|E].
  - rewrite E, (filter_cons_True _ l lines) by done. case_bool_decide as Hs.
    + rewrite IH. apply Hin in Hs. by destruct (filter _ lines).
    + rewrite filter_cons_True, IH by done.
      destruct (filter _ lines) eqn:Ef; [done|]. destruct Hs. apply Hin. by rewrite Ef.
  - rewrite (filter_cons_False _ l lines) by done.
    destruct (match render_id l with Some _ => _ | None => _ end); [done|].
    by rewrite filter_cons_False.
Qed.

Lemma latest_sublist lines : latest lines `sublist_of` lines.
Proof.
  induction lines as [|l lines IH]; simpl; [done|].
  destruct (superseded l lines); [by apply sublist_cons|by apply sublist_skip].
Qed.

(** * Properties *)

(** Collapsing drops exactly the superseded states: the result is a subsequence,
    every line that is not a [render_remote] is kept in order, and of each player's
    states exactly the last is kept. *)
Theorem collapse_keeps_latest (lines : list bytes) :
  collapse_latest_render_remote lines `sublist_of` lines /\
  filter (fun l => render_id l = None) (collapse_latest_render_remote lines)
    = filter (fun l => render_id l = None) lines /\
  forall id,
    filter (fun l => render_id l = Some id) (collapse_latest_render_remote lines)
    = option_list (list.last (filter (fun l => render_id l = Some id) lines)).
Proof.
  rewrite collapse_latest. split; [apply latest_sublist|].
  split; [apply filter_latest_kept|]. intros id. apply filter_latest_id.
Qed.

(** Collapsing the queue while it grows loses nothing: lines that arrive later are
    collapsed with the shortened queue to the same result as with the whole one. *)
Theorem collapse_incremental (queued arrived : list bytes) :
  collapse_latest_render_remote (collapse_latest_render_remote queued ++ arrived)
  = collapse_latest_render_remote (queued ++ arrived).
Proof. rewrite !collapse_latest. apply latest_latest_app. Qed.
