(* ===== verification/BridgeClient.v ===== *)
(** BridgeClient.hpp and BridgeClient.cpp: the bridge client, newline-delimited JSON
    over a non-blocking TCP socket to the local core.

    The client's state is the record [client]; every member function is a definition
    on it.  What the operating system answers ([socket], [connect], [select], [bind],
    [send], [recv], [steady_clock::now]) is an argument of the operation that asks,
    and [os_socks] is the set of this client's sockets the system holds open.  A time
    point is a [Z] number of nanoseconds since the clock's epoch. *)
From S2P Require Import Prelude JsonString JsonScoped JsonTop.
From Stdlib Require Import ZArith.
Local Open Scope Z_scope.

(** * Constants *)

Definition ms (n : Z) : Z := n * 1000000.
Definition MAX_RECV_BUFFER_BYTES : nat := (16 * 1024)%nat.
Definition RECONNECT_INTERVAL : Z := ms 2000.
Definition BRIDGE_BASE_PORT : Z := 7778.
Definition BRIDGE_PORT_COUNT : nat := 8%nat.
Definition BUSY_PORT_COOLDOWN : Z := ms 10000.
Definition RELAY_DOWN_BACKOFF : Z := ms 10000.
Definition HELLO_ANSWER_TIMEOUT : Z := ms 1500.
Definition MAX_RECV_PER_POLL : nat := (64 * 1024)%nat.

Definition WSAEWOULDBLOCK : Z := 10035.
Definition WSAECONNREFUSED : Z := 10061.

(** [static_cast<uint16_t>] *)
Definition u16 (z : Z) : Z := z mod 65536.

(** * State *)

Record BridgeStats := Stats {
  connect_attempts : N; send_ok : N; send_fail : N; lines_received : N; lines_malformed : N
}.
#[export] Instance stats_eta : Eta BridgeStats := fun r =>
  Stats (connect_attempts r) (send_ok r) (send_fail r) (lines_received r) (lines_malformed r).

Record client := Client {
  current_port : Z;
  sock : option Z;             (* [None] is INVALID_SOCKET *)
  connected : bool;
  hello_sent_this_connection : bool;
  recv_buffer : bytes;
  counters : BridgeStats;
  base_port : Z;
  busy_until : list Z;
  relay_down_until : Z;
  spawnable : Z;
  have_spawnable_port : bool;
  last_busy_port : Z;
  own_core_port : Z;
  hello_sent_at : Z;
  core_answered_ready : bool;
  last_connect_attempt : Z;
  os_socks : gset Z
}.
#[export] Instance client_eta : Eta client := fun r =>
  Client (current_port r) (sock r) (connected r) (hello_sent_this_connection r) (recv_buffer r)
    (counters r) (base_port r) (busy_until r) (relay_down_until r) (spawnable r)
    (have_spawnable_port r) (last_busy_port r) (own_core_port r) (hello_sent_at r)
    (core_answered_ready r) (last_connect_attempt r) (os_socks r).

(** The constructor; [base_port_] is a [uint16_t]. *)
Definition new_client (base_port_ : Z) : client :=
  Client 0 None false false [] (Stats 0 0 0 0 0) base_port_ (replicate BRIDGE_PORT_COUNT 0)
    0 0 false 0 0 0 false 0 ∅.

(** * Small operations *)

Definition close_socket (c : client) : client :=
  let c := match sock c with
           | Some s => c <| os_socks := os_socks c ∖ {[s]} |> <| sock := None |>
           | None => c
           end in
  c <| connected := false |> <| hello_sent_this_connection := false |>
    <| core_answered_ready := false |> <| hello_sent_at := 0 |> <| current_port := 0 |>.

Definition mark_hello_sent (now : Z) (c : client) : client :=
  c <| hello_sent_this_connection := true |> <| hello_sent_at := now |>.

Definition is_ready (c : client) : bool :=
  if negb (connected c) || negb (hello_sent_this_connection c) then false
  else core_answered_ready c.

Definition resolved_port (c : client) : Z := if connected c then current_port c else 0.

Definition set_own_core_port (port : Z) (c : client) : client := c <| own_core_port := port |>.

Definition spawnable_port (c : client) : option Z :=
  if have_spawnable_port c then Some (spawnable c) else None.

(** * Connecting *)

(** What the system answers when one candidate is dialled. *)
Inductive connect_answer := ConnOk | ConnErr (wsa : Z).
Inductive select_answer := SelNone | SelReady (writable : bool) (so_error : Z).
Record dial := Dial { d_sock : option Z; d_connect : connect_answer; d_select : select_answer }.

(** The result, and [refused]. *)
Definition try_port (d : dial) (c : client) : bool * bool * client :=
  let c := c <| counters := counters c <| connect_attempts := N.succ (connect_attempts (counters c)) |> |> in
  match d_sock d with
  | None => (false, false, c)
  | Some new_sock =>
      let c := c <| os_socks := {[new_sock]} ∪ os_socks c |> in
      let closed := c <| os_socks := os_socks c ∖ {[new_sock]} |> in
      match d_connect d with
      | ConnOk => (true, false, c <| sock := Some new_sock |>)
      | ConnErr err =>
          if negb (err =? WSAEWOULDBLOCK) then (false, err =? WSAECONNREFUSED, closed)
          else
            match d_select d with
            | SelNone => (false, false, closed)
            | SelReady writable so_error =>
                if writable && (so_error =? 0) then (true, false, c <| sock := Some new_sock |>)
                else (false, so_error =? WSAECONNREFUSED, closed)
            end
      end
  end.

(** The system's answers during a sweep: to a dial, and to the bind of the probe (whose
    socket is closed again at once). *)
Record network := Network { net_dial : Z -> dial; net_bindable : Z -> bool }.

(** [busy_until[current_port - base_port] = now + BUSY_PORT_COOLDOWN], when the port is
    in the range (compared as [int]). *)
Definition cool_port (port now : Z) (c : client) : client :=
  if (base_port c <=? port) && (port <? base_port c + Z.of_nat BRIDGE_PORT_COUNT) then
    c <| busy_until := <[Z.to_nat (port - base_port c) := now + BUSY_PORT_COOLDOWN]> (busy_until c) |>
  else c.

Definition candidate (c : client) (i : nat) : Z := u16 (base_port c + Z.of_nat i).

(** The two reasons to pass a candidate over. *)
Definition skips (now : Z) (c : client) (i : nat) : bool :=
  (now <? default 0 (busy_until c !! i)) ||
  (negb (own_core_port c =? 0) && negb (own_core_port c =? last_busy_port c)
   && negb (candidate c i =? own_core_port c)).

Fixpoint sweep (net : network) (now : Z) (cands : list nat) (c : client) : client :=
  match cands with
  | [] => c
  | i :: cands' =>
      if skips now c i then sweep net now cands' c
      else
        let p := candidate c i in
        match try_port (net_dial net p) c with
        | (true, _, c) =>
            c <| current_port := p |> <| connected := true |> <| hello_sent_this_connection := false |>
              <| core_answered_ready := false |> <| recv_buffer := [] |>
        | (false, refused, c) =>
            sweep net now cands'
              (if negb (have_spawnable_port c) && (refused || net_bindable net p)
               then c <| spawnable := p |> <| have_spawnable_port := true |> else c)
        end
  end.

(** The clock is read up to three times: for the hello's timeout, for the cooldown it
    starts, and for the sweep. *)
Definition tick_connect (net : network) (now_hello now_cool now : Z) (c : client) : client :=
  let timed_out := hello_sent_this_connection c && negb (core_answered_ready c)
                   && (HELLO_ANSWER_TIMEOUT <? now_hello - hello_sent_at c) in
  if connected c && negb timed_out then c
  else
    let c := if connected c then close_socket (cool_port (current_port c) now_cool c) else c in
    if now <? relay_down_until c then c
    else if now - last_connect_attempt c <? RECONNECT_INTERVAL then c
    else
      let c := c <| last_connect_attempt := now |> <| have_spawnable_port := false |> in
      sweep net now (seq 0 BRIDGE_PORT_COUNT) c.

(** * Sending *)

Inductive send_answer := Sent (n : nat) | SendErr (wsa : Z).

(** The result, [dropped], and the state. *)
Definition send_line_inner (answer : send_answer) (line : bytes) (c : client)
    : bool * bool * client :=
  if negb (connected c) then (false, false, c)
  else
    let with_newline := line ++ [cLF] in
    let failed := c <| counters := counters c <| send_fail := N.succ (send_fail (counters c)) |> |> in
    match answer with
    | SendErr err =>
        if err =? WSAEWOULDBLOCK then (true, true, c) else (false, false, close_socket failed)
    | Sent sent =>
        if (sent <? length with_newline)%nat then (false, false, close_socket failed)
        else (true, false, c <| counters := counters c <| send_ok := N.succ (send_ok (counters c)) |> |>)
    end.

Definition send_line (answer : send_answer) (line : bytes) (c : client) : bool * client :=
  let '(ok, _, c) := send_line_inner answer line c in (ok, c).

Definition send_edge_line (answer : send_answer) (line : bytes) (c : client) : bool * client :=
  let '(ok, dropped, c) := send_line_inner answer line c in (ok && negb dropped, c).

(** * Receiving *)

(** A [recv]: the bytes it stored, the peer's close, or an error. *)
Inductive recv_answer := Recv (chunk : bytes) | RecvEof | RecvErr (wsa : Z).

(** The read loop: [answers] are the system's, in order; past their end it would block.
    Returns the answers left for the next call. *)
Fixpoint recv_loop (answers : list recv_answer) (received : nat) (c : client)
    : client * list recv_answer :=
  match answers with
  | [] => (c, [])
  | a :: rest =>
      if (MAX_RECV_PER_POLL <=? received)%nat then (c, answers)
      else
        match a with
        | Recv chunk =>
            recv_loop rest (received + length chunk) (c <| recv_buffer := recv_buffer c ++ chunk |>)
        | RecvEof => (close_socket c, rest)
        | RecvErr err => if err =? WSAEWOULDBLOCK then (c, rest) else (close_socket c, rest)
        end
  end.

Definition strip_cr (line : bytes) : bytes :=
  match line with
  | [] => []
  | _ => if Ascii.eqb (List.last line cNul) cCR then removelast line else line
  end.

Definition contains (needle line : bytes) : bool :=
  match find_from line needle 0 with Some _ => true | None => false end.

(** A refusal that sends the sweep to the next port. *)
Definition walks_on (line : bytes) : bool :=
  let reject_code := json_top_level_string line (str "code") in
  if bool_decide (reject_code = []) then negb (contains (str "relay") line)
  else bool_decide (reject_code = str "busy") || bool_decide (reject_code = str "already_serving").

(** A refusal that says the port has a game of its own. *)
Definition says_busy (line : bytes) : bool :=
  let reject_code := json_top_level_string line (str "code") in
  if bool_decide (reject_code = []) then contains (str "busy") line
  else bool_decide (reject_code = str "busy").

(** The state after a refusal; the connection is closed and the buffer dropped. *)
Definition on_reject (source_port now : Z) (line : bytes) (c : client) : client :=
  let c :=
    if negb (walks_on line) then c <| relay_down_until := now + RELAY_DOWN_BACKOFF |>
    else
      let c := cool_port source_port now c in
      if says_busy line then c <| last_busy_port := source_port |> else c in
  close_socket c <| recv_buffer := [] |>.

Definition well_bracketed (line : bytes) : bool :=
  Ascii.eqb (hd cNul line) "{" && Ascii.eqb (List.last line cNul) "}".

(** One line, [None] when it was empty: what is done with it. *)
Inductive line_action := Deliver (line : bytes) | Ready | Rejected (line : bytes).
Definition classify (line : bytes) : line_action :=
  let msg_type := json_top_level_string line (str "type") in
  if bool_decide (msg_type = str "bridge_ready") then Ready
  else if bool_decide (msg_type = str "reject") then Rejected line
  else Deliver line.

Definition count_line (line : bytes) (c : client) : client :=
  let s := counters c <| lines_received := N.succ (lines_received (counters c)) |> in
  c <| counters := if well_bracketed line then s
                   else s <| lines_malformed := N.succ (lines_malformed s) |> |>.

(** The extraction loop: [start], the state and the lines so far.  It leaves with the
    state to return, the lines, and whether it returned early. *)
Definition extract_body (source_port now : Z) (st : nat * client * list bytes)
    : (nat * client * list bytes) + (client * list bytes) :=
  let '(start, c, lines) := st in
  match find_char (recv_buffer c) cLF start with
  | None =>
      let c := c <| recv_buffer := drop start (recv_buffer c) |> in
      inr (if (MAX_RECV_BUFFER_BYTES <? length (recv_buffer c))%nat then close_socket c else c, lines)
  | Some newline_pos =>
      let line := strip_cr (substr (recv_buffer c) start (newline_pos - start)) in
      let next := S newline_pos in
      if bool_decide (line = []) then inl (next, c, lines)
      else
        let c := count_line line c in
        match classify line with
        | Ready => inl (next, c <| core_answered_ready := true |>, lines)
        | Rejected line => inr (on_reject source_port now line c, lines)
        | Deliver line => inl (next, c, lines ++ [line])
        end
  end.

Definition extract (source_port now : Z) (c : client) : client * list bytes :=
  loop (fun st : nat * client * list bytes => (S (length (recv_buffer st.1.2)) - st.1.1)%nat)
       (extract_body source_port now) (c, []) (0%nat, c, []).

(** The lines, the state, and the answers not asked for. *)
Definition poll_lines (answers : list recv_answer) (now : Z) (c : client)
    : client * list bytes * list recv_answer :=
  if negb (connected c) then (c, [], answers)
  else
    let source_port := current_port c in
    let (c, rest) := recv_loop answers 0 c in
    (extract source_port now c, rest).

#[export] Instance extract_decreasing source_port now :
  Decreasing (fun st : nat * client * list bytes => (S (length (recv_buffer st.1.2)) - st.1.1)%nat)
    (extract_body source_port now).
Proof.
  intros [[start c] lines] [[start' c'] lines'] E. unfold extract_body in E. simpl.
  destruct (find_char (recv_buffer c) cLF start) as [nl|] eqn:Hf; [|done].
  apply find_from_bounds in Hf. simpl in Hf.
  repeat split_match_in E; simplify_eq/=; lia.
Qed.

(** * Specification: framing

    [frame s] splits [s] at its newlines: the complete lines, and what follows the
    last newline. *)

Fixpoint frame (s : bytes) : list bytes * bytes :=
  match s with
  | [] => ([], [])
  | c :: s' =>
      let (ls, r) := frame s' in
      if Ascii.eqb c cLF then ([] :: ls, r)
      else match ls with
           | [] => ([], c :: r)
           | l :: ls' => ((c :: l) :: ls', r)
           end
  end.

(** What is done with the complete lines in order, up to a refusal. *)
Fixpoint process (source_port now : Z) (ls : list bytes) (c : client) (out : list bytes)
    : (client * list bytes) + (client * list bytes) :=
  match ls with
  | [] => inl (c, out)
  | l :: ls' =>
      let line := strip_cr l in
      if bool_decide (line = []) then process source_port now ls' c out
      else
        let c := count_line line c in
        match classify line with
        | Ready => process source_port now ls' (c <| core_answered_ready := true |>) out
        | Rejected line => inr (on_reject source_port now line c, out)
        | Deliver line => process source_port now ls' c (out ++ [line])
        end
  end.

(** The partial line is kept for the next poll, unless it is past the bound. *)
Definition keep_rest (r : bytes) (c : client) : client :=
  let c := c <| recv_buffer := r |> in
  if (MAX_RECV_BUFFER_BYTES <? length r)%nat then close_socket c else c.

Definition extract_spec (source_port now : Z) (c : client) : client * list bytes :=
  let (ls, r) := frame (recv_buffer c) in
  match process source_port now ls c [] with
  | inl (c', out) => (keep_rest r c', out)
  | inr res => res
  end.

(** * Lemmas on framing *)

Lemma frame_find u :
  find_str [cLF] u = match (frame u).1 with [] => None | l :: _ => Some (length l) end.
Proof.
  induction u as [|c u IH]; [done|]. cbn [find_str starts_with frame].
  destruct (frame u) as [ls r] eqn:E. rewrite (Ascii.eqb_sym cLF c).
  destruct (Ascii.eqb c cLF); [done|]. cbn [andb]. rewrite IH. by destruct ls.
Qed.

Lemma frame_cons u l ls r :
  frame u = (l :: ls, r) -> u = l ++ cLF :: drop (S (length l)) u /\ frame (drop (S (length l)) u) = (ls, r).
Proof.
  revert l; induction u as [|c u IH]; [done|]. intros l. cbn [frame].
  destruct (frame u) as [ls' r'] eqn:E. destruct (Ascii.eqb_spec c cLF) as [->|].
  - intros ?; simplify_eq. split; [done|exact E].
  - destruct ls' as [|l' ls']; [done|]. intros ?; simplify_eq.
    destruct (IH l' eq_refl) as [E1 E2]. split; [|exact E2]. simpl. f_equal. exact E1.
Qed.

Lemma frame_rest u r : frame u = ([], r) -> r = u.
Proof.
  revert r; induction u as [|c u IH]; intros r; cbn [frame]; [by intros; simplify_eq|].
  destruct (frame u) as [ls r'] eqn:E. destruct (Ascii.eqb c cLF); [done|].
  destruct ls; [|done]. intros ?; simplify_eq. f_equal. by apply IH.
Qed.

(** The remainder holds no newline. *)
Lemma frame_partial u : frame (frame u).2 = ([], (frame u).2).
Proof.
  induction u as [|c u IH]; [done|]. cbn [frame]. destruct (frame u) as [ls r] eqn:E.
  destruct (Ascii.eqb c cLF) eqn:Hc; [done|]. destruct ls; [|done].
  cbn [snd frame] in *. by rewrite IH, Hc.
Qed.

(** Bytes that arrive later extend the remainder: framing is incremental. *)
Lemma frame_app u v :
  frame (u ++ v) = ((frame u).1 ++ (frame ((frame u).2 ++ v)).1, (frame ((frame u).2 ++ v)).2).
Proof.
  induction u as [|c u IH]; [simpl; by destruct (frame v) as [[|] ?]|]. cbn [frame app].
  destruct (frame u) as [ls r] eqn:E. rewrite IH. cbn [fst snd] in *.
  destruct (Ascii.eqb c cLF) eqn:Hc; [done|]. destruct ls as [|l ls]; [|done].
  cbn [app frame snd fst]. rewrite Hc. by destruct (frame (r ++ v)) as [[|] ?].
Qed.

Lemma find_char_mid p u c :
  find_char (p ++ u) c (length p) = (fun i => (length p + i)%nat) <$> find_str [c] u.
Proof.
  unfold find_char, find_from. nat_case; [|rewrite length_app in *; lia]. by rewrite drop_app_length.
Qed.

Lemma substr_line (p l t : bytes) :
  substr (p ++ l ++ t) (length p) (length p + length l - length p) = l.
Proof. replace (length p + length l - length p)%nat with (length l) by lia. apply substr_mid. Qed.

Section Extract.
Context (source_port now : Z) (d : client * list bytes).

Definition extracts (st : nat * client * list bytes) : client * list bytes :=
  loop (fun st : nat * client * list bytes => (S (length (recv_buffer st.1.2)) - st.1.1)%nat)
       (extract_body source_port now) d st.

Lemma extracts_unfold st :
  extracts st = match extract_body source_port now st with
                | inl st' => extracts st'
                | inr r => r
                end.
Proof. apply (loop_unfold _ (extract_body source_port now)). Qed.

Lemma extracts_frame ls : forall p u r c out,
  recv_buffer c = p ++ u -> frame u = (ls, r) ->
  extracts (length p, c, out)
  = match process source_port now ls c out with
    | inl (c', out') => (keep_rest r c', out')
    | inr res => res
    end.
Proof.
  induction ls as [|l ls IH]; intros p u r c out Eb Ef;
    rewrite extracts_unfold; unfold extract_body; rewrite Eb, find_char_mid, frame_find, Ef.
  - apply frame_rest in Ef as ->. cbn [fst fmap option_fmap option_map process].
    unfold keep_rest. rewrite drop_app_length. done.
  - cbn [fst fmap option_fmap option_map process].
    destruct (frame_cons _ _ _ _ Ef) as [Eu Ef']. 
    assert (substr (p ++ u) (length p) (length p + length l - length p) = l) as ->
      by (rewrite Eu; apply substr_line).
    assert (recv_buffer c = (p ++ l ++ [cLF]) ++ drop (S (length l)) u) as Eb'
      by (etrans; [exact Eb|]; etrans; [exact (f_equal (app p) Eu)|]; apps).
    replace (S (length p + length l)) with (length (p ++ l ++ [cLF])) by len.
    case_bool_decide; [by apply (IH _ (drop (S (length l)) u))|].
    destruct (classify (strip_cr l)); [|..|done].
    all: apply (IH _ (drop (S (length l)) u)); [|done]; rewrite <- Eb'; unfold count_line;
      by destruct (well_bracketed _).
Qed.
End Extract.

Lemma extract_refines source_port now c : extract source_port now c = extract_spec source_port now c.
Proof.
  unfold extract_spec. destruct (frame (recv_buffer c)) as [ls r] eqn:E.
  by apply (extracts_frame source_port now (c, []) ls [] (recv_buffer c) r c []).
Qed.

(** * Reachable states *)

Inductive event :=
  | ETick (net : network) (now_hello now_cool now : Z)
  | EHello (now : Z)
  | EOwnCore (port : Z)
  | ESend (answer : send_answer) (line : bytes)
  | ESendEdge (answer : send_answer) (line : bytes)
  | EPoll (answers : list recv_answer) (now : Z).

Definition step (e : event) (c : client) : client :=
  match e with
  | ETick net n1 n2 n3 => tick_connect net n1 n2 n3 c
  | EHello now => mark_hello_sent now c
  | EOwnCore port => set_own_core_port port c
  | ESend a line => (send_line a line c).2
  | ESendEdge a line => (send_edge_line a line c).2
  | EPoll answers now => (poll_lines answers now c).1.1
  end.

Definition runs (es : list event) (c : client) : client := foldl (fun c e => step e c) c es.

(** The invariant: the sockets the system holds are the one in use, a connection is to
    a candidate port, and while connected the buffer is one bounded partial line. *)
Record wf_core (c : client) : Prop := WfCore {
  wf_busy : length (busy_until c) = BRIDGE_PORT_COUNT;
  wf_sock : connected c = bool_decide (is_Some (sock c));
  wf_os : os_socks c = match sock c with Some s => {[s]} | None => ∅ end;
  wf_port : if connected c
            then exists i, (i < BRIDGE_PORT_COUNT)%nat /\ current_port c = candidate c i
            else current_port c = 0;
  wf_spawn : have_spawnable_port c = true ->
             exists i, (i < BRIDGE_PORT_COUNT)%nat /\ spawnable c = candidate c i
}.

Definition wf_rest (c : client) : Prop :=
  connected c = true ->
  frame (recv_buffer c) = ([], recv_buffer c) /\
  (length (recv_buffer c) <= MAX_RECV_BUFFER_BYTES)%nat.

Definition wf (c : client) : Prop := wf_core c /\ wf_rest c.

(** * The invariant is preserved *)

Lemma wf_new base : wf (new_client base).
Proof. by repeat split. Qed.

Ltac core_tac := match goal with |- wf_core ?c -> _ => intros []; destruct c; split; simpl in *; try done end.

Lemma close_core c : wf_core c -> wf_core (close_socket c).
Proof.
  intros [H1 H2 H3 H4 H5]. unfold close_socket. destruct c as []; simpl in *.
  destruct sock0 as [s|]; split; simpl in *; try done.
  rewrite H3. apply difference_diag_L.
Qed.

Lemma close_connected c : connected (close_socket c) = false.
Proof. unfold close_socket. by destruct c as [? []]. Qed.

Lemma wf_closed c : wf_core c -> connected c = false -> wf c.
Proof. intros Hc Hn. split; [done|]. unfold wf_rest. by rewrite Hn. Qed.

Lemma close_wf c : wf_core c -> wf (close_socket c).
Proof. intros. apply wf_closed; [by apply close_core|apply close_connected]. Qed.

Lemma cool_port_core port now c : wf_core c -> wf_core (cool_port port now c).
Proof.
  unfold cool_port. split_match; [|done]. core_tac. by rewrite length_insert.
Qed.

Lemma count_line_core line c : wf_core c -> wf_core (count_line line c).
Proof. unfold count_line. destruct (well_bracketed line); core_tac. Qed.

Lemma buffer_core r c : wf_core c -> wf_core (c <| recv_buffer := r |>).
Proof. core_tac. Qed.

Lemma ready_core b c : wf_core c -> wf_core (c <| core_answered_ready := b |>).
Proof. core_tac. Qed.

Lemma on_reject_wf port now line c : wf_core c -> wf (on_reject port now line c).
Proof.
  intros Hc. unfold on_reject. cbv zeta.
  set (x := if negb (walks_on line) then _ else _).
  assert (wf_core x) as Hx.
  { unfold x. destruct (negb (walks_on line)); [by destruct c, Hc; split|].
    apply (cool_port_core port now) in Hc. destruct (says_busy line); [|done].
    by destruct (cool_port port now c), Hc; split. }
  apply wf_closed; [by apply buffer_core, close_core|].
  pose proof (close_connected x) as Hx2. by destruct (close_socket x).
Qed.

Lemma process_wf port now ls : forall c out,
  wf_core c ->
  match process port now ls c out with
  | inl (c', _) => wf_core c'
  | inr (c', _) => wf c'
  end.
Proof.
  induction ls as [|l ls IH]; intros c out Hc; [done|]. cbn [process].
  case_bool_decide; [by apply IH|].
  pose proof (count_line_core (strip_cr l) c Hc) as Hl. destruct (classify (strip_cr l)).
  - by apply IH.
  - by apply IH, ready_core.
  - by apply on_reject_wf.
Qed.

Lemma keep_rest_wf r c : wf_core c -> frame r = ([], r) -> wf (keep_rest r c).
Proof.
  intros Hc Hr. unfold keep_rest. cbv zeta. nat_case; [by apply close_wf, buffer_core|].
  split; [by apply buffer_core|]. intros _. destruct c; simpl in *. split; [done|lia].
Qed.

Lemma extract_wf port now c : wf_core c -> wf (extract port now c).1.
Proof.
  intros Hc. rewrite extract_refines. unfold extract_spec.
  pose proof (frame_partial (recv_buffer c)) as Hp. destruct (frame (recv_buffer c)) as [ls r].
  pose proof (process_wf port now ls c [] Hc) as H.
  destruct (process port now ls c []) as [[]|[]]; [|done]. by apply keep_rest_wf.
Qed.

Lemma recv_loop_core answers : forall n c, wf_core c -> wf_core (recv_loop answers n c).1.
Proof.
  induction answers as [|a answers IH]; intros n c Hc; [done|]. cbn [recv_loop].
  nat_case; [done|]. destruct a as [chunk| |err]; [by apply IH, buffer_core|by apply close_core|].
  destruct (err =? WSAEWOULDBLOCK); [done|by apply close_core].
Qed.

Lemma poll_wf answers now c : wf c -> wf (poll_lines answers now c).1.1.
Proof.
  intros [Hc Hr]. unfold poll_lines. destruct (connected c); [|by split]. simpl.
  pose proof (recv_loop_core answers 0 c Hc) as H.
  destruct (recv_loop answers 0 c) as [c' rest]. by apply extract_wf.
Qed.

Lemma send_inner_wf a line c : wf c -> wf (send_line_inner a line c).2.
Proof.
  intros [Hc Hr]. unfold send_line_inner. destruct (connected c) eqn:E; [|by split].
  cbn [negb]. assert (forall st, wf_core (c <| counters := st |>)) as Hst
    by (intros st; by destruct c, Hc; split).
  destruct a as [n|err].
  - nat_case; [by apply close_wf, Hst|]. split; [apply Hst|]. by destruct c.
  - destruct (err =? WSAEWOULDBLOCK); [by split|by apply close_wf, Hst].
Qed.

(** * The sweep *)

(** What a dial comes to. *)
Definition connects (d : dial) : bool :=
  match d_sock d, d_connect d, d_select d with
  | None, _, _ => false
  | Some _, ConnOk, _ => true
  | Some _, ConnErr err, SelReady writable so_error =>
      (err =? WSAEWOULDBLOCK) && writable && (so_error =? 0)
  | Some _, ConnErr _, SelNone => false
  end.

Definition refuses (d : dial) : bool :=
  match d_sock d, d_connect d, d_select d with
  | Some _, ConnErr err, sel =>
      if err =? WSAEWOULDBLOCK then
        match sel with
        | SelReady writable so_error => so_error =? WSAECONNREFUSED
        | SelNone => false
        end
      else err =? WSAECONNREFUSED
  | _, _, _ => false
  end.

Definition free_port (net : network) (p : Z) : bool := refuses (net_dial net p) || net_bindable net p.

(** The state of a sweep that has dialled [n] candidates and remembered [sp]. *)
Definition swept (n : nat) (sp : option Z) (c : client) : client :=
  let c := c <| counters := counters c
               <| connect_attempts := (N.of_nat n + connect_attempts (counters c))%N |> |> in
  match sp with
  | Some p => c <| spawnable := p |> <| have_spawnable_port := true |>
  | None => c
  end.

(** The state once the candidate [p] answered on socket [s]. *)
Definition connect_to (p s : Z) (c : client) : client :=
  c <| os_socks := {[s]} |> <| sock := Some s |> <| current_port := p |> <| connected := true |>
    <| hello_sent_this_connection := false |> <| core_answered_ready := false |> <| recv_buffer := [] |>.

(** The candidates a sweep may dial, in order. *)
Definition eligible (now : Z) (c : client) (cands : list nat) : list nat :=
  filter (fun i => skips now c i = false) cands.

(** Of those it dialled, the first where nothing listens. *)
Definition first_free (net : network) (c : client) (tried : list nat) : option Z :=
  (fun r => candidate c r.2) <$> list_find (fun i => free_port net (candidate c i) = true) tried.

Definition keep_first (sp sp' : option Z) : option Z := match sp with Some _ => sp | None => sp' end.

Definition sweep_result (net : network) (el : list nat) (n : nat) (sp : option Z) (c c' : client) : Prop :=
  match list_find (fun i => connects (net_dial net (candidate c i)) = true) el with
  | Some (k, i) => exists s,
      c' = connect_to (candidate c i) s
             (swept (n + S k) (keep_first sp (first_free net c (take k el))) c)
  | None => c' = swept (n + length el) (keep_first sp (first_free net c el)) c
  end.

Lemma try_port_swept d n sp c :
  os_socks c = ∅ ->
  if connects d
  then exists s, try_port d (swept n sp c) =
         (true, false, swept (S n) sp c <| os_socks := {[s]} |> <| sock := Some s |>)
  else try_port d (swept n sp c) = (false, refuses d, swept (S n) sp c).
Proof.
  intros Ho. destruct c as [? ? ? ? ? []]; simpl in Ho; subst.
  assert (forall s : Z, ({[s]} ∪ ∅) = ({[s]} : gset Z)) as Hu by (intros; apply union_empty_r_L).
  assert (forall k, N.succ (N.of_nat n + k) = N.of_nat (S n) + k)%N as Hs by lia.
  unfold try_port, connects, refuses, swept.
  destruct d as [[s|] conn sel], sp; simpl; rewrite ?Hu, ?difference_diag_L, ?Hs; try done.
  all: destruct conn as [|err]; [by exists s|]; destruct (err =? WSAEWOULDBLOCK) eqn:E; simpl;
    destruct sel as [|[] so]; simpl; try done; destruct (so =? 0) eqn:E0; try done; by exists s.
Qed.

Lemma skips_swept now n sp c i : skips now (swept n sp c) i = skips now c i.
Proof. by destruct sp. Qed.

Lemma candidate_swept n sp c i : candidate (swept n sp c) i = candidate c i.
Proof. by destruct sp. Qed.

Lemma have_swept n sp c :
  have_spawnable_port c = false ->
  have_spawnable_port (swept n sp c) = match sp with Some _ => true | None => false end.
Proof. by destruct sp. Qed.

Lemma sweep_refines net now c cands : forall n sp,
  os_socks c = ∅ -> have_spawnable_port c = false ->
  sweep_result net (eligible now c cands) n sp c (sweep net now cands (swept n sp c)).
Proof.
  induction cands as [|i cands IH]; intros n sp Ho Hh.
  { unfold sweep_result. simpl. rewrite Nat.add_0_r. by destruct sp. }
  cbn [sweep]. rewrite skips_swept, candidate_swept. unfold eligible.
  destruct (skips now c i) eqn:Hs.
  { rewrite filter_cons_False by congruence. by apply IH. }
  rewrite filter_cons_True by done. fold (eligible now c cands). unfold sweep_result.
  pose proof (try_port_swept (net_dial net (candidate c i)) n sp c Ho) as Ht. cbn [list_find].
  destruct (connects (net_dial net (candidate c i))) eqn:Hc.
  - destruct Ht as [s ->]. rewrite decide_True by done. exists s.
    rewrite Nat.add_1_r. by destruct sp.
  - rewrite Ht, decide_False by done.
    set (sp' := keep_first sp (if free_port net (candidate c i) then Some (candidate c i) else None)).
    assert ((if negb (have_spawnable_port (swept (S n) sp c)) &&
                (refuses (net_dial net (candidate c i)) || net_bindable net (candidate c i))
             then swept (S n) sp c <| spawnable := candidate c i |> <| have_spawnable_port := true |>
             else swept (S n) sp c) = swept (S n) sp' c) as ->.
    { rewrite have_swept by done. unfold sp', free_port. destruct sp; [done|]. simpl.
      by destruct (_ || _). }
    specialize (IH (S n) sp' Ho Hh). unfold sweep_result in IH.
    assert (forall tried, keep_first sp' (first_free net c tried)
                          = keep_first sp (first_free net c (i :: tried))) as Hk.
    { intros tried. unfold sp', first_free. cbn [list_find]. destruct sp; [done|].
      destruct (free_port net (candidate c i)); [by rewrite decide_True|].
      rewrite decide_False by done. by destruct (list_find _ tried) as [[]|]. }
    destruct (list_find _ (eligible now c cands)) as [[k j]|]; cbn [fmap option_fmap option_map prod_map].
    + destruct IH as [s ->]. exists s. rewrite Hk. unfold id. cbn [fst snd take].
      by replace (n + S (S k))%nat with (S n + S k)%nat by lia.
    + rewrite IH, Hk. cbn [length].
      by replace (n + S (length (eligible now c cands)))%nat with (S n + length (eligible now c cands))%nat by lia.
Qed.

Lemma eligible_lt now c i : i ∈ eligible now c (seq 0 BRIDGE_PORT_COUNT) -> (i < BRIDGE_PORT_COUNT)%nat.
Proof. unfold eligible. rewrite list_elem_of_filter, elem_of_seq. lia. Qed.

Lemma first_free_lt net now c k p :
  first_free net c (take k (eligible now c (seq 0 BRIDGE_PORT_COUNT))) = Some p ->
  exists i, (i < BRIDGE_PORT_COUNT)%nat /\ p = candidate c i.
Proof.
  unfold first_free. destruct (list_find _ _) as [[j i]|] eqn:E; [|done].
  intros ?; simplify_eq/=. exists i. split; [|done].
  apply list_find_Some in E as (E & _ & _). rewrite lookup_take_Some in E. destruct E as [E _].
  eapply eligible_lt, list_elem_of_lookup_2, E.
Qed.

(** A sweep from a closed client that remembers nothing. *)
Lemma swept_core n sp c :
  wf_core c -> (forall p, sp = Some p -> exists i, (i < BRIDGE_PORT_COUNT)%nat /\ p = candidate c i) ->
  wf_core (swept n sp c).
Proof.
  intros [H1 H2 H3 H4 H5] Hp. destruct sp as [p|]; split; try done.
  intros _. by apply Hp.
Qed.

Lemma sweep_wf net now c :
  wf_core c -> connected c = false -> have_spawnable_port c = false ->
  wf (sweep net now (seq 0 BRIDGE_PORT_COUNT) c).
Proof.
  intros Hc Hn Hh.
  assert (os_socks c = ∅) as Ho.
  { pose proof (wf_sock c Hc) as Hs. rewrite (wf_os c Hc), Hn in *. by destruct (sock c). }
  pose proof (sweep_refines net now c (seq 0 BRIDGE_PORT_COUNT) 0 None Ho Hh) as H.
  assert (swept 0 None c = c) as E0 by (by destruct c as [? ? ? ? ? []]).
  rewrite E0 in H. revert H. generalize (sweep net now (seq 0 BRIDGE_PORT_COUNT) c). intros c' H.
  unfold sweep_result in H.
  destruct (list_find _ _) as [[k i]|] eqn:E.
  - destruct H as [s ->]. apply list_find_Some in E as (E & _ & _).
    apply list_elem_of_lookup_2, eligible_lt in E.
    assert (wf_core (swept (0 + S k) (keep_first None (first_free net c
      (take k (eligible now c (seq 0 BRIDGE_PORT_COUNT))))) c)) as Hw
      by (apply swept_core; [done|apply first_free_lt]).
    revert Hw. generalize (first_free net c (take k (eligible now c (seq 0 BRIDGE_PORT_COUNT)))).
    intros sp [W1 W2 W3 W4 W5]. split; [split; try done; [by exists i; split; [|destruct sp]]|].
    intros _. destruct sp; split; try done; apply Nat.le_0_l.
  - subst c'. apply wf_closed; [|by destruct (keep_first _ _)].
    apply swept_core; [done|]. intros p Hp. simpl in Hp.
    apply (first_free_lt net now c (length (eligible now c (seq 0 BRIDGE_PORT_COUNT)))).
    by rewrite firstn_all.
Qed.

Lemma tick_wf net n1 n2 n3 c : wf c -> wf (tick_connect net n1 n2 n3 c).
Proof.
  intros Hc. unfold tick_connect. split_match; [done|].
  set (c1 := if connected c then _ else c).
  assert (wf_core c1 /\ connected c1 = false) as [H1 H2].
  { unfold c1. destruct (connected c) eqn:E; [|split; [apply Hc|done]].
    split; [|apply close_connected]. by apply close_core, cool_port_core, Hc. }
  cbv zeta. destruct (n3 <? relay_down_until c1); [by apply wf_closed|].
  destruct (n3 - last_connect_attempt c1 <? RECONNECT_INTERVAL); [by apply wf_closed|].
  apply sweep_wf; destruct H1, c1; done || (split; done).
Qed.

Lemma step_wf e c : wf c -> wf (step e c).
Proof.
  intros Hc. destruct e as [net n1 n2 n3|now|port|a line|a line|answers now]; simpl.
  - by apply tick_wf.
  - destruct Hc as [[] Hr]. split; [split|]; by destruct c.
  - destruct Hc as [[] Hr]. split; [split|]; by destruct c.
  - pose proof (send_inner_wf a line c Hc) as H. unfold send_line.
    by destruct (send_line_inner a line c) as [[] ].
  - pose proof (send_inner_wf a line c Hc) as H. unfold send_edge_line.
    by destruct (send_line_inner a line c) as [[] ].
  - by apply poll_wf.
Qed.

(** * Readiness *)

(** A line of the stream that accepts the hello. *)
Definition accepts (l : bytes) : Prop := strip_cr l <> [] /\ classify (strip_cr l) = Ready.

Lemma close_answered c : core_answered_ready (close_socket c) = false.
Proof. unfold close_socket. by destruct c as [? []]. Qed.

Lemma count_line_same line c :
  connected (count_line line c) = connected c /\ recv_buffer (count_line line c) = recv_buffer c /\
  core_answered_ready (count_line line c) = core_answered_ready c.
Proof. unfold count_line. by destruct (well_bracketed line). Qed.

Lemma process_answered port now ls : forall c out,
  match process port now ls c out with
  | inl (c', _) => core_answered_ready c' = true ->
                   core_answered_ready c = true \/ Exists accepts ls
  | inr (c', _) => core_answered_ready c' = false
  end.
Proof.
  induction ls as [|l ls IH]; intros c out; cbn [process]; [auto|].
  case_bool_decide as Hl.
  { specialize (IH c out). destruct (process _ _ _ _ _) as [[]|[]]; [|done].
    intros Ht. destruct (IH Ht); auto. }
  destruct (count_line_same (strip_cr l) c) as (_ & _ & Ha).
  destruct (classify (strip_cr l)) as [line| |line] eqn:Hc.
  - specialize (IH (count_line (strip_cr l) c) (out ++ [line])).
    destruct (process _ _ _ _ _) as [[]|[]]; [|done]. rewrite Ha in IH.
    intros Ht. destruct (IH Ht); auto.
  - specialize (IH (count_line (strip_cr l) c <| core_answered_ready := true |>) out).
    destruct (process _ _ _ _ _) as [[]|[]]; [|done]. intros _. right. by left.
  - unfold on_reject. cbv zeta. set (x := if negb (walks_on line) then _ else _).
    pose proof (close_answered x) as Hx. by destruct (close_socket x).
Qed.

Lemma recv_loop_answered answers : forall n c,
  core_answered_ready (recv_loop answers n c).1 = true -> core_answered_ready c = true.
Proof.
  induction answers as [|a answers IH]; intros n c; [done|]. cbn [recv_loop].
  nat_case; [done|]. destruct a as [chunk| |err].
  - intros Ht%IH. by destruct c.
  - cbn [fst]. by rewrite close_answered.
  - destruct (err =? WSAEWOULDBLOCK); [done|]. cbn [fst]. by rewrite close_answered.
Qed.

Lemma keep_rest_answered r c :
  core_answered_ready (keep_rest r c) = true -> core_answered_ready c = true.
Proof.
  unfold keep_rest. cbv zeta. nat_case; [by rewrite close_answered|]. by destruct c.
Qed.

(** * What a stream delivers *)

Definition delivered_of (l : bytes) : list bytes :=
  if bool_decide (strip_cr l = []) then []
  else match classify (strip_cr l) with Deliver line => [line] | _ => [] end.

Definition delivered (ls : list bytes) : list bytes := flat_map delivered_of ls.

Lemma process_delivers port now ls : forall c out,
  match process port now ls c out with
  | inl (c', out') => out' = out ++ delivered ls /\ connected c' = connected c
  | inr (c', _) => connected c' = false
  end.
Proof.
  induction ls as [|l ls IH]; intros c out; cbn [process delivered flat_map].
  { by rewrite app_nil_r. }
  unfold delivered_of at 1. case_bool_decide as Hl; [by apply IH|].
  destruct (count_line_same (strip_cr l) c) as (Hcn & _ & _).
  destruct (classify (strip_cr l)) as [line| |line].
  - specialize (IH (count_line (strip_cr l) c) (out ++ [line])). rewrite Hcn, <- app_assoc in IH.
    exact IH.
  - specialize (IH (count_line (strip_cr l) c <| core_answered_ready := true |>) out).
    rewrite <- Hcn. by destruct (count_line (strip_cr l) c).
  - unfold on_reject. cbv zeta. set (x := if negb (walks_on line) then _ else _).
    pose proof (close_connected x) as Hx. by destruct (close_socket x).
Qed.

(** The bytes of the answers, when each is a read. *)
Fixpoint stream (answers : list recv_answer) : option bytes :=
  match answers with
  | [] => Some []
  | Recv chunk :: answers' => app chunk <$> stream answers'
  | _ :: _ => None
  end.

Lemma recv_loop_stream answers : forall n c u,
  stream answers = Some u -> (recv_loop answers n c).2 = [] ->
  (recv_loop answers n c).1 = c <| recv_buffer := recv_buffer c ++ u |>.
Proof.
  induction answers as [|a answers IH]; intros n c u Hs Hr; simpl in Hs.
  { simplify_eq. simpl. rewrite app_nil_r. by destruct c. }
  destruct a as [chunk| |]; try done. destruct (stream answers) as [u'|]; [|done].
  simpl in Hs. simplify_eq. cbn [recv_loop] in *.
  destruct (MAX_RECV_PER_POLL <=? n)%nat; [done|].
  rewrite (IH _ _ u') by done. destruct c; cbn. by rewrite app_assoc.
Qed.

(** Several polls: the final state, and all the lines. *)
Fixpoint poll_all (polls : list (list recv_answer * Z)) (c : client) : client * list bytes :=
  match polls with
  | [] => (c, [])
  | (answers, now) :: polls' =>
      let '(c1, lines, _) := poll_lines answers now c in
      let (c2, lines') := poll_all polls' c1 in (c2, lines ++ lines')
  end.

Lemma poll_all_closed polls c : connected c = false -> poll_all polls c = (c, []).
Proof.
  intros Hc. induction polls as [|[a now] polls IH]; [done|]. cbn [poll_all].
  unfold poll_lines. rewrite Hc. cbn [negb]. by rewrite IH.
Qed.

(** Each poll reads all of a piece of the stream. *)
Definition reads_all (c : client) (p : list recv_answer * Z) (u : bytes) : Prop :=
  stream p.1 = Some u /\ (recv_loop p.1 0 c).2 = [].

(** One poll, on a connection that stays up. *)
Lemma poll_delivers answers now c u c' lines rest :
  connected c = true -> stream answers = Some u -> poll_lines answers now c = (c', lines, rest) ->
  rest = [] -> connected c' = true ->
  lines = delivered (frame (recv_buffer c ++ u)).1 /\ recv_buffer c' = (frame (recv_buffer c ++ u)).2.
Proof.
  intros Hc Hs Hp Hrest Hc'. unfold poll_lines in Hp. rewrite Hc in Hp. cbn [negb] in Hp.
  pose proof (recv_loop_stream answers 0 c u Hs) as Hl.
  destruct (recv_loop answers 0 c) as [c1 rest'] eqn:El. simpl in Hl. cbv zeta in Hp.
  injection Hp as He Hr. subst rest'. rewrite (Hl Hrest), extract_refines in He. unfold extract_spec in He.
  assert (recv_buffer (c <| recv_buffer := recv_buffer c ++ u |>) = recv_buffer c ++ u) as Eb by done.
  rewrite Eb in He. destruct (frame (recv_buffer c ++ u)) as [ls r].
  pose proof (process_delivers (current_port c) now ls (c <| recv_buffer := recv_buffer c ++ u |>) []) as Hd.
  destruct (process _ _ _ _ _) as [[c2 out]|[c2 out]]; injection He as <- <-.
  - destruct Hd as [-> _]. split; [done|]. unfold keep_rest in *. cbv zeta in *.
    destruct (MAX_RECV_BUFFER_BYTES <? length r)%nat; [by rewrite close_connected in Hc'|done].
  - congruence.
Qed.

Lemma delivered_app a b : delivered (a ++ b) = delivered a ++ delivered b.
Proof. apply flat_map_app. Qed.

Lemma sweep_answered net now cands : forall c,
  core_answered_ready c = false -> core_answered_ready (sweep net now cands c) = false.
Proof.
  induction cands as [|i cands IH]; intros c Hc; [done|]. cbn [sweep]. cbv zeta.
  destruct (skips now c i); [by apply IH|].
  assert (core_answered_ready (try_port (net_dial net (candidate c i)) c).2 = false) as Ht.
  { unfold try_port. destruct (net_dial net (candidate c i)) as [[s|] [|err] [|w so]]; simpl;
      repeat split_match; by destruct c. }
  destruct (try_port (net_dial net (candidate c i)) c) as [[[] refused] c1]; [done|]. simpl in Ht.
  apply IH. by destruct (_ && _).
Qed.

(** A sweep only runs on a closed client, and [connected] false with a stale acceptance
    is reset by the connection it makes. *)
Lemma sweep_keeps net now cands : forall c,
  core_answered_ready (sweep net now cands c) = true -> core_answered_ready c = true.
Proof.
  intros c H. destruct (core_answered_ready c) eqn:E; [done|].
  by rewrite (sweep_answered net now cands c E) in H.
Qed.

Lemma tick_answered net n1 n2 n3 c :
  core_answered_ready (tick_connect net n1 n2 n3 c) = false \/ core_answered_ready c = true.
Proof.
  destruct (core_answered_ready c) eqn:E; [by right|left]. unfold tick_connect. split_match; [done|].
  set (c1 := if connected c then _ else c).
  assert (core_answered_ready c1 = false) as H1
    by (unfold c1; destruct (connected c); [apply close_answered|done]).
  cbv zeta. destruct (n3 <? relay_down_until c1); [done|].
  destruct (n3 - last_connect_attempt c1 <? RECONNECT_INTERVAL); [done|].
  apply sweep_answered. by destruct c1.
Qed.

Lemma send_inner_answered a line c :
  core_answered_ready (send_line_inner a line c).2 = true -> core_answered_ready c = true.
Proof.
  unfold send_line_inner. destruct (connected c); [|done]. cbn [negb].
  destruct a as [n|err]; [nat_case|destruct (err =? WSAEWOULDBLOCK)]; try done;
    cbn [snd]; try by rewrite close_answered.
Qed.
