(* ===== verification/BridgeProps.v ===== *)
(** The properties of the bridge client: its invariant over every sequence of calls,
    framing that does not depend on how the stream is cut, the sweep's order, the
    classification of refusals and the two send disciplines. *)
From S2P Require Import Prelude JsonTop BridgeClient.
From Stdlib Require Import ZArith.
Local Open Scope Z_scope.

(** C26: after any sequence of calls, whatever the system answers: the sockets held open
    are exactly the one in use, a connection is to a candidate port of the range, a
    port offered for a new core is a candidate too, and while connected the buffer is
    one partial line within its bound. *)
Theorem bridge_invariant (base : Z) (es : list event) : wf (runs es (new_client base)).
Proof.
  unfold runs. assert (wf (new_client base)) as H by apply wf_new. revert H.
  generalize (new_client base) as c. induction es as [|e es IH]; intros c Hc; [done|].
  simpl. apply IH. by apply step_wf.
Qed.

(** A client of the default range, connected on its first port after two seconds. *)
Definition sample_net : network :=
  Network (fun p => Dial (Some p) (ConnErr WSAEWOULDBLOCK) (SelReady true 0)) (fun _ => true).
Definition sample_down : client := new_client BRIDGE_BASE_PORT.
Definition sample_up : client := tick_connect sample_net 0 0 (ms 2000) sample_down.
Definition ready_line : bytes := js "{'type':'bridge_ready'}" ++ [cLF].

(** C27: lines do not depend on how the stream is cut into reads and polls: while the
    connection stays up, what all the polls return together is what the framing of the
    whole stream delivers, and the buffer holds the rest. *)
Theorem poll_chunking (polls : list (list recv_answer * Z)) (us : list bytes) (c c' : client)
    (lines : list bytes) (Hc : connected c = true) (Hrest : wf_rest c)
    (Hreads : Forall2 (fun p u => stream p.1 = Some u /\
                forall x, (recv_loop p.1 0 x).2 = []) polls us)
    (Hrun : poll_all polls c = (c', lines)) (Hc' : connected c' = true) :
  lines = delivered (frame (recv_buffer c ++ concat us)).1 /\
  recv_buffer c' = (frame (recv_buffer c ++ concat us)).2.
Proof.
  destruct (Hrest Hc) as [Hpart _]. clear Hrest. revert c us lines Hc Hpart Hreads Hrun.
  induction polls as [|[answers now] polls IH]; intros c us lines Hc Hpart Hreads Hrun.
  - apply Forall2_nil_inv_l in Hreads as ->. simpl in Hrun. simplify_eq. simpl.
    by rewrite app_nil_r, Hpart.
  - apply Forall2_cons_inv_l in Hreads as (u & us' & [Hs Hr] & Hreads & ->).
    cbn [poll_all] in Hrun.
    destruct (poll_lines answers now c) as [[c1 l1] rest] eqn:Hp.
    destruct (poll_all polls c1) as [c2 l2] eqn:Ha. simplify_eq.
    assert (connected c1 = true) as Hc1.
    { destruct (connected c1) eqn:E; [done|]. rewrite poll_all_closed in Ha by done. simplify_eq. congruence. }
    assert (rest = []) as Hrest.
    { unfold poll_lines in Hp. rewrite Hc in Hp. cbn [negb] in Hp. specialize (Hr c). simpl in Hr.
      destruct (recv_loop answers 0 c). simpl in *. congruence. }
    destruct (poll_delivers _ _ _ _ _ _ _ Hc Hs Hp Hrest Hc1) as [-> Hb].
    destruct (IH c1 us' l2 Hc1 ltac:(rewrite Hb; apply frame_partial) Hreads Ha) as [-> Hb2].
    rewrite Hb in *. simpl. rewrite app_assoc, (frame_app (recv_buffer c ++ u)). cbn [fst snd].
    by rewrite Hb2, delivered_app.
Qed.

(** One line cut into two reads of two polls. *)
Example poll_chunking_witness :
  connected sample_up = true /\
  let polls := [([Recv (js "{'type':'a',")], 0); ([Recv (js "'n':1}" ++ [cLF] ++ str "{")], 5)] in
  (poll_all polls sample_up).2 = delivered
    (frame (recv_buffer sample_up ++
            concat [js "{'type':'a',"; js "'n':1}" ++ [cLF] ++ str "{"])).1 /\
  recv_buffer (poll_all polls sample_up).1 =
    (frame (recv_buffer sample_up ++
            concat [js "{'type':'a',"; js "'n':1}" ++ [cLF] ++ str "{"])).2.
Proof.
  split; [done|]. intros polls.
  apply (poll_chunking polls _ sample_up _ _); [done| |by repeat constructor|by vm_compute|by vm_compute].
  intros _. split; [done|]. vm_compute. lia.
Defined.

(** Nothing but a [bridge_ready] line, received whole on the connection, makes the
    core's acceptance true; no timeout, send, sweep or refusal does. *)
Theorem ready_needs_bridge_ready (e : event) (c : client)
    (Hr : core_answered_ready (step e c) = true) :
  core_answered_ready c = true \/
  exists answers now, e = EPoll answers now /\
    Exists accepts (frame (recv_buffer (recv_loop answers 0 c).1)).1.
Proof.
  destruct e as [net n1 n2 n3|now|port|a line|a line|answers now]; simpl in Hr.
  - left. destruct (tick_answered net n1 n2 n3 c); [congruence|done].
  - left. by destruct c.
  - left. by destruct c.
  - left. unfold send_line in Hr. pose proof (send_inner_answered a line c) as H.
    destruct (send_line_inner a line c) as [[] ]. by apply H.
  - left. unfold send_edge_line in Hr. pose proof (send_inner_answered a line c) as H.
    destruct (send_line_inner a line c) as [[] ]. by apply H.
  - unfold poll_lines in Hr. destruct (connected c); [|by left].
    pose proof (recv_loop_answered answers 0 c) as Hl.
    destruct (recv_loop answers 0 c) as [c1 rest] eqn:El. simpl in Hr. rewrite extract_refines in Hr.
    unfold extract_spec in Hr. destruct (frame (recv_buffer c1)) as [ls r] eqn:Ef.
    pose proof (process_answered (current_port c) now ls c1 []) as Hp.
    destruct (process _ _ _ _ _) as [[]|[]]; simpl in Hr.
    + apply keep_rest_answered, Hp in Hr as [Hr|Hr]; [left; by apply Hl|].
      right. exists answers, now. split; [done|]. rewrite El. cbn [fst]. by rewrite Ef.
    + congruence.
Qed.

(** The answer of the core, and the poll that receives it. *)
Example ready_needs_bridge_ready_witness :
  let e := EPoll [Recv ready_line] 0 in
  core_answered_ready (step e sample_up) = true /\
  (core_answered_ready sample_up = true \/
   exists answers now, e = EPoll answers now /\
     Exists accepts (frame (recv_buffer (recv_loop answers 0 sample_up).1)).1).
Proof.
  intros e. split; [by vm_compute|].
  apply (ready_needs_bridge_ready e sample_up). by vm_compute.
Defined.

(** C29: a due sweep dials the candidates in order, passing over those still cooling down
    and, while a core of our own is unclaimed, every other port; it takes the first that
    answers, and the port it offers for a new core is the lowest it found with nothing
    listening. *)
Theorem tick_connect_sweeps (net : network) (n1 n2 now : Z) (c : client) (Hwf : wf c)
    (Hc : connected c = false) (Hrelay : relay_down_until c <= now)
    (Hdue : RECONNECT_INTERVAL <= now - last_connect_attempt c) :
  let c' := tick_connect net n1 n2 now c in
  let el := eligible now c (seq 0 BRIDGE_PORT_COUNT) in
  match list_find (fun i => connects (net_dial net (candidate c i)) = true) el with
  | Some (k, i) =>
      connected c' = true /\ current_port c' = candidate c i /\
      core_answered_ready c' = false /\ spawnable_port c' = first_free net c (take k el) /\
      connect_attempts (counters c') = (N.of_nat (S k) + connect_attempts (counters c))%N
  | None =>
      connected c' = false /\ spawnable_port c' = first_free net c el /\
      connect_attempts (counters c') = (N.of_nat (length el) + connect_attempts (counters c))%N
  end.
Proof.
  cbv zeta. unfold tick_connect. rewrite Hc. cbn [andb].
  destruct (Z.ltb_spec now (relay_down_until c)); [lia|].
  destruct (Z.ltb_spec (now - last_connect_attempt c) RECONNECT_INTERVAL); [lia|].
  set (c0 := c <| last_connect_attempt := now |> <| have_spawnable_port := false |>).
  assert (os_socks c0 = ∅) as Ho.
  { destruct Hwf as [[_ Hs Hos _ _] _]. rewrite Hc in Hs. change (os_socks c = ∅). rewrite Hos.
    by destruct (sock c). }
  pose proof (sweep_refines net now c0 (seq 0 BRIDGE_PORT_COUNT) 0 None Ho eq_refl) as Hsw.
  assert (swept 0 None c0 = c0) as E0 by (unfold c0; by destruct c as [? ? ? ? ? []]).
  rewrite E0 in Hsw. revert Hsw. generalize (sweep net now (seq 0 BRIDGE_PORT_COUNT) c0). intros c' Hsw.
  change (eligible now c0 (seq 0 BRIDGE_PORT_COUNT)) with (eligible now c (seq 0 BRIDGE_PORT_COUNT)) in Hsw.
  unfold sweep_result in Hsw. change (candidate c0) with (candidate c) in Hsw.
  change (first_free net c0) with (first_free net c) in Hsw.
  destruct (list_find _ _) as [[k i]|].
  - destruct Hsw as [s ->]. unfold spawnable_port, connect_to.
    by destruct (first_free net c (take k (eligible now c (seq 0 BRIDGE_PORT_COUNT)))).
  - subst c'. unfold spawnable_port.
    by destruct (first_free net c (eligible now c (seq 0 BRIDGE_PORT_COUNT))).
Qed.

(** The first sweep of a fresh client takes the first port. *)
Example tick_connect_sweeps_witness :
  wf sample_down /\ RECONNECT_INTERVAL <= ms 2000 - last_connect_attempt sample_down /\
  connected (tick_connect sample_net 0 0 (ms 2000) sample_down) = true /\
  current_port (tick_connect sample_net 0 0 (ms 2000) sample_down) = candidate sample_down 0.
Proof.
  split; [apply wf_new|]. split; [done|].
  pose proof (tick_connect_sweeps sample_net 0 0 (ms 2000) sample_down (wf_new _)
    eq_refl ltac:(done) ltac:(done)) as H.
  cbv zeta in H. simpl list_find in H. by destruct H as (H1 & H2 & _).
Defined.

(** While the core this program started is alive and has not answered busy, a sweep
    dials its port and no other, so two copies of the game never trade cores. *)
Theorem own_core_dialled_alone (now : Z) (c : client) (i : nat)
    (Hown : own_core_port c <> 0) (Hbusy : own_core_port c <> last_busy_port c)
    (Hi : i ∈ eligible now c (seq 0 BRIDGE_PORT_COUNT)) :
  candidate c i = own_core_port c /\ default 0 (busy_until c !! i) <= now.
Proof.
  unfold eligible in Hi. apply list_elem_of_filter in Hi as [Hs _]. unfold skips in Hs.
  apply orb_false_iff in Hs as [H1 H2]. split; [|lia].
  rewrite (proj2 (Z.eqb_neq _ _) Hown), (proj2 (Z.eqb_neq _ _) Hbusy) in H2. simpl in H2. lia.
Qed.

(** What a refusal blames, by its code, or by its prose when it has none: the port alone
    (and then whether it says the port is busy), or more than the port. *)
Definition blames_port (line : bytes) : Prop :=
  let code := json_top_level_string line (str "code") in
  code = str "busy" \/ code = str "already_serving" \/ (code = [] /\ contains (str "relay") line = false).
Definition calls_busy (line : bytes) : Prop :=
  let code := json_top_level_string line (str "code") in code = str "busy" \/ (code = [] /\ contains (str "busy") line = true).

Lemma walks_on_spec line : walks_on line = true <-> blames_port line.
Proof.
  unfold walks_on, blames_port. cbv zeta. set (code := json_top_level_string line (str "code")).
  case_bool_decide as Hn.
  - rewrite Hn. destruct (contains _ line); cbn; naive_solver.
  - rewrite orb_true_iff, !bool_decide_eq_true. naive_solver.
Qed.

Lemma says_busy_spec line : says_busy line = true <-> calls_busy line.
Proof.
  unfold says_busy, calls_busy. cbv zeta. set (code := json_top_level_string line (str "code")).
  case_bool_decide as Hn; [rewrite Hn; naive_solver|]. rewrite bool_decide_eq_true. naive_solver.
Qed.

Lemma cool_port_skips port now c i t :
  length (busy_until c) = BRIDGE_PORT_COUNT -> (i < BRIDGE_PORT_COUNT)%nat -> port = base_port c + Z.of_nat i ->
  t < now + BUSY_PORT_COOLDOWN -> t < default 0 (busy_until (cool_port port now c) !! i).
Proof.
  intros Hlen Hi -> Ht. unfold cool_port.
  destruct (Z.leb_spec (base_port c) (base_port c + Z.of_nat i)); [|lia].
  destruct (Z.ltb_spec (base_port c + Z.of_nat i) (base_port c + Z.of_nat BRIDGE_PORT_COUNT)); [|lia].
  cbn [andb]. replace (Z.to_nat (base_port c + Z.of_nat i - base_port c)) with i by lia.
  change (t < default 0 (<[i := now + BUSY_PORT_COOLDOWN]> (busy_until c) !! i)).
  rewrite list_lookup_insert_eq by lia. exact Ht.
Qed.

Lemma cool_port_apart port now c :
  port < base_port c \/ base_port c + Z.of_nat BRIDGE_PORT_COUNT <= port -> cool_port port now c = c.
Proof. intros H. unfold cool_port. destruct (Z.leb_spec (base_port c) port), (Z.ltb_spec port (base_port c + Z.of_nat BRIDGE_PORT_COUNT)); done || lia. Qed.

Lemma cool_port_rest port now c :
  relay_down_until (cool_port port now c) = relay_down_until c /\ last_busy_port (cool_port port now c) = last_busy_port c.
Proof. unfold cool_port. by destruct (_ && _). Qed.

(** C30: a refusal closes the connection and drops the buffer.  One that blames the port
    alone (the code is busy or already_serving, or there is none and the prose does not
    name the relay) holds no sweep back: the port is skipped by every sweep of the next
    ten seconds, if it is one of the range's ports counted without wrapping (any other is
    not marked at all), and it is remembered as busy exactly when the code, or prose
    without one, says so.  Any other code, and prose with no code that names the relay,
    holds all sweeps back ten seconds, marks no port and remembers none. *)
Theorem reject_classification (port now : Z) (line : bytes) (c : client)
    (Hlen : length (busy_until c) = BRIDGE_PORT_COUNT) :
  let c' := on_reject port now line c in
  connected c' = false /\ recv_buffer c' = [] /\
  (blames_port line ->
   relay_down_until c' = relay_down_until c /\
   (calls_busy line -> last_busy_port c' = port) /\ (~ calls_busy line -> last_busy_port c' = last_busy_port c) /\
   (forall i t, (i < BRIDGE_PORT_COUNT)%nat -> port = base_port c + Z.of_nat i ->
     t < now + BUSY_PORT_COOLDOWN -> skips t c' i = true) /\
   (port < base_port c \/ base_port c + Z.of_nat BRIDGE_PORT_COUNT <= port -> busy_until c' = busy_until c)) /\
  (~ blames_port line ->
   relay_down_until c' = now + RELAY_DOWN_BACKOFF /\ busy_until c' = busy_until c /\ last_busy_port c' = last_busy_port c).
Proof.
  cbv zeta. unfold on_reject. set (x := if negb (walks_on line) then _ else _).
  assert (forall y : client, connected (close_socket y <| recv_buffer := [] |>) = false /\
     busy_until (close_socket y <| recv_buffer := [] |>) = busy_until y /\
     relay_down_until (close_socket y <| recv_buffer := [] |>) = relay_down_until y /\
     last_busy_port (close_socket y <| recv_buffer := [] |>) = last_busy_port y) as Hy.
  { intros y. unfold close_socket. by destruct y as [? []]. }
  destruct (Hy x) as (H1 & H2 & H3 & H4). split; [done|]. split; [done|].
  rewrite H3, H4, H2. clear Hy H1. rewrite <- walks_on_spec, <- says_busy_spec.
  destruct (cool_port_rest port now c) as [R1 R2]. unfold x in *. clear x. split.
  - intros Hw. rewrite Hw in *. cbn [negb] in *.
    assert (busy_until (if says_busy line then cool_port port now c <| last_busy_port := port |> else cool_port port now c)
            = busy_until (cool_port port now c)) as Eb by by destruct (says_busy line).
    split_and!.
    + rewrite <- R1. by destruct (says_busy line).
    + by intros ->.
    + intros Hb. destruct (says_busy line); [by destruct Hb|exact R2].
    + intros i t Hi Hp Ht. unfold skips. rewrite H2. apply orb_true_iff. left. rewrite Eb. apply Z.ltb_lt.
      by apply cool_port_skips.
    + intros Hp. by rewrite Eb, (cool_port_apart _ _ _ Hp).
  - intros Hn. destruct (walks_on line); [by destruct Hn|]. done.
Qed.

(** A busy core on the port after the first. *)
Example reject_classification_witness :
  let line := js "{'type':'reject','code':'busy'}" in
  length (busy_until sample_up) = BRIDGE_PORT_COUNT /\
  json_top_level_string line (str "code") = str "busy" /\
  skips (ms 3000) (on_reject 7779 (ms 2000) line sample_up) 1 = true.
Proof.
  intros line. split; [done|]. split; [by vm_compute|].
  destruct (reject_classification 7779 (ms 2000) line sample_up eq_refl) as (_ & _ & H & _).
  destruct (H ltac:(left; by vm_compute)) as (_ & _ & _ & Hskip & _). apply Hskip; [unfold BRIDGE_PORT_COUNT; lia|done|done].
Defined.

(** A state line is sent or the connection is closed, and a line the system would not
    buffer still counts as sent; an edge line counts only when every byte was taken. *)
Theorem send_disciplines (answer : send_answer) (line : bytes) (c : client) :
  ((send_line answer line c).1 = true -> connected (send_line answer line c).2 = true) /\
  (connected c = true -> (send_line answer line c).1 = connected (send_line answer line c).2) /\
  ((send_edge_line answer line c).1 = true <->
   connected c = true /\ exists n, answer = Sent n /\ (S (length line) <= n)%nat) /\
  (connected c = true -> answer = SendErr WSAEWOULDBLOCK ->
   send_line answer line c = (true, c) /\ send_edge_line answer line c = (false, c)).
Proof.
  unfold send_line, send_edge_line, send_line_inner.
  destruct (connected c) eqn:E; cbn [negb]; [|repeat split; by try intros [? _]].
  destruct answer as [n|err].
  - rewrite length_app. simpl. nat_case; cbn [fst snd].
    + rewrite close_connected. repeat split; try done. intros (_ & m & ? & ?). simplify_eq. lia.
    + repeat split; try done. exists n. split; [done|lia].
  - destruct (Z.eqb_spec err WSAEWOULDBLOCK) as [->|]; cbn [fst snd].
    + repeat split; try done; naive_solver.
    + rewrite close_connected. repeat split; try done; naive_solver.
Qed.
