(* ===== verification/CoreLauncher.v ===== *)
(** CoreLauncher.hpp and CoreLauncher.cpp: starting and reaping the local core, the
    config.json readers and the base of the bridge port walk.

    The file system, the environment and the process table are arguments: a file is
    read through [fs], the environment through [getenv], and the system answers
    [WaitForSingleObject] and [CreateProcessW] by [still_running] and [create].
    Paths are byte strings here; the code only concatenates and cuts them.
    [os_handles] is the set of process handles this launcher holds open. *)
From S2P Require Import Prelude Float64 CScan BridgeClient.
From Stdlib Require Import ZArith.
Local Open Scope Z_scope.

(** * Constants *)

Definition SPAWN_RETRY_INTERVAL_MS : Z := 10000.
Definition NO_AUTOSTART_ENV : bytes := str "MESHGHOST_NO_AUTOSTART".
Definition BRIDGE_PORT_ENV : bytes := str "MESHGHOST_BRIDGE_PORT".
Definition CONFIG_CACHE_MS : Z := 250.

Definition fs := bytes -> option bytes.
Definition environment := bytes -> option bytes.

(** * Folders *)

(** The last separator, from the end. *)
Fixpoint find_last_sep (path : bytes) : option nat :=
  match path with
  | [] => None
  | c :: p => match find_last_sep p with
              | Some i => Some (S i)
              | None => if Ascii.eqb c cBackslash || Ascii.eqb c "/" then Some 0%nat else None
              end
  end.

(** [path.resize(slash)], [None] when there is no separator. *)
Definition parent (path : bytes) : option bytes := (fun i => take i path) <$> find_last_sep path.

(** Four levels up from the game's executable, empty on failure. *)
Definition game_root_directory (exe_path : bytes) : bytes :=
  default [] (Nat.iter 4 (fun p => p ≫= parent) (Some exe_path)).

Definition config_search_dirs (exe_path : bytes) : list bytes := [game_root_directory exe_path].

(** * config.json *)

(** The text of the first config.json that exists; [sep] is how the caller spells the
    separator. *)
Fixpoint first_config (files : fs) (sep : ascii) (dirs : list bytes) : option bytes :=
  match dirs with
  | [] => None
  | dir :: dirs' =>
      if bool_decide (dir = []) then first_config files sep dirs'
      else match files (dir ++ sep :: str "config.json") with
           | Some text => Some text
           | None => first_config files sep dirs'
           end
  end.

(** The cache: [last_read] is 0 until the first read. *)
Record config_cache := Cache { cached : bytes; cached_found : bool; last_read : Z }.
#[export] Instance cache_eta : Eta config_cache := fun r =>
  Cache (cached r) (cached_found r) (last_read r).

Definition config_text (files : fs) (dirs : list bytes) (now : Z) (c : config_cache)
    : config_cache * bool * bytes :=
  let c :=
    if (last_read c =? 0) || (ms CONFIG_CACHE_MS <=? now - last_read c) then
      match first_config files "/" dirs with
      | Some text => Cache text true now
      | None => Cache [] false now
      end
    else c in
  (c, cached_found c, cached c).

Definition quoted_key (key : bytes) : bytes := cQuote :: key ++ [cQuote].

Fixpoint skip_chars (p : ascii -> bool) (s : bytes) : bytes :=
  match s with
  | c :: t => if p c then skip_chars p t else s
  | [] => []
  end.

Definition is_blank (c : ascii) : bool := Ascii.eqb c " " || Ascii.eqb c cTab.

(** What follows the key's colon and the blanks after it. *)
Definition config_value (text key : bytes) : option bytes :=
  match find_from text (quoted_key key) 0 with
  | None => None
  | Some k =>
      match find_char text ":" (k + length (quoted_key key)) with
      | None => None
      | Some i => Some (skip_chars is_blank (drop (S i) text))
      end
  end.

Definition config_string_value (text : option bytes) (key : bytes) : option bytes :=
  match text ≫= fun t => config_value t key with
  | Some (c :: rest) =>
      if Ascii.eqb c cQuote then
        (fun close => take close rest) <$> find_str [cQuote] rest
      else None
  | _ => None
  end.

Definition config_bool_value (text : option bytes) (key : bytes) (missing : bool) : bool :=
  match text ≫= fun t => config_value t key with
  | Some rest => bool_decide (take 4 rest = str "true")
  | None => missing
  end.

Definition config_number_value (text : option bytes) (key : bytes) : option double :=
  match text ≫= fun t => config_value t key with
  | Some (c :: rest) =>
      if is_digit c || Ascii.eqb c "-" || Ascii.eqb c "." then fst <$> strtod (c :: rest)
      else None
  | _ => None
  end.

(** * The base of the port walk *)

Definition port_in_range (parsed : N) : bool := (1 <=? parsed)%N && (parsed <=? 65535)%N.

(** The port of "local_game_bridge", [None] when it is not there or no port. *)
Definition local_game_bridge_port (text : bytes) : option Z :=
  let key := quoted_key (str "local_game_bridge") in
  match find_from text key 0 with
  | None => None
  | Some k =>
      match find_char text cQuote (k + length key) with
      | None => None
      | Some open_q =>
          match find_char text cQuote (S open_q) with
          | None => None
          | Some close_q =>
              let value := substr text (S open_q) (close_q - open_q - 1) in
              let port_text := match rfind_char value ":" with
                               | None => value
                               | Some colon => drop (S colon) value
                               end in
              let parsed := strtoul port_text in
              if port_in_range parsed then Some (Z.of_N parsed) else None
          end
      end
  end.

(** Each directory's config.json in turn; one whose port is unusable falls through. *)
Fixpoint config_port (files : fs) (dirs : list bytes) : option Z :=
  match dirs with
  | [] => None
  | dir :: dirs' =>
      match (if bool_decide (dir = []) then None
             else files (dir ++ cBackslash :: str "config.json") ≫= local_game_bridge_port) with
      | Some port => Some port
      | None => config_port files dirs'
      end
  end.

Definition env_port (getenv : environment) : option Z :=
  match getenv BRIDGE_PORT_ENV with
  | None => None
  | Some env => let parsed := strtoul env in
                if port_in_range parsed then Some (Z.of_N parsed) else None
  end.

Definition resolve_bridge_base_port (getenv : environment) (files : fs) (dirs : list bytes)
    (fallback : Z) : Z :=
  match env_port getenv with
  | Some port => port
  | None => default fallback (config_port files dirs)
  end.

Definition config_disables_autostart (files : fs) (dirs : list bytes) : bool :=
  match first_config files cBackslash dirs with
  | None => false
  | Some text =>
      let key := quoted_key (str "autostart") in
      match find_from text key 0 with
      | None => false
      | Some k =>
          let rest := skip_chars (fun c => is_blank c || Ascii.eqb c ":") (drop (k + length key) text) in
          bool_decide (take 5 rest = str "false")
      end
  end.

(** * The launcher *)

Record launcher := Launcher {
  last_spawn_port : Z;
  child_handle : option Z;
  child_pid : Z;
  last_spawn_ms : Z;
  spawn_disabled : bool;
  logged_reuse : bool;
  os_handles : gset Z
}.
#[export] Instance launcher_eta : Eta launcher := fun r =>
  Launcher (last_spawn_port r) (child_handle r) (child_pid r) (last_spawn_ms r) (spawn_disabled r)
    (logged_reuse r) (os_handles r).

Definition new_launcher (getenv : environment) (files : fs) (dirs : list bytes) : launcher :=
  let off := match getenv NO_AUTOSTART_ENV with
             | Some _ => true
             | None => config_disables_autostart files dirs
             end in
  Launcher 0 None 0 0 off false ∅.

(** [still_running h]: the wait on that process handle timed out. *)
Definition child_still_running (still_running : Z -> bool) (l : launcher) : bool :=
  match child_handle l with
  | None => false
  | Some h => still_running h
  end.

Definition child_port (still_running : Z -> bool) (l : launcher) : Z :=
  if child_still_running still_running l then last_spawn_port l else 0.

Definition close_handle (h : Z) (l : launcher) : launcher :=
  l <| os_handles := os_handles l ∖ {[h]} |>.

(** The child killed, if one was. *)
Definition terminate_child (still_running : Z -> bool) (l : launcher) : launcher * option Z :=
  match child_handle l with
  | None => (l, None)
  | Some h =>
      let killed := if child_still_running still_running l then Some h else None in
      (close_handle h l <| child_handle := None |> <| child_pid := 0 |>, killed)
  end.

Definition tick_connected (l : launcher) : launcher :=
  match child_handle l with
  | None => if logged_reuse l then l else l <| logged_reuse := true |>
  | Some _ => l
  end.

(** [CreateProcessW]: the process handle and id, [None] on failure. *)
Definition create_answer := option (Z * Z).

Fixpoint find_exe (file_exists : bytes -> bool) (dirs : list bytes) : option (bytes * bytes) :=
  match dirs with
  | [] => None
  | candidate :: dirs' =>
      if bool_decide (candidate = []) then find_exe file_exists dirs'
      else if file_exists (candidate ++ cBackslash :: str "meshghost.exe")
      then Some (candidate, candidate ++ cBackslash :: str "meshghost.exe")
      else find_exe file_exists dirs'
  end.

(** [std::to_wstring] of a non-negative integer. *)
Definition to_decimal (n : Z) : bytes := str (pretty.pretty (Z.to_N n)).

Definition spawn_command (exe : bytes) (own_pid spawn_port : Z) : bytes :=
  quoted_key exe ++ str " -exit-with-pid=" ++ to_decimal own_pid
    ++ str " -bridge=127.0.0.1:" ++ to_decimal spawn_port.

(** A child that answered busy is forgotten, never killed. *)
Definition forget_claimed (still_running : Z -> bool) (busy_port : Z) (l : launcher) : launcher :=
  if child_still_running still_running l && negb (last_spawn_port l =? 0)
     && (busy_port =? last_spawn_port l) then
    match child_handle l with
    | Some h => close_handle h l <| child_handle := None |> <| child_pid := 0 |>
    | None => l
    end
  else l.

(** Milliseconds as [uint64_t]. *)
Definition cooling_down (now spawn_port : Z) (l : launcher) : bool :=
  (spawn_port =? last_spawn_port l) && negb (last_spawn_ms l =? 0)
  && (u64 (now - last_spawn_ms l) <? SPAWN_RETRY_INTERVAL_MS).

(** The wait is asked twice, with answers [run1] and [run2].  The result carries the
    process started: its command line and working directory. *)
Definition tick_disconnected (run1 run2 : Z -> bool) (file_exists : bytes -> bool)
    (dirs : list bytes) (own_pid now : Z) (create : create_answer)
    (spawn_port busy_port : Z) (l : launcher) : launcher * option (bytes * bytes) :=
  if spawn_disabled l then (l, None)
  else
    let l := forget_claimed run1 busy_port l in
    if child_still_running run2 l then (l, None)
    else if cooling_down now spawn_port l then (l, None)
    else
      match find_exe file_exists dirs with
      | None => (l <| spawn_disabled := true |>, None)
      | Some (dir, exe) =>
          let command := spawn_command exe own_pid spawn_port in
          let l := l <| last_spawn_ms := now |> <| last_spawn_port := spawn_port |> in
          match create with
          | None => (l, Some (command, dir))
          | Some (h, pid) =>
              (l <| os_handles := {[h]} ∪ os_handles l |> <| child_handle := Some h |>
                 <| child_pid := pid |>, Some (command, dir))
          end
      end.

(** * Runs of the launcher *)

(** One disconnected tick with everything it asks of the system. *)
Record attempt := Attempt {
  a_run1 : Z -> bool; a_run2 : Z -> bool; a_exists : bytes -> bool; a_dirs : list bytes;
  a_pid : Z; a_now : Z; a_create : create_answer; a_spawn_port : Z; a_busy_port : Z
}.

Definition attempt_step (a : attempt) (l : launcher) : launcher * option (bytes * bytes) :=
  tick_disconnected (a_run1 a) (a_run2 a) (a_exists a) (a_dirs a) (a_pid a) (a_now a) (a_create a)
    (a_spawn_port a) (a_busy_port a) l.

(** The processes a run of ticks starts. *)
Fixpoint attempts (ats : list attempt) (l : launcher) : launcher * list (bytes * bytes) :=
  match ats with
  | [] => (l, [])
  | a :: ats' =>
      let (l1, started) := attempt_step a l in
      let (l2, rest) := attempts ats' l1 in (l2, option_list started ++ rest)
  end.

(** * Lemmas *)

Lemma forget_claimed_same run busy l :
  last_spawn_port (forget_claimed run busy l) = last_spawn_port l /\
  last_spawn_ms (forget_claimed run busy l) = last_spawn_ms l /\
  spawn_disabled (forget_claimed run busy l) = spawn_disabled l /\
  (child_handle (forget_claimed run busy l) = child_handle l \/
   child_handle (forget_claimed run busy l) = None /\ child_still_running run l = true /\
   last_spawn_port l <> 0 /\ busy = last_spawn_port l).
Proof.
  unfold forget_claimed. destruct (child_still_running run l && _ && _) eqn:E; [|by auto].
  apply andb_true_iff in E as [[E1 E2]%andb_true_iff E3].
  destruct (child_handle l) eqn:Eh; [|by auto].
  repeat split; try done. right. split; [done|]. split; [done|]. lia.
Qed.

Lemma find_exe_Some ex dirs dir exe :
  find_exe ex dirs = Some (dir, exe) ->
  dir ∈ dirs /\ dir <> [] /\ exe = dir ++ cBackslash :: str "meshghost.exe" /\ ex exe = true.
Proof.
  induction dirs as [|d dirs IH]; cbn [find_exe]; [done|]. case_bool_decide.
  - intros (? & ? & ? & ?)%IH. split; [by right|done].
  - destruct (ex (d ++ cBackslash :: str "meshghost.exe")) eqn:E.
    + intros Heq. simplify_eq. split; [by left|done].
    + intros (? & ? & ? & ?)%IH. split; [by right|done].
Qed.

(** A tick inside the cooldown of its port starts nothing and keeps the stamps. *)
Lemma attempt_cooling a l :
  a_spawn_port a = last_spawn_port l -> last_spawn_ms l <> 0 ->
  u64 (a_now a - last_spawn_ms l) < SPAWN_RETRY_INTERVAL_MS ->
  (attempt_step a l).2 = None /\
  last_spawn_port (attempt_step a l).1 = last_spawn_port l /\
  last_spawn_ms (attempt_step a l).1 = last_spawn_ms l.
Proof.
  intros Hp Hms Hnow. unfold attempt_step, tick_disconnected. destruct (spawn_disabled l); [done|].
  destruct (forget_claimed_same (a_run1 a) (a_busy_port a) l) as (E1 & E2 & _ & _).
  cbv zeta. destruct (child_still_running (a_run2 a) _); [done|].
  assert (cooling_down (a_now a) (a_spawn_port a) (forget_claimed (a_run1 a) (a_busy_port a) l) = true) as ->
    by (unfold cooling_down; rewrite E1, E2; lia).
  done.
Qed.

(** * Properties *)

(** A core is started only when autostart is on, no child of ours is running except
    one whose port answered busy, the port is out of its cooldown and the executable is
    there; it gets the bridge port, our process id and its own folder, nothing else. *)
Theorem spawn_guards (run1 run2 : Z -> bool) (ex : bytes -> bool) (dirs : list bytes) (pid now : Z)
    (create : create_answer) (spawn_port busy_port : Z) (l l' : launcher) (command dir : bytes)
    (Hspawn : tick_disconnected run1 run2 ex dirs pid now create spawn_port busy_port l
              = (l', Some (command, dir))) :
  spawn_disabled l = false /\
  (child_still_running run2 l = false \/
   (child_still_running run1 l = true /\ last_spawn_port l <> 0 /\ busy_port = last_spawn_port l)) /\
  cooling_down now spawn_port l = false /\
  dir ∈ dirs /\ ex (dir ++ cBackslash :: str "meshghost.exe") = true /\
  command = spawn_command (dir ++ cBackslash :: str "meshghost.exe") pid spawn_port /\
  last_spawn_port l' = spawn_port /\ last_spawn_ms l' = now.
Proof.
  unfold tick_disconnected in Hspawn. destruct (spawn_disabled l) eqn:Ed; [done|].
  destruct (forget_claimed_same run1 busy_port l) as (E1 & E2 & _ & Hh).
  set (l1 := forget_claimed run1 busy_port l) in *. cbv zeta in Hspawn.
  destruct (child_still_running run2 l1) eqn:Er; [done|].
  destruct (cooling_down now spawn_port l1) eqn:Ec; [done|].
  destruct (find_exe ex dirs) as [[d e]|] eqn:Ef; [|done].
  apply find_exe_Some in Ef as (Hd & Hne & -> & Hex).
  assert (d = dir /\ command = spawn_command (d ++ cBackslash :: str "meshghost.exe") pid spawn_port /\
          last_spawn_port l' = spawn_port /\ last_spawn_ms l' = now) as (-> & -> & <- & <-)
    by (destruct create as [[h p]|]; by simplify_eq).
  unfold cooling_down in *. rewrite E1, E2 in Ec. repeat split; try done.
  destruct Hh as [Hh|(_ & ? & ? & ?)]; [left|by right].
  unfold child_still_running in *. by rewrite Hh in Er.
Qed.

(** At most one start per port every ten seconds: once a core was started on a port,
    no sequence of ticks on that port starts another before the interval has passed,
    whatever becomes of the child. *)
Theorem spawn_rate_limited (ats : list attempt) (l : launcher)
    (Hms : 0 < last_spawn_ms l < 2 ^ 64)
    (Hats : Forall (fun a => a_spawn_port a = last_spawn_port l /\
              last_spawn_ms l <= a_now a < last_spawn_ms l + SPAWN_RETRY_INTERVAL_MS) ats) :
  (attempts ats l).2 = [].
Proof.
  revert l Hms Hats. induction ats as [|a ats IH]; intros l Hms Hats; [done|].
  apply Forall_cons_1 in Hats as [[Hp Ht] Hats]. cbn [attempts].
  destruct (attempt_cooling a l Hp) as (E & E1 & E2); [lia| |].
  { unfold u64. rewrite Z.mod_small; unfold SPAWN_RETRY_INTERVAL_MS in *; lia. }
  destruct (attempt_step a l) as [l1 started]. simpl in E, E1, E2. subst started.
  specialize (IH l1). rewrite E1, E2 in IH. specialize (IH Hms Hats).
  by destruct (attempts ats l1).
Qed.

(** A core started at one second, and two ticks that find its process gone. *)
Example spawn_rate_limited_witness :
  let l := new_launcher (fun _ => None) (fun _ => None) [] <| last_spawn_port := 7778 |>
             <| last_spawn_ms := 1000 |> in
  let at_ms t := Attempt (fun _ => false) (fun _ => false) (fun _ => true) [str "C:"] 42 t
                   (Some (5, 6)) 7778 0 in
  cooling_down 10999 7778 l = true /\ cooling_down 11000 7778 l = false /\
  (attempts [at_ms 1500; at_ms 10999] l).2 = [].
Proof.
  intros l at_ms. split; [by vm_compute|]. split; [by vm_compute|].
  apply (spawn_rate_limited [at_ms 1500; at_ms 10999] l); [by vm_compute|].
  by repeat constructor.
Defined.

(** The base port is always usable: the environment's when it is a port, else the
    first config.json's, else the fallback. *)
Theorem resolve_bridge_base_port_range (getenv : environment) (files : fs) (dirs : list bytes)
    (fallback : Z) (Hfb : 1 <= fallback <= 65535) :
  1 <= resolve_bridge_base_port getenv files dirs fallback <= 65535 /\
  (forall env, getenv BRIDGE_PORT_ENV = Some env -> port_in_range (strtoul env) = true ->
     resolve_bridge_base_port getenv files dirs fallback = Z.of_N (strtoul env)) /\
  (getenv BRIDGE_PORT_ENV = None -> (forall dir, dir ∈ dirs ->
     files (dir ++ cBackslash :: str "config.json") = None) ->
   resolve_bridge_base_port getenv files dirs fallback = fallback).
Proof.
  unfold resolve_bridge_base_port, env_port, port_in_range.
  assert (forall p, config_port files dirs = Some p -> 1 <= p <= 65535) as Hcfg.
  { induction dirs as [|d dirs IH]; intros p; simpl; [done|].
    destruct (if bool_decide (d = []) then None else _) as [q|] eqn:E; [|by apply IH].
    intros ?; simplify_eq. case_bool_decide; [done|].
    destruct (files _) as [t|]; [|done]. simpl in E. unfold local_game_bridge_port, port_in_range in E.
    repeat split_match_in E; simplify_eq; lia. }
  split; [|split].
  - destruct (getenv BRIDGE_PORT_ENV) as [env|]; [destruct (_ && _) eqn:E; [lia|]|];
      destruct (config_port files dirs) eqn:Ec; simpl; auto.
  - intros env -> ->. done.
  - intros -> Hno. assert (config_port files dirs = None) as ->; [|done].
    clear Hcfg. induction dirs as [|d dirs IH]; simpl; [done|].
    rewrite Hno by left. rewrite IH by (intros; apply Hno; by right). by case_bool_decide.
Qed.

(** A child that exited is replaced without closing its handle: every restart of the
    core leaves one process handle open. *)
Theorem respawn_leaks_handle (run : Z -> bool) (ex : bytes -> bool) (dirs : list bytes) (pid now h' p' : Z)
    (spawn_port busy_port h : Z) (l : launcher) (Hon : spawn_disabled l = false)
    (Hh : child_handle l = Some h) (Hopen : h ∈ os_handles l) (Hexit : run h = false)
    (Hcool : cooling_down now spawn_port l = false) (Hexe : is_Some (find_exe ex dirs)) :
  let l' := (tick_disconnected run run ex dirs pid now (Some (h', p')) spawn_port busy_port l).1 in
  child_handle l' = Some h' /\ h ∈ os_handles l' /\ h' ∈ os_handles l'.
Proof.
  cbv zeta. unfold tick_disconnected, forget_claimed, child_still_running.
  rewrite Hon, Hh, Hexit. cbn [andb]. rewrite Hh, Hexit, Hcool.
  destruct Hexe as [[d e] ->]. cbn. set_solver.
Qed.

(** A child started on a port that answered busy at any time before is forgotten at
    the next disconnected tick, although it is running and nobody claimed it: the busy
    port is remembered and compared, not the time it answered. *)
Theorem busy_latch_forgets_fresh_child (run : Z -> bool) (ex : bytes -> bool) (dirs : list bytes)
    (pid now : Z) (create : create_answer) (h p spawn_port : Z) (l : launcher)
    (Hon : spawn_disabled l = false) (Hh : child_handle l = Some h) (Hrun : run h = true)
    (Hp : last_spawn_port l = p) (Hnz : p <> 0)
    (Hcool : cooling_down now spawn_port l = true) :
  let l' := (tick_disconnected run run ex dirs pid now create spawn_port p l).1 in
  child_handle l' = None /\ child_port run l = p /\ child_port run l' = 0.
Proof.
  cbv zeta. unfold tick_disconnected, forget_claimed, child_port, child_still_running.
  rewrite Hon, Hh, Hrun, Hp, Z.eqb_refl, (proj2 (Z.eqb_neq _ _) Hnz). cbn.
  unfold cooling_down in *. cbn in *. by rewrite Hcool.
Qed.
