(* ===== verification/ScanFacts.v ===== *)
(** Every value the number scanners produce is a double the hardware can hold. *)
From S2P Require Import Prelude Float64 CScan FloatFacts JsonString JsonScoped.
From Stdlib Require Import NArith ZArith.

Abbreviation wf v := (wf_double v = true).

Lemma of_scientific_wf neg mant base e : (0 < base)%N -> wf (of_scientific neg mant base e).
Proof.
  intros Hb. unfold of_scientific. destruct (e <? 0)%Z; apply of_ratio_wf; [|lia].
  apply N.neq_0_lt_0, N.pow_nonzero. lia.
Qed.

Lemma scan_constant_wf strict neg isd b el eb per s v r :
  (0 < eb)%N -> scan_constant strict neg isd b el eb per s = Some (v, r) -> wf v.
Proof.
  intros Hb E. unfold scan_constant in E. repeat split_match_in E; simplify_eq;
    by apply of_scientific_wf.
Qed.

Lemma scan_word_wf strict neg s v r : scan_word strict neg s = Some (v, r) -> wf v.
Proof. intros E. unfold scan_word in E. repeat split_match_in E; by simplify_eq. Qed.

Lemma scan_double_wf strict s v r : scan_double strict s = Some (v, r) -> wf v.
Proof.
  intros E. unfold scan_double in E. destruct (scan_sign (skip_space s)) as [neg [|c t]]; [done|].
  destruct (_ && _).
  - destruct (scan_constant _ _ _ _ _ _ _ _) as [[v' r']|] eqn:Ec.
    + simplify_eq. by eapply scan_constant_wf in Ec.
    + destruct strict; [done|]. by simplify_eq.
  - destruct (_ || _); [by eapply scan_constant_wf in E|by eapply scan_word_wf].
Qed.

Lemma sscanf_lf_wf s v : sscanf_lf s = Some v -> wf v.
Proof.
  unfold sscanf_lf. destruct (scan_double true s) as [[v' r]|] eqn:E; [|done].
  intros ?; simplify_eq/=. by eapply scan_double_wf.
Qed.

Lemma sscanf_lf3_wf s : Forall (fun v => wf v) (sscanf_lf3 s).
Proof.
  unfold sscanf_lf3. repeat split_match; simplify_eq; repeat constructor;
    by eapply scan_double_wf.
Qed.

Definition wf3 (v : vec3) : Prop := let '(a, b, c) := v in wf a /\ wf b /\ wf c.

Lemma scan_vec3_wf s pos old : wf3 old -> wf3 (scan_vec3 s pos old).2.
Proof.
  intros Ho. unfold scan_vec3. pose proof (sscanf_lf3_wf (drop pos s)) as Hs.
  destruct old as [[a b] c], (sscanf_lf3 (drop pos s)) as [|x [|y [|z l]]]; simpl in *;
    repeat match goal with H : Forall _ (_ :: _) |- _ => apply Forall_cons_1 in H as [? ?] end;
    unfold wf3 in *; tauto.
Qed.

Lemma json_vec3_member_wf s b e key old : wf3 old -> wf3 (json_vec3_member s b e key old).2.
Proof.
  intros Ho. unfold json_vec3_member. destruct (json_member_value s b e key); [|done].
  destruct (Ascii.eqb _ _); [|done]. by apply scan_vec3_wf.
Qed.

Lemma json_number_member_wf s b e key old : wf old -> wf (json_number_member s b e key old).2.
Proof.
  intros Ho. unfold json_number_member. destruct (json_member_value s b e key); [|done].
  destruct (starts_number _ _ _); [|done]. unfold scan_number.
  destruct (sscanf_lf _) eqn:E; [|done]. by eapply sscanf_lf_wf.
Qed.
