(* ===== verification/NumberText.v ===== *)
(** The numbers [std::format] writes, and what the readers of [PeerJson.hpp] make of the
    text: integers, a fixed number of decimals, and a double with none asked for.

    A fixed number of decimals is the exact decimal expansion rounded half to even, as
    the standard has it of [std::to_chars].  The shortest text of a double is not
    computed here: it is an argument with the law the standard gives it, [DoubleFormat],
    which the full expansion, [exact_format], is shown to satisfy. *)
From S2P Require Import Prelude Float64 CScan JsonString JsonSpec JsonReaders FloatFacts ScanFacts.
From Stdlib Require Import ZArith.

(** * Text *)

Definition int_text (z : Z) : bytes := str (pretty z).

(** The nearest multiple of 2^[sh], in units of it; a tie goes to the even one. *)
Definition nearest_even (m sh : N) : N :=
  let q := N.shiftr m sh in
  match (2 * (m - N.shiftl q sh) ?= N.shiftl 1 sh)%N with
  | Lt => q
  | Eq => if N.even q then q else (q + 1)%N
  | Gt => (q + 1)%N
  end.

(** A finite magnitude in units of 10^-[p]. *)
Definition decimals (p : nat) (m : N) : N := nearest_even (m * 10 ^ N.of_nat p) 1074.

Definition pad_left (n : nat) (ds : bytes) : bytes := replicate (n - length ds) "0"%char ++ ds.

(** [{:.pf}], at least one digit before the point. *)
Definition fixed (p : nat) (d : double) : bytes :=
  match d with
  | DFin neg m =>
      let ds := pad_left (S p) (str (pretty (decimals p m))) in
      number_text neg (take (length ds - p) ds) (drop (length ds - p) ds)
  | DInf neg => (if neg then ["-"%char] else []) ++ str "inf"
  | DNaN => str "nan"
  end.

(** What that text reads as: the double nearest to those decimals. *)
Definition fixed_value (p : nat) (d : double) : double :=
  match d with DFin neg m => of_scientific neg (decimals p m) 10 (- Z.of_nat p) | _ => d end.

(** * A text that is a JSON number *)

Definition starts_as_number (t : bytes) : Prop :=
  exists c u, t = c :: u /\ (is_digit c = true \/ c = "-"%char /\ exists c' u', u = c' :: u' /\ is_digit c' = true).

(** [t] reads as [d], whatever follows it. *)
Record num_denotes (t : bytes) (d : double) : Prop := NumDenotes {
  nd_start : starts_as_number t;
  nd_value : value_text t;
  nd_scan strict c r : number_end c = true -> scan_double strict (t ++ c :: r) = Some (d, c :: r)
}.

(** [{}] of a finite double: a JSON number that reads back as that double. *)
Class DoubleFormat (format_double : double -> bytes) : Prop :=
  format_denotes d : isfinite d = true -> wf_double d = true -> num_denotes (format_double d) d.

(** * Digits *)

Lemma digits_scalar ds : digits ds -> Forall (fun c => scalar_char c = true) ds.
Proof.
  apply Forall_impl. intros c Hc%digit_cases. unfold str in Hc. simpl in Hc.
  repeat (apply elem_of_cons in Hc as [-> | Hc]; [done|]). by apply elem_of_nil in Hc.
Qed.

Lemma number_text_denotes neg ip fp :
  digits ip -> digits fp -> ip <> [] -> num_denotes (number_text neg ip fp) (number_value neg ip fp).
Proof.
  intros Hi Hf Hne. destruct ip as [|i ip]; [done|]. pose proof (Forall_inv Hi) as Hd. split.
  - unfold number_text. destruct neg; simpl; eexists _, _; (split; [done|]); [right|by left]. split; [done|]. eauto.
  - pose proof (digits_scalar _ Hi) as Si. pose proof (digits_scalar _ Hf) as Sf.
    assert (Forall (fun c => scalar_char c = true) ((i :: ip) ++ match fp with [] => [] | _ => "."%char :: fp end)) as Hall.
    { apply Forall_app. split; [done|]. destruct fp; [done|]. by constructor. }
    unfold number_text. destruct neg; simpl; constructor; [by constructor|done].
  - intros. by apply scan_double_number.
Qed.

Lemma digits_value_snoc ds c : digits_value 10 (ds ++ [c]) = (10 * digits_value 10 ds + default 0 (hex_val c))%N.
Proof. unfold digits_value. by rewrite foldl_app. Qed.

Lemma pretty_char n : (n < 10)%N -> is_digit (pretty_N_char n) = true /\ hex_val (pretty_N_char n) = Some n.
Proof.
  intros Hn. destruct n as [|p]; [done|]. do 3 try (destruct p as [p|p|]; [| |done]); try done; destruct p; done || lia.
Qed.

Lemma pretty_go n s :
  exists ds, str (pretty_N_go n s) = ds ++ str s /\ digits ds /\ digits_value 10 ds = n /\ (n <> 0%N -> ds <> []).
Proof.
  revert s. induction (N.lt_wf_0 n) as [n _ IH]. intros s. destruct (decide (n = 0)%N) as [->|Hn].
  { exists []. by rewrite pretty_N_go_0. }
  rewrite pretty_N_go_step by lia.
  destruct (IH (n `div` 10)%N (N.div_lt n 10 ltac:(lia) ltac:(lia)) (String (pretty_N_char (n `mod` 10)) s)) as (ds & E & Hd & Hv & _).
  destruct (pretty_char (n `mod` 10)%N (N.mod_lt n 10 ltac:(lia))) as [C1 C2].
  exists (ds ++ [pretty_N_char (n `mod` 10)]). split; [rewrite E; unfold str; simpl; by rewrite <- app_assoc|].
  split; [by apply Forall_app_2; [|constructor]|]. split; [|by destruct ds].
  rewrite digits_value_snoc, C2, Hv. simpl. symmetry. apply N.div_mod. done.
Qed.

Lemma pretty_digits (n : N) : digits (str (pretty n)) /\ digits_value 10 (str (pretty n)) = n /\ str (pretty n) <> [].
Proof.
  unfold pretty, pretty_N. case_decide as Hn; [by subst; repeat split; [repeat constructor|..]|].
  destruct (pretty_go n "") as (ds & E & Hd & Hv & Hne). rewrite app_nil_r in E. rewrite E. auto.
Qed.

(** A number below 10^[k] has at most [k] digits, and zero has one. *)
Lemma pretty_go_length k : forall n s, (n < 10 ^ N.of_nat k)%N -> length (str (pretty_N_go n s)) <= k + length (str s).
Proof.
  induction k as [|k IH]; intros n s Hn.
  - assert (n = 0)%N as -> by (change (10 ^ N.of_nat 0)%N with 1%N in Hn; lia). by rewrite pretty_N_go_0.
  - destruct (decide (n = 0)%N) as [->|Hne]; [rewrite pretty_N_go_0; lia|]. rewrite pretty_N_go_step by lia.
    etrans; [apply IH|simpl; lia]. rewrite Nat2N.inj_succ, N.pow_succ_r' in Hn. apply N.Div0.div_lt_upper_bound. lia.
Qed.

Lemma pretty_length n k : (n < 10 ^ N.of_nat (S k))%N -> length (str (pretty n)) <= S k.
Proof.
  intros Hn. unfold pretty, pretty_N. case_decide; [simpl; lia|].
  pose proof (pretty_go_length (S k) n "" Hn). simpl in *. lia.
Qed.

Lemma digits_value_zeros n ds : digits_value 10 (replicate n "0"%char ++ ds) = digits_value 10 ds.
Proof. unfold digits_value. rewrite foldl_app. f_equal. induction n as [|n IH]; [done|]. done. Qed.

Lemma pad_left_digits n m :
  let ds := pad_left n (str (pretty m)) in digits ds /\ digits_value 10 ds = m /\ n <= length ds.
Proof.
  cbv zeta. unfold pad_left. destruct (pretty_digits m) as (Hd & Hv & _). rewrite digits_value_zeros. repeat split; [|done|].
  - apply Forall_app_2; [|done]. by apply Forall_replicate.
  - len.
Qed.

(** * Integers *)

Lemma of_scientific_int neg n : of_scientific neg n 10 0 = of_ratio neg (N.shiftl n 1074) 1 0.
Proof. unfold of_scientific. simpl. by rewrite N.mul_1_r. Qed.

(** An integer's text reads as that integer. *)
Lemma int_text_denotes z : num_denotes (int_text z) (of_Z z).
Proof.
  set (n := Z.to_N (Z.abs z)). destruct (pretty_digits n) as (Hd & Hv & Hne).
  assert (int_text z = number_text (z <? 0)%Z (str (pretty n)) []) as ->.
  { unfold int_text, number_text. rewrite app_nil_r. by destruct z. }
  assert (of_Z z = number_value (z <? 0)%Z (str (pretty n)) []) as ->.
  { unfold number_value. rewrite app_nil_r, Hv. simpl length. by rewrite of_scientific_int. }
  by apply number_text_denotes.
Qed.

(** * Fixed decimals *)

(** Within half a unit of the last decimal. *)
Lemma nearest_even_half m sh :
  (2 * Z.abs (Z.of_N (nearest_even m sh) * 2 ^ Z.of_N sh - Z.of_N m) <= 2 ^ Z.of_N sh)%Z.
Proof.
  unfold nearest_even. rewrite N.shiftr_div_pow2, !N.shiftl_mul_pow2, N.mul_1_l.
  pose proof (N.Div0.div_mod m (2 ^ sh)) as Hm. pose proof (N.mod_lt m (2 ^ sh) ltac:(by apply N.pow_nonzero)) as Hr.
  change 2%Z with (Z.of_N 2). rewrite <- (N2Z.inj_pow 2 sh). set (u := (2 ^ sh)%N) in *. set (q := (m / u)%N) in *.
  assert (m - q * u = m mod u)%N as -> by lia. set (r := (m mod u)%N) in *.
  destruct (N.compare_spec (2 * r) u); [destruct (N.even q)|..]; lia.
Qed.

Lemma fixed_denotes p d : isfinite d = true -> 0 < p -> num_denotes (fixed p d) (fixed_value p d).
Proof.
  destruct d as [| |neg m]; try done. intros _ Hp. unfold fixed, fixed_value.
  destruct (pad_left_digits (S p) (decimals p m)) as (Hd & Hv & Hl). set (ds := pad_left _ _) in *.
  set (ip := take (length ds - p) ds). set (fp := drop (length ds - p) ds).
  assert (ip ++ fp = ds) as Eds by apply take_drop.
  assert (of_scientific neg (decimals p m) 10 (- Z.of_nat p) = number_value neg ip fp) as ->.
  { unfold number_value. rewrite Eds, Hv. do 2 f_equal. unfold fp. rewrite length_drop. lia. }
  rewrite <- Eds in Hd. apply Forall_app in Hd as [Hi Hf]. apply number_text_denotes; [done..|].
  intros E. apply (f_equal length) in E. unfold ip in E. rewrite length_take in E. simpl in E. lia.
Qed.

(** * The full expansion *)

Definition exact_format (d : double) : bytes := fixed 1074 d.

Lemma of_ratio_multiple neg k den :
  (0 < den)%N -> wf_double (DFin neg k) = true -> of_ratio neg (k * den) den 0 = DFin neg k.
Proof.
  intros Hd [Hr Hl]%andb_true_iff. unfold of_ratio.
  pose proof (round_mag_exact prec64 0 k den 0 Hd Hr) as E. rewrite N.pow_0_r, N.mul_1_r in E. by rewrite E, Hl.
Qed.

Lemma pow_pos b k : (0 < b -> 0 < b ^ k)%N.
Proof. intros. apply N.neq_0_lt_0, N.pow_nonzero. lia. Qed.

Lemma nearest_even_multiple q sh : nearest_even (q * 2 ^ sh) sh = q.
Proof.
  unfold nearest_even. rewrite N.shiftr_div_pow2, !N.shiftl_mul_pow2, N.div_mul by (by apply N.pow_nonzero).
  rewrite N.sub_diag, N.mul_1_l, N.mul_0_r. pose proof (pow2_pos sh). by destruct (N.compare_spec 0 (2 ^ sh)); try lia.
Qed.

Lemma decimals_exact m : decimals 1074 m = (m * 5 ^ 1074)%N.
Proof.
  unfold decimals. change (N.of_nat 1074) with 1074%N. change 10%N with (5 * 2)%N.
  generalize 1074%N as k. intros k. rewrite N.pow_mul_l, N.mul_assoc. apply nearest_even_multiple.
Qed.

Lemma of_scientific_units neg m k :
  (0 < k)%N -> wf_double (DFin neg m) = true -> k = 1074%N -> of_scientific neg (m * 5 ^ k) 10 (- Z.of_N k) = DFin neg m.
Proof.
  intros Hk Hwf Ek. unfold of_scientific. destruct (Z.ltb_spec (- Z.of_N k) 0); [|lia].
  rewrite Z.opp_involutive, N2Z.id, <- Ek, N.shiftl_mul_pow2, <- N.mul_assoc, <- N.pow_mul_l.
  change (5 * 2)%N with 10%N. apply of_ratio_multiple; [by apply pow_pos|done].
Qed.

#[export] Instance exact_format_law : DoubleFormat exact_format.
Proof.
  intros [| |neg m] Hfin Hwf; try done. assert (fixed_value 1074 (DFin neg m) = DFin neg m) as E.
  { unfold fixed_value. rewrite decimals_exact. by apply (of_scientific_units neg m 1074). }
  rewrite <- E at 2. apply fixed_denotes; [done|]. apply Nat.ltb_lt. done.
Qed.
