(* ===== verification/RemoteGhost.v ===== *)
(** Plugin.hpp, the per-peer entry [RemoteGhost], the replay input track and the
    nametag, with the part of the plugin's state the bridge lines change.

    [RemoteGhost] is flat in the source.  Here its fields are grouped by who writes
    them: [wire], what a [render_remote] carries; [seen], the counters last acted on;
    [handles], the engine objects held (an object is a number, [None] the null
    pointer); [latch], what was last applied to those objects; [segment], the thrown
    sword's glide; [pose_latch], the edges of the pose; [drive_ghost], the ghost drive
    rig's.  Three fields x, y, z (or pitch, yaw, roll) are one [vec3].  The fields of the
    traces are left out. *)
From S2P Require Import Prelude Float64 JsonString.
From Stdlib Require Import ZArith.

Definition vzero : vec3 := (dzero, dzero, dzero).

(** What the peer's newest state says. *)
Record wire := Wire {
  target_pos : vec3;   (* target_x, target_y, target_z *)
  target_rot : vec3;   (* target_pitch, target_yaw, target_roll *)
  target_ts : double;
  target_move_state : double;
  target_action_state : double;
  target_h_speed : double;
  target_v_speed : double;
  target_anim_jump_type : double;
  target_movement_mode : double;
  target_land_count : double;
  target_jump_count : double;
  target_afterimage_count : double;
  target_afterimage_spawn_n : double;
  target_capsule_half : double;
  last_shrunk_ms : Z;
  target_slide_t : double;
  target_afterimage_color : vec3;   (* the three components it is given *)
  afterimage_color_valid : bool;
  target_weapon_equipped : bool;
  target_bubble_charged : bool;
  target_outfit_mesh : bytes;
  target_weapon_mesh : bytes;
  target_vfx : bytes;
  target_montage : bytes;
  target_montage_count : double;
  target_montage_stop_count : double;
  target_blink_count : Z;
  target_death_count : Z;
  target_hurt_count : Z;
  target_projectile_active : bool;
  target_projectile_vfx : bytes;
  target_projectile_pos : vec3;
  target_projectile_rot : vec3;
  target_weapon_thrown : bool;
  target_weapon_bounce : double;
  target_shadow_visible : bool;
  target_weapon_pos : vec3;
  target_weapon_rot : vec3;
  target_weapon_state : double;
  target_weapon_class : bytes;
  target_weapon_glow : bytes;
  target_recall_glow : bool
}.
#[export] Instance wire_eta : Eta wire := fun r =>
  Wire (target_pos r) (target_rot r) (target_ts r) (target_move_state r) (target_action_state r)
    (target_h_speed r) (target_v_speed r) (target_anim_jump_type r) (target_movement_mode r)
    (target_land_count r) (target_jump_count r) (target_afterimage_count r)
    (target_afterimage_spawn_n r) (target_capsule_half r) (last_shrunk_ms r) (target_slide_t r)
    (target_afterimage_color r) (afterimage_color_valid r) (target_weapon_equipped r)
    (target_bubble_charged r) (target_outfit_mesh r) (target_weapon_mesh r) (target_vfx r)
    (target_montage r) (target_montage_count r) (target_montage_stop_count r)
    (target_blink_count r) (target_death_count r) (target_hurt_count r)
    (target_projectile_active r) (target_projectile_vfx r) (target_projectile_pos r)
    (target_projectile_rot r) (target_weapon_thrown r) (target_weapon_bounce r)
    (target_shadow_visible r) (target_weapon_pos r) (target_weapon_rot r)
    (target_weapon_state r) (target_weapon_class r) (target_weapon_glow r)
    (target_recall_glow r).
Definition wire0 : wire :=
  Wire vzero vzero dzero dzero dzero dzero dzero dzero dzero dzero dzero dzero dzero dzero 0%Z
    (of_Z 1) vzero false false false [] [] [] [] dzero dzero 0%Z 0%Z 0%Z false [] vzero vzero
    false dzero true vzero vzero dzero [] [] false.

(** The counters already acted on. *)
Record seen := Seen {
  last_seen_land_count : double;
  last_seen_jump_count : double;
  last_seen_montage_count : double;
  last_seen_montage_stop_count : double;
  last_seen_blink_count : Z;
  last_seen_death_count : Z;
  last_seen_hurt_count : Z;
  last_seen_afterimage_count : double
}.
#[export] Instance seen_eta : Eta seen := fun r =>
  Seen (last_seen_land_count r) (last_seen_jump_count r) (last_seen_montage_count r)
    (last_seen_montage_stop_count r) (last_seen_blink_count r) (last_seen_death_count r)
    (last_seen_hurt_count r) (last_seen_afterimage_count r).
Definition seen0 : seen :=
  Seen dzero dzero dzero dzero 0%Z 0%Z 0%Z dzero.

(** The engine objects of this peer. *)
Record handles := Handles {
  ghost : option Z;
  owning_world : option Z;
  weapon_actor : option Z;
  weapon_actor_world : option Z;
  weapon_fly_component : option Z;
  weapon_glow_component : option Z;
  recall_glow_component : option Z;
  projectile_component : option Z;
  projectile_component_world : option Z;
  vfx_components : gmap bytes Z;
  recent_one_shot_components : list Z;
  nametag_component : option Z;
  nametag_plate : option Z;
  nametag_plate_mid : option Z;
  drive_private_gi : option Z;
  drive_own_hitable : option Z
}.
#[export] Instance handles_eta : Eta handles := fun r =>
  Handles (ghost r) (owning_world r) (weapon_actor r) (weapon_actor_world r)
    (weapon_fly_component r) (weapon_glow_component r) (recall_glow_component r)
    (projectile_component r) (projectile_component_world r) (vfx_components r)
    (recent_one_shot_components r) (nametag_component r) (nametag_plate r) (nametag_plate_mid r)
    (drive_private_gi r) (drive_own_hitable r).
Definition handles0 : handles :=
  Handles None None None None None None None None None ∅ [] None None None None None.

(** What was last applied to them. *)
Record latch := Latch {
  weapon_hand_hidden : bool;
  recall_glow_shown : bool;
  recall_glow_swept : bool;
  spawn_weapon_trace_tick : Z;
  spawn_weapon_traced_at_spawn : bool;
  spawn_weapon_traced_after : bool;
  weapon_equip_call_armed : bool;
  last_synced_weapon_equipped : bool;
  last_synced_outfit_mesh : bytes;
  last_failed_outfit_mesh : bytes;
  last_synced_weapon_mesh : bytes;
  last_failed_weapon_mesh : bytes;
  nametag_applied_name : bytes;
  nametag_applied_color : bytes;
  nametag_plate_applied_color : bytes;
  nametag_plate_has_color : bool;
  nametag_create_failed : bool;
  drive_prepared : bool;
  drive_move_live : bool;
  weapon_render_primed : bool;
  last_synced_weapon_state : double;
  crouch_event_shrunk : bool;
  crouch_input_shrunk : bool;
  distance_tier : Z;
  spawned_at_tick : Z;
  ambient_fx_stripped : bool;
  nametag_tuning_gen : Z
}.
#[export] Instance latch_eta : Eta latch := fun r =>
  Latch (weapon_hand_hidden r) (recall_glow_shown r) (recall_glow_swept r)
    (spawn_weapon_trace_tick r) (spawn_weapon_traced_at_spawn r) (spawn_weapon_traced_after r)
    (weapon_equip_call_armed r) (last_synced_weapon_equipped r) (last_synced_outfit_mesh r)
    (last_failed_outfit_mesh r) (last_synced_weapon_mesh r) (last_failed_weapon_mesh r)
    (nametag_applied_name r) (nametag_applied_color r) (nametag_plate_applied_color r)
    (nametag_plate_has_color r) (nametag_create_failed r) (drive_prepared r) (drive_move_live r)
    (weapon_render_primed r) (last_synced_weapon_state r) (crouch_event_shrunk r)
    (crouch_input_shrunk r) (distance_tier r) (spawned_at_tick r) (ambient_fx_stripped r)
    (nametag_tuning_gen r).
Definition latch0 : latch :=
  Latch false false false 0%Z false false false false [] [] [] [] [] [] [] false false false
    false false (of_Z (-1)) false false 0%Z 0%Z false 0%Z.

(** The glide of the thrown sword, and the throttles and counters of both props. *)
Record segment := Segment {
  render_weapon : vec3;
  weapon_seg_from : vec3;
  weapon_seg_to : vec3;
  weapon_seg_start_ms : Z;
  weapon_seg_dur_ms : Z;
  weapon_target_seen_ms : Z;
  last_written_weapon : vec3;
  weapon_write_recorded : bool;
  last_weapon_spawn_attempt_tick : Z;
  last_seen_weapon_bounce : double;
  last_failed_projectile_vfx : bytes;
  last_projectile_spawn_attempt_tick : Z
}.
#[export] Instance segment_eta : Eta segment := fun r =>
  Segment (render_weapon r) (weapon_seg_from r) (weapon_seg_to r) (weapon_seg_start_ms r)
    (weapon_seg_dur_ms r) (weapon_target_seen_ms r) (last_written_weapon r)
    (weapon_write_recorded r) (last_weapon_spawn_attempt_tick r) (last_seen_weapon_bounce r)
    (last_failed_projectile_vfx r) (last_projectile_spawn_attempt_tick r).
Definition segment0 : segment :=
  Segment vzero vzero vzero 0%Z 0%Z 0%Z vzero false 0%Z (of_Z (-1)) [] 0%Z.

(** The edges of the pose mirror: what the pawn's functions were last told, and the
    windows and throttles of its writes. *)
Record pose_latch := PoseLatch {
  crouch_half_height_adjust : double;   (* a float *)
  ghost_bubble_flash_on : bool;
  last_applied_shadow_visible : Z;
  landed_hold_ticks : Z;
  jumped_hold_ticks : Z;
  last_wallrun_move_state : Z;
  last_outfit_attempt_tick : Z;
  last_weapon_mesh_attempt_tick : Z;
  chaser_contact_overlapping : bool
}.
#[export] Instance pose_latch_eta : Eta pose_latch := fun r =>
  PoseLatch (crouch_half_height_adjust r) (ghost_bubble_flash_on r) (last_applied_shadow_visible r)
    (landed_hold_ticks r) (jumped_hold_ticks r) (last_wallrun_move_state r) (last_outfit_attempt_tick r)
    (last_weapon_mesh_attempt_tick r) (chaser_contact_overlapping r).
Definition pose_latch0 : pose_latch := PoseLatch dzero false (-1) 0 0 0 0 0 false.

(** What the ghost drive rig keeps of a ghost. *)
Record drive_ghost := DriveGhost {
  driven : bool;
  drive_prev_target : option (double * double);   (* x and y, once valid *)
  drive_next_s : double;
  drive_node_i : Z;
  drive_fired : Z
}.
#[export] Instance drive_ghost_eta : Eta drive_ghost := fun r =>
  DriveGhost (driven r) (drive_prev_target r) (drive_next_s r) (drive_node_i r) (drive_fired r).
Definition drive_ghost0 : drive_ghost := DriveGhost false None dzero 0 0.

(** One entry of [remotes]. *)
Record RemoteGhost := MkRemoteGhost {
  wire_state : wire;
  counters_seen : seen;
  engine_objects : handles;
  latches : latch;
  weapon_segment : segment;
  vfx_counts : gmap bytes double;
  vfx_counts_baselined : bool;
  pose : pose_latch;
  drive : drive_ghost
}.
#[export] Instance RemoteGhost_eta : Eta RemoteGhost := fun r =>
  MkRemoteGhost (wire_state r) (counters_seen r) (engine_objects r) (latches r)
    (weapon_segment r) (vfx_counts r) (vfx_counts_baselined r) (pose r) (drive r).
Definition RemoteGhost0 : RemoteGhost :=
  MkRemoteGhost wire0 seen0 handles0 latch0 segment0 ∅ false pose_latch0 drive_ghost0.

(** A recorded input edge of a replay ghost. *)
Record GhostInputEdge := MkEdge {
  e_f : Z;
  e_t : Z;
  e_m : Z;
  e_ax : list double;   (* the first ax_n of ax[8] *)
  e_at : double
}.
#[export] Instance GhostInputEdge_eta : Eta GhostInputEdge := fun r =>
  MkEdge (e_f r) (e_t r) (e_m r) (e_ax r) (e_at r).
Definition GhostInputEdge0 : GhostInputEdge :=
  MkEdge 0%Z 0%Z 0%Z [] dzero.

(** The held edges of one replay ghost. *)
Record GhostInputTrack := MkTrack {
  labels : list bytes;
  axes : list bytes;
  source : bytes;
  edges : list GhostInputEdge;   (* in order, applied from the front *)
  mask : Z;
  ax : list double;   (* ax[8] *)
  ax_n : Z;
  have_state : bool;
  dropped : N;
  drop_logged : bool
}.
#[export] Instance GhostInputTrack_eta : Eta GhostInputTrack := fun r =>
  MkTrack (labels r) (axes r) (source r) (edges r) (mask r) (ax r) (ax_n r) (have_state r)
    (dropped r) (drop_logged r).
Definition GhostInputTrack0 : GhostInputTrack :=
  MkTrack [] [] [] [] 0%Z (replicate 8 dzero) 0%Z false 0%N false.

(** A peer's chosen label. *)
Record Nametag := MkNametag {
  tag_name : bytes;
  tag_color : bytes
}.
#[export] Instance Nametag_eta : Eta Nametag := fun r =>
  MkNametag (tag_name r) (tag_color r).
Definition Nametag0 : Nametag :=
  MkNametag [] [].

(** One row of an on-screen input history: a held state and how long it was held. *)
Record InputHistoryRow := MkRow {
  row_mask : Z;
  row_dir : Z;   (* bit 0 up, 1 down, 2 left, 3 right *)
  row_frames : Z;
  row_start_ms : Z;
  row_last_ms : Z
}.
#[export] Instance InputHistoryRow_eta : Eta InputHistoryRow := fun r =>
  MkRow (row_mask r) (row_dir r) (row_frames r) (row_start_ms r) (row_last_ms r).

(** The part of an on-screen input panel kept between ticks. *)
Record InputPanel := MkPanel {
  rows : list InputHistoryRow;   (* newest at the front *)
  last_text : list Z;            (* 16-bit units *)
  in_viewport : bool;
  vw : double
}.
#[export] Instance InputPanel_eta : Eta InputPanel := fun r =>
  MkPanel (rows r) (last_text r) (in_viewport r) (vw r).
Definition InputPanel0 : InputPanel :=
  MkPanel [] [] false dzero.

(** The dev subtractions' sweeps, static locals of the loop: whether one is pending and
    the tick its restore pass began on (0: none). *)
Record sweep := Sweep { sweep_pending : bool; restore_tick : Z }.
#[export] Instance sweep_eta : Eta sweep := fun r => Sweep (sweep_pending r) (restore_tick r).
Definition sweep0 : sweep := Sweep false 0.

(** The static locals of the loop over the remotes, kept for the session. *)
Record loop_statics := LoopStatics {
  hurt_mirror_disarmed : bool;
  fx_sweep_pending : bool;
  shadow_sweep : sweep;
  nametag_sweep : sweep;
  lit_lights_tick : Z;
  lit_lights : list Z
}.
#[export] Instance loop_statics_eta : Eta loop_statics := fun r =>
  LoopStatics (hurt_mirror_disarmed r) (fx_sweep_pending r) (shadow_sweep r) (nametag_sweep r)
    (lit_lights_tick r) (lit_lights r).
Definition loop_statics0 : loop_statics := LoopStatics false false sweep0 sweep0 (2 ^ 64 - 1) [].

(** The plugin's state the bridge lines and the ghost lifecycle change. *)
Record plugin := Plugin {
  remotes : gmap bytes RemoteGhost;
  nametags : gmap bytes Nametag;
  ghost_inputs : gmap bytes GhostInputTrack;
  hijacked_actors : gset Z;
  seen_types : gset bytes;
  g_recording_active : bool;
  g_recording_started_unix_ms : Z;
  g_chaser_contact_mode : bytes;
  logged_collision_once : bool;
  g_disp_ghost_id : bytes;
  g_disp_ghost_panel : InputPanel;
  g_disp_player_panel : InputPanel;
  g_drive_ghost : option Z;
  last_ghost_spawn_tick : Z;
  statics : loop_statics
}.
#[export] Instance plugin_eta : Eta plugin := fun r =>
  Plugin (remotes r) (nametags r) (ghost_inputs r) (hijacked_actors r) (seen_types r)
    (g_recording_active r) (g_recording_started_unix_ms r) (g_chaser_contact_mode r)
    (logged_collision_once r) (g_disp_ghost_id r) (g_disp_ghost_panel r) (g_disp_player_panel r)
    (g_drive_ghost r) (last_ghost_spawn_tick r) (statics r).
Definition plugin0 : plugin :=
  Plugin ∅ ∅ ∅ ∅ ∅ false 0%Z [] false [] InputPanel0 InputPanel0 None 0%Z loop_statics0.
