(* ===== verification/Lifecycle.v ===== *)
(** Plugin.cpp, the life of a ghost: [ensure_ghost_spawned], [release_ghost],
    [release_all_ghosts] and [release_all_ghosts_parked].

    The engine is an argument ([spawn_env], [release_env]): what the pawn, the
    controller and the world are, what SpawnActor returns, which components and camera
    rigs are alive, which of the functions asked for they have.  The result of a release carries the engine
    calls it makes, in order. *)
From S2P Require Import Prelude Float64 JsonString RemoteGhost.
From Stdlib Require Import ZArith.

(** * Constants *)

Definition MIN_PLAUSIBLE_DISTANCE : double := of_Z 100.
Definition SPAWN_DELAY_TICKS : Z := 120.
Definition GHOST_SPAWN_SPACING_TICKS : Z := 2.
Definition GHOST_FAR_SPAWN_Z_OFFSET : double := of_Z 5000.
Definition DESPAWN_PARK_Z : double := of_Z (-500000).
Definition GHOST_DESTROY_ON_DESPAWN : bool := true.
Definition GHOST_DESTROY_ORPHAN_CAMERA_RIGS : bool := true.

(** * Square root *)

(** [std::sqrt], correctly rounded: the integer square root carries far more than 53
    bits, and the last bit records whether it was exact. *)
Definition dsqrt (a : double) : double :=
  match a with
  | DNaN => DNaN
  | DInf n => if n then DNaN else a
  | DFin n m =>
      if (m =? 0)%N then a
      else if n then DNaN
      else
        let x := (m * scale)%N in
        let s := N.sqrt x in
        of_ratio false (2 * s + (if (s * s =? x)%N then 0 else 1))%N 2 0
  end.

(** * Spawning *)

(** [p_class] is the full name of the pawn's class. *)
Record pawn := Pawn { p_location : vec3; p_world : option Z; p_class : option bytes }.

(** [towlower] on the letters of the needle; no other character lowers to one of them. *)
Definition to_lower (c : ascii) : ascii :=
  if in_range "A" "Z" c then ascii_of_N (N_of_ascii c + 32) else c.

(** The class's name holds "PlayerGoat", whatever the case. *)
Definition class_looks_like_player (pw : pawn) : bool :=
  match p_class pw with
  | None => false
  | Some class_name =>
      match find_str (map to_lower (str "PlayerGoat")) (map to_lower class_name) with Some _ => true | None => false end
  end.

Record spawn_env := SpawnEnv {
  local_pawn : option pawn; local_controller : option Z;
  tick_count : Z; suppress_ghost_spawn_until_tick : Z; ticks_since_pawn_valid : Z;
  ghost_spawn_far : bool; bare_ghost : bool;
  spawned_actor : option Z;      (* what SpawnActor returns *)
  strips_ambient : bool; own_hitable : option Z
}.

(** [remotes[player_id]]: the entry, made when it is not there. *)
Definition remote_of (id : bytes) (p : plugin) : RemoteGhost :=
  default RemoteGhost0 (remotes p !! id).

Definition set_remote (id : bytes) (g : RemoteGhost) (p : plugin) : plugin :=
  p <| remotes := <[id := g]> (remotes p) |>.

Definition distance_from_origin (loc : vec3) : double :=
  let '(x, y, z) := loc in dsqrt (x * x + y * y + z * z)%double.

(** The conditions under which a spawn is tried, in the code's order; the world and
    the place. *)
Definition spawn_allowed (env : spawn_env) (p : plugin) (id : bytes) : option (Z * vec3) :=
  match ghost (engine_objects (remote_of id p)), local_pawn env, local_controller env with
  | Some _, _, _ | _, None, _ | _, _, None => None
  | None, Some pw, Some _ =>
      if negb (last_ghost_spawn_tick p =? 0)%Z
         && (tick_count env <? last_ghost_spawn_tick p + GHOST_SPAWN_SPACING_TICKS)%Z then None
      else if (tick_count env <? suppress_ghost_spawn_until_tick env)%Z then None
      else if (ticks_since_pawn_valid env <? SPAWN_DELAY_TICKS)%Z then None
      else if negb (class_looks_like_player pw) then None
      else match p_world pw with
           | None => None
           | Some world =>
               if (distance_from_origin (p_location pw) <? MIN_PLAUSIBLE_DISTANCE)%double then None
               else match p_class pw with
                    | None => None
                    | Some _ => Some (world, p_location pw)
                    end
           end
  end.

(** The entry once its pawn exists.  With [ghost_spawn_far] the birth place is moved up
    and the target is moved back down. *)
Definition spawned_entry (env : spawn_env) (actor world : Z) (loc : vec3) (g : RemoteGhost) : RemoteGhost :=
  let '(x, y, z) := loc in
  let z' := if ghost_spawn_far env
            then ((z + GHOST_FAR_SPAWN_Z_OFFSET) - GHOST_FAR_SPAWN_Z_OFFSET)%double else z in
  g <| engine_objects := engine_objects g <| ghost := Some actor |> <| owning_world := Some world |>
         <| drive_private_gi := None |> <| drive_own_hitable := own_hitable env |> |>
    <| latches := latches g <| drive_prepared := false |> <| drive_move_live := false |>
         <| distance_tier := 0%Z |> <| spawned_at_tick := tick_count env |>
         <| ambient_fx_stripped := strips_ambient env |> |>
    <| wire_state := wire_state g <| target_pos := (x, y, z') |> |>.

Definition ensure_ghost_spawned (id : bytes) (env : spawn_env) (p : plugin) : plugin :=
  match spawn_allowed env p id with
  | None => p
  | Some (world, loc) =>
      match spawned_actor env with
      | None => p
      | Some actor =>
          let g := remote_of id p in
          if bare_ghost env then
            set_remote id (g <| engine_objects := engine_objects g <| ghost := Some actor |>
                                <| owning_world := Some world |> |>) p
              <| hijacked_actors := {[actor]} ∪ hijacked_actors p |>
          else
            set_remote id (spawned_entry env actor world loc g) p
              <| last_ghost_spawn_tick := tick_count env |>
      end
  end.

(** * Releasing *)

Inductive engine_call :=
  | HideComponent (component : Z)
  | StopComponent (component : Z) (function : string)
  | DestroyComponent (component : Z)
  | DestroyActor (actor : Z)
  | ParkActor (actor : Z) (location rotation : vec3).

Record release_env := ReleaseEnv {
  live_components : gset Z;               (* the NiagaraComponents that exist *)
  component_function : Z -> string -> bool;   (* GetFunctionByNameInChain finds it *)
  destroy_by_path : bool;                 (* K2_DestroyComponent, found by its path *)
  ai_controller : Z -> option Z;          (* an actor's controller, when it is an AIController *)
  camera_rigs : list (Z * option Z);      (* the BP_PlayerCam_C there are, with their OwningActor *)
  destroy_reflected : Z -> bool           (* the actor's chain has K2_DestroyActor *)
}.

(** A component is hidden, stopped with what it has to stop it, and destroyed where either
    lookup finds a function; where neither does it stays, hidden and stopped. *)
Definition stop_function (env : release_env) (c : Z) : option string :=
  if component_function env c "DeactivateImmediate" then Some "DeactivateImmediate"%string
  else if component_function env c "Deactivate" then Some "Deactivate"%string else None.
Definition destroy_found (env : release_env) (c : Z) : bool := component_function env c "DestroyComponent" || destroy_by_path env.
Definition dispose_component (env : release_env) (c : Z) : list engine_call :=
  HideComponent c :: map (StopComponent c) (option_list (stop_function env c))
  ++ (if destroy_found env c then [DestroyComponent c] else []).

(** Those of the candidates that are set and still alive. *)
Definition destroy_world_spawned_components (env : release_env) (candidates : list (option Z))
    : list engine_call :=
  concat (map (dispose_component env) (filter (fun c => c ∈ live_components env) (omap id candidates))).

(** [K2_DestroyActor], and whether there was one to call. *)
Definition destroy_actor (env : release_env) (actor : Z) : list engine_call :=
  if destroy_reflected env actor then [DestroyActor actor] else [].

(** The camera rigs whose owner is the actor. *)
Definition destroy_camera_rigs_owned_by (env : release_env) (owner : Z) : list engine_call :=
  concat (map (fun rig : Z * option Z => if bool_decide (rig.2 = Some owner) then destroy_actor env rig.1 else []) (camera_rigs env)).

(** The components of this peer that are not attached to its ghost. *)
Definition stranded (h : handles) : list (option Z) :=
  [weapon_glow_component h; projectile_component h]
    ++ map (fun kv => Some kv.2) (map_to_list (vfx_components h))
    ++ map Some (recent_one_shot_components h).

(** The bookkeeping [release_ghost] clears before it looks at the ghost. *)
Definition release_handles (h : handles) : handles :=
  h <| recent_one_shot_components := [] |> <| weapon_glow_component := None |>
    <| weapon_fly_component := None |> <| recall_glow_component := None |>
    <| nametag_component := None |> <| nametag_plate := None |> <| nametag_plate_mid := None |>
    <| drive_private_gi := None |> <| drive_own_hitable := None |>
    <| projectile_component := None |> <| projectile_component_world := None |>
    <| vfx_components := ∅ |>.

Definition release_latches (l : latch) : latch :=
  l <| weapon_hand_hidden := false |> <| recall_glow_shown := false |> <| recall_glow_swept := false |>
    <| spawn_weapon_trace_tick := 0%Z |> <| spawn_weapon_traced_at_spawn := false |>
    <| spawn_weapon_traced_after := false |> <| weapon_equip_call_armed := false |>
    <| last_synced_weapon_equipped := false |> <| last_synced_outfit_mesh := [] |>
    <| last_failed_outfit_mesh := [] |> <| last_synced_weapon_mesh := [] |>
    <| last_failed_weapon_mesh := [] |> <| drive_prepared := false |>
    <| nametag_applied_name := [] |> <| nametag_applied_color := [] |>
    <| nametag_plate_applied_color := [] |> <| nametag_plate_has_color := false |>
    <| nametag_create_failed := false |>.

(** [g_drive_ghost] is dropped when it is the pawn of the entry released. *)
Definition drop_drive_ghost (actor drive : option Z) : option Z :=
  if bool_decide (drive = actor) then None else drive.

Definition release_ghost (env : release_env) (id : bytes) (p : plugin) : plugin * list engine_call :=
  match remotes p !! id with
  | None => (p, [])
  | Some g =>
      let h := engine_objects g in
      let calls := destroy_world_spawned_components env (stranded h) in
      let drive := drop_drive_ghost (ghost h) (g_drive_ghost p) in
      let h1 := release_handles h in
      let l1 := release_latches (latches g) in
      let '(h2, l2, calls) :=
        match weapon_actor h1 with
        | None => (h1, l1, calls)
        | Some w => (h1 <| weapon_actor := None |> <| weapon_actor_world := None |>,
                     l1 <| weapon_render_primed := false |> <| last_synced_weapon_state := of_Z (-1) |>,
                     calls ++ destroy_actor env w)
        end in
      let g1 := g <| engine_objects := h2 |> <| latches := l2 |> in
      let p1 := p <| g_drive_ghost := drive |> in
      match ghost h2 with
      | None => (set_remote id g1 p1, calls)
      | Some actor =>
          let calls := calls
            ++ match ai_controller env actor with Some c => destroy_actor env c | None => [] end
            ++ (if GHOST_DESTROY_ORPHAN_CAMERA_RIGS then destroy_camera_rigs_owned_by env actor else [])
            ++ (if GHOST_DESTROY_ON_DESPAWN && destroy_reflected env actor then destroy_actor env actor
                else let '(x, y, _) := target_pos (wire_state g) in
                     [ParkActor actor (x, y, DESPAWN_PARK_Z) (target_rot (wire_state g))]) in
          (set_remote id (g1 <| engine_objects := h2 <| ghost := None |> <| owning_world := None |> |>)
             (p1 <| hijacked_actors := hijacked_actors p ∖ {[actor]} |>), calls)
      end
  end.

(** At a level transition everything is dropped and nothing is destroyed. *)
Definition forget_entry (g : RemoteGhost) : RemoteGhost :=
  g <| engine_objects := release_handles (engine_objects g)
         <| weapon_actor := None |> <| weapon_actor_world := None |>
         <| ghost := None |>
         <| owning_world := match ghost (engine_objects g) with
                            | Some _ => None
                            | None => owning_world (engine_objects g)
                            end |> |>
    <| latches := release_latches (latches g) <| weapon_render_primed := false |>
         <| last_synced_weapon_state := of_Z (-1) |> <| crouch_event_shrunk := false |>
         <| crouch_input_shrunk := false |> |>.

Definition ghosts_of (rs : gmap bytes RemoteGhost) : gset Z :=
  list_to_set (omap (fun kv => ghost (engine_objects kv.2)) (map_to_list rs)).

Definition release_all_ghosts (p : plugin) : plugin :=
  let panel_off (pn : InputPanel) := pn <| in_viewport := false |> <| vw := dzero |> in
  p <| g_disp_player_panel := panel_off (g_disp_player_panel p) |>
    <| g_disp_ghost_panel := panel_off (g_disp_ghost_panel p) |>
    <| g_drive_ghost :=
         match g_drive_ghost p with
         | Some a => if bool_decide (a ∈ ghosts_of (remotes p)) then None else Some a
         | None => None
         end |>
    <| hijacked_actors := hijacked_actors p ∖ ghosts_of (remotes p) |>
    <| remotes := forget_entry <$> remotes p |>.

(** At a bridge disconnect each ghost is released; the entries stay. *)
Definition release_all_ghosts_parked (env : release_env) (ids : list bytes) (p : plugin)
    : plugin * list engine_call :=
  let step (st : plugin * list engine_call) (id : bytes) :=
    let '(p, calls) := st in
    match ghost (engine_objects (remote_of id p)) with
    | None => (p, calls)
    | Some _ => let (p', calls') := release_ghost env id p in (p', calls ++ calls')
    end in
  let (p', calls) := foldl step (p, []) ids in
  (p' <| ghost_inputs := ∅ |>, calls).
