(* ===== verification/BridgeLine.v ===== *)
(** Plugin.cpp, [Plugin::handle_bridge_line]: what one line from the core does to the
    plugin's state, for every message type.

    A line is read first ([render_sample], [read_edge]) and applied second; the reads
    have no effect, so the order of the two halves is the code's.  The steady clock in
    milliseconds and the engine are arguments. *)
From S2P Require Import Prelude Float64 JsonString JsonScoped JsonBounds RemoteGhost Lifecycle.
From Stdlib Require Import ZArith.

(** * Constants *)

Definition GHOST_ROTATION_SLERP : bool := true.
Definition ROTATION_INTERP_MAX_T : double := of_Z 10.
Definition LOOPBACK_GHOST_OFFSET_X : double := of_Z 150.
Definition LOOPBACK_GHOST_OFFSET_Z : double := of_Z 0.
Definition GHOST_STANDING_CAPSULE_HALF : double := of_Z 65.
Definition GHOST_SLIDE_Z_COMP : bool := false.
Definition SLIDE_SEAM_HOLD_MS : Z := 200.
Definition WEAPON_SYNC_INVERT : bool := false.
Definition MAX_REMEMBERED_NAMETAGS : nat := 1024.
Definition GHOST_INPUT_EDGE_CAP : nat := 4096.
Definition SPEED_LIMIT : double := of_Z 1000000.
Definition MAX_INPUT_FRAME : double := of_Z (2 ^ 53).
Definition MAX_INPUT_T_MS : double := of_Z (2 ^ 42).
Definition COUNT_LIMIT : Z := 1000000000.

(** * Reading a render_remote *)

Definition span : Type := nat * nat.

(** A number that keeps its initial value when the member is not there. *)
Definition read_number (line : bytes) (o : span) (key : string) (dflt : double) : double :=
  (json_number_member line o.1 o.2 (str key) dflt).2.

Definition read_string (line : bytes) (o : span) (key : string) : bytes :=
  json_string_member line o.1 o.2 (str key).

(** [num != 0] *)
Definition nonzero (x : double) : bool := dne x dzero.

Definition finite3 (v : vec3) : bool :=
  let '(a, b, c) := v in isfinite a && isfinite b && isfinite c.

Definition read_vec3 (line : bytes) (o : span) (key : string) : option vec3 :=
  let (ok, v) := json_vec3_member line o.1 o.2 (str key) vzero in if ok then Some v else None.

(** A triple with a non-finite component reads as not sent. *)
Definition read_finite3 (line : bytes) (o : span) (key : string) : option vec3 :=
  match read_vec3 line o key with
  | Some v => if finite3 v then Some v else None
  | None => None
  end.

(** Best-effort: what was scanned before a failure is kept; all zero when not finite. *)
Definition read_orientation (line : bytes) (st : span) : vec3 :=
  let v := (json_vec3_member line st.1 st.2 (str "orientation") vzero).2 in
  if finite3 v then v else vzero.

Definition clamp_interp (t : double) : double :=
  if (t <? dzero)%double then dzero
  else if (t >? ROTATION_INTERP_MAX_T)%double then ROTATION_INTERP_MAX_T else t.

(** The facing interpolated across the bracket the core sends, when all of it is there
    and finite. *)
Definition interpolated_rotation (line : bytes) (payload : span) (raw : vec3) : vec3 :=
  if negb GHOST_ROTATION_SLERP then raw
  else
    match read_vec3 line payload "orientation_from", read_vec3 line payload "orientation_to",
          json_number_member line payload.1 payload.2 (str "interp_t") dzero with
    | Some from, Some to, (true, t) =>
        if finite3 from && finite3 to && isfinite t then
          let t := clamp_interp t in
          let '(fp, fy, fr) := from in
          let '(tp, ty, tr) := to in
          (lerp_angle_deg fp tp t, lerp_angle_deg fy ty t, lerp_angle_deg fr tr t)
        else raw
    | _, _, _ => raw
    end.

(** Outside the limit a speed reads as 0. *)
Definition bound_speed (v : double) : double :=
  if negb (isfinite v) || (v <? dneg SPEED_LIMIT)%double || (v >? SPEED_LIMIT)%double
  then dzero else v.

(** The values one [render_remote] line gives, as the handler's locals. *)
Record sample := Sample {
  s_pos : vec3;
  s_rot : vec3;
  s_ts : option double;
  s_move_state : double;
  s_action_state : double;
  s_h_speed : double;
  s_v_speed : double;
  s_anim_jump_type : double;
  s_movement_mode : double;
  s_land_count : double;
  s_jump_count : double;
  s_afterimage_count : double;
  s_afterimage_n : double;
  s_capsule_half : double;
  s_slide_t : double;
  s_afterimage_color : option vec3;
  s_weapon_equipped : bool;
  s_bubble_charged : bool;
  s_outfit_mesh : bytes;
  s_weapon_mesh : bytes;
  s_montage : bytes;
  s_vfx : bytes;
  s_montage_count : double;
  s_montage_stop_count : double;
  s_weapon_thrown : bool;
  s_weapon_bounce : double;
  s_shadow_on : double;
  s_weapon_class : bytes;
  s_weapon_state : double;
  s_weapon_glow : bytes;
  s_recall_glow : bool;
  s_weapon_pos : option vec3;
  s_weapon_rot : option vec3;
  s_projectile_active : bool;
  s_projectile_vfx : bytes;
  s_prj_pos : option vec3;
  s_prj_rot : option vec3;
  s_blink_count : double;
  s_death_count : double;
  s_hurt_count : double
}.

(** The payload, state and extras objects; [(0, 0)] when there are no extras. *)
Definition render_spans (line : bytes) : option (span * span * span) :=
  match json_root_body line with
  | None => None
  | Some root =>
      match json_object_member line root.1 root.2 (str "payload") with
      | None => None
      | Some payload =>
          match json_object_member line payload.1 payload.2 (str "state") with
          | None => None
          | Some st =>
              Some (payload, st,
                    default (0, 0) (json_object_member line st.1 st.2 (str "extras")))
          end
      end
  end.

Definition read_sample (line : bytes) (payload st ex : span) (pos : vec3) : sample :=
  let num key := read_number line ex key dzero in
  {| s_pos := pos;
     s_rot := interpolated_rotation line payload (read_orientation line st);
     s_ts := match json_number_member line st.1 st.2 (str "timestamp") dzero with
             | (true, ts) => if isfinite ts then Some ts else None
             | (false, _) => None
             end;
     s_move_state := num "move_state"; s_action_state := num "action_state";
     s_h_speed := bound_speed (num "h_speed"); s_v_speed := bound_speed (num "v_speed");
     s_anim_jump_type := num "anim_jump_type"; s_movement_mode := num "movement_mode";
     s_land_count := num "land_count"; s_jump_count := num "jump_count";
     s_afterimage_count := num "afterimage_count"; s_afterimage_n := num "afterimage_n";
     s_capsule_half := num "capsule_half"; s_slide_t := read_number line ex "slide_t" (of_Z 1);
     s_afterimage_color := read_vec3 line ex "afterimage_color";
     s_weapon_equipped := nonzero (num "weapon_equipped");
     s_bubble_charged := nonzero (num "bubble_charged");
     s_outfit_mesh := read_string line ex "outfit_mesh"; s_weapon_mesh := read_string line ex "weapon_mesh";
     s_montage := read_string line ex "montage"; s_vfx := read_string line ex "vfx";
     s_montage_count := num "montage_count"; s_montage_stop_count := num "montage_stop_count";
     s_weapon_thrown := nonzero (num "weapon_thrown"); s_weapon_bounce := num "weapon_bounce";
     s_shadow_on := read_number line ex "shadow_on" (of_Z 1);
     s_weapon_class := read_string line ex "weapon_class"; s_weapon_state := num "weapon_state";
     s_weapon_glow := read_string line ex "weapon_glow"; s_recall_glow := nonzero (num "recall_glow");
     s_weapon_pos := read_finite3 line ex "weapon_pos"; s_weapon_rot := read_finite3 line ex "weapon_rot";
     s_projectile_active := nonzero (num "prj"); s_projectile_vfx := read_string line ex "prj_vfx";
     s_prj_pos := read_finite3 line ex "prj_pos"; s_prj_rot := read_finite3 line ex "prj_rot";
     s_blink_count := num "blink_count"; s_death_count := num "death_count";
     s_hurt_count := num "hurt_count" |}.

(** The player and the sample; [None] when the line renders nothing. *)
Definition render_sample (line : bytes) : option (bytes * sample) :=
  match render_spans line with
  | None => None
  | Some (payload, st, ex) =>
      let player_id := read_string line payload "player_id" in
      if bool_decide (player_id = []) then None
      else match read_finite3 line st "position" with
           | None => None
           | Some pos => Some (player_id, read_sample line payload st ex pos)
           end
  end.

(** * Applying it *)

Definition ends_with (s suffix : bytes) : bool :=
  (length suffix <=? length s)
  && compare_eq s (length s - length suffix) (length suffix) suffix.

Definition loopback_offset (player_id : bytes) : double * double :=
  if ends_with player_id (str "-ghost") then (LOOPBACK_GHOST_OFFSET_X, LOOPBACK_GHOST_OFFSET_Z)
  else (dzero, dzero).

Definition shrunk (capsule_half : double) : bool :=
  (capsule_half >? dzero)%double && (capsule_half <? GHOST_STANDING_CAPSULE_HALF)%double.

(** A shrunk capsule is held across the seams of a held slide. *)
Definition apply_capsule (now_ms : Z) (capsule_half : double) (w : wire) : wire :=
  if shrunk capsule_half then w <| last_shrunk_ms := now_ms |> <| target_capsule_half := capsule_half |>
  else if negb (last_shrunk_ms w =? 0)%Z && (u64 (now_ms - last_shrunk_ms w) <? SLIDE_SEAM_HOLD_MS)%Z
          && shrunk (target_capsule_half w) then w
  else w <| target_capsule_half := capsule_half |>.

Definition count (x : double) : Z := clamp_count_to_int x 0 COUNT_LIMIT 0.

Definition shift3 (v : vec3) (dx dz : double) : vec3 :=
  let '(x, y, z) := v in ((x + dx)%double, y, (z + dz)%double).

Definition clamp_color (v : vec3) : vec3 :=
  let '(r, g, b) := v in
  let c x := clamp_to_float x (of_Z (-1024)) (of_Z 1024) in (c r, c g, c b).

(** An empty string never overwrites a known one. *)
Definition keep_known (new old : bytes) : bytes := if bool_decide (new = []) then old else new.

(** The pose, the animation state, the counters and the capsule. *)
Definition apply_pose (player_id : bytes) (now_ms : Z) (s : sample) (w : wire) : wire :=
  let (ox, oz) := loopback_offset player_id in
  let '(x, y, z) := s_pos s in
  let slide_z_comp := if GHOST_SLIDE_Z_COMP && shrunk (s_capsule_half s)
                      then (GHOST_STANDING_CAPSULE_HALF - s_capsule_half s)%double else dzero in
  let w := w <| target_pos := ((x + ox)%double, y, (z + slide_z_comp + oz)%double) |>
             <| target_ts := default (target_ts w) (s_ts s) |>
             <| target_rot := s_rot s |>
             <| target_move_state := s_move_state s |> <| target_action_state := s_action_state s |>
             <| target_h_speed := s_h_speed s |> <| target_v_speed := s_v_speed s |>
             <| target_anim_jump_type := s_anim_jump_type s |>
             <| target_movement_mode := s_movement_mode s |>
             <| target_land_count := s_land_count s |> <| target_jump_count := s_jump_count s |>
             <| target_afterimage_count := s_afterimage_count s |>
             <| target_afterimage_spawn_n := s_afterimage_n s |> in
  apply_capsule now_ms (s_capsule_half s) w <| target_slide_t := s_slide_t s |>.

(** Appearance, montage, counters of moments. *)
Definition apply_look (s : sample) (w : wire) : wire :=
  let w := match s_afterimage_color s with
           | Some c => w <| target_afterimage_color := clamp_color c |> <| afterimage_color_valid := true |>
           | None => w
           end in
  w <| target_weapon_equipped := if WEAPON_SYNC_INVERT then negb (s_weapon_equipped s) else s_weapon_equipped s |>
    <| target_bubble_charged := s_bubble_charged s |>
    <| target_outfit_mesh := keep_known (s_outfit_mesh s) (target_outfit_mesh w) |>
    <| target_weapon_mesh := keep_known (s_weapon_mesh s) (target_weapon_mesh w) |>
    <| target_vfx := s_vfx s |> <| target_montage := s_montage s |>
    <| target_montage_count := s_montage_count s |>
    <| target_montage_stop_count := s_montage_stop_count s |>
    <| target_blink_count := count (s_blink_count s) |>
    <| target_death_count := count (s_death_count s) |>
    <| target_hurt_count := count (s_hurt_count s) |>.

(** The projectile and the thrown sword: a pose is written only when all of it came. *)
Definition apply_props (player_id : bytes) (s : sample) (w : wire) : wire :=
  let (ox, oz) := loopback_offset player_id in
  let w := match s_projectile_active s, s_prj_pos s, s_prj_rot s with
           | true, Some pos, Some rot =>
               w <| target_projectile_active := true |> <| target_projectile_vfx := s_projectile_vfx s |>
                 <| target_projectile_pos := shift3 pos ox oz |> <| target_projectile_rot := rot |>
           | _, _, _ => w <| target_projectile_active := false |>
           end in
  let w := w <| target_weapon_thrown := s_weapon_thrown s |> <| target_weapon_bounce := s_weapon_bounce s |>
             <| target_shadow_visible := nonzero (s_shadow_on s) |> in
  let w := match s_weapon_thrown s, s_weapon_pos s, s_weapon_rot s with
           | true, Some pos, Some rot =>
               w <| target_weapon_pos := shift3 pos ox oz |> <| target_weapon_rot := rot |>
                 <| target_weapon_state := s_weapon_state s |>
           | _, _, _ => w
           end in
  w <| target_weapon_class := keep_known (s_weapon_class s) (target_weapon_class w) |>
    <| target_weapon_glow := keep_known (s_weapon_glow s) (target_weapon_glow w) |>
    <| target_recall_glow := s_recall_glow s |>.

(** A peer's first sample baselines every counter. *)
Definition baseline (s : sample) : seen :=
  {| last_seen_land_count := s_land_count s; last_seen_jump_count := s_jump_count s;
     last_seen_montage_count := s_montage_count s;
     last_seen_montage_stop_count := s_montage_stop_count s;
     last_seen_blink_count := count (s_blink_count s); last_seen_death_count := count (s_death_count s);
     last_seen_hurt_count := count (s_hurt_count s);
     last_seen_afterimage_count := s_afterimage_count s |}.

Definition apply_sample (player_id : bytes) (now_ms : Z) (is_new_remote : bool) (s : sample)
    (g : RemoteGhost) : RemoteGhost :=
  let w := apply_props player_id s (apply_look s (apply_pose player_id now_ms s (wire_state g))) in
  let g := g <| wire_state := w |> in
  if is_new_remote then g <| counters_seen := baseline s |> else g.

Definition on_render_remote (env : spawn_env) (now_ms : Z) (line : bytes) (p : plugin) : plugin :=
  match render_sample line with
  | None => p
  | Some (player_id, s) =>
      let is_new_remote := match remotes p !! player_id with Some _ => false | None => true end in
      let p := ensure_ghost_spawned player_id env p in
      match remotes p !! player_id with
      | None => p
      | Some g => set_remote player_id (apply_sample player_id now_ms is_new_remote s g) p
      end
  end.

(** * The other messages *)

Definition payload_span (line : bytes) : option span :=
  match json_root_body line with
  | None => None
  | Some root => json_object_member line root.1 root.2 (str "payload")
  end.

Definition on_remote_name (line : bytes) (p : plugin) : plugin :=
  match payload_span line with
  | None => p
  | Some payload =>
      let player_id := read_string line payload "player_id" in
      if bool_decide (player_id = []) then p
      else
        let tags :=
          if (MAX_REMEMBERED_NAMETAGS <=? size (nametags p)) && bool_decide (nametags p !! player_id = None)
          then filter (fun kv => is_Some (remotes p !! kv.1)) (nametags p) else nametags p in
        let tag := {| tag_name := read_string line payload "display_name";
                      tag_color := read_string line payload "color" |} in
        p <| nametags := <[player_id := tag]> tags |>
  end.

Definition on_recording_state (line : bytes) (p : plugin) : plugin :=
  match payload_span line with
  | None => p
  | Some payload =>
      let recording := read_number line payload "recording" dzero in
      let active := nonzero recording || json_bool_member line payload.1 payload.2 (str "recording") in
      let started := read_number line payload "started_unix_ms" dzero in
      p <| g_recording_active := active |>
        <| g_recording_started_unix_ms :=
             if active && isfinite started && (started >? dzero)%double then cast_int started else 0%Z |>
  end.

(** The bounds on an edge's numbers. *)
Definition in_bounds (x hi : double) : bool :=
  negb (negb (isfinite x) || (x <? dzero)%double || (x >? hi)%double).

Definition UINT32_LIMIT : double := of_Z 4294967295.

(** One object of [edges]; [None] when it is dropped. *)
Definition read_edge (line : bytes) (o : span) : option GhostInputEdge :=
  let f := read_number line o "f" dzero in
  let t := read_number line o "t" dzero in
  let m := read_number line o "m" dzero in
  match json_number_member line o.1 o.2 (str "at") dzero with
  | (false, _) => None
  | (true, at_) =>
      if negb (isfinite at_) then None
      else if negb (in_bounds f MAX_INPUT_FRAME && in_bounds t MAX_INPUT_T_MS) then None
      else
        Some {| e_f := cast_int f; e_t := cast_int t;
                e_m := if in_bounds m UINT32_LIMIT then cast_int m else 0%Z;
                e_ax := match json_array_member line o.1 o.2 (str "ax") with
                        | Some a => json_number_array line a.1 a.2 8
                        | None => []
                        end;
                e_at := at_ |}
  end.

(** A full queue refuses the newest and counts it. *)
Definition push_edge (e : GhostInputEdge) (track : GhostInputTrack) : GhostInputTrack :=
  if GHOST_INPUT_EDGE_CAP <=? length (edges track) then
    track <| dropped := (dropped track + 1)%N |> <| drop_logged := true |>
  else track <| edges := edges track ++ [e] |>.

Definition edges_body (line : bytes) (limit : nat) (st : nat * GhostInputTrack)
    : (nat * GhostInputTrack) + GhostInputTrack :=
  let (pos, track) := st in
  match json_next_object line pos limit with
  | None => inr track
  | Some (pos', o) =>
      inl (pos', match read_edge line o with Some e => push_edge e track | None => track end)
  end.

Definition read_edges (line : bytes) (a : span) (track : GhostInputTrack) : GhostInputTrack :=
  loop (fun st => to_go a.2 st.1) (edges_body line a.2) track (a.1, track).

Definition reset_track (track : GhostInputTrack) : GhostInputTrack :=
  track <| edges := [] |> <| have_state := false |> <| mask := 0%Z |> <| dropped := 0%N |>
        <| drop_logged := false |>.

Definition set_labels (a : option span) (line : bytes) (track : GhostInputTrack) : GhostInputTrack :=
  match a with
  | Some a => track <| labels := json_string_array line a.1 a.2 32 |>
  | None => track
  end.
Definition set_axes (a : option span) (line : bytes) (track : GhostInputTrack) : GhostInputTrack :=
  match a with
  | Some a => track <| axes := json_string_array line a.1 a.2 8 |>
  | None => track
  end.
Definition add_edges (a : option span) (line : bytes) (track : GhostInputTrack) : GhostInputTrack :=
  match a with
  | Some a => read_edges line a track
  | None => track
  end.

(** The track after the payload: reset, labels, axes, source, then the edges. *)
Definition update_track (line : bytes) (payload : span) (reset : bool) (track : GhostInputTrack)
    : GhostInputTrack :=
  let arr key := json_array_member line payload.1 payload.2 (str key) in
  let track := if reset then reset_track track else track in
  let track := set_axes (arr "axes") line (set_labels (arr "labels") line track) in
  let track := track <| source := keep_known (read_string line payload "source") (source track) |> in
  add_edges (arr "edges") line track.

Definition on_remote_input (line : bytes) (p : plugin) : plugin :=
  match payload_span line with
  | None => p
  | Some payload =>
      let player_id := read_string line payload "player_id" in
      if bool_decide (player_id = []) then p
      else
        let track := default GhostInputTrack0 (ghost_inputs p !! player_id) in
        let reset := json_bool_member line payload.1 payload.2 (str "reset") in
        let p := if reset && bool_decide (player_id = g_disp_ghost_id p)
                 then p <| g_disp_ghost_panel := g_disp_ghost_panel p <| rows := [] |> <| last_text := [] |> |>
                 else p in
        p <| ghost_inputs := <[player_id := update_track line payload reset track]> (ghost_inputs p) |>
  end.

Definition on_session_policy (line : bytes) (p : plugin) : plugin :=
  match payload_span line with
  | None => p
  | Some payload =>
      p <| g_chaser_contact_mode := read_string line payload "chaser_contact" |>
        <| logged_collision_once := true |>
  end.

Definition on_despawn_remote (env : release_env) (line : bytes) (p : plugin) : plugin * list engine_call :=
  match payload_span line with
  | None => (p, [])
  | Some payload =>
      let player_id := read_string line payload "player_id" in
      if bool_decide (player_id = []) then (p, [])
      else
        let (p, calls) := release_ghost env player_id p in
        (p <| remotes := delete player_id (remotes p) |>
           <| ghost_inputs := delete player_id (ghost_inputs p) |>, calls)
  end.

(** * The handler *)

Record line_env := LineEnv { l_spawn : spawn_env; l_release : release_env; l_now_ms : Z }.

Definition handle_bridge_line (env : line_env) (line : bytes) (p : plugin) : plugin * list engine_call :=
  let type := json_string_field line (str "type") in
  let p := p <| seen_types := {[type]} ∪ seen_types p |> in
  if bool_decide (type = str "render_remote") then (on_render_remote (l_spawn env) (l_now_ms env) line p, [])
  else if bool_decide (type = str "remote_name") then (on_remote_name line p, [])
  else if bool_decide (type = str "recording_state") then (on_recording_state line p, [])
  else if bool_decide (type = str "remote_input") then (on_remote_input line p, [])
  else if bool_decide (type = str "session_policy") then (on_session_policy line p, [])
  else if bool_decide (type = str "despawn_remote") then on_despawn_remote (l_release env) line p
  else (p, []).

#[export] Instance edges_decreasing line limit :
  Decreasing (fun st : nat * GhostInputTrack => to_go limit st.1) (edges_body line limit).
Proof.
  intros [pos track] [pos' track'] E. unfold edges_body in E.
  destruct (json_next_object line pos limit) as [[q [b e]]|] eqn:Hn; [|done].
  apply json_next_object_Some in Hn. simplify_eq. unfold to_go. simpl. lia.
Qed.
