(* ===== verification/BridgeLineFacts.v ===== *)
(** Lemmas on the bridge lines: what the readers can return, and the invariant of the
    plugin's state. *)
From S2P Require Import Prelude Float64 FloatFacts JsonString JsonScoped ScanFacts JsonBounds.
From S2P Require Import RemoteGhost Lifecycle BridgeLine.
From Stdlib Require Import ZArith.

(** * The invariant *)

Definition speed_ok (v : double) : Prop :=
  dle (of_Z (-1000000)) v = true /\ dle v (of_Z 1000000) = true.
Definition color_ok (v : vec3) : Prop :=
  let '(r, g, b) := v in
  let ok x := wf_float x = true /\ dle (of_Z (-1024)) x = true /\ dle x (of_Z 1024) = true in
  ok r /\ ok g /\ ok b.
Definition count_ok (n : Z) : Prop := (0 <= n <= 1000000000)%Z.

(** What reaches the engine from a peer's state: every position and rotation is finite,
    every speed and colour bounded, every counter an [int]. *)
Record wire_ok (w : wire) : Prop := WireOk {
  pos_ok : finite3 (target_pos w) = true;
  rot_ok : finite3 (target_rot w) = true;
  ts_ok : isfinite (target_ts w) = true;
  hs_ok : speed_ok (target_h_speed w); vs_ok : speed_ok (target_v_speed w);
  col_ok : color_ok (target_afterimage_color w);
  blink_ok : count_ok (target_blink_count w); death_ok : count_ok (target_death_count w);
  hurt_ok : count_ok (target_hurt_count w);
  prj_pos_ok : finite3 (target_projectile_pos w) = true;
  prj_rot_ok : finite3 (target_projectile_rot w) = true;
  wpn_pos_ok : finite3 (target_weapon_pos w) = true; wpn_pos_wf : wf3 (target_weapon_pos w);
  wpn_rot_ok : finite3 (target_weapon_rot w) = true; wpn_rot_wf : wf3 (target_weapon_rot w)
}.

(** An edge fits the integer types it is stored in. *)
Record edge_ok (e : GhostInputEdge) : Prop := EdgeOk {
  f_ok : (0 <= e_f e <= 2 ^ 53)%Z; t_ok : (0 <= e_t e <= 2 ^ 42)%Z;
  m_ok : (0 <= e_m e <= 4294967295)%Z; ax_ok : length (e_ax e) <= 8; at_ok : isfinite (e_at e) = true
}.

Record track_ok (t : GhostInputTrack) : Prop := TrackOk {
  edges_ok : Forall edge_ok (edges t);
  cap_ok : length (edges t) <= GHOST_INPUT_EDGE_CAP;
  labels_ok : length (labels t) <= 32; axes_ok : length (axes t) <= 8;
  mask_ok : (0 <= mask t <= 4294967295)%Z; held_ok : length (ax t) = 8; held_n_ok : (0 <= ax_n t <= 8)%Z
}.

Definition plugin_ok (p : plugin) : Prop :=
  map_Forall (fun _ g => wire_ok (wire_state g)) (remotes p) /\
  map_Forall (fun _ t => track_ok t) (ghost_inputs p).

(** * What a reader returns *)

Lemma read_finite3_Some line o key v : read_finite3 line o key = Some v -> finite3 v = true /\ wf3 v.
Proof.
  unfold read_finite3, read_vec3.
  pose proof (json_vec3_member_wf line o.1 o.2 (str key) vzero) as Hw.
  destruct (json_vec3_member line o.1 o.2 (str key) vzero) as [[] v']; [|done].
  destruct (finite3 v') eqn:E; [|done]. intros ?; simplify_eq. split; [done|]. by apply Hw.
Qed.

Lemma interpolated_finite line payload raw :
  finite3 raw = true -> finite3 (interpolated_rotation line payload raw) = true.
Proof.
  intros Hr. unfold interpolated_rotation. destruct (negb GHOST_ROTATION_SLERP); [done|].
  destruct (read_vec3 line payload "orientation_from") as [[[a b] c]|]; [|done].
  destruct (read_vec3 line payload "orientation_to") as [[[a' b'] c']|]; [|done].
  destruct (json_number_member _ _ _ _ _) as [[] t]; [|done].
  destruct (_ && _); [|done]. cbv zeta. unfold finite3. by rewrite !lerp_isfinite.
Qed.

Lemma read_orientation_finite line st : finite3 (read_orientation line st) = true.
Proof.
  unfold read_orientation. cbv zeta.
  destruct (finite3 (json_vec3_member line st.1 st.2 (str "orientation") vzero).2) eqn:E; [exact E|done].
Qed.

Lemma bound_speed_ok v : speed_ok (bound_speed v).
Proof.
  unfold bound_speed. destruct (_ || _) eqn:E; [by vm_compute|].
  apply orb_false_iff in E as [[E1 E2]%orb_false_iff E3].
  assert (dneg SPEED_LIMIT = of_Z (-1000000)) as Eneg by (by vm_compute). rewrite Eneg in E2.
  split; apply dlt_false_dle; try done; by destruct v.
Qed.

Lemma count_count_ok x : count_ok (count x).
Proof. apply clamp_count_between; done. Qed.

Lemma clamp_color_ok v : color_ok (clamp_color v).
Proof.
  destruct v as [[r g] b]. unfold color_ok, clamp_color. cbv zeta.
  repeat match goal with |- _ /\ _ => split end;
    eapply clamp_to_float_between; by vm_compute.
Qed.

(** The loopback offset and the slide compensation never overflow a position. *)
Lemma offset_small d n m : d = of_Z 150 \/ d = of_Z 0 \/ d = dzero -> d = DFin n m -> (m <= 2 ^ 2043)%N.
Proof.
  assert (of_Z 150 = DFin false (150 * scale)) as E1 by (by vm_compute).
  assert (of_Z 0 = DFin false 0) as E2 by (by vm_compute).
  rewrite E1, E2. intros [-> | [-> | ->]] E; injection E as _ <-; by vm_compute.
Qed.

Lemma offset_finite x d :
  wf x -> isfinite x = true -> d = of_Z 150 \/ d = of_Z 0 \/ d = dzero ->
  isfinite (x + d)%double = true /\ wf (x + d)%double.
Proof.
  intros Hw Hf Hd. apply dadd_small; try done.
  - destruct Hd as [-> | [-> | ->]]; by vm_compute.
  - intros n m E. by eapply offset_small.
Qed.

Lemma loopback_cases id :
  loopback_offset id = (of_Z 150, of_Z 0) \/ loopback_offset id = (dzero, dzero).
Proof. unfold loopback_offset. destruct (ends_with _ _); auto. Qed.

Lemma shift3_finite v id :
  wf3 v -> finite3 v = true ->
  finite3 (shift3 v (loopback_offset id).1 (loopback_offset id).2) = true /\
  wf3 (shift3 v (loopback_offset id).1 (loopback_offset id).2).
Proof.
  destruct v as [[x y] z]. unfold finite3, wf3, shift3. intros (Wx & Wy & Wz) Hf.
  apply andb_true_iff in Hf as [[Fx Fy]%andb_true_iff Fz].
  assert ((loopback_offset id).1 = of_Z 150 \/ (loopback_offset id).1 = of_Z 0 \/ (loopback_offset id).1 = dzero) as H1
    by (destruct (loopback_cases id) as [-> | ->]; auto).
  assert ((loopback_offset id).2 = of_Z 150 \/ (loopback_offset id).2 = of_Z 0 \/ (loopback_offset id).2 = dzero) as H2
    by (destruct (loopback_cases id) as [-> | ->]; auto).
  destruct (offset_finite x _ Wx Fx H1) as [-> ?], (offset_finite z _ Wz Fz H2) as [-> ?]. by rewrite Fy.
Qed.

(** * A sample and its application *)

Definition opt_ok (o : option vec3) : Prop :=
  match o with Some v => finite3 v = true /\ wf3 v | None => True end.

Record sample_ok (s : sample) : Prop := SampleOk {
  sp_pos : finite3 (s_pos s) = true /\ wf3 (s_pos s);
  sp_rot : finite3 (s_rot s) = true;
  sp_ts : match s_ts s with Some t => isfinite t = true | None => True end;
  sp_hs : speed_ok (s_h_speed s); sp_vs : speed_ok (s_v_speed s);
  sp_wpos : opt_ok (s_weapon_pos s); sp_wrot : opt_ok (s_weapon_rot s);
  sp_ppos : opt_ok (s_prj_pos s); sp_prot : opt_ok (s_prj_rot s)
}.

Lemma read_finite3_ok line o key : opt_ok (read_finite3 line o key).
Proof. unfold opt_ok. destruct (read_finite3 line o key) eqn:E; [by eapply read_finite3_Some|done]. Qed.

Lemma render_sample_ok line id s : render_sample line = Some (id, s) -> sample_ok s /\ id <> [].
Proof.
  unfold render_sample. destruct (render_spans line) as [[[payload st] ex]|]; [|done].
  case_bool_decide; [done|]. destruct (read_finite3 line st "position") as [pos|] eqn:Ep; [|done].
  intros ?; simplify_eq. split; [|done]. apply read_finite3_Some in Ep.
  unfold read_sample. split; cbn [s_pos s_rot s_ts s_h_speed s_v_speed s_weapon_pos s_weapon_rot s_prj_pos s_prj_rot].
  - done.
  - apply interpolated_finite, read_orientation_finite.
  - destruct (json_number_member line st.1 st.2 (str "timestamp") dzero) as [[] ts]; [|done].
    destruct (isfinite ts) eqn:E; [exact E|done].
  - apply bound_speed_ok.
  - apply bound_speed_ok.
  - apply read_finite3_ok.
  - apply read_finite3_ok.
  - apply read_finite3_ok.
  - apply read_finite3_ok.
Qed.

Lemma apply_capsule_ok now c w : wire_ok w -> wire_ok (apply_capsule now c w).
Proof.
  intros Hw. unfold apply_capsule. destruct (shrunk c); [|destruct (_ && _); [done|]];
    destruct w, Hw; by split.
Qed.

Lemma apply_pose_ok id now s w : sample_ok s -> wire_ok w -> wire_ok (apply_pose id now s w).
Proof.
  intros [[Fp Wp] Hr Ht Hh Hv _ _ _ _] Hw. unfold apply_pose.
  assert (finite3 (let '(x, y, z) := s_pos s in
    ((x + (loopback_offset id).1)%double, y, (z + dzero + (loopback_offset id).2)%double)) = true) as Hpos.
  { destruct (s_pos s) as [[x y] z]. destruct Wp as (Wx & Wy & Wz).
    unfold finite3 in Fp. apply andb_true_iff in Fp as [[Fx Fy]%andb_true_iff Fz].
    destruct (offset_finite z dzero Wz Fz ltac:(auto)) as [F W].
    pose proof (shift3_finite (x, y, (z + dzero)%double) id) as Hs. unfold shift3, finite3, wf3 in Hs.
    unfold finite3. apply Hs; [done|]. by rewrite Fx, Fy, F. }
  destruct (loopback_offset id) as [ox oz], (s_pos s) as [[x y] z]. cbn [fst snd] in Hpos.
  cbv zeta. unfold GHOST_SLIDE_Z_COMP. cbn [andb].
  match goal with |- wire_ok (apply_capsule _ _ ?w' <| target_slide_t := _ |>) =>
    assert (wire_ok w') as H1 end.
  { destruct w, Hw; split; try done. cbn. by destruct (s_ts s). }
  apply (apply_capsule_ok now (s_capsule_half s)) in H1. revert H1.
  generalize (apply_capsule now (s_capsule_half s)). intros f H1.
  match goal with |- wire_ok (?w' <| target_slide_t := _ |>) => revert H1; generalize w' end.
  intros w' H1. destruct w', H1; by split.
Qed.

Lemma apply_look_ok s w : wire_ok w -> wire_ok (apply_look s w).
Proof.
  intros Hw. unfold apply_look. set (w1 := match s_afterimage_color s with Some _ => _ | None => _ end).
  assert (wire_ok w1) as H1.
  { unfold w1. destruct (s_afterimage_color s) as [c|]; [|done].
    destruct w, Hw; split; try done. apply clamp_color_ok. }
  clearbody w1. cbv zeta. destruct w1, H1; split; try done; apply count_count_ok.
Qed.

Lemma apply_props_ok id s w : sample_ok s -> wire_ok w -> wire_ok (apply_props id s w).
Proof.
  intros [_ _ _ _ _ Hwp Hwr Hpp Hpr] Hw. unfold apply_props.
  pose proof (fun v W F => shift3_finite v id W F) as Hshift.
  destruct (loopback_offset id) as [ox oz]. cbn [fst snd] in Hshift.
  set (w1 := match s_projectile_active s with true => _ | false => _ end).
  assert (wire_ok w1) as H1.
  { unfold w1. destruct (s_projectile_active s); [|destruct w, Hw; by split].
    destruct (s_prj_pos s) as [pp|]; [|destruct w, Hw; by split].
    destruct (s_prj_rot s) as [pr|]; [|destruct w, Hw; by split].
    destruct Hpp as [F W], Hpr as [F' _]. destruct (Hshift pp W F). destruct w, Hw; by split. }
  clearbody w1. cbv zeta.
  match goal with |- context [match s_weapon_thrown s with true => _ | false => ?w' end] =>
    assert (wire_ok w') as H2 by (destruct w1, H1; by split); revert H2; generalize w' end.
  intros w2 H2. set (w3 := match s_weapon_thrown s with true => _ | false => _ end).
  assert (wire_ok w3) as H3.
  { unfold w3. destruct (s_weapon_thrown s); [|done].
    destruct (s_weapon_pos s) as [pp|]; [|done]. destruct (s_weapon_rot s) as [pr|]; [|done].
    destruct Hwp as [F W], Hwr as [F' W']. destruct (Hshift pp W F). destruct w2, H2; by split. }
  clearbody w3. destruct w3, H3; by split.
Qed.

Lemma apply_sample_ok id now new s g :
  sample_ok s -> wire_ok (wire_state g) -> wire_ok (wire_state (apply_sample id now new s g)).
Proof.
  intros Hs Hg. unfold apply_sample. cbv zeta.
  assert (wire_ok (apply_props id s (apply_look s (apply_pose id now s (wire_state g))))) as H
    by (by apply apply_props_ok, apply_look_ok, apply_pose_ok).
  by destruct new, g.
Qed.

(** * Spawning *)

(** The engine places the pawn at a finite location. *)
Definition spawn_env_ok (env : spawn_env) : Prop :=
  match local_pawn env with
  | Some pw => finite3 (p_location pw) = true /\ wf3 (p_location pw)
  | None => True
  end.

Lemma far_offset_finite z :
  wf z -> isfinite z = true ->
  isfinite ((z + GHOST_FAR_SPAWN_Z_OFFSET) - GHOST_FAR_SPAWN_Z_OFFSET)%double = true.
Proof.
  intros Hw Hf. assert (GHOST_FAR_SPAWN_Z_OFFSET = DFin false (5000 * scale)) as E by (by vm_compute).
  assert (5000 * scale <= 2 ^ 2043)%N as Hle by (by vm_compute).
  destruct (dadd_small z GHOST_FAR_SPAWN_Z_OFFSET Hw Hf) as [F W].
  - by rewrite E.
  - rewrite E. intros n m E'. injection E' as _ <-. exact Hle.
  - unfold dsub. apply dadd_small; [done|done|by rewrite E|].
    rewrite E. cbn [dneg]. intros n m E'. injection E' as _ <-. exact Hle.
Qed.

Lemma spawned_entry_ok env actor world loc g :
  finite3 loc = true -> wf3 loc -> wire_ok (wire_state g) ->
  wire_ok (wire_state (spawned_entry env actor world loc g)).
Proof.
  intros Hf Hw Hg. unfold spawned_entry. destruct loc as [[x y] z].
  assert (finite3 (x, y, if ghost_spawn_far env
    then ((z + GHOST_FAR_SPAWN_Z_OFFSET) - GHOST_FAR_SPAWN_Z_OFFSET)%double else z) = true) as Hp.
  { unfold finite3 in *. apply andb_true_iff in Hf as [[-> ->]%andb_true_iff Fz].
    destruct Hw as (_ & _ & Wz). destruct (ghost_spawn_far env); [|done]. by apply far_offset_finite. }
  cbv zeta. destruct g as [w ? ? ? ? ? ?]. cbn in *. destruct w, Hg. by split.
Qed.

Lemma wire0_ok : wire_ok wire0.
Proof. split; by vm_compute. Qed.

Lemma remote_of_ok id p : plugin_ok p -> wire_ok (wire_state (remote_of id p)).
Proof.
  intros [Hr _]. unfold remote_of. destruct (remotes p !! id) as [g|] eqn:E; [by eapply Hr|].
  apply wire0_ok.
Qed.

Lemma set_remote_ok id g p : plugin_ok p -> wire_ok (wire_state g) -> plugin_ok (set_remote id g p).
Proof.
  intros [Hr Ht] Hg. split; [|exact Ht]. unfold set_remote. cbn. by apply map_Forall_insert_2.
Qed.

Lemma spawn_allowed_loc env p id world loc :
  spawn_env_ok env -> spawn_allowed env p id = Some (world, loc) -> finite3 loc = true /\ wf3 loc.
Proof.
  unfold spawn_env_ok, spawn_allowed. intros Henv E.
  destruct (ghost _); [done|]. destruct (local_pawn env) as [pw|]; [|done].
  repeat split_match_in E; by simplify_eq.
Qed.

Lemma ensure_ok id env p : spawn_env_ok env -> plugin_ok p -> plugin_ok (ensure_ghost_spawned id env p).
Proof.
  intros Henv Hp. unfold ensure_ghost_spawned.
  destruct (spawn_allowed env p id) as [[world loc]|] eqn:E; [|done].
  destruct (spawn_allowed_loc _ _ _ _ _ Henv E) as [Hf Hw].
  destruct (spawned_actor env) as [actor|]; [|done]. pose proof (remote_of_ok id p Hp) as Hg.
  cbv zeta. destruct (bare_ghost env).
  - destruct (set_remote_ok id (remote_of id p <| engine_objects := engine_objects (remote_of id p)
      <| ghost := Some actor |> <| owning_world := Some world |> |>) p Hp) as [H1 H2]; [by destruct (remote_of id p)|].
    by split.
  - destruct (set_remote_ok id (spawned_entry env actor world loc (remote_of id p)) p Hp) as [H1 H2];
      [by apply spawned_entry_ok|]. by split.
Qed.

(** * Input edges *)

Lemma in_bounds_cast x hi :
  (0 <= hi <= 2 ^ 53)%Z -> in_bounds x (of_Z hi) = true -> (0 <= cast_int x <= hi)%Z.
Proof.
  intros Hhi E. unfold in_bounds in E. rewrite negb_true_iff in E.
  apply orb_false_iff in E as [[E1 E2]%orb_false_iff E3].
  assert (dzero = of_Z 0) as E0 by (by vm_compute). rewrite E0 in E2.
  apply (cast_int_between x 0 hi); [by destruct x|done|done|lia|lia].
Qed.

Lemma json_number_array_length s b e max : length (json_number_array s b e max) <= max.
Proof.
  unfold json_number_array.
  apply (loop_inv _ (number_array_body s _ max) (fun st => length st.2 <= max) (fun r => length r <= max)).
  - intros [i out] [i' out'] Hi E. unfold number_array_body in E. simpl in *.
    repeat split_match_in E; simplify_eq; rewrite ?length_app; simpl; lia.
  - intros [i out] r Hi E. unfold number_array_body in E. simpl in *.
    repeat split_match_in E; simplify_eq; rewrite ?length_app; simpl; lia.
  - simpl. lia.
Qed.

Lemma json_string_array_length s b e max : length (json_string_array s b e max) <= max.
Proof.
  unfold json_string_array.
  apply (loop_inv _ (string_array_body s _ max) (fun st => length st.2 <= max) (fun r => length r <= max)).
  - intros [i out] [i' out'] Hi E. unfold string_array_body in E. simpl in *.
    repeat split_match_in E; simplify_eq; rewrite ?length_app; simpl; lia.
  - intros [i out] r Hi E. unfold string_array_body in E. simpl in *.
    repeat split_match_in E; simplify_eq; rewrite ?length_app; simpl; lia.
  - simpl. lia.
Qed.

Lemma read_edge_ok line o e : read_edge line o = Some e -> edge_ok e.
Proof.
  intros E. unfold read_edge in E. cbv zeta in E.
  destruct (json_number_member _ _ _ _ _) as [[] at_]; [|done].
  destruct (isfinite at_) eqn:Ha; [|done]. cbn [negb] in E.
  destruct (in_bounds _ MAX_INPUT_FRAME) eqn:Hf; [|done].
  destruct (in_bounds _ MAX_INPUT_T_MS) eqn:Ht; [|done]. cbn [negb andb] in E. simplify_eq.
  split; cbn [e_f e_t e_m e_ax e_at]; [by apply in_bounds_cast|by apply in_bounds_cast| | |done].
  - destruct (in_bounds _ UINT32_LIMIT) eqn:Hm; [by apply in_bounds_cast|done].
  - destruct (json_array_member _ _ _ _) as [a|]; [apply json_number_array_length|simpl; lia].
Qed.

(** All the edges of an array, in order. *)
Definition collect_body (line : bytes) (limit : nat) (st : nat * list GhostInputEdge)
    : (nat * list GhostInputEdge) + list GhostInputEdge :=
  let (pos, es) := st in
  match json_next_object line pos limit with
  | None => inr es
  | Some (pos', o) => inl (pos', es ++ option_list (read_edge line o))
  end.
Definition array_edges (line : bytes) (a : span) : list GhostInputEdge :=
  loop (fun st => to_go a.2 st.1) (collect_body line a.2) [] (a.1, []).

#[export] Instance collect_decreasing line limit :
  Decreasing (fun st : nat * list GhostInputEdge => to_go limit st.1) (collect_body line limit).
Proof.
  intros [pos es] [pos' es'] E. unfold collect_body in E.
  destruct (json_next_object line pos limit) as [[q [b e]]|] eqn:Hn; [|done].
  apply json_next_object_Some in Hn. simplify_eq. unfold to_go. simpl. lia.
Qed.

(** Pushing a list of edges. *)
Definition push_edges (es : list GhostInputEdge) (t : GhostInputTrack) : GhostInputTrack :=
  foldl (fun t e => push_edge e t) t es.

Lemma read_edges_collects line a t : read_edges line a t = push_edges (array_edges line a) t.
Proof.
  unfold read_edges, array_edges.
  apply (loop_sim _ (edges_body line a.2) t _ (collect_body line a.2) []
    (fun s1 s2 => s1.1 = s2.1 /\ s1.2 = push_edges s2.2 t) (fun r1 r2 => r1 = push_edges r2 t)).
  - intros [pos t1] [pos2 es] [Ep Et]. simpl in *. subst pos2. unfold edges_body, collect_body.
    destruct (json_next_object line pos a.2) as [[q o]|]; [|done]. split; [done|]. simpl.
    unfold push_edges in *. rewrite foldl_app, <- Et. by destruct (read_edge line o).
  - done.
Qed.

Lemma push_edges_spec es : forall t,
  edges (push_edges es t) = edges t ++ take (GHOST_INPUT_EDGE_CAP - length (edges t)) es /\
  dropped (push_edges es t)
    = (dropped t + N.of_nat (length es - (GHOST_INPUT_EDGE_CAP - length (edges t))))%N /\
  labels (push_edges es t) = labels t /\ axes (push_edges es t) = axes t.
Proof.
  induction es as [|e es IH]; intros t.
  - simpl. rewrite take_nil, app_nil_r. repeat split. lia.
  - change (push_edges (e :: es) t) with (push_edges es (push_edge e t)).
    destruct (IH (push_edge e t)) as (-> & -> & -> & ->). unfold push_edge.
    generalize GHOST_INPUT_EDGE_CAP. intros cap.
    destruct (Nat.leb_spec cap (length (edges t))) as [Hc|Hc]; cbn -[Nat.sub take length].
    + replace (cap - length (edges t)) with 0 by lia. simpl. repeat split. lia.
    + rewrite length_app. simpl length.
      replace (cap - length (edges t)) with (S (cap - (length (edges t) + 1))) by lia.
      simpl. rewrite <- app_assoc. repeat split; try done; f_equal; lia.
Qed.

Lemma array_edges_ok line a : Forall edge_ok (array_edges line a).
Proof.
  unfold array_edges.
  apply (loop_inv _ (collect_body line a.2) (fun st => Forall edge_ok st.2) (Forall edge_ok)).
  - intros [pos es] [pos' es'] H E. unfold collect_body in E.
    destruct (json_next_object _ _ _) as [[q o]|]; [|done]. simplify_eq. simpl in *.
    apply Forall_app; split; [done|]. destruct (read_edge line o) eqn:Er; simpl; [|done].
    constructor; [by eapply read_edge_ok|done].
  - intros [pos es] r H E. unfold collect_body in E.
    destruct (json_next_object _ _ _) as [[q o]|]; [done|]. by simplify_eq.
  - done.
Qed.

(** The state already applied is not touched by what is queued. *)
Lemma push_edges_held es : forall t,
  mask (push_edges es t) = mask t /\ ax (push_edges es t) = ax t /\ ax_n (push_edges es t) = ax_n t.
Proof.
  induction es as [|e es IH]; intros t; [done|].
  change (push_edges (e :: es) t) with (push_edges es (push_edge e t)).
  destruct (IH (push_edge e t)) as (-> & -> & ->). unfold push_edge. by destruct (_ <=? _).
Qed.

Lemma read_edges_ok line a t : track_ok t -> track_ok (read_edges line a t).
Proof.
  intros [He Hc Hl Hx Hm Ha Hn]. rewrite read_edges_collects.
  destruct (push_edges_spec (array_edges line a) t) as (E1 & _ & E3 & E4).
  destruct (push_edges_held (array_edges line a) t) as (E5 & E6 & E7).
  split; rewrite ?E1, ?E3, ?E4, ?E5, ?E6, ?E7; try done.
  - apply Forall_app; split; [done|]. apply Forall_take, array_edges_ok.
  - rewrite length_app, length_take. revert Hc. generalize GHOST_INPUT_EDGE_CAP. lia.
Qed.

(** * Each handler keeps the invariant *)

Lemma on_render_ok env now line p :
  spawn_env_ok env -> plugin_ok p -> plugin_ok (on_render_remote env now line p).
Proof.
  intros Henv Hp. unfold on_render_remote.
  destruct (render_sample line) as [[id s]|] eqn:E; [|done].
  apply render_sample_ok in E as [Hs _]. cbv zeta.
  pose proof (ensure_ok id env p Henv Hp) as He.
  destruct (remotes (ensure_ghost_spawned id env p) !! id) as [g|] eqn:Eg; [|done].
  apply set_remote_ok; [done|]. apply apply_sample_ok; [done|]. by apply (proj1 He id).
Qed.

Lemma update_track_ok line payload reset t : track_ok t -> track_ok (update_track line payload reset t).
Proof.
  intros H. unfold update_track. cbv zeta.
  assert (track_ok (if reset then reset_track t else t)) as H1.
  { destruct reset; [|done]. destruct t, H; split; simpl in *; try done; lia. }
  revert H1. generalize (if reset then reset_track t else t). clear t H. intros t H.
  assert (forall a, track_ok (set_labels a line t)) as H1.
  { intros [a|]; [|done]. destruct t, H; split; simpl in *; try done. apply json_string_array_length. }
  specialize (H1 (json_array_member line payload.1 payload.2 (str "labels"))).
  revert H1. generalize (set_labels (json_array_member line payload.1 payload.2 (str "labels")) line t).
  clear t H. intros t H.
  assert (forall a, track_ok (set_axes a line t)) as H1.
  { intros [a|]; [|done]. destruct t, H; split; simpl in *; try done. apply json_string_array_length. }
  specialize (H1 (json_array_member line payload.1 payload.2 (str "axes"))).
  revert H1. generalize (set_axes (json_array_member line payload.1 payload.2 (str "axes")) line t).
  clear t H. intros t H.
  assert (forall v, track_ok (t <| source := v |>)) as H1 by (intros v; destruct t, H; by split).
  unfold add_edges. destruct (json_array_member _ _ _ _); [apply read_edges_ok|]; apply H1.
Qed.

Lemma on_remote_input_ok line p : plugin_ok p -> plugin_ok (on_remote_input line p).
Proof.
  intros [Hr Ht]. unfold on_remote_input. destruct (payload_span line) as [payload|]; [|done]. cbv zeta.
  case_bool_decide; [done|].
  assert (track_ok (default GhostInputTrack0 (ghost_inputs p !! read_string line payload "player_id"))) as H0.
  { destruct (ghost_inputs p !! _) as [t|] eqn:E; [by eapply Ht|]. split; simpl; try done; lia. }
  apply (update_track_ok line payload (json_bool_member line payload.1 payload.2 (str "reset"))) in H0.
  destruct (_ && _); (split; [exact Hr|]); cbn; by apply map_Forall_insert_2.
Qed.

Lemma release_ok env id p : plugin_ok p -> plugin_ok (release_ghost env id p).1.
Proof.
  intros Hp. unfold release_ghost. destruct (remotes p !! id) as [g|] eqn:E; [|done].
  pose proof (proj1 Hp id g E) as Hg. cbv zeta.
  assert (forall g' p', wire_state g' = wire_state g -> remotes p' = remotes p ->
            ghost_inputs p' = ghost_inputs p -> plugin_ok (set_remote id g' p')) as Hset.
  { intros g' p' Ew Er Ei. apply set_remote_ok; [|by rewrite Ew]. split; rewrite ?Er, ?Ei; apply Hp. }
  destruct (weapon_actor (release_handles (engine_objects g))); cbv beta iota;
    match goal with |- plugin_ok (match ?x with _ => _ end).1 => destruct x end;
    cbv beta iota delta [fst]; by apply Hset.
Qed.

Lemma on_despawn_ok env line p : plugin_ok p -> plugin_ok (on_despawn_remote env line p).1.
Proof.
  intros Hp. unfold on_despawn_remote. destruct (payload_span line) as [payload|]; [|done].
  cbv zeta. case_bool_decide; [done|].
  pose proof (release_ok env (read_string line payload "player_id") p Hp) as [Hr Ht].
  destruct (release_ghost env (read_string line payload "player_id") p) as [p' calls].
  cbn [fst] in *. split; cbn; by apply map_Forall_delete.
Qed.

Lemma handle_ok env line p :
  spawn_env_ok (l_spawn env) -> plugin_ok p -> plugin_ok (handle_bridge_line env line p).1.
Proof.
  intros Henv Hp. unfold handle_bridge_line. cbv zeta.
  assert (plugin_ok (p <| seen_types := {[json_string_field line (str "type")]} ∪ seen_types p |>)) as Hp'
    by exact Hp.
  revert Hp'. generalize (p <| seen_types := {[json_string_field line (str "type")]} ∪ seen_types p |>).
  clear p Hp. intros p Hp.
  case_bool_decide; [by apply on_render_ok|].
  case_bool_decide.
  { unfold on_remote_name. destruct (payload_span line); [|done]. cbv zeta. by case_bool_decide. }
  case_bool_decide.
  { unfold on_recording_state. by destruct (payload_span line). }
  case_bool_decide; [by apply on_remote_input_ok|].
  case_bool_decide.
  { unfold on_session_policy. by destruct (payload_span line). }
  case_bool_decide; [by apply on_despawn_ok|done].
Qed.
