(* ===== verification/AssetCatalog.v ===== *)
(** Plugin.cpp, [resolve_peer_named_asset]: an asset a peer names is looked up only
    through a catalog of what the local game has loaded.

    What FindAllOf reports of a class at a time is an argument of the whole run; what
    StaticFindObject finds and the three readings of the steady clock, in the order they
    are taken, are one record per call. *)
From S2P Require Import Prelude.
From Stdlib Require Import ZArith.

Definition PEER_ASSET_CATALOG_REFRESH_MS : Z := 10000.
Definition PEER_ASSET_NAME_MAX_BYTES : nat := 512.

(** [StringType(s.begin(), s.end())]: each [char], which is signed, as a 16-bit unit. *)
Definition to_wide_ascii (s : bytes) : list Z :=
  map (fun c => let n := Z.of_N (N_of_ascii c) in if (n <? 128)%Z then n else (n + 65280)%Z) s.

Record Catalog := MkCatalog { paths : gset bytes; last_refresh_ms : Z }.
#[export] Instance Catalog_eta : Eta Catalog := fun r => MkCatalog (paths r) (last_refresh_ms r).
Definition Catalog0 : Catalog := MkCatalog ∅ (-1).

Record asset_env := AssetEnv {
  static_find : list Z -> option Z;
  unusable : Z -> bool;                  (* unreachable, or its destruction has begun *)
  now_first : Z; now_miss : Z; now_again : Z
}.

(** What a call does to the engine. *)
Inductive asset_call :=
  | FindAllOf (class : bytes) (now_ms : Z)
  | StaticFindObject (name : list Z).

Section Catalog.
(** The full names, "Class /Path.To.Object", of the objects of a class at a time. *)
Context (find_all_of : bytes -> Z -> list bytes).

(** The path half of a full name. *)
Definition path_of (full : bytes) : bytes :=
  match find_char full " " 0 with
  | Some space_pos => drop (space_pos + 1) full
  | None => full
  end.

Definition rebuild (class : bytes) (now_ms : Z) (cat : Catalog) : Catalog :=
  cat <| last_refresh_ms := now_ms |> <| paths := list_to_set (map path_of (find_all_of class now_ms)) |>.

(** The catalog a lookup of [peer_path] leaves, with the enumerations it makes: one at
    the first use, one when the path is missing and the catalog is old enough. *)
Definition refresh (env : asset_env) (class peer_path : bytes) (cat : Catalog) : Catalog * list asset_call :=
  let '(cat, calls) :=
    if (last_refresh_ms cat <? 0)%Z
    then (rebuild class (now_first env) cat, [FindAllOf class (now_first env)]) else (cat, []) in
  if bool_decide (peer_path ∉ paths cat)
     && (now_miss env - last_refresh_ms cat >=? PEER_ASSET_CATALOG_REFRESH_MS)%Z
  then (rebuild class (now_again env) cat, calls ++ [FindAllOf class (now_again env)])
  else (cat, calls).

Definition resolve_peer_named_asset (env : asset_env) (class peer_path : bytes)
    (catalogs : gmap bytes Catalog) : option Z * gmap bytes Catalog * list asset_call :=
  if bool_decide (peer_path = []) || (PEER_ASSET_NAME_MAX_BYTES <? length peer_path)
  then (None, catalogs, [])
  else
    let (cat, calls) := refresh env class peer_path (default Catalog0 (catalogs !! class)) in
    let catalogs := <[class := cat]> catalogs in
    if bool_decide (peer_path ∉ paths cat) then (None, catalogs, calls)
    else
      let name := to_wide_ascii peer_path in
      (match static_find env name with
       | Some o => if unusable env o then None else Some o
       | None => None
       end, catalogs, calls ++ [StaticFindObject name]).

(** * A run of requests

    A call, with the clock of its environment. *)
Record request := Request { rq_env : asset_env; rq_class : bytes; rq_path : bytes }.

Fixpoint resolve_all (rs : list request) (catalogs : gmap bytes Catalog) : gmap bytes Catalog * list asset_call :=
  match rs with
  | [] => (catalogs, [])
  | r :: rs =>
      let '(_, catalogs, calls) := resolve_peer_named_asset (rq_env r) (rq_class r) (rq_path r) catalogs in
      let (catalogs, calls') := resolve_all rs catalogs in (catalogs, calls ++ calls')
  end.

(** The times at which the objects of a class were enumerated. *)
Definition enumerations (class : bytes) (calls : list asset_call) : list Z :=
  omap (fun c => match c with
                 | FindAllOf k t => if bool_decide (k = class) then Some t else None
                 | StaticFindObject _ => None
                 end) calls.

Lemma enumerations_app class a b :
  enumerations class (a ++ b) = enumerations class a ++ enumerations class b.
Proof. apply omap_app. Qed.

(** * What a peer can reach *)

(** What the game has last reported of a class, of all it was asked so far. *)
Definition last_report (class : bytes) (calls : list asset_call) : list bytes :=
  default [] ((fun t => map path_of (find_all_of class t)) <$> list.last (enumerations class calls)).

(** The names a call looks up. *)
Definition lookups (calls : list asset_call) : list (list Z) :=
  omap (fun c => match c with FindAllOf _ _ => None | StaticFindObject name => Some name end) calls.

(** Each catalog is the last report of its class. *)
Definition catalogued (catalogs : gmap bytes Catalog) (calls : list asset_call) : Prop :=
  forall class, paths (default Catalog0 (catalogs !! class)) = list_to_set (last_report class calls).

Lemma last_report_app class a b :
  last_report class (a ++ b) = if bool_decide (enumerations class b = []) then last_report class a else last_report class b.
Proof.
  unfold last_report. rewrite enumerations_app. case_bool_decide as E; [by rewrite E, app_nil_r|].
  rewrite last_app. by destruct (list.last (enumerations class b)) eqn:El; [|apply last_None in El].
Qed.

Lemma refresh_reported env class path cat cat' cs :
  refresh env class path cat = (cat', cs) ->
  lookups cs = [] /\ (forall k, k <> class -> enumerations k cs = []) /\
  paths cat' = if bool_decide (enumerations class cs = []) then paths cat else list_to_set (last_report class cs).
Proof.
  unfold refresh. destruct (last_refresh_ms cat <? 0)%Z; cbv beta iota; destruct (_ && _); intros [= <- <-];
    unfold last_report, enumerations; cbn;
    rewrite ?(bool_decide_eq_true_2 (class = class)) by done; cbn;
    (split; [done|split; [intros k Hk; by rewrite ?(bool_decide_eq_false_2 (class = k)) by congruence|done]]).
Qed.

Lemma resolve_catalogued env class path catalogs before r catalogs' calls :
  catalogued catalogs before -> resolve_peer_named_asset env class path catalogs = (r, catalogs', calls) ->
  catalogued catalogs' (before ++ calls) /\
  let found := negb (bool_decide (path = [])) && (length path <=? PEER_ASSET_NAME_MAX_BYTES)
               && bool_decide (path ∈ last_report class (before ++ calls)) in
  lookups calls = (if found then [to_wide_ascii path] else []) /\
  r = if found then o ← static_find env (to_wide_ascii path); if unusable env o then None else Some o else None.
Proof.
  intros HI. unfold resolve_peer_named_asset. case_bool_decide; cbn [orb negb andb].
  { intros [= <- <- <-]. by rewrite app_nil_r. }
  destruct (Nat.ltb_spec PEER_ASSET_NAME_MAX_BYTES (length path)) as [|Hmax];
    destruct (Nat.leb_spec (length path) PEER_ASSET_NAME_MAX_BYTES); try lia; cbn [negb andb].
  { intros [= <- <- <-]. by rewrite app_nil_r. }
  destruct (refresh env class path _) as [cat cs] eqn:Er. apply refresh_reported in Er as (Hl & Hk & Hp).
  assert (paths cat = list_to_set (last_report class (before ++ cs))) as Hc.
  { rewrite last_report_app, Hp, HI. by case_bool_decide. }
  assert (catalogued (<[class := cat]> catalogs) (before ++ cs)) as HI'.
  { intros k. destruct (decide (k = class)) as [->|Hne]; [by rewrite lookup_insert_eq|].
    rewrite lookup_insert_ne, last_report_app, Hk, bool_decide_eq_true_2 by done. apply HI. }
  destruct (decide (path ∈ last_report class (before ++ cs))) as [Hin|Hin].
  2:{ rewrite bool_decide_eq_true_2 by (by rewrite Hc, elem_of_list_to_set). intros [= <- <- <-]. by rewrite (bool_decide_eq_false_2 _ Hin). }
  rewrite bool_decide_eq_false_2 by (rewrite Hc, elem_of_list_to_set; tauto). intros [= <- <- <-].
  assert (forall k, last_report k ((before ++ cs) ++ [StaticFindObject (to_wide_ascii path)]) = last_report k (before ++ cs)) as Hsame
    by (intros k; by rewrite last_report_app, bool_decide_eq_true_2).
  rewrite app_assoc, Hsame, bool_decide_eq_true_2 by done. split; [intros k; rewrite Hsame; apply HI'|].
  unfold lookups. rewrite omap_app. fold (lookups cs). rewrite Hl. split; [done|]. by destruct (static_find env _).
Qed.

Lemma resolve_all_catalogued rs : forall catalogs before,
  catalogued catalogs before -> let (catalogs', calls) := resolve_all rs catalogs in catalogued catalogs' (before ++ calls).
Proof.
  induction rs as [|q rs IH]; intros catalogs before HI; cbn [resolve_all]; [by rewrite app_nil_r|].
  destruct (resolve_peer_named_asset _ _ _ catalogs) as [[r cats] cs] eqn:E.
  pose proof (resolve_catalogued _ _ _ _ _ _ _ _ HI E) as [HI' _]. specialize (IH cats (before ++ cs) HI').
  destruct (resolve_all rs cats) as [cats' cs']. by rewrite app_assoc.
Qed.

(** C39: after any requests of the peers, for any classes, a request reaches the engine's
    global lookup exactly when its path is not empty, has at most 512 bytes and is the path
    of an object that the game listed when it was last asked for the objects of the wanted
    class; the one name then looked up is that path, widened byte by byte, and the answer
    is the object found there, unless it is unusable; otherwise nothing is looked up and
    the answer is none. *)
Theorem asset_lookup_is_catalogued (rs : list request) (env : asset_env) (class path : bytes) :
  let (catalogs, before) := resolve_all rs ∅ in
  let '(r, _, calls) := resolve_peer_named_asset env class path catalogs in
  let found := negb (bool_decide (path = [])) && (length path <=? PEER_ASSET_NAME_MAX_BYTES)
               && bool_decide (path ∈ last_report class (before ++ calls)) in
  lookups calls = (if found then [to_wide_ascii path] else []) /\
  r = if found then o ← static_find env (to_wide_ascii path); if unusable env o then None else Some o else None.
Proof.
  pose proof (resolve_all_catalogued rs ∅ []) as H. specialize (H ltac:(intros k; by rewrite lookup_empty)).
  destruct (resolve_all rs ∅) as [catalogs before]. cbn [app] in H.
  destruct (resolve_peer_named_asset env class path catalogs) as [[r cats] calls] eqn:E.
  by apply (resolve_catalogued _ _ _ _ _ _ _ _ H E).
Qed.

(** * How often the game is enumerated *)

(** The clock goes forward: through one call, and from call to call. *)
Fixpoint clock_ok (t : Z) (rs : list request) : Prop :=
  match rs with
  | [] => True
  | r :: rs => (t <= now_first (rq_env r))%Z /\ (now_first (rq_env r) <= now_miss (rq_env r))%Z /\
               (now_miss (rq_env r) <= now_again (rq_env r))%Z /\ clock_ok (now_again (rq_env r)) rs
  end.

(** Each time is at least the refresh interval after the one before it. *)
Fixpoint spaced (last : Z) (ts : list Z) : Prop :=
  match ts with
  | [] => True
  | t :: ts => (last < 0 \/ last + PEER_ASSET_CATALOG_REFRESH_MS <= t)%Z /\ (0 <= t)%Z /\ spaced t ts
  end.

Lemma spaced_app last ts us :
  spaced last (ts ++ us) <-> spaced last ts /\ spaced (List.last (last :: ts) 0%Z) us.
Proof.
  revert last; induction ts as [|t ts IH]; intros last; [simpl; tauto|].
  change (List.last (last :: t :: ts) 0%Z) with (List.last (t :: ts) 0%Z). simpl app.
  change (spaced last (t :: ts ++ us)) with
    ((last < 0 \/ last + PEER_ASSET_CATALOG_REFRESH_MS <= t)%Z /\ (0 <= t)%Z /\ spaced t (ts ++ us)).
  rewrite IH. simpl spaced. tauto.
Qed.

(** The time of the catalog's last refresh, negative when there was none. *)
Definition refreshed (class : bytes) (catalogs : gmap bytes Catalog) : Z :=
  last_refresh_ms (default Catalog0 (catalogs !! class)).

Lemma refresh_spaced env class path cat cat' calls :
  refresh env class path cat = (cat', calls) ->
  (0 <= now_first env)%Z -> (now_first env <= now_miss env)%Z -> (now_miss env <= now_again env)%Z ->
  spaced (last_refresh_ms cat) (enumerations class calls) /\
  last_refresh_ms cat' = List.last (last_refresh_ms cat :: enumerations class calls) 0%Z /\
  (forall k, k <> class -> enumerations k calls = []).
Proof.
  unfold refresh, PEER_ASSET_CATALOG_REFRESH_MS.
  destruct (Z.ltb_spec (last_refresh_ms cat) 0); cbv beta iota;
    destruct (bool_decide _); cbn [andb];
    try match goal with |- context [(?a >=? ?b)%Z] => destruct (Z.geb_spec a b) end;
    intros [= <- <-] ? ? ?; unfold enumerations, PEER_ASSET_CATALOG_REFRESH_MS; cbn in *;
    rewrite ?bool_decide_true by done; cbn; unfold PEER_ASSET_CATALOG_REFRESH_MS;
    (split; [lia|split; [done|intros; by rewrite ?bool_decide_false by done]]).
Qed.

Lemma resolve_spaced env k path catalogs r catalogs' calls class :
  resolve_peer_named_asset env k path catalogs = (r, catalogs', calls) ->
  (0 <= now_first env)%Z -> (now_first env <= now_miss env)%Z -> (now_miss env <= now_again env)%Z ->
  spaced (refreshed class catalogs) (enumerations class calls) /\
  refreshed class catalogs' = List.last (refreshed class catalogs :: enumerations class calls) 0%Z.
Proof.
  unfold resolve_peer_named_asset. intros E H0 H1 H2.
  destruct (_ || _); [by simplify_eq|].
  destruct (refresh env k path (default Catalog0 (catalogs !! k))) as [cat cs] eqn:Er.
  destruct (refresh_spaced _ _ _ _ _ _ Er H0 H1 H2) as (Hs & Hl & Hk).
  assert (enumerations class calls = enumerations class cs /\ catalogs' = <[k := cat]> catalogs) as [-> ->].
  { destruct (bool_decide _); simplify_eq; [done|]. by rewrite enumerations_app, app_nil_r. }
  unfold refreshed. destruct (decide (class = k)) as [->|Hne].
  - rewrite lookup_insert_eq. done.
  - rewrite lookup_insert_ne by done. by rewrite Hk.
Qed.

(** Whatever peers name, and however often, the loaded objects of a class are
    enumerated at most once per refresh interval. *)
Theorem asset_enumeration_rate rs class :
  clock_ok 0 rs -> spaced (-1) (enumerations class (resolve_all rs ∅).2).
Proof.
  assert (forall catalogs t, (0 <= t)%Z -> clock_ok t rs ->
            spaced (refreshed class catalogs) (enumerations class (resolve_all rs catalogs).2)) as H.
  { induction rs as [|r rs IH]; intros catalogs t Ht; [done|]. simpl. intros (H1 & H2 & H3 & H4).
    destruct (resolve_peer_named_asset _ _ _ catalogs) as [[res cats] calls] eqn:E.
    destruct (resolve_spaced _ _ _ _ _ _ _ class E ltac:(lia) H2 H3) as [Hs Hl].
    specialize (IH cats (now_again (rq_env r)) ltac:(lia) H4).
    destruct (resolve_all rs cats) as [cats' calls']. cbn [snd] in *.
    rewrite enumerations_app, spaced_app, <- Hl. done. }
  intros Hc. specialize (H ∅ 0%Z ltac:(lia) Hc). unfold refreshed in H. by rewrite lookup_empty in H.
Qed.

End Catalog.

(** A game with one effect loaded, asked at time [t]. *)
Definition sample_report (class : bytes) (t : Z) : list bytes :=
  if bool_decide (class = str "NiagaraSystem") then [str "NiagaraSystem /Game/VFX/Slash.Slash"] else [].
Definition sample_assets (t : Z) : asset_env := AssetEnv (fun _ => Some 7%Z) (fun _ => false) t t t.
Definition sample_asset : bytes := str "/Game/VFX/Slash.Slash".

(** The loaded effect is found, and not under another class. *)
Example loaded_effect_found :
  let ask class := resolve_peer_named_asset sample_report (sample_assets 5) (str class) sample_asset ∅ in
  (ask "NiagaraSystem"%string).1.1 = Some 7%Z /\ lookups (ask "NiagaraSystem"%string).2 = [to_wide_ascii sample_asset] /\
  (ask "AnimMontage"%string).1.1 = None /\ lookups (ask "AnimMontage"%string).2 = [].
Proof. by vm_compute. Qed.

(** Three requests for names the game does not have, six seconds apart. *)
Example asset_enumeration_rate_witness :
  let rs := map (fun t => Request (sample_assets t) (str "NiagaraSystem") (str "/Game/Missing.Missing"))
              [0; 6000; 12000]%Z in
  clock_ok 0 rs /\
  enumerations (str "NiagaraSystem") (resolve_all sample_report rs ∅).2 = [0; 12000]%Z /\
  spaced (-1) (enumerations (str "NiagaraSystem") (resolve_all sample_report rs ∅).2).
Proof.
  intros rs. assert (clock_ok 0 rs) as Hc by (cbn; lia).
  split; [done|]. split; [by vm_compute|].
  by apply (asset_enumeration_rate sample_report rs (str "NiagaraSystem")).
Defined.
