(* ===== verification/VfxMirror.v ===== *)
(** Plugin.cpp, [tick_remote_mirrored_vfx]: the effects a peer shows, played on its
    ghost.

    The peer sends keys of [MIRRORED_EFFECTS], comma-joined, a one-shot's with a count
    ("dl:7"); a key selects a row of the table and nothing else it sends reaches the
    engine.  The engine is an argument, [fx_env]; the calls made on it are returned,
    in order.  A key bound to a null component is not in the map here: the code never
    tells the two apart. *)
From S2P Require Import Prelude Float64 CScan JsonString RemoteGhost.
From Stdlib Require Import ZArith.

(** * The engine *)

Record fx_env := FxEnv {
  fx_asset : string -> option Z;              (* StaticFindObject *)
  ghost_location : vec3;                      (* K2_GetActorLocation *)
  observed_world_offset : nat -> option double;
  attach_component : string -> option Z;      (* the pawn property's component *)
  spawn_niagara_at_location : Z -> vec3 -> double -> option Z;
  spawn_niagara_attached : Z -> Z -> option string -> option Z
}.

Inductive fx_call :=
  | SpawnAtLocation (asset : Z) (location : vec3) (yaw : double) (auto_destroy : bool)
  | SpawnAttached (asset parent : Z) (socket : option string)
  | WriteRelativeLocation (component : Z) (location : vec3)
  | SetWorldLocationAndRotation (component : Z) (location rotation : vec3)
  | SetVisibility (component : Z) (visible : bool)
  | CallByName (component : Z) (function : string)   (* when the component has it *)
  | DieFade (out : bool)
  | StartBlink.

Definition upd_handles (f : handles -> handles) (g : RemoteGhost) : RemoteGhost :=
  g <| engine_objects := f (engine_objects g) |>.

(** The ring of one-shots this ghost spawned, oldest first. *)
Definition MAX_TRACKED_ONE_SHOTS : nat := 32.
Definition track_one_shot (component : Z) (ring : list Z) : list Z :=
  let ring := ring ++ [component] in
  if MAX_TRACKED_ONE_SHOTS <? length ring then tail ring else ring.

Definition remember_one_shot (component : option Z) (g : RemoteGhost) : RemoteGhost :=
  match component with
  | Some c => upd_handles (fun h => h <| recent_one_shot_components :=
                                          track_one_shot c (recent_one_shot_components h) |>) g
  | None => g
  end.

(** * The table *)

Definition MIRROR_PLAYER_VFX : bool := true.
Definition MIRROR_DEATH_FADE : bool := true.

Record MirroredEffect := Effect {
  key : bytes; asset : string; attach_prop : string; socket : option string;
  world_spawned : bool; world_offset_z : double; use_performer_yaw : bool; attach_offset : vec3
}.

(** The members that have a default. *)
Definition effect (k a prop : string) (s : option string) (world : bool) (oz : Z) : MirroredEffect :=
  Effect (str k) a prop s world (of_Z oz) false vzero.

Definition MIRRORED_EFFECTS : list MirroredEffect := [
  effect "heal" "/Game/VFX/Systems/NS_Healing.NS_Healing" "CapsuleComponent" None false 0;
  effect "chg" "/Game/VFX/Emitters/NS_ProjectileCharged.NS_ProjectileCharged" "VisualMesh" (Some "handslot_R"%string) false 0;
  effect "hw" "/Game/VFX/Emitters/NS_HealWave.NS_HealWave" "RootComponent" None true 100;
  effect "hew" "/Game/VFX/Emitters/NS_HealEndwave.NS_HealEndwave" "RootComponent" None true 10;
  effect "rsp" "/Game/VFX/Systems/NS_RespawnSafe.NS_RespawnSafe" "CapsuleComponent" None false 0;
  effect "dl" "/Game/VFX/Systems/NS_DustLand.NS_DustLand" "RootComponent" None true (-65);
  effect "bb" "/Game/VFX/Systems/NS_BasicBurst.NS_BasicBurst" "RootComponent" None true 0;
  Effect (str "sl") "/Game/VFX/Systems/NS_PlayerSlash.NS_PlayerSlash" "RootComponent" None true (of_Z 30) true vzero;
  effect "wk" "/Game/VFX/Systems/NS_WallKickHit.NS_WallKickHit" "RootComponent" None true 0;
  Effect (str "ks") "/Game/VFX/Systems/NS_KickStab.NS_KickStab" "VisualMesh" None false (of_Z 0) false
    (of_Z 10, of_Z 100, of_Z 85)
].

(** * The walk over the wire string *)

(** The first position of a byte of [p]. *)
Fixpoint find_if (p : ascii -> bool) (s : bytes) : option nat :=
  match s with
  | [] => None
  | c :: t => if p c then Some 0 else S <$> find_if p t
  end.

(** [s.find_first_of(",:", pos)] *)
Definition is_delim (c : ascii) : bool := Ascii.eqb c "," || Ascii.eqb c ":".
Definition find_delim (s : bytes) (pos : nat) : option nat :=
  (fun i => pos + i) <$> find_if is_delim (drop pos s).

(** A count: one to ten digits. *)
Definition wire_number (number : bytes) : option double :=
  if negb (bool_decide (number = [])) && (length number <=? 10) && forallb is_digit number
  then match strtod number with Some (x, _) => Some x | None => Some dzero end
  else None.

(** One token of the walk: whether the key was seen, and its count. *)
Definition walk_body (s k : bytes) (pos : nat) : nat + (bool * option double) :=
  if pos <=? length s then
    let '(key_end, end_, comma) :=
      match find_delim s pos with
      | None => (length s, length s, None)
      | Some delim =>
          if Ascii.eqb (char_at s delim) ":"
          then let comma := find_char s "," delim in (delim, default (length s) comma, comma)
          else (delim, delim, Some delim)
      end in
    if compare_eq s pos (key_end - pos) k then
      inr (true, if key_end =? end_ then None
                 else wire_number (substr s (key_end + 1) (end_ - key_end - 1)))
    else match comma with
         | None => inr (false, None)
         | Some comma => inl (comma + 1)
         end
  else inr (false, None).

Definition vfx_lookup (s k : bytes) : bool * option double :=
  loop (fun pos => S (length s) - pos) (walk_body s k) (false, None) 0.

(** * One tick *)

(** A one-shot row: played when its count passes the one last acted on. *)
Definition mirror_one_shot (env : fx_env) (i : nat) (e : MirroredEffect) (count : option double)
    (g : RemoteGhost) : RemoteGhost * list fx_call :=
  match count with
  | None => (g, [])
  | Some wire_count =>
      let record g := g <| vfx_counts := <[key e := wire_count]> (vfx_counts g) |> in
      match vfx_counts g !! key e with
      | None => (record g, [])
      | Some seen_count =>
          if negb (vfx_counts_baselined g) then (record g, [])
          else if (wire_count <=? seen_count)%double then (g, [])
          else
            let g := record g in
            match fx_asset env (asset e) with
            | None => (g, [])
            | Some a =>
                let '(x, y, z) := ghost_location env in
                let offset_z := default (world_offset_z e) (observed_world_offset env i) in
                let at_ := (x, y, (z + offset_z)%double) in
                let yaw := if use_performer_yaw e then (target_rot (wire_state g)).1.2 else dzero in
                (remember_one_shot (spawn_niagara_at_location env a at_ yaw) g,
                 [SpawnAtLocation a at_ yaw true])
            end
      end
  end.

(** A sustained row: there while it is wanted. *)
Definition mirror_sustained (env : fx_env) (e : MirroredEffect) (wanted : bool) (g : RemoteGhost)
    : RemoteGhost * list fx_call :=
  match wanted, vfx_components (engine_objects g) !! key e with
  | true, None =>
      match fx_asset env (asset e), attach_component env (attach_prop e) with
      | Some a, Some parent =>
          let component := spawn_niagara_attached env a parent (socket e) in
          let place := match component with
                       | Some c => if bool_decide (attach_offset e <> vzero)
                                   then [WriteRelativeLocation c (attach_offset e)] else []
                       | None => []
                       end in
          let fade := if MIRROR_DEATH_FADE && bool_decide (key e = str "rsp") then [DieFade false] else [] in
          (match component with
           | Some c => upd_handles (fun h => h <| vfx_components := <[key e := c]> (vfx_components h) |>) g
           | None => g
           end, SpawnAttached a parent (socket e) :: place ++ fade)
      | _, _ => (g, [])
      end
  | false, Some component =>
      (upd_handles (fun h => h <| vfx_components := delete (key e) (vfx_components h) |>) g,
       [CallByName component "Deactivate"; CallByName component "DestroyComponent"])
  | _, _ => (g, [])
  end.

Definition mirror_row (env : fx_env) (st : RemoteGhost * list fx_call) (ie : nat * MirroredEffect)
    : RemoteGhost * list fx_call :=
  let '(g, calls) := st in
  let '(i, e) := ie in
  let (wanted, count) := vfx_lookup (target_vfx (wire_state g)) (key e) in
  let (g', calls') :=
    if world_spawned e
    then if wanted then mirror_one_shot env i e count g else (g, [])
    else mirror_sustained env e wanted g in
  (g', calls ++ calls').

Definition tick_remote_mirrored_vfx (env : fx_env) (g : RemoteGhost) : RemoteGhost * list fx_call :=
  if negb MIRROR_PLAYER_VFX then (g, [])
  else match ghost (engine_objects g) with
       | None => (g, [])
       | Some _ =>
           let (g, calls) := foldl (mirror_row env) (g, []) (imap pair MIRRORED_EFFECTS) in
           (g <| vfx_counts_baselined := true |>, calls)
       end.

#[export] Instance walk_decreasing s k : Decreasing (fun pos => S (length s) - pos) (walk_body s k).
Proof.
  intros pos pos' E. unfold walk_body in E. nat_case; [|done].
  destruct (find_delim s pos) as [d|] eqn:Ed; cbv beta iota zeta in E; [|by destruct (compare_eq _ _ _ _)].
  assert (pos <= d) as Hd.
  { unfold find_delim in Ed. destruct (find_if _ _) as [j|]; [|done]. simplify_eq/=. lia. }
  destruct (Ascii.eqb (char_at s d) ":").
  - destruct (compare_eq _ _ _ _); [done|]. destruct (find_char s "," d) as [c|] eqn:Ec; [|done].
    apply find_from_bounds in Ec as [Ec1 Ec2]. simpl in Ec2. simplify_eq. lia.
  - destruct (compare_eq _ _ _ _); [done|]. simplify_eq. lia.
Qed.

(** * The walk as a split *)

(** The fields of a string between the separators [c]. *)
Fixpoint split_on (c : ascii) (s : bytes) : list bytes :=
  match s with
  | [] => [[]]
  | a :: t => if Ascii.eqb a c then [] :: split_on c t
              else match split_on c t with
                   | [] => [[a]]
                   | w :: ws => (a :: w) :: ws
                   end
  end.

(** A token is a key, or a key, a colon and a count. *)
Definition token_key (t : bytes) : bytes :=
  match find_char t ":" 0 with Some i => take i t | None => t end.
Definition token_count (t : bytes) : option double :=
  match find_char t ":" 0 with Some i => wire_number (drop (i + 1) t) | None => None end.

(** The first token with the key. *)
Definition vfx_spec (s k : bytes) : bool * option double :=
  match List.find (fun t => bool_decide (token_key t = k)) (split_on "," s) with
  | Some t => (true, token_count t)
  | None => (false, None)
  end.

Lemma find_if_None p s : find_if p s = None -> Forall (fun c => p c = false) s.
Proof.
  induction s as [|c s IH]; [constructor|]. simpl. destruct (p c) eqn:E; [done|].
  destruct (find_if p s); [done|]. constructor; auto.
Qed.

Lemma find_if_Some p s i :
  find_if p s = Some i -> exists w c t, s = w ++ c :: t /\ length w = i /\ p c = true /\
    Forall (fun c => p c = false) w.
Proof.
  revert i; induction s as [|c s IH]; intros i; [done|]. simpl. destruct (p c) eqn:E.
  - intros [= <-]. by exists [], c, s.
  - destruct (find_if p s) as [j|]; [|done]. intros [= <-].
    destruct (IH j eq_refl) as (w & d & t & -> & <- & Hd & Hw). exists (c :: w), d, t. by repeat constructor.
Qed.

Lemma find_str_if c s : find_str [c] s = find_if (Ascii.eqb c) s.
Proof.
  induction s as [|a s IH]; [done|]. cbn [find_str starts_with find_if]. rewrite andb_true_r.
  destruct (Ascii.eqb c a); [done|]. by rewrite IH.
Qed.

Lemma find_char_0 s c : find_char s c 0 = find_if (Ascii.eqb c) s.
Proof.
  unfold find_char, find_from. simpl. rewrite find_str_if. by destruct (find_if _ _).
Qed.

(** The first separator after a stretch without one. *)
Lemma find_if_app p w c t : Forall (fun a => p a = false) w -> p c = true -> find_if p (w ++ c :: t) = Some (length w).
Proof. induction 1 as [|a w Ha Hw IH]; intros Hc; simpl; [by rewrite Hc|]. by rewrite Ha, IH. Qed.
Lemma find_if_all p w : Forall (fun a => p a = false) w -> find_if p w = None.
Proof. induction 1 as [|a w Ha Hw IH]; simpl; [done|]. by rewrite Ha, IH. Qed.

Definition free_of (c : ascii) (w : bytes) : Prop := Forall (fun a => Ascii.eqb c a = false) w.

Lemma split_on_all c w : free_of c w -> split_on c w = [w].
Proof. induction 1 as [|a w Ha Hw IH]; [done|]. simpl. by rewrite Ascii.eqb_sym, Ha, IH. Qed.
Lemma split_on_app c w t : free_of c w -> split_on c (w ++ c :: t) = w :: split_on c t.
Proof.
  induction 1 as [|a w Ha Hw IH]; simpl; [by rewrite ascii_eqb_refl|]. by rewrite Ascii.eqb_sym, Ha, IH.
Qed.

Lemma not_delim w : Forall (fun c => is_delim c = false) w -> free_of "," w /\ free_of ":" w.
Proof.
  unfold is_delim. induction 1 as [|a w Ha Hw [H1 H2]]; [split; constructor|].
  apply orb_false_iff in Ha as [? ?]. split; constructor; rewrite 1?Ascii.eqb_sym; done.
Qed.

(** The split of a non-last token. *)
Lemma free_cases c s : free_of c s \/ exists w t, s = w ++ c :: t /\ free_of c w.
Proof.
  destruct (find_if (Ascii.eqb c) s) as [i|] eqn:E; [right|left; by apply find_if_None].
  apply find_if_Some in E as (w & d & t & -> & _ & Hd & Hw). apply Ascii.eqb_eq in Hd as ->. eauto.
Qed.

Lemma vfx_spec_last w k :
  free_of "," w -> vfx_spec w k = if bool_decide (token_key w = k) then (true, token_count w) else (false, None).
Proof. intros Hw. unfold vfx_spec. rewrite split_on_all by done. simpl. by case_bool_decide. Qed.
Lemma vfx_spec_app w t k :
  free_of "," w ->
  vfx_spec (w ++ ","%char :: t) k = if bool_decide (token_key w = k) then (true, token_count w) else vfx_spec t k.
Proof. intros Hw. unfold vfx_spec. rewrite split_on_app by done. simpl. by case_bool_decide. Qed.

Lemma drop_add_app {A} (p u : list A) n : drop (length p + n) (p ++ u) = drop n u.
Proof. rewrite <- drop_drop. by rewrite drop_app_length. Qed.

(** One step of the walk, at the start of a token. *)
Lemma walk_step p u k :
  walk_body (p ++ u) k (length p)
  = match find_if (Ascii.eqb ",") u with
    | None => inr (vfx_spec u k)
    | Some c => if bool_decide (token_key (take c u) = k) then inr (true, token_count (take c u))
                else inl (length p + c + 1)
    end.
Proof.
  unfold walk_body. rewrite (proj2 (Nat.leb_le _ _)) by (rewrite length_app; lia).
  unfold find_delim. rewrite drop_app_length.
  assert (forall n, compare_eq (p ++ u) (length p) n k = bool_decide (take n u = k)) as Hcmp.
  { intros n. unfold compare_eq, substr. by rewrite drop_app_length. }
  destruct (find_if is_delim u) as [d|] eqn:Ed; cbn [fmap option_fmap option_map].
  - apply find_if_Some in Ed as (w & c & t & -> & <- & Hc & Hw).
    assert (free_of "," w /\ free_of ":" w) as [Hw1 Hw2]
      by (by apply not_delim).
    rewrite char_at_app_r, char_at_mid.
    unfold is_delim in Hc. destruct (Ascii.eqb c ":") eqn:Ecol.
    + apply Ascii.eqb_eq in Ecol as ->. cbv zeta.
      unfold find_char, find_from.
      rewrite (proj2 (Nat.leb_le _ _)) by (rewrite !length_app; simpl; lia).
      rewrite drop_add_app, drop_app_length, find_str_if.
      replace (length p + length w - length p) with (length w) by lia.
      rewrite Hcmp, take_app_length.
      destruct (free_cases "," (":"%char :: t)) as [Hf|(x & y & Ex & Hf)].
      * rewrite (find_if_all _ _ Hf). cbn [fmap option_fmap option_map from_option id].
        assert (free_of "," (w ++ ":"%char :: t)) as Hall by (by apply Forall_app).
        rewrite (find_if_all _ _ Hall), vfx_spec_last by done.
        unfold token_key, token_count. rewrite find_char_0, find_if_app by done. rewrite take_app_length.
        case_bool_decide; [|done]. rewrite (proj2 (Nat.eqb_neq _ _)) by (rewrite !length_app; simpl; lia).
        do 2 f_equal. f_equal. unfold substr. rewrite !length_app. simpl length.
        rewrite <- Nat.add_assoc, drop_add_app, take_ge; [done|]. rewrite length_drop, length_app. simpl. lia.
      * destruct x as [|c' x]; [done|]. injection Ex as <- ->.
        assert (free_of "," x) as Hx by (by apply Forall_cons_1 in Hf as [_ Hf]).
        change (find_if (Ascii.eqb ",") (":"%char :: x ++ ","%char :: y))
          with (S <$> find_if (Ascii.eqb ",") (x ++ ","%char :: y)).
        rewrite (find_if_app (Ascii.eqb ",") x "," y Hx (ascii_eqb_refl _)).
        cbn [fmap option_fmap option_map from_option id].
        assert (free_of "," (w ++ ":"%char :: x)) as Hall by (apply Forall_app; split; [done|]; by constructor).
        replace (w ++ ":"%char :: x ++ ","%char :: y) with ((w ++ ":"%char :: x) ++ ","%char :: y) by (by rewrite <- app_assoc).
        rewrite (find_if_app _ _ _ _ Hall (ascii_eqb_refl _)), take_app_length.
        unfold token_key, token_count. rewrite find_char_0, find_if_app by done.
        rewrite take_app_length. rewrite length_app. simpl length.
        case_bool_decide; [|f_equal; lia]. rewrite (proj2 (Nat.eqb_neq _ _)) by lia.
        do 2 f_equal. f_equal. unfold substr. rewrite <- !app_assoc. simpl app.
        replace (length p + length w + 1) with (length p + (length w + 1)) by lia.
        rewrite !drop_add_app. cbn [drop]. rewrite !drop_0.
        match goal with |- take ?n _ = _ => replace n with (length x) by lia end.
        apply take_app_length.
    + rewrite orb_false_r in Hc. apply Ascii.eqb_eq in Hc as ->. cbv zeta.
      replace (length p + length w - length p) with (length w) by lia.
      rewrite Hcmp, take_app_length, (find_if_app _ _ _ _ Hw1 (ascii_eqb_refl _)), take_app_length.
      unfold token_key, token_count. rewrite find_char_0, find_if_all by done.
      rewrite Nat.eqb_refl. by case_bool_decide.
  - apply find_if_None in Ed.
    assert (free_of "," u /\ free_of ":" u) as [Hw1 Hw2]
      by (by apply not_delim).
    rewrite Hcmp, (find_if_all _ _ Hw1), vfx_spec_last by done.
    rewrite take_ge by (rewrite length_app; lia).
    unfold token_key, token_count. rewrite find_char_0, find_if_all, Nat.eqb_refl by done.
    by case_bool_decide.
Qed.

Lemma vfx_lookup_from k : forall u p,
  loop (fun pos => S (length (p ++ u)) - pos) (walk_body (p ++ u) k) (false, None) (length p) = vfx_spec u k.
Proof.
  intros u. remember (length u) as n eqn:Hn. revert u Hn.
  induction n as [n IH] using lt_wf_ind. intros u -> p.
  rewrite (loop_unfold _ (walk_body (p ++ u) k)), walk_step.
  destruct (free_cases "," u) as [Hf|(w & t & -> & Hf)]; [by rewrite find_if_all|].
  rewrite (find_if_app _ _ _ _ Hf (ascii_eqb_refl _)), take_app_length, vfx_spec_app by done.
  case_bool_decide; [done|].
  replace (p ++ w ++ ","%char :: t) with ((p ++ w ++ [ ","%char ]) ++ t) by (by rewrite <- !app_assoc).
  replace (length p + length w + 1) with (length (p ++ w ++ [ ","%char ])) by (rewrite !length_app; simpl; lia).
  eapply IH; [|done]. rewrite length_app. simpl. lia.
Qed.

(** The walk over the wire string stops, and finds the first comma-separated token
    whose key is the one wanted, with that token's count: never a longer or a shorter
    key, and never another token's count. *)
Theorem vfx_lookup_split s k : vfx_lookup s k = vfx_spec s k.
Proof. exact (vfx_lookup_from k s []). Qed.
