(* ===== verification/VfxProps.v ===== *)
(** What a tick of the mirrored effects does to a ghost: a one-shot is played once per
    count that passes the last one and never on first sight, a sustained effect is
    there exactly while the peer names it. *)
From S2P Require Import Prelude Float64 CScan FloatFacts JsonString RemoteGhost VfxMirror.
From Stdlib Require Import NArith ZArith Sorted.

(** * Counts are integers *)

Lemma digits_value_bound (ds : bytes) : forallb is_digit ds = true -> (digits_value 10 ds < 10 ^ N.of_nat (length ds))%N.
Proof.
  intros Hd. unfold digits_value.
  assert (forall a k, (a < k)%N ->
    (foldl (fun a c => 10 * a + default 0 (hex_val c)) a ds < k * 10 ^ N.of_nat (length ds))%N) as H.
  { revert Hd. induction ds as [|c ds IH]; intros Hd a k Hk; simpl foldl; [simpl; lia|].
    simpl in Hd. apply andb_true_iff in Hd as [Hc Hd]. simpl length. rewrite Nat2N.inj_succ, N.pow_succ_r'.
    assert (default 0%N (hex_val c) < 10)%N as Hv.
    { unfold hex_val. rewrite Hc. simpl. unfold is_digit, in_range in Hc. unfold digit_val.
      change (N_of_ascii "0") with 48%N in Hc. change (N_of_ascii "9") with 57%N in Hc. lia. }
    specialize (IH Hd (10 * a + default 0 (hex_val c))%N (10 * k)%N ltac:(lia)). lia. }
  specialize (H 0%N 1%N ltac:(lia)). lia.
Qed.

Lemma span_all p s : forallb p s = true -> span p s = (s, []).
Proof.
  induction s as [|c s IH]; [done|]. simpl. intros [-> Hs]%andb_true_iff. by rewrite IH.
Qed.

Lemma digit_plain c :
  is_digit c = true ->
  is_cspace c = false /\ Ascii.eqb c "-" = false /\ Ascii.eqb c "+" = false /\ Ascii.eqb (lower c) "x" = false.
Proof. destruct c as [[] [] [] [] [] [] [] []]; vm_compute; intuition congruence. Qed.

Lemma strtod_digits c t :
  forallb is_digit (c :: t) = true ->
  strtod (c :: t) = Some (of_scientific false (digits_value 10 (c :: t)) 10 0, []).
Proof.
  intros Hd. pose proof Hd as Hc. simpl in Hc. apply andb_true_iff in Hc as [Hc Ht].
  destruct (digit_plain c Hc) as (H1 & H2 & H3 & _).
  unfold strtod, scan_double, skip_space. cbn [span]. rewrite H1. cbn [snd]. unfold scan_sign.
  rewrite H2, H3.
  assert (match t with x :: _ => Ascii.eqb (lower x) "x" | [] => false end = false) as ->.
  { destruct t as [|d t]; [done|]. simpl in Ht. apply andb_true_iff in Ht as [Hx _]. by apply digit_plain. }
  rewrite andb_false_r, Hc. cbn [orb]. unfold scan_constant. rewrite (span_all _ _ Hd).
  by rewrite app_nil_r.
Qed.

Lemma wire_number_int number x : wire_number number = Some x -> exists n, is_int x n.
Proof.
  unfold wire_number. destruct (_ && _) eqn:E; [|done].
  apply andb_true_iff in E as [[Hne%negb_true_iff Hlen]%andb_true_iff Hd].
  destruct number as [|c t]; [done|]. rewrite strtod_digits by done. intros [= <-].
  pose proof (digits_value_bound _ Hd) as Hb. apply Nat.leb_le in Hlen.
  assert (10 ^ N.of_nat (length (c :: t)) <= 10 ^ 10)%N as Hp by (apply N.pow_le_mono_r; lia).
  exists (Z.of_N (digits_value 10 (c :: t))). unfold of_scientific. cbn [Z.ltb Z.compare Z.to_N].
  rewrite N.pow_0_r, N.mul_1_r, N.shiftl_mul_pow2, <- scale_pow.
  assert (10 ^ 10 <= 2 ^ 53)%N as H53 by (by vm_compute).
  rewrite of_ratio_exact by first [apply representable_int; lia | apply int_limit; lia].
  apply (is_int_intro false).
Qed.

Lemma vfx_count_int s k b x : vfx_lookup s k = (b, Some x) -> exists n, is_int x n.
Proof.
  rewrite (vfx_lookup_from k s [] : vfx_lookup s k = vfx_spec s k). unfold vfx_spec. destruct (List.find _ _) as [t|]; [|done].
  intros [= _ H]. unfold token_count in H. destruct (find_char t ":" 0); [|done].
  by apply wire_number_int in H.
Qed.

(** * One row *)

(** The counter of a one-shot row after a tick, from the counter before it. *)
Definition count_after (baselined : bool) (old new : option double) : option double :=
  match new, old with
  | None, _ => old
  | Some w, None => Some w
  | Some w, Some n => if baselined && (w <=? n)%double then old else Some w
  end.

(** The count a tick plays, if it plays one. *)
Definition count_played (baselined : bool) (old new : option double) : option double :=
  match new, old with
  | Some w, Some n => if baselined && negb (w <=? n)%double then Some w else None
  | _, _ => None
  end.

(** What the wire says of a row. *)
Definition wire_count (g : RemoteGhost) (e : MirroredEffect) : option double :=
  let (wanted, count) := vfx_lookup (target_vfx (wire_state g)) (key e) in
  if wanted then count else None.
Definition wire_wants (g : RemoteGhost) (e : MirroredEffect) : bool :=
  (vfx_lookup (target_vfx (wire_state g)) (key e)).1.

(** The burst of a row that plays. *)
Definition burst (env : fx_env) (g : RemoteGhost) (i : nat) (e : MirroredEffect) : list fx_call :=
  match fx_asset env (asset e) with
  | None => []
  | Some a =>
      let '(x, y, z) := ghost_location env in
      [SpawnAtLocation a (x, y, (z + default (world_offset_z e) (observed_world_offset env i))%double)
         (if use_performer_yaw e then (target_rot (wire_state g)).1.2 else dzero) true]
  end.

(** The ring of one-shots is bounded. *)
Definition ring_ok (g : RemoteGhost) : Prop :=
  length (recent_one_shot_components (engine_objects g)) <= MAX_TRACKED_ONE_SHOTS.

Lemma track_one_shot_length c ring : length ring <= MAX_TRACKED_ONE_SHOTS -> length (track_one_shot c ring) <= MAX_TRACKED_ONE_SHOTS.
Proof.
  unfold track_one_shot. cbv zeta. destruct (Nat.ltb_spec MAX_TRACKED_ONE_SHOTS (length (ring ++ [c]))) as [H|H]; [|done].
  rewrite length_app in H. simpl in H. intros Hr. destruct ring as [|r ring]; simpl in *; [lia|]. rewrite length_app. simpl. lia.
Qed.

(** The fields no row writes, and the ring, which stays bounded. *)
Record unwritten (g g' : RemoteGhost) : Prop := Unwritten {
  uw_wire : wire_state g' = wire_state g; uw_base : vfx_counts_baselined g' = vfx_counts_baselined g;
  uw_ghost : ghost (engine_objects g') = ghost (engine_objects g);
  uw_seen : counters_seen g' = counters_seen g; uw_latch : latches g' = latches g;
  uw_seg : weapon_segment g' = weapon_segment g;
  uw_prj : projectile_component (engine_objects g') = projectile_component (engine_objects g);
  uw_prj_world : projectile_component_world (engine_objects g') = projectile_component_world (engine_objects g);
  uw_recall : recall_glow_component (engine_objects g') = recall_glow_component (engine_objects g);
  uw_pose : pose g' = pose g;
  uw_ring : ring_ok g -> ring_ok g';
  uw_drive : drive g' = drive g
}.

#[export] Instance unwritten_preorder : PreOrder unwritten.
Proof. split; [by split|]. intros ? ? ? [] []. split; try congruence. auto. Qed.

Lemma remember_fields c g :
  unwritten g (remember_one_shot c g) /\ vfx_counts (remember_one_shot c g) = vfx_counts g /\
  vfx_components (engine_objects (remember_one_shot c g)) = vfx_components (engine_objects g).
Proof.
  destruct c; [|by split]. destruct g as [? ? h ? ? ? ?]. destruct h. split; [|done]. split; try done.
  apply track_one_shot_length.
Qed.

Lemma one_shot_row env i e count g g' calls :
  mirror_one_shot env i e count g = (g', calls) ->
  unwritten g g' /\ vfx_components (engine_objects g') = vfx_components (engine_objects g) /\
  vfx_counts g' !! key e = count_after (vfx_counts_baselined g) (vfx_counts g !! key e) count /\
  (forall k, k <> key e -> vfx_counts g' !! k = vfx_counts g !! k) /\
  calls = match count_played (vfx_counts_baselined g) (vfx_counts g !! key e) count with
          | Some _ => burst env g i e
          | None => []
          end.
Proof.
  unfold mirror_one_shot. destruct count as [w|]; [|by intros [= <- <-]]. cbv zeta.
  assert (forall g0 : RemoteGhost, unwritten g0 (g0 <| vfx_counts := <[key e := w]> (vfx_counts g0) |>)) as Hu
    by (by intros []; split).
  unfold count_after, count_played, burst.
  destruct (vfx_counts g !! key e) as [n|] eqn:En.
  - destruct (vfx_counts_baselined g); cbn [negb andb].
    + destruct (w <=? n)%double; cbn [negb].
      { intros [= <- <-]. repeat split; try done. }
      destruct (fx_asset env (asset e)) as [a|].
      * destruct (ghost_location env) as [[x y] z]. intros [= <- <-].
        match goal with |- unwritten g (remember_one_shot ?c ?g') /\ _ =>
          destruct (remember_fields c g') as (Hr1 & Hr2 & Hr3) end.
        split; [etrans; [apply Hu|apply Hr1]|]. rewrite Hr2, Hr3. destruct g. cbn.
        rewrite lookup_insert_eq. repeat split; try done. intros. by rewrite lookup_insert_ne.
      * intros [= <- <-]. split; [apply Hu|]. destruct g. cbn. rewrite lookup_insert_eq. repeat split; try done.
        intros. by rewrite lookup_insert_ne.
    + intros [= <- <-]. split; [apply Hu|]. destruct g. cbn. rewrite lookup_insert_eq. repeat split; try done.
      intros. by rewrite lookup_insert_ne.
  - intros [= <- <-]. split; [apply Hu|]. destruct g. cbn. rewrite lookup_insert_eq. repeat split; try done.
    intros. by rewrite lookup_insert_ne.
Qed.

(** The component of a sustained row after a tick. *)
Definition component_after (env : fx_env) (e : MirroredEffect) (wanted : bool) (old : option Z) : option Z :=
  if wanted then
    match old, fx_asset env (asset e), attach_component env (attach_prop e) with
    | Some c, _, _ => Some c
    | None, Some a, Some parent => spawn_niagara_attached env a parent (socket e)
    | None, _, _ => None
    end
  else None.

Definition is_burst (c : fx_call) : bool := match c with SpawnAtLocation _ _ _ _ => true | _ => false end.

Lemma sustained_row env e wanted g g' calls :
  mirror_sustained env e wanted g = (g', calls) ->
  unwritten g g' /\ vfx_counts g' = vfx_counts g /\
  vfx_components (engine_objects g') !! key e
    = component_after env e wanted (vfx_components (engine_objects g) !! key e) /\
  (forall k, k <> key e -> vfx_components (engine_objects g') !! k = vfx_components (engine_objects g) !! k) /\
  List.filter is_burst calls = [].
Proof.
  unfold mirror_sustained, component_after.
  destruct wanted, (vfx_components (engine_objects g) !! key e) as [c|] eqn:Ec.
  - by intros [= <- <-].
  - destruct (fx_asset env (asset e)) as [a|]; [|by intros [= <- <-]].
    destruct (attach_component env (attach_prop e)) as [p|]; [|by intros [= <- <-]]. cbv zeta.
    destruct (_ && _); destruct (spawn_niagara_attached env a p (socket e)) as [c|];
      intros [= <- <-]; try (by repeat split);
      destruct g as [? ? h ? ? ? ?]; destruct h; cbn in *; rewrite lookup_insert_eq;
      (split; [by split|]); (split; [done|]); (split; [done|]);
      (split; [by intros; rewrite lookup_insert_ne|]); by case_bool_decide.
  - intros [= <- <-]. destruct g as [? ? h ? ? ? ?]; destruct h; cbn in *. rewrite lookup_delete_eq.
    (split; [by split|]); (split; [done|]); (split; [done|]); (split; [by intros; rewrite lookup_delete_ne|]); done.
  - by intros [= <- <-].
Qed.

(** * All the rows *)

(** The bursts one row plays. *)
Definition row_bursts (env : fx_env) (g : RemoteGhost) (ie : nat * MirroredEffect) : list fx_call :=
  let '(i, e) := ie in
  if world_spawned e then
    match count_played (vfx_counts_baselined g) (vfx_counts g !! key e) (wire_count g e) with
    | Some _ => burst env g i e
    | None => []
    end
  else [].

(** A row's entries after the tick. *)
Definition row_done (env : fx_env) (g g' : RemoteGhost) (e : MirroredEffect) : Prop :=
  if world_spawned e then
    vfx_counts g' !! key e = count_after (vfx_counts_baselined g) (vfx_counts g !! key e) (wire_count g e) /\
    vfx_components (engine_objects g') !! key e = vfx_components (engine_objects g) !! key e
  else
    vfx_components (engine_objects g') !! key e
      = component_after env e (wire_wants g e) (vfx_components (engine_objects g) !! key e) /\
    vfx_counts g' !! key e = vfx_counts g !! key e.

(** The two states hold the same for a key. *)
Definition same_key (g g' : RemoteGhost) (k : bytes) : Prop :=
  vfx_counts g' !! k = vfx_counts g !! k /\
  vfx_components (engine_objects g') !! k = vfx_components (engine_objects g) !! k.

Lemma burst_bursts env g i e : List.filter is_burst (burst env g i e) = burst env g i e.
Proof. unfold burst. destruct (fx_asset _ _); [|done]. by destruct (ghost_location env) as [[? ?] ?]. Qed.

Lemma row_step env g g0 calls i e g' calls' :
  unwritten g g0 -> same_key g g0 (key e) -> mirror_row env (g0, calls) (i, e) = (g', calls') ->
  unwritten g g' /\ row_done env g g' e /\ (forall k, k <> key e -> same_key g0 g' k) /\
  exists cs, calls' = calls ++ cs /\ List.filter is_burst cs = row_bursts env g (i, e).
Proof.
  intros Hu [Hs1 Hs2] E. unfold mirror_row in E. rewrite (uw_wire _ _ Hu) in E.
  unfold row_done, row_bursts, wire_count, wire_wants.
  destruct (vfx_lookup (target_vfx (wire_state g)) (key e)) as [wanted count]. cbn [fst].
  destruct (world_spawned e).
  - destruct wanted.
    + destruct (mirror_one_shot env i e count g0) as [g1 c1] eqn:E1. simplify_eq.
      destruct (one_shot_row _ _ _ _ _ _ _ E1) as (H1 & H2 & H3 & H4 & H5).
      rewrite (uw_base _ _ Hu), Hs1 in H3, H5. split; [by etrans|].
      split; [by rewrite H2|]. split; [by intros; split; [apply H4|rewrite H2]|].
      exists c1. split; [done|]. subst c1.
      destruct (count_played _ _ _); [|done]. unfold burst. rewrite (uw_wire _ _ Hu).
      destruct (fx_asset _ _); [|done]. by destruct (ghost_location env) as [[? ?] ?].
    + simplify_eq. split; [done|]. split; [by destruct (vfx_counts g !! key e)|].
      split; [by split|]. exists []. by destruct (vfx_counts g !! key e).
  - destruct (mirror_sustained env e wanted g0) as [g1 c1] eqn:E1. simplify_eq.
    destruct (sustained_row _ _ _ _ _ _ E1) as (H1 & H2 & H3 & H4 & H5).
    split; [by etrans|]. rewrite H3, H2, Hs2. split; [by rewrite Hs1|].
    split; [by intros; split; [rewrite H2|apply H4]|]. eauto.
Qed.

Lemma rows_done env g : forall (rows : list (nat * MirroredEffect)) g0 calls g' calls',
  NoDup (map (fun ie => key ie.2) rows) -> unwritten g g0 ->
  (forall ie, ie ∈ rows -> same_key g g0 (key ie.2)) ->
  foldl (mirror_row env) (g0, calls) rows = (g', calls') ->
  unwritten g g' /\ (forall ie, ie ∈ rows -> row_done env g g' ie.2) /\
  (forall k, k ∉ map (fun ie => key ie.2) rows -> same_key g0 g' k) /\
  exists cs, calls' = calls ++ cs /\ List.filter is_burst cs = concat (map (row_bursts env g) rows).
Proof.
  induction rows as [|[i e] rows IH]; intros g0 calls g' calls' Hnd Hu Hs E.
  - simpl in E. simplify_eq. split; [done|]. split; [by intros ? ?%elem_of_nil|]. split; [by split|].
    exists []. by rewrite app_nil_r.
  - cbn [foldl] in E. simpl in Hnd. apply list.NoDup_cons in Hnd as [Hni Hnd].
    destruct (mirror_row env (g0, calls) (i, e)) as [g1 c1] eqn:E1.
    destruct (row_step env g g0 calls i e g1 c1 Hu (Hs (i, e) ltac:(by left)) E1)
      as (Hu1 & Hd & Hk & cs1 & -> & Hb1).
    assert (forall ie, ie ∈ rows -> key ie.2 <> key e) as Hne.
    { intros ie Hie Heq. apply Hni. rewrite <- Heq. by apply (list_elem_of_fmap_2 (fun ie => key ie.2)). }
    destruct (IH g1 (calls ++ cs1) g' calls' Hnd Hu1) as (Hu2 & Hd2 & Hk2 & cs2 & -> & Hb2).
    { intros ie Hie. unfold same_key. destruct (Hk (key ie.2) (Hne ie Hie)) as [-> ->]. apply Hs. by right. }
    { done. }
    split; [done|]. split.
    { intros ie [->|Hie]%elem_of_cons; [|by apply Hd2]. cbn [snd].
      destruct (Hk2 (key e) Hni) as [Ha Hb]. unfold row_done in *. by rewrite Ha, Hb. }
    split.
    { intros k Hkn. simpl in Hkn. apply not_elem_of_cons in Hkn as [? ?].
      unfold same_key. destruct (Hk2 k) as [-> ->]; [done|]. by apply Hk. }
    exists (cs1 ++ cs2). split; [by rewrite app_assoc|].
    rewrite List.filter_app, Hb1, Hb2. done.
Qed.

Lemma keys_distinct : NoDup (map (fun ie => key ie.2) (imap pair MIRRORED_EFFECTS)).
Proof. by apply (bool_decide_unpack _); vm_compute. Qed.

(** The whole tick on a ghost that has a pawn. *)
Lemma tick_done env g actor g' calls :
  ghost (engine_objects g) = Some actor -> tick_remote_mirrored_vfx env g = (g', calls) ->
  vfx_counts_baselined g' = true /\ wire_state g' = wire_state g /\
  ghost (engine_objects g') = ghost (engine_objects g) /\
  counters_seen g' = counters_seen g /\ latches g' = latches g /\
  (forall i e, MIRRORED_EFFECTS !! i = Some e -> row_done env g g' e) /\
  List.filter is_burst calls = concat (map (row_bursts env g) (imap pair MIRRORED_EFFECTS)).
Proof.
  unfold tick_remote_mirrored_vfx. intros Hg E. rewrite Hg in E. cbn [MIRROR_PLAYER_VFX negb] in E.
  destruct (foldl (mirror_row env) (g, []) (imap pair MIRRORED_EFFECTS)) as [g1 c1] eqn:Ef.
  destruct (rows_done env g _ g [] g1 c1 keys_distinct ltac:(reflexivity) ltac:(by split) Ef)
    as ([] & Hd & _ & cs & -> & Hb).
  simplify_eq. split; [done|]. repeat (split; [by destruct g1|]). split; [|done].
  intros i e Hi. assert ((i, e) ∈ imap pair MIRRORED_EFFECTS) as Hin
    by (apply elem_of_lookup_imap; eauto).
  specialize (Hd _ Hin). by destruct g1.
Qed.

(** A one-shot of a ghost is played by a tick exactly when the ghost has a pawn, the
    row is a one-shot of the table, a first pass has baselined the counts, and the
    peer's count for the row's key is not at most the one remembered; what is played
    is the table's asset, never a name from the wire. *)
Theorem one_shot_played env g a at_ yaw auto_destroy :
  SpawnAtLocation a at_ yaw auto_destroy ∈ (tick_remote_mirrored_vfx env g).2 <->
  ghost (engine_objects g) <> None /\ vfx_counts_baselined g = true /\
  exists i e n w, MIRRORED_EFFECTS !! i = Some e /\ world_spawned e = true /\
    vfx_counts g !! key e = Some n /\ wire_count g e = Some w /\ (w <=? n)%double = false /\
    SpawnAtLocation a at_ yaw auto_destroy ∈ burst env g i e.
Proof.
  destruct (ghost (engine_objects g)) as [actor|] eqn:Hg.
  2:{ unfold tick_remote_mirrored_vfx. rewrite Hg. simpl. split; [by intros ?%elem_of_nil|]. by intros (? & _). }
  destruct (tick_remote_mirrored_vfx env g) as [g' calls] eqn:E. cbn [snd].
  destruct (tick_done _ _ _ _ _ Hg E) as (_ & _ & _ & _ & _ & _ & Hb).
  transitivity (SpawnAtLocation a at_ yaw auto_destroy ∈ List.filter is_burst calls).
  { rewrite !list_elem_of_In, List.filter_In. by split; [|intros []]. }
  rewrite Hb, list_elem_of_In, in_concat. setoid_rewrite in_map_iff. setoid_rewrite <- list_elem_of_In. split.
  - intros (bs & ([i e] & <- & (i' & e' & ? & Hi)%elem_of_lookup_imap) & Hin). simplify_eq.
    unfold row_bursts in Hin. destruct (world_spawned e') eqn:Hw; [|by apply elem_of_nil in Hin].
    unfold count_played in Hin. destruct (wire_count g e') as [w|] eqn:Ew; [|by apply elem_of_nil in Hin].
    destruct (vfx_counts g !! key e') as [n|] eqn:En; [|by apply elem_of_nil in Hin].
    destruct (vfx_counts_baselined g); [|by apply elem_of_nil in Hin].
    destruct (w <=? n)%double eqn:El; [by apply elem_of_nil in Hin|].
    repeat split; try done. by exists i', e', n, w.
  - intros (_ & Hbase & i & e & n & w & Hi & Hw & Hn & Ew & El & Hin).
    exists (burst env g i e). split; [|done]. exists (i, e). split.
    + unfold row_bursts, count_played. by rewrite Hw, Ew, Hn, Hbase, El.
    + apply elem_of_lookup_imap. eauto.
Qed.

(** * Runs *)

(** The wire string of the newest sample, then a tick; one after the other. *)
Definition vfx_tick (env : fx_env) (wire : bytes) (g : RemoteGhost) : RemoteGhost :=
  (tick_remote_mirrored_vfx env (g <| wire_state := wire_state g <| target_vfx := wire |> |>)).1.

(** The counts of row [e] played along the way. *)
Fixpoint plays (e : MirroredEffect) (ticks : list (fx_env * bytes)) (g : RemoteGhost) : list double :=
  match ticks with
  | [] => []
  | (env, wire) :: ticks =>
      let g0 := g <| wire_state := wire_state g <| target_vfx := wire |> |> in
      option_list (count_played (vfx_counts_baselined g) (vfx_counts g !! key e) (wire_count g0 e))
        ++ plays e ticks (vfx_tick env wire g)
  end.

Lemma dlt_trans a b c : dlt a b = true -> dlt b c = true -> dlt a c = true.
Proof.
  destruct a as [|[]|n m], b as [|[]|n' m'], c as [|[]|n'' m'']; try done.
  rewrite !dlt_fin. lia.
Qed.

Definition int_count (o : option double) : Prop := match o with Some x => exists n, is_int x n | None => True end.

Lemma wire_count_int g e : int_count (wire_count g e).
Proof.
  unfold int_count, wire_count. destruct (vfx_lookup _ _) as [[] [x|]] eqn:E; try done.
  by eapply vfx_count_int.
Qed.

(** What a tick does to the counter of a row, for a ghost with a pawn. *)
Lemma vfx_tick_count env wire g i e :
  MIRRORED_EFFECTS !! i = Some e -> world_spawned e = true -> ghost (engine_objects g) <> None ->
  let g0 := g <| wire_state := wire_state g <| target_vfx := wire |> |> in
  vfx_counts (vfx_tick env wire g) !! key e
    = count_after (vfx_counts_baselined g) (vfx_counts g !! key e) (wire_count g0 e) /\
  vfx_counts_baselined (vfx_tick env wire g) = true /\
  ghost (engine_objects (vfx_tick env wire g)) <> None.
Proof.
  intros Hi Hw Hg g0. unfold vfx_tick. fold g0.
  destruct (tick_remote_mirrored_vfx env g0) as [g' calls] eqn:E.
  destruct (ghost (engine_objects g)) as [actor|] eqn:Ha; [|done].
  assert (ghost (engine_objects g0) = Some actor) as Ha0 by (by destruct g).
  destruct (tick_done _ _ _ _ _ Ha0 E) as (Hb & _ & Hgh & _ & _ & Hd & _). cbn [fst].
  specialize (Hd i e Hi). unfold row_done in Hd. rewrite Hw in Hd. destruct Hd as [-> _].
  rewrite Hgh, Ha0. repeat split; by destruct g.
Qed.

Lemma plays_rising i e ticks : forall g n,
  MIRRORED_EFFECTS !! i = Some e -> world_spawned e = true -> ghost (engine_objects g) <> None ->
  vfx_counts_baselined g = true -> vfx_counts g !! key e = Some n -> (exists k, is_int n k) ->
  StronglySorted (fun a b => dlt a b = true) (n :: plays e ticks g).
Proof.
  induction ticks as [|[env wire] ticks IH]; intros g n Hi Hw Hg Hb Hn [k Hk]; cbn [plays].
  { by repeat constructor. }
  destruct (vfx_tick_count env wire g i e Hi Hw Hg) as (Hc & Hb' & Hg').
  set (g0 := g <| wire_state := wire_state g <| target_vfx := wire |> |>) in *.
  rewrite Hb, Hn in Hc |- *. pose proof (wire_count_int g0 e) as Hwc.
  unfold count_after, count_played in *. destruct (wire_count g0 e) as [w|]; cbn [andb] in *.
  2:{ simpl. by apply IH; [| | | | |exists k]. }
  destruct (w <=? n)%double eqn:El; cbn [negb option_list app] in *.
  { by apply IH; [| | | | |exists k]. }
  destruct Hwc as [kw Hkw].
  assert (dlt n w = true) as Hlt.
  { rewrite (is_int_le w n kw k) in El by done. rewrite (is_int_lt n w k kw) by done. lia. }
  pose proof (IH _ w Hi Hw Hg' Hb' Hc ltac:(by exists kw)) as Hs. apply StronglySorted_inv in Hs as [Hs Hall].
  constructor; [by constructor|]. constructor; [done|].
  eapply List.Forall_impl; [|exact Hall]. intros b Hbw. by eapply dlt_trans.
Qed.

(** On a fresh ghost, the counts of a one-shot row that are played over any run of
    ticks, whatever the peer sends, rise strictly: no count is played twice, and an
    old one never again. *)
Theorem one_shot_never_replayed (i : nat) (e : MirroredEffect) (ticks : list (fx_env * bytes)) (g : RemoteGhost)
    (Hi : MIRRORED_EFFECTS !! i = Some e) (Hw : world_spawned e = true)
    (Hg : ghost (engine_objects g) <> None) (Hfresh : vfx_counts g !! key e = None) :
  StronglySorted (fun a b => dlt a b = true) (plays e ticks g).
Proof.
  revert g Hg Hfresh. induction ticks as [|[env wire] ticks IH]; intros g Hg Hfresh; cbn [plays]; [constructor|].
  destruct (vfx_tick_count env wire g i e Hi Hw Hg) as (Hc & Hb' & Hg').
  set (g0 := g <| wire_state := wire_state g <| target_vfx := wire |> |>) in *.
  rewrite Hfresh in Hc |- *. pose proof (wire_count_int g0 e) as Hwc.
  unfold count_after, count_played in *. destruct (wire_count g0 e) as [w|]; cbn [option_list app].
  - destruct (StronglySorted_inv (plays_rising i e ticks _ w Hi Hw Hg' Hb' Hc Hwc)) as [Hs _]. exact Hs.
  - by apply IH.
Qed.

(** A sustained effect is made once, on the first tick that names it and whose engine
    has its asset, its attach component and a component to give; it is kept as it is
    while it is named; and it is gone after the first tick that does not name it. *)
Theorem sustained_follows_wire (env : fx_env) (g g' : RemoteGhost) (actor : Z) (calls : list fx_call)
    (i : nat) (e : MirroredEffect)
    (Hg : ghost (engine_objects g) = Some actor) (Ht : tick_remote_mirrored_vfx env g = (g', calls))
    (Hi : MIRRORED_EFFECTS !! i = Some e) (Hw : world_spawned e = false) :
  let before := vfx_components (engine_objects g) !! key e in
  let after := vfx_components (engine_objects g') !! key e in
  (wire_wants g e = false -> after = None) /\
  (forall c, wire_wants g e = true -> before = Some c -> after = Some c) /\
  (forall a p, wire_wants g e = true -> before = None ->
     fx_asset env (asset e) = Some a -> attach_component env (attach_prop e) = Some p ->
     after = spawn_niagara_attached env a p (socket e)).
Proof.
  destruct (tick_done _ _ _ _ _ Hg Ht) as (_ & _ & _ & _ & _ & Hd & _).
  specialize (Hd i e Hi). unfold row_done in Hd. rewrite Hw in Hd. destruct Hd as [Hd _].
  cbv zeta. rewrite Hd. unfold component_after. split; [by intros ->|].
  split; [by intros c -> ->|]. by intros a p -> -> -> ->.
Qed.

(** * Witnesses *)

Definition sample_env : fx_env :=
  {| fx_asset := fun _ => Some 7%Z; ghost_location := (of_Z 1, of_Z 2, of_Z 3);
     observed_world_offset := fun _ => None; attach_component := fun _ => Some 8%Z;
     spawn_niagara_at_location := fun _ _ _ => Some 9%Z; spawn_niagara_attached := fun _ _ _ => Some 10%Z |}.
Definition sample_ghost (wire : string) : RemoteGhost :=
  RemoteGhost0 <| engine_objects := handles0 <| ghost := Some 1%Z |> |>
               <| wire_state := wire0 <| target_vfx := str wire |> |>.
Definition sample_ticks : list (fx_env * bytes) :=
  map (fun s => (sample_env, str s))
    ["dl:3"; "dl:3"; "heal,dl:5"; "dl:4"; "dlx:9,dl:6"; "dl:99999999999"; "dl:1"]%string.

(** First sight is not played, then 5 and 6 are; 4, 1 and the eleven-digit count are not. *)
Lemma one_shot_never_replayed_witness :
  (exists e, MIRRORED_EFFECTS !! 5 = Some e /\ plays e sample_ticks (sample_ghost "") = [of_Z 5; of_Z 6]) /\
  StronglySorted (fun a b => dlt a b = true) [of_Z 5; of_Z 6].
Proof.
  split; [eexists; split; [reflexivity|by vm_compute]|].
  pose proof (one_shot_never_replayed 5 (effect "dl" "/Game/VFX/Systems/NS_DustLand.NS_DustLand" "RootComponent" None true (-65))
    sample_ticks (sample_ghost "") ltac:(reflexivity) ltac:(reflexivity) ltac:(vm_compute; discriminate)
    ltac:(reflexivity)) as H.
  exact H.
Defined.

Lemma sustained_follows_wire_witness :
  vfx_components (engine_objects (tick_remote_mirrored_vfx sample_env (sample_ghost "heal,rsp")).1) !! str "rsp" = Some 10%Z.
Proof.
  destruct (tick_remote_mirrored_vfx sample_env (sample_ghost "heal,rsp")) as [g' calls] eqn:E.
  pose proof (sustained_follows_wire sample_env (sample_ghost "heal,rsp") g' 1 calls 4
    (effect "rsp" "/Game/VFX/Systems/NS_RespawnSafe.NS_RespawnSafe" "CapsuleComponent" None false 0)
    ltac:(reflexivity) E ltac:(reflexivity) ltac:(reflexivity)) as (_ & _ & H).
  exact (H 7%Z 8%Z ltac:(vm_compute; reflexivity) ltac:(reflexivity) ltac:(reflexivity) ltac:(reflexivity)).
Defined.
