(* ===== verification/PeerProps.v ===== *)
(** Plugin.cpp, the props of a peer drawn on its ghost: the thrown sword
    ([tick_remote_weapon]), the projectile ([tick_remote_projectile]) and the empty-hand
    glow ([tick_remote_recall_glow]).

    The engine and the clock are an argument, [prop_env]; the calls made are returned,
    in order.  A lookup the code caches in a static local is the environment's answer. *)
From S2P Require Import Prelude Float64 CScan JsonString JsonBounds RemoteGhost VfxMirror.
From Stdlib Require Import ZArith.

Definition LOG_INTERVAL_TICKS : Z := 120.
Definition WEAPON_SEG_MIN_MS : Z := 16.
Definition WEAPON_SEG_MAX_MS : Z := 400.
Definition WEAPON_SNAP_DISTANCE : double := of_Z 1500.
Definition LANDED_WEAPON_STATE : Z := 3.
Definition FLOOR_DROP : double := of_Z 38.
Definition MIRROR_PEER_PROJECTILE : bool := true.
Definition RECALL_GLOW_ENABLED : bool := true.
Definition LAND_DUST : string := "/Game/VFX/Systems/NS_DustLand.NS_DustLand".
Definition WALL_KICK_HIT : string := "/Game/VFX/Systems/NS_WallKickHit.NS_WallKickHit".
Definition RECALL_GLOW_ASSET : string := "/Game/VFX/Emitters/NS_WeaponCallReady.NS_WeaponCallReady".

Record prop_env := PropEnv {
  fx : fx_env;
  weapon_prop_skipped : bool;
  hand : option Z;                         (* the ghost's WeaponMesh *)
  tick : Z; now_ms : Z;                    (* tick_count, the steady clock *)
  created_flyer : option Z;                (* what create_ghost_weapon_flyer returns *)
  deactivate_immediate : bool;             (* the component class has DeactivateImmediate *)
  peer_asset : bytes -> option Z;          (* resolve_peer_named_asset, NiagaraSystem *)
  current_world : option Z;
  ghost_name : bytes;
  niagara_components : list (Z * bytes * option bytes);  (* object, full name, its asset's *)
  weapon_mesh : option Z
}.

(** * Vectors *)

Definition map3 (f : double -> double -> double) (a b : vec3) : vec3 :=
  let '(x, y, z) := a in let '(x', y', z') := b in (f x x', f y y', f z z').
Definition sub3 : vec3 -> vec3 -> vec3 := map3 dsub.
(** [a.x != b.x || a.y != b.y || a.z != b.z] *)
Definition ne3 (a b : vec3) : bool :=
  let '(x, y, z) := a in let '(x', y', z') := b in dne x x' || dne y y' || dne z z'.
Definition square_length (v : vec3) : double := let '(x, y, z) := v in (x * x + y * y + z * z)%double.
Definition lerp3 (from to : vec3) (t : double) : vec3 :=
  map3 (fun a b => (a + (b - a) * t)%double) from to.
Definition drop_z (v : vec3) (d : double) : vec3 := let '(x, y, z) := v in (x, y, (z - d)%double).

(** * The sword's glide *)

Definition must_snap (primed : bool) (target : vec3) (s : segment) : bool :=
  negb primed
  || (square_length (sub3 target (render_weapon s)) >? WEAPON_SNAP_DISTANCE * WEAPON_SNAP_DISTANCE)%double.

(** The measured interval, within its bounds. *)
Definition clamp_dur (dur : Z) : Z :=
  let dur := if (dur <? WEAPON_SEG_MIN_MS)%Z then WEAPON_SEG_MIN_MS else dur in
  if (dur >? WEAPON_SEG_MAX_MS)%Z then WEAPON_SEG_MAX_MS else dur.

Definition new_segment (now : Z) (target : vec3) (s : segment) : segment :=
  s <| weapon_seg_from := render_weapon s |> <| weapon_seg_to := target |>
    <| weapon_seg_start_ms := now |> <| weapon_seg_dur_ms := clamp_dur (now - weapon_target_seen_ms s) |>
    <| weapon_target_seen_ms := now |>.

(** How far along the segment the clock is, in [0, 1]. *)
Definition progress (now : Z) (s : segment) : double :=
  if (weapon_seg_dur_ms s >? 0)%Z then
    let t := (of_Z (now - weapon_seg_start_ms s) / of_Z (weapon_seg_dur_ms s))%double in
    let t := if (t <? dzero)%double then dzero else t in
    if (t >? of_Z 1)%double then of_Z 1 else t
  else of_Z 1.

Definition glide (now : Z) (target : vec3) (primed : bool) (s : segment) : segment :=
  if must_snap primed target s then
    s <| render_weapon := target |> <| weapon_seg_from := target |> <| weapon_seg_to := target |>
      <| weapon_seg_start_ms := now |> <| weapon_seg_dur_ms := 0%Z |> <| weapon_target_seen_ms := now |>
  else
    let s := if ne3 target (weapon_seg_to s) then new_segment now target s else s in
    s <| render_weapon := lerp3 (weapon_seg_from s) (weapon_seg_to s) (progress now s) |>.

(** * The tick of the sword *)

Definition upd_segment (f : segment -> segment) (g : RemoteGhost) : RemoteGhost :=
  g <| weapon_segment := f (weapon_segment g) |>.
Definition upd_latch (f : latch -> latch) (g : RemoteGhost) : RemoteGhost := g <| latches := f (latches g) |>.

(** A call for each object held. *)
Definition calls_on (o : option Z) (f : Z -> list fx_call) : list fx_call :=
  match o with Some c => f c | None => [] end.

(** Back in the hand: the flyer is kept and hidden, the glow is destroyed. *)
Definition put_away (env : prop_env) (g : RemoteGhost) : RemoteGhost * list fx_call :=
  let h := engine_objects g in
  let show := match hand env with Some c => weapon_hand_hidden (latches g) | None => false end in
  let stop := if deactivate_immediate env then "DeactivateImmediate"%string else "Deactivate"%string in
  (upd_latch (fun l => l <| weapon_hand_hidden := if show then false else weapon_hand_hidden l |>
                         <| weapon_render_primed := false |> <| last_synced_weapon_state := of_Z (-1) |>)
     (upd_handles (fun h => h <| weapon_glow_component := None |>) g),
   calls_on (weapon_fly_component h) (fun c => [SetVisibility c false])
   ++ calls_on (weapon_glow_component h)
        (fun c => [SetVisibility c false; CallByName c stop; CallByName c "DestroyComponent"])
   ++ (if show then calls_on (hand env) (fun c => [SetVisibility c true]) else [])).

(** The flyer, made at most once per [LOG_INTERVAL_TICKS]. *)
Definition ensure_flyer (env : prop_env) (g : RemoteGhost) : RemoteGhost :=
  match weapon_fly_component (engine_objects g) with
  | Some _ => g
  | None =>
      let last := last_weapon_spawn_attempt_tick (weapon_segment g) in
      if (u64 (tick env - last) <? LOG_INTERVAL_TICKS)%Z && negb (last =? 0)%Z then g
      else upd_handles (fun h => h <| weapon_fly_component := created_flyer env |>)
             (upd_segment (fun s => s <| last_weapon_spawn_attempt_tick := tick env |>) g)
  end.

(** The landing's dust and glow, on a change of the peer's weapon state. *)
Definition land_edge (env : prop_env) (g : RemoteGhost) : RemoteGhost * list fx_call :=
  let w := wire_state g in
  if dne (target_weapon_state w) (last_synced_weapon_state (latches g)) then
    let g := upd_latch (fun l => l <| last_synced_weapon_state := target_weapon_state w |>) g in
    let landed := (clamp_to_uint8 (target_weapon_state w) =? LANDED_WEAPON_STATE)%Z in
    let at_ := drop_z (target_weapon_pos w) FLOOR_DROP in
    let '(g, dust) :=
      match landed, fx_asset (fx env) LAND_DUST with
      | true, Some a => (remember_one_shot (spawn_niagara_at_location (fx env) a at_ dzero) g,
                         [SpawnAtLocation a at_ dzero true])
      | _, _ => (g, [])
      end in
    match landed, weapon_glow_component (engine_objects g), bool_decide (target_weapon_glow w = []) with
    | true, None, false =>
        match peer_asset env (target_weapon_glow w) with
        | None => (g, dust)
        | Some a =>
            (upd_handles (fun h => h <| weapon_glow_component :=
                                         spawn_niagara_at_location (fx env) a at_ dzero |>) g,
             dust ++ [SpawnAtLocation a at_ dzero false])
        end
    | _, _, _ => (g, dust)
    end
  else (g, []).

(** The wall bounces: the counter is baselined, then each rise plays one hit. *)
Definition bounce (env : prop_env) (g : RemoteGhost) : RemoteGhost * list fx_call :=
  let target := target_weapon_bounce (wire_state g) in
  let last := last_seen_weapon_bounce (weapon_segment g) in
  let record := upd_segment (fun s => s <| last_seen_weapon_bounce := target |>) in
  if (last <? dzero)%double then (record g, [])
  else if (target >? last)%double then
    (record g, calls_on (fx_asset (fx env) WALL_KICK_HIT)
                 (fun a => [SpawnAtLocation a (render_weapon (weapon_segment g)) dzero true]))
  else (g, []).

(** The roll the flyer is drawn with. *)
Definition fly_rotation (r : vec3) : vec3 := let '(p, y, ro) := r in (p, y, (ro + of_Z 90)%double).

Definition tick_remote_weapon (env : prop_env) (g : RemoteGhost) : RemoteGhost * list fx_call :=
  if weapon_prop_skipped env then (g, [])
  else match ghost (engine_objects g) with
  | None => (g, [])
  | Some _ =>
      if negb (target_weapon_thrown (wire_state g)) then put_away env g
      else
        let g := ensure_flyer env g in
        match weapon_fly_component (engine_objects g) with
        | None => (g, [])
        | Some fly =>
            let hide := match hand env with Some c => negb (weapon_hand_hidden (latches g)) | None => false end in
            let calls := (if hide then calls_on (hand env) (fun c => [SetVisibility c false]) else [])
                         ++ [SetVisibility fly true] in
            let target := target_weapon_pos (wire_state g) in
            let g := upd_segment (glide (now_ms env) target (weapon_render_primed (latches g))) g in
            let g := upd_latch (fun l => l <| weapon_hand_hidden := hide || weapon_hand_hidden l |>
                                           <| weapon_render_primed := true |>) g in
            let (g, landing) := land_edge env g in
            let (g, hits) := bounce env g in
            let landed := (clamp_to_uint8 (target_weapon_state (wire_state g)) =? LANDED_WEAPON_STATE)%Z in
            let seat := if landed then
                          calls_on (weapon_glow_component (engine_objects g))
                            (fun c => [SetWorldLocationAndRotation c (drop_z target FLOOR_DROP) vzero])
                        else [] in
            let render := render_weapon (weapon_segment g) in
            (upd_segment (fun s => s <| last_written_weapon := render |> <| weapon_write_recorded := true |>) g,
             calls ++ landing ++ hits ++ seat
             ++ [SetWorldLocationAndRotation fly render (fly_rotation (target_weapon_rot (wire_state g)))])
        end
  end.

(** * The projectile *)

(** A component of another world is forgotten. *)
Definition forget_other_world (world : option Z) (h : handles) : handles :=
  match projectile_component h, world, projectile_component_world h with
  | Some _, Some w, Some w' =>
      if bool_decide (w' <> w) then h <| projectile_component := None |> <| projectile_component_world := None |>
      else h
  | _, _, _ => h
  end.

Definition end_projectile (h : handles) : handles * list fx_call :=
  match projectile_component h with
  | None => (h, [])
  | Some c => (h <| projectile_component := None |> <| projectile_component_world := None |>,
               [CallByName c "Deactivate"; CallByName c "DestroyComponent"])
  end.

(** The attempt to make the component, throttled after a name that did not resolve. *)
Definition start_projectile (env : prop_env) (g : RemoteGhost) : RemoteGhost * list fx_call :=
  let w := wire_state g in
  match bool_decide (target_projectile_vfx w = []), current_world env with
  | true, _ | _, None => (g, [])
  | false, Some world =>
      if bool_decide (target_projectile_vfx w = last_failed_projectile_vfx (weapon_segment g))
         && (u64 (tick env - last_projectile_spawn_attempt_tick (weapon_segment g)) <? LOG_INTERVAL_TICKS)%Z
      then (g, [])
      else
        let g := upd_segment (fun s => s <| last_projectile_spawn_attempt_tick := tick env |>) g in
        match peer_asset env (target_projectile_vfx w) with
        | None => (upd_segment (fun s => s <| last_failed_projectile_vfx := target_projectile_vfx w |>) g, [])
        | Some a =>
            let g := upd_segment (fun s => s <| last_failed_projectile_vfx := [] |>) g in
            (* without a pawn the spawn has no world context and makes nothing *)
            match ghost (engine_objects g) with
            | None => (g, [])
            | Some _ =>
                match spawn_niagara_at_location (fx env) a (target_projectile_pos w) dzero with
                | None => (g, [SpawnAtLocation a (target_projectile_pos w) dzero false])
                | Some c =>
                    (upd_handles (fun h => h <| projectile_component := Some c |>
                                             <| projectile_component_world := Some world |>) g,
                     [SpawnAtLocation a (target_projectile_pos w) dzero false])
                end
            end
        end
  end.

Definition tick_remote_projectile (env : prop_env) (g : RemoteGhost) : RemoteGhost * list fx_call :=
  if negb MIRROR_PEER_PROJECTILE then (g, [])
  else
    let g := upd_handles (forget_other_world (current_world env)) g in
    if negb (target_projectile_active (wire_state g)) then
      let (h, calls) := end_projectile (engine_objects g) in (g <| engine_objects := h |>, calls)
    else
      let (g, calls) := match projectile_component (engine_objects g) with
                        | None => start_projectile env g
                        | Some _ => (g, [])
                        end in
      (g, calls ++ calls_on (projectile_component (engine_objects g))
                     (fun c => [WriteRelativeLocation c (target_projectile_pos (wire_state g))])).

(** * The empty-hand glow *)

Definition contains (s needle : bytes) : bool :=
  match find_str needle s with Some _ => true | None => false end.

(** The glows the ghost built for itself. *)
Definition own_glows (env : prop_env) (h : handles) : list Z :=
  omap (fun '(c, name, asset_name) =>
          if bool_decide (Some c = recall_glow_component h) || negb (contains name (ghost_name env)) then None
          else match asset_name with
               | Some a => if contains a (str RECALL_GLOW_ASSET) then Some c else None
               | None => None
               end) (niagara_components env).

Definition take_down (c : Z) : list fx_call := [CallByName c "Deactivate"; CallByName c "DestroyComponent"].

Definition tick_remote_recall_glow (env : prop_env) (g : RemoteGhost) : RemoteGhost * list fx_call :=
  match ghost (engine_objects g) with
  | None => (g, [])
  | Some _ =>
      if negb RECALL_GLOW_ENABLED then (g, [])
      else
        let swept := if recall_glow_swept (latches g) then []
                     else concat (map take_down (own_glows env (engine_objects g))) in
        let g := upd_latch (fun l => l <| recall_glow_swept := true |>) g in
        let want_glow := target_recall_glow (wire_state g) in
        if Bool.eqb want_glow (recall_glow_shown (latches g)) then (g, swept)
        else
          let g := upd_latch (fun l => l <| recall_glow_shown := want_glow |>) g in
          if want_glow then
            match fx_asset (fx env) RECALL_GLOW_ASSET, weapon_mesh env with
            | Some a, Some mesh =>
                (upd_handles (fun h => h <| recall_glow_component :=
                                             spawn_niagara_attached (fx env) a mesh None |>) g,
                 swept ++ [SpawnAttached a mesh None])
            | _, _ => (g, swept)
            end
          else
            (upd_handles (fun h => h <| recall_glow_component := None |>) g,
             swept ++ calls_on (recall_glow_component (engine_objects g)) take_down)
  end.
