(* ===== verification/GlideProps.v ===== *)
(** The glide of the thrown sword: the drawn position never leaves the finite doubles,
    a new segment starts where the sword is drawn, and it ends on its target. *)
From S2P Require Import Prelude Float64 FloatFacts JsonString JsonBounds ScanFacts RemoteGhost.
From S2P Require Import VfxMirror PeerProps.
From Stdlib Require Import NArith ZArith.

(** * A lower bound that survives rounding *)

(** [a] is not negative, and at least [k] units. *)
Definition at_least (a : double) (k : N) : Prop := a = DInf false \/ exists m, a = DFin false m /\ (k <= m)%N.

Lemma of_ratio_at_least num den sh k :
  (0 < den)%N -> representable prec64 0 k = true -> (k * (den * 2 ^ sh) <= num)%N ->
  at_least (of_ratio false num den sh) k.
Proof.
  intros Hd Hk Hle. unfold of_ratio. destruct (_ <? limit64)%N; [right|by left].
  eexists. split; [done|]. by apply round_mag_ge.
Qed.

Lemma at_least_weaken a k k' : (k' <= k)%N -> at_least a k -> at_least a k'.
Proof. intros ? [->|(m & -> & ?)]; [by left|]. right. exists m. split; [done|lia]. Qed.

Lemma at_least_add a b k :
  representable prec64 0 k = true -> at_least a k -> at_least b 0 -> at_least (dadd a b) k.
Proof.
  intros Hk [->|(m & -> & Hm)] [->|(m' & -> & _)]; try by left.
  unfold dadd, of_signed, signed. destruct (Z.eqb_spec (Z.of_N m + Z.of_N m') 0).
  - right. exists 0%N. split; [done|lia].
  - replace (Z.of_N m + Z.of_N m' <? 0)%Z with false by lia.
    apply of_ratio_at_least; [done|done|]. rewrite N.pow_0_r. lia.
Qed.

Lemma dadd_comm a b : dadd a b = dadd b a.
Proof.
  destruct a as [|n|n m], b as [|n'|n' m']; try done; simpl.
  - by destruct n, n'.
  - by rewrite andb_comm, Z.add_comm.
Qed.

Lemma at_least_lt a k c m : at_least a k -> c = DFin false m -> (m < k)%N -> dlt c a = true.
Proof. intros [->|(m' & -> & ?)] -> ?; [done|]. rewrite dlt_fin. simpl. lia. Qed.

(** A square is not negative, and that of a large number is large. *)
Definition BIG : N := 2 ^ 1090.
Definition BIG_SQUARE : N := 2 ^ 1106.
#[global] Arguments BIG : simpl never.
#[global] Arguments BIG_SQUARE : simpl never.

Lemma square_at_least x :
  isnan x = false -> at_least (dmul x x) 0 /\
  (forall n m, x = DFin n m -> (BIG <= m)%N -> at_least (dmul x x) BIG_SQUARE) /\
  (isfinite x = false -> at_least (dmul x x) BIG_SQUARE).
Proof.
  destruct x as [|n|n m]; [done| |]; intros _; unfold dmul; rewrite xorb_nilpotent.
  - split; [by left|split; [done|by left]].
  - split; [apply of_ratio_at_least; [done|done|lia]|]. split; [|done].
    intros ? ? [= <- <-] Hb. apply of_ratio_at_least; [done|by vm_compute|].
    rewrite N.mul_1_l. assert (BIG_SQUARE * 2 ^ 1074 = BIG * BIG)%N as -> by (by vm_compute).
    by apply N.mul_le_mono.
Qed.

(** * Points and segments *)

Definition pt (x : double) : Prop := wf x /\ isfinite x = true.
Definition pt3 (v : vec3) : Prop := let '(x, y, z) := v in pt x /\ pt y /\ pt z.
(** The step from one coordinate to another is finite and below 65536. *)
Definition near (x y : double) : Prop := exists n m, dsub y x = DFin n m /\ (m < BIG)%N.
Definition near3 (a b : vec3) : Prop :=
  let '(x, y, z) := a in let '(x', y', z') := b in near x x' /\ near y y' /\ near z z'.

Lemma dsub_notnan x y : isfinite x = true -> isfinite y = true -> isnan (dsub x y) = false.
Proof.
  destruct x as [| |n m], y as [| |n' m']; try done. intros _ _.
  unfold dsub, dneg, dadd, of_signed, of_ratio. destruct (_ =? 0)%Z; [done|]. by destruct (_ <? limit64)%N.
Qed.

(** Two points no farther apart than the snap distance are near. *)
Lemma within_snap a b :
  pt3 a -> pt3 b ->
  dlt (WEAPON_SNAP_DISTANCE * WEAPON_SNAP_DISTANCE)%double (square_length (sub3 b a)) = false -> near3 a b.
Proof.
  destruct a as [[x y] z], b as [[x' y'] z']. intros ([_ Fx] & [_ Fy] & [_ Fz]) ([_ Fx'] & [_ Fy'] & [_ Fz']).
  unfold square_length, sub3, map3, near3.
  assert ((WEAPON_SNAP_DISTANCE * WEAPON_SNAP_DISTANCE)%double = DFin false (2250000 * scale)) as -> by (by vm_compute).
  assert (2250000 * scale < BIG_SQUARE)%N as Hlim by (by vm_compute).
  assert (representable prec64 0 BIG_SQUARE = true) as Hrep by (by vm_compute).
  destruct (square_at_least (dsub x' x) (dsub_notnan _ _ Fx' Fx)) as (Px & Bx & Ix).
  destruct (square_at_least (dsub y' y) (dsub_notnan _ _ Fy' Fy)) as (Py & By & Iy).
  destruct (square_at_least (dsub z' z) (dsub_notnan _ _ Fz' Fz)) as (Pz & Bz & Iz).
  intros Hs.
  assert (forall u v w, at_least u 0 -> at_least v 0 -> at_least w 0 ->
            dlt (DFin false (2250000 * scale)) (dadd (dadd u v) w) = false ->
            (at_least u BIG_SQUARE -> False) /\ (at_least v BIG_SQUARE -> False) /\
            (at_least w BIG_SQUARE -> False)) as Hbig.
  { intros u v w Hu Hv Hw Hlt.
    assert (at_least (dadd (dadd u v) w) BIG_SQUARE -> False) as Hno
      by (intros Hl; by rewrite (at_least_lt _ _ _ _ Hl eq_refl Hlim) in Hlt).
    repeat split; intros Hb; apply Hno.
    - by do 2 (apply at_least_add; [done| |done]).
    - rewrite (dadd_comm u). by do 2 (apply at_least_add; [done| |done]).
    - rewrite dadd_comm. apply at_least_add; [done|done|]. by apply at_least_add. }
  destruct (Hbig _ _ _ Px Py Pz Hs) as (Nx & Ny & Nz).
  assert (forall u, isnan u = false -> (isfinite u = false -> False) ->
            (forall n m, u = DFin n m -> (BIG <= m)%N -> False) ->
            exists n m, u = DFin n m /\ (m < BIG)%N) as Hcase.
  { intros [| |n m] ? Hi Hf; [done|by destruct Hi|]. exists n, m. split; [done|].
    destruct (N.lt_ge_cases m BIG); [done|]. by destruct (Hf n m). }
  unfold near. repeat split; (apply Hcase; [by apply dsub_notnan|eauto|eauto]).
Qed.

(** What the glide keeps. *)
Record seg_ok (s : segment) : Prop := SegOk {
  render_ok : pt3 (render_weapon s); from_ok : pt3 (weapon_seg_from s); to_ok : pt3 (weapon_seg_to s);
  near_ok : near3 (weapon_seg_from s) (weapon_seg_to s);
  dur_ok : (0 <= weapon_seg_dur_ms s <= WEAPON_SEG_MAX_MS)%Z
}.

(** A fraction: from 0 to 1. *)
Definition fraction (t : double) : Prop := exists n m, t = DFin n m /\ (m <= scale)%N /\ (n = true -> m = 0%N).

Lemma one_fin : of_Z 1 = DFin false scale.
Proof. by vm_compute. Qed.

Lemma progress_fraction now s : (weapon_seg_dur_ms s <= WEAPON_SEG_MAX_MS)%Z -> fraction (progress now s).
Proof.
  unfold progress, WEAPON_SEG_MAX_MS. intros Hd. rewrite one_fin.
  assert (fraction (DFin false scale)) as H1 by (exists false, scale; done).
  destruct (Z.gtb_spec (weapon_seg_dur_ms s) 0) as [Hp|]; [|done].
  destruct (of_Z_int (weapon_seg_dur_ms s) ltac:(lia)) as (n & m & -> & E).
  assert (n = false /\ m <> 0%N) as [-> Hm].
  { pose proof SC_pos. unfold signed in E. destruct n; split; try done; nia. }
  assert (isnan (of_Z (now - weapon_seg_start_ms s) / DFin false m)%double = false) as Hn.
  { destruct (of_Z (now - weapon_seg_start_ms s)) as [|a|a b] eqn:Ez; unfold ddiv.
    - unfold of_Z, of_ratio in Ez. by destruct (_ <? limit64)%N.
    - done.
    - rewrite (proj2 (N.eqb_neq _ _) Hm). unfold of_ratio. by destruct (_ <? limit64)%N. }
  cbv zeta. destruct (of_Z (now - weapon_seg_start_ms s) / DFin false m)%double as [|[]|n' m']; [done|..].
  - exists false, 0%N. split; [done|]. split; [lia|done].
  - done.
  - unfold dzero. rewrite dlt_fin. destruct (Z.ltb_spec (signed n' m') (signed false 0)) as [Hl|Hl]; rewrite dlt_fin.
    + destruct (Z.ltb_spec (signed false scale) (signed false 0)); [done|]. exists false, 0%N. repeat split; lia || done.
    + destruct (Z.ltb_spec (signed false scale) (signed n' m')) as [Hg|Hg]; [done|].
      exists n', m'. split; [done|]. unfold signed in *. destruct n'; split; lia || done.
Qed.

(** A step scaled by a fraction is no longer than the step. *)
Lemma scaled_le n m t :
  wf (DFin n m) -> fraction t -> exists m', dmul (DFin n m) t = DFin (xorb n (match t with DFin b _ => b | _ => false end)) m' /\ (m' <= m)%N.
Proof.
  intros Hw (b & k & -> & Hk & _). unfold wf_double in Hw. apply andb_true_iff in Hw as [Hr Hl].
  unfold dmul. destruct (of_ratio_le (xorb n b) (m * k) 1 1074 m) as (m' & -> & Hm & _);
    [done|done|by apply N.ltb_lt|rewrite N.mul_1_l, <- scale_pow; by apply N.mul_le_mono_l|].
  eauto.
Qed.

Lemma dadd_wf a b : wf a -> wf b -> wf (dadd a b).
Proof.
  destruct a as [|n|n m], b as [|n' |n' m']; simpl; try done.
  - intros _ _. by destruct (Bool.eqb n n').
  - intros _ _. unfold of_signed. destruct (_ =? 0)%Z; [done|]. apply of_ratio_wf. lia.
Qed.

Lemma lerp_pt from to t : pt from -> pt to -> near from to -> fraction t -> pt (from + (to - from) * t)%double.
Proof.
  intros [Wf Ff] [Wt Ft] (n & m & E & Hm) Ht. rewrite E.
  assert (wf (DFin n m)) as Hw.
  { rewrite <- E. unfold dsub. apply dadd_wf; [done|]. by destruct from. }
  destruct (scaled_le n m t Hw Ht) as (m' & -> & Hm').
  destruct (dadd_small from (DFin (xorb n match t with DFin b _ => b | _ => false end) m') Wf Ff) as [H1 H2];
    [done| |by split].
  intros ? ? [= _ <-]. apply N.lt_le_incl, (N.le_lt_trans _ m); [done|].
  apply (N.lt_trans _ BIG); [done|by vm_compute].
Qed.

Lemma lerp3_pt from to t :
  pt3 from -> pt3 to -> near3 from to -> fraction t -> pt3 (lerp3 from to t).
Proof.
  destruct from as [[x y] z], to as [[x' y'] z']. intros (? & ? & ?) (? & ? & ?) (? & ? & ?) ?.
  unfold lerp3, map3, pt3. repeat split; by apply lerp_pt.
Qed.

Lemma near_self x : pt x -> near x x.
Proof.
  intros [_ Hf]. destruct x as [| |n m]; try done. unfold near, dsub, dneg, dadd, of_signed.
  replace (signed n m + signed (negb n) m)%Z with 0%Z by (destruct n; simpl; lia). simpl.
  exists (n && negb n), 0%N. split; [done|]. by vm_compute.
Qed.
Lemma near3_self v : pt3 v -> near3 v v.
Proof. destruct v as [[x y] z]. intros (? & ? & ?). by repeat split; apply near_self. Qed.

Lemma clamp_dur_bounds d : (WEAPON_SEG_MIN_MS <= clamp_dur d <= WEAPON_SEG_MAX_MS)%Z.
Proof.
  unfold clamp_dur, WEAPON_SEG_MIN_MS, WEAPON_SEG_MAX_MS. cbv zeta.
  destruct (Z.ltb_spec d 16); match goal with |- context [(?a >? ?b)%Z] => destruct (Z.gtb_spec a b) end; lia.
Qed.

(** Whatever the clock does and whatever finite positions the peer sends, no glide
    overflows, divides by zero or yields a NaN, and its length stays within its bounds. *)
Lemma glide_seg_ok (now : Z) (target : vec3) (primed : bool) (s : segment)
    (Ht : pt3 target) (Hs : primed = true -> seg_ok s) :
  seg_ok (glide now target primed s).
Proof.
  assert (forall s0, seg_ok (s0 <| render_weapon := target |> <| weapon_seg_from := target |>
    <| weapon_seg_to := target |> <| weapon_seg_start_ms := now |> <| weapon_seg_dur_ms := 0%Z |>
    <| weapon_target_seen_ms := now |>)) as Hsnap.
  { intros []. pose proof (near3_self _ Ht). split; cbn; try assumption. unfold WEAPON_SEG_MAX_MS. lia. }
  unfold glide, must_snap. destruct primed; cbn [negb orb]; [|apply Hsnap].
  specialize (Hs eq_refl). destruct (dlt _ _) eqn:El; [apply Hsnap|].
  assert (seg_ok (if ne3 target (weapon_seg_to s) then new_segment now target s else s)) as H1.
  { destruct (ne3 _ _); [|assumption]. pose proof (within_snap _ _ (render_ok _ Hs) Ht El) as Hn.
    pose proof (clamp_dur_bounds (now - weapon_target_seen_ms s)) as Hc.
    destruct s, Hs. split; cbn in *; try assumption. unfold WEAPON_SEG_MIN_MS in Hc. lia. }
  revert H1. generalize (if ne3 target (weapon_seg_to s) then new_segment now target s else s).
  intros s' H1. pose proof (progress_fraction now s' (proj2 (dur_ok _ H1))) as Hf.
  pose proof (lerp3_pt _ _ _ (from_ok _ H1) (to_ok _ H1) (near_ok _ H1) Hf) as Hp.
  destruct s', H1; split; assumption.
Qed.

(** * Where a glide starts and ends *)

(** Equal as C++ compares: a zero has no sign. *)
Definition eq3 (a b : vec3) : Prop := ne3 a b = false.

Lemma deq_signed n m n' m' : signed n m = signed n' m' -> dne (DFin n m) (DFin n' m') = false.
Proof. intros E. unfold dne, deq, dcmp. by rewrite E, Z.compare_refl. Qed.

Lemma add_zero x b : pt x -> dne (x + DFin b 0)%double x = false.
Proof.
  intros [Hw Hf]. destruct x as [| |n m]; try done. unfold wf_double in Hw.
  apply andb_true_iff in Hw as [Hr Hl]. unfold dadd, of_signed.
  replace (signed b 0) with 0%Z by (by destruct b). rewrite Z.add_0_r.
  destruct (Z.eqb_spec (signed n m) 0) as [E|E].
  - apply deq_signed. rewrite E. by destruct (n && b).
  - assert (Z.to_N (Z.abs (signed n m)) = m) as -> by (rewrite <- signed_abs; lia).
    rewrite of_ratio_exact by done. apply deq_signed.
    destruct (Z.ltb_spec (signed n m) 0); unfold signed in *; destruct n; lia.
Qed.

Lemma progress_0 now s : (0 < weapon_seg_dur_ms s <= WEAPON_SEG_MAX_MS)%Z -> weapon_seg_start_ms s = now ->
  progress now s = dzero.
Proof.
  unfold progress, WEAPON_SEG_MAX_MS. intros [Hp Hd] ->. rewrite Z.sub_diag, (proj2 (Z.gtb_lt _ _)) by done.
  destruct (of_Z_int (weapon_seg_dur_ms s) ltac:(lia)) as (n & m & -> & E).
  assert (n = false /\ m <> 0%N) as [-> Hm].
  { pose proof SC_pos. unfold signed in E. destruct n; split; try done; nia. }
  assert (of_Z 0 = DFin false 0) as -> by (by vm_compute).
  assert ((DFin false 0 / DFin false m)%double = dzero) as ->; [|by vm_compute].
  unfold ddiv. rewrite (proj2 (N.eqb_neq _ _) Hm). unfold of_ratio.
  assert (round_mag prec64 0 (N.shiftl 0 1074) m 0 = 0)%N as ->; [|done].
  rewrite N.shiftl_0_l. apply N.le_0_r. apply round_mag_le; [lia|done|lia].
Qed.

Lemma mul_zero n m : exists b, (DFin n m * dzero)%double = DFin b 0.
Proof.
  unfold dmul, dzero. rewrite N.mul_0_r. exists (xorb n false). unfold of_ratio.
  assert (round_mag prec64 0 0 1 1074 = 0)%N as -> by (by vm_compute). done.
Qed.

Lemma lerp_zero from to : pt from -> near from to -> dne (from + (to - from) * dzero)%double from = false.
Proof.
  intros Hp (n & m & -> & _). destruct (mul_zero n m) as [b ->]. by apply add_zero.
Qed.

(** A sword at rest, and a target a hundred units away. *)
Definition resting_segment : segment :=
  segment0 <| weapon_seg_dur_ms := 50%Z |> <| weapon_target_seen_ms := 1000%Z |>.
Definition sample_target : vec3 := (of_Z 100, of_Z (-20), of_Z 5).

Lemma sample_target_pt : pt3 sample_target.
Proof. repeat split; by vm_compute. Qed.

Lemma resting_segment_ok : seg_ok resting_segment.
Proof.
  split; [by repeat split..| |by vm_compute].
  repeat split; exists false, 0%N; by vm_compute.
Qed.

(** The sword never jumps: when the peer's target moves within the snap distance, the
    tick that starts the new glide draws the sword where it was drawn. *)
Theorem glide_starts_where_drawn (now : Z) (target : vec3) (s : segment)
    (Hs : seg_ok s) (Ht : pt3 target) (Hnear : must_snap true target s = false)
    (Hnew : ne3 target (weapon_seg_to s) = true) :
  eq3 (render_weapon (glide now target true s)) (render_weapon s) /\
  weapon_seg_to (glide now target true s) = target.
Proof.
  unfold glide. rewrite Hnear, Hnew. pose proof (render_ok _ Hs) as Hr.
  assert (near3 (render_weapon s) target) as Hn by (by apply within_snap).
  assert (progress now (new_segment now target s) = dzero) as Hp.
  { pose proof (clamp_dur_bounds (now - weapon_target_seen_ms s)) as Hc. unfold WEAPON_SEG_MIN_MS in Hc.
    destruct s. apply progress_0; cbn in *; [lia|done]. }
  rewrite Hp. destruct s as [render ? ? ? ? ? ? ? ? ? ? ?]. cbn in *. split; [|done].
  unfold eq3, ne3, lerp3, map3. destruct render as [[x y] z], target as [[x' y'] z'].
  destruct Hr as (? & ? & ?), Hn as (? & ? & ?). by rewrite !lerp_zero.
Qed.

(** The resting sword starts towards the target. *)
Example glide_starts_where_drawn_witness :
  must_snap true sample_target resting_segment = false /\
  ne3 sample_target (weapon_seg_to resting_segment) = true /\
  eq3 (render_weapon (glide 1033 sample_target true resting_segment)) (render_weapon resting_segment) /\
  weapon_seg_to (glide 1033 sample_target true resting_segment) = sample_target.
Proof.
  split; [by vm_compute|]. split; [by vm_compute|].
  by apply (glide_starts_where_drawn 1033 sample_target resting_segment resting_segment_ok sample_target_pt).
Defined.

(** * The end of a glide *)

Lemma progress_1 now s :
  (0 <= weapon_seg_dur_ms s <= WEAPON_SEG_MAX_MS)%Z -> (weapon_seg_start_ms s + weapon_seg_dur_ms s <= now)%Z ->
  (now - weapon_seg_start_ms s <= 2 ^ 53)%Z -> progress now s = of_Z 1.
Proof.
  unfold progress, WEAPON_SEG_MAX_MS. intros Hd Hn H53. rewrite one_fin.
  destruct (Z.gtb_spec (weapon_seg_dur_ms s) 0) as [Hp|]; [|done].
  destruct (of_Z_int (weapon_seg_dur_ms s) ltac:(lia)) as (n & m & -> & E).
  destruct (of_Z_int (now - weapon_seg_start_ms s) ltac:(lia)) as (n' & m' & -> & E').
  pose proof SC_pos as HS.
  assert (n = false /\ m <> 0%N) as [-> Hm] by (unfold signed in E; destruct n; split; try done; nia).
  assert (n' = false /\ (m <= m')%N) as [-> Hle] by (unfold signed in *; destruct n'; split; try done; nia).
  cbv zeta. assert (at_least (DFin false m' / DFin false m)%double scale) as Hge.
  { unfold ddiv. rewrite (proj2 (N.eqb_neq _ _) Hm). unfold xorb. apply of_ratio_at_least; [lia|by vm_compute|].
    rewrite N.pow_0_r, N.mul_1_r, N.shiftl_mul_pow2, <- scale_pow, N.mul_comm. by apply N.mul_le_mono_r. }
  destruct Hge as [->|(k & -> & Hk)]; [done|]. unfold dzero. rewrite !dlt_fin.
  destruct (Z.ltb_spec (signed false k) (signed false 0)) as [Hl|Hl]; [unfold signed in Hl; lia|]. rewrite dlt_fin.
  destruct (Z.ltb_spec (signed false scale) (signed false k)) as [Hg|Hg]; [done|].
  f_equal. unfold signed in Hg. lia.
Qed.

Definition whole3 (v : vec3) (a : Z * Z * Z) : Prop :=
  let '(x, y, z) := v in let '(i, j, k) := a in
  (is_int x i /\ is_int y j /\ is_int z k) /\
  (Z.abs i <= 2 ^ 51 /\ Z.abs j <= 2 ^ 51 /\ Z.abs k <= 2 ^ 51)%Z.

Lemma lerp_one x y a b :
  is_int x a -> is_int y b -> (Z.abs a <= 2 ^ 51)%Z -> (Z.abs b <= 2 ^ 51)%Z ->
  is_int (x + (y - x) * of_Z 1)%double b.
Proof.
  intros Hx Hy Ha Hb. replace b with (a + (b - a) * 1)%Z by lia.
  apply is_int_add; [done| |lia]. apply is_int_mul; [|by apply of_Z_int|lia]. apply is_int_sub; [done|done|lia].
Qed.

(** A glide ends on its target: once its time has run, the sword is drawn at the
    peer's position, exactly when the coordinates are whole numbers. *)
Theorem glide_ends_on_target (now : Z) (s : segment) (a b : Z * Z * Z)
    (Hs : seg_ok s) (Hsame : must_snap true (weapon_seg_to s) s = false)
    (Hnew : ne3 (weapon_seg_to s) (weapon_seg_to s) = false)
    (Hdone : (weapon_seg_start_ms s + weapon_seg_dur_ms s <= now)%Z)
    (H53 : (now - weapon_seg_start_ms s <= 2 ^ 53)%Z)
    (Ha : whole3 (weapon_seg_from s) a) (Hb : whole3 (weapon_seg_to s) b) :
  whole3 (render_weapon (glide now (weapon_seg_to s) true s)) b.
Proof.
  unfold glide. rewrite Hsame, Hnew, (progress_1 now s (dur_ok _ Hs) Hdone H53).
  destruct s as [render from to ? ? ? ? ? ? ? ? ?]. cbn in *.
  unfold lerp3, map3. destruct from as [[x y] z], to as [[x' y'] z'], a as [[i j] k], b as [[i' j'] k'].
  destruct Ha as ((? & ? & ?) & ? & ? & ?), Hb as ((? & ? & ?) & ? & ? & ?).
  unfold whole3. repeat split; eauto using lerp_one.
Qed.
