(* ===== verification/PropFacts.v ===== *)
(** What the ticks of the sword, the projectile and the empty-hand glow leave behind,
    and what they draw. *)
From S2P Require Import Prelude Float64 FloatFacts JsonString JsonBounds ScanFacts RemoteGhost.
From S2P Require Import VfxMirror PeerProps GlideProps.
From Stdlib Require Import ZArith.

(** * The parts of a sword tick *)

(** The fields a landing or a bounce leaves alone. *)
Record drawn (g g' : RemoteGhost) : Prop := Drawn {
  dr_wire : wire_state g' = wire_state g;
  dr_render : render_weapon (weapon_segment g') = render_weapon (weapon_segment g);
  dr_seg : seg_ok (weapon_segment g) -> seg_ok (weapon_segment g');
  dr_fly : weapon_fly_component (engine_objects g') = weapon_fly_component (engine_objects g);
  dr_ghost : ghost (engine_objects g') = ghost (engine_objects g);
  dr_primed : weapon_render_primed (latches g') = weapon_render_primed (latches g);
  dr_hidden : weapon_hand_hidden (latches g') = weapon_hand_hidden (latches g);
  dr_seen : counters_seen g' = counters_seen g
}.

#[export] Instance drawn_preorder : PreOrder drawn.
Proof. split; [by split|]. intros ? ? ? [] []. split; try congruence. auto. Qed.

(** A change of the handles, the latches or the segment, each with its own fields kept. *)
Lemma drawn_handles f g :
  weapon_fly_component (f (engine_objects g)) = weapon_fly_component (engine_objects g) ->
  ghost (f (engine_objects g)) = ghost (engine_objects g) -> drawn g (upd_handles f g).
Proof. intros. by destruct g. Qed.
Lemma drawn_remember c g : drawn g (remember_one_shot c g).
Proof. destruct c; [|reflexivity]. apply drawn_handles; by destruct (engine_objects g). Qed.
Lemma drawn_latch f g :
  weapon_render_primed (f (latches g)) = weapon_render_primed (latches g) ->
  weapon_hand_hidden (f (latches g)) = weapon_hand_hidden (latches g) -> drawn g (upd_latch f g).
Proof. intros. by destruct g. Qed.
Lemma drawn_segment f g :
  render_weapon (f (weapon_segment g)) = render_weapon (weapon_segment g) ->
  (seg_ok (weapon_segment g) -> seg_ok (f (weapon_segment g))) -> drawn g (upd_segment f g).
Proof. intros. by destruct g. Qed.

Lemma land_drawn env g : drawn g (land_edge env g).1.
Proof.
  unfold land_edge. destruct (dne _ _); [|reflexivity]. cbv zeta.
  set (g1 := upd_latch _ g). assert (drawn g g1) as H1 by (apply drawn_latch; by destruct (latches g)).
  clearbody g1.
  set (dust := match (_ =? _)%Z with true => _ | false => _ end).
  assert (drawn g dust.1) as H2.
  { unfold dust. destruct (_ =? _)%Z; [|done]. destruct (fx_asset _ _); [|done].
    etrans; [done|apply drawn_remember]. }
  clearbody dust. destruct dust as [g2 cs]. cbn [fst] in H2.
  destruct (_ =? _)%Z; [|done]. destruct (weapon_glow_component (engine_objects g2)); [done|].
  destruct (bool_decide _); [done|].
  destruct (peer_asset env _); [|done]. etrans; [done|]. apply drawn_handles; by destruct (engine_objects g2).
Qed.

Lemma bounce_drawn env g : drawn g (bounce env g).1.
Proof.
  unfold bounce. cbv zeta. destruct (dlt _ dzero); [|destruct (dlt _ _); [|reflexivity]];
    (apply drawn_segment; [by destruct (weapon_segment g)|]; intros Hs; destruct (weapon_segment g), Hs; by split).
Qed.

Lemma put_away_fields env g :
  let g' := (put_away env g).1 in
  weapon_glow_component (engine_objects g') = None /\ weapon_render_primed (latches g') = false /\
  (hand env <> None -> weapon_hand_hidden (latches g') = false) /\
  wire_state g' = wire_state g /\ weapon_segment g' = weapon_segment g /\
  ghost (engine_objects g') = ghost (engine_objects g) /\
  weapon_fly_component (engine_objects g') = weapon_fly_component (engine_objects g).
Proof.
  unfold put_away. destruct g as [? ? h l ? ? ?], h, l. cbn. destruct (hand env); cbn; repeat split; try done.
  intros _. by destruct weapon_hand_hidden.
Qed.

Lemma ensure_flyer_fields env g :
  let g' := ensure_flyer env g in
  wire_state g' = wire_state g /\ latches g' = latches g /\ ghost (engine_objects g') = ghost (engine_objects g) /\
  render_weapon (weapon_segment g') = render_weapon (weapon_segment g) /\
  (seg_ok (weapon_segment g) -> seg_ok (weapon_segment g')) /\ counters_seen g' = counters_seen g.
Proof.
  unfold ensure_flyer. destruct (weapon_fly_component _); [by split_and!|]. cbv zeta.
  destruct (_ && _); [by split_and!|]. destruct g as [? ? h ? s ? ?], h, s. cbn.
  split_and!; try done; intros []; by split.
Qed.

(** * The drawn position *)

(** The invariant of a ghost's sword: a primed glide is well formed. *)
Definition sword_ok (g : RemoteGhost) : Prop := weapon_render_primed (latches g) = true -> seg_ok (weapon_segment g).

(** The tick of a thrown sword with a flyer. *)
Lemma thrown_tick env g fly :
  weapon_prop_skipped env = false -> ghost (engine_objects g) <> None ->
  target_weapon_thrown (wire_state g) = true ->
  weapon_fly_component (engine_objects (ensure_flyer env g)) = Some fly ->
  let seg := glide (now_ms env) (target_weapon_pos (wire_state g)) (weapon_render_primed (latches g))
               (weapon_segment (ensure_flyer env g)) in
  let '(g', calls) := tick_remote_weapon env g in
  exists pre, calls = pre ++ [SetWorldLocationAndRotation fly (render_weapon seg)
                                (fly_rotation (target_weapon_rot (wire_state g)))] /\
  weapon_render_primed (latches g') = true /\ render_weapon (weapon_segment g') = render_weapon seg /\
  (seg_ok seg -> seg_ok (weapon_segment g')) /\ wire_state g' = wire_state g /\
  (hand env <> None -> weapon_hand_hidden (latches g') = true).
Proof.
  intros Hskip Hg Hth Hfly seg. unfold tick_remote_weapon. rewrite Hskip, Hth. cbn [negb].
  destruct (ghost (engine_objects g)); [|done]. cbv zeta. rewrite Hfly.
  destruct (ensure_flyer_fields env g) as (Hw & Hl & _ & _ & _ & _). unfold seg. clear seg Hfly.
  revert Hw Hl. generalize (ensure_flyer env g). intros g1 Hw Hl. rewrite <- Hl, <- Hw.
  match goal with |- context [land_edge env ?x] => set (g2 := x) end.
  pose proof (land_drawn env g2) as H1. destruct (land_edge env g2) as [g3 landing]. cbn [fst] in H1.
  pose proof (bounce_drawn env g3) as H2. destruct (bounce env g3) as [g4 hits]. cbn [fst] in H2.
  assert (drawn g2 g4) as H by (by etrans). clear H1 H2.
  assert (wire_state g2 = wire_state g1 /\ weapon_render_primed (latches g2) = true /\
          weapon_segment g2 = glide (now_ms env) (target_weapon_pos (wire_state g1))
            (weapon_render_primed (latches g1)) (weapon_segment g1) /\
          (hand env <> None -> weapon_hand_hidden (latches g2) = true)) as (Ew & Ep & Es & Eh).
  { unfold g2. destruct g1 as [? ? ? l ? ? ?], l. cbn. repeat split; try done.
    intros Hh. destruct (hand env); [|done]. by destruct weapon_hand_hidden. }
  clearbody g2. destruct H. rewrite Es in *. rewrite dr_wire0, Ew, dr_render0.
  eexists. split; [by rewrite !app_assoc|]. rewrite <- Ep, <- dr_primed0, <- dr_hidden0 in *.
  destruct g4 as [? ? ? ? s ? ?], s. cbn in *. split_and!; try done; try congruence.
  intros Hs. destruct (dr_seg0 Hs). by split.
Qed.

(** A throw starts where the peer says: after a tick in which the sword was held, the
    first tick of the throw draws it at the peer's exact position, wherever an earlier
    throw ended. *)
Theorem throw_starts_at_target (env1 env2 : prop_env) (g g1 g2 : RemoteGhost) (w : wire) (calls1 calls2 : list fx_call)
    (fly : Z)
    (Hskip1 : weapon_prop_skipped env1 = false) (Hskip2 : weapon_prop_skipped env2 = false)
    (Hg : ghost (engine_objects g) <> None) (Hheld : target_weapon_thrown (wire_state g) = false)
    (H1 : tick_remote_weapon env1 g = (g1, calls1)) (Hw : target_weapon_thrown w = true)
    (H2 : tick_remote_weapon env2 (g1 <| wire_state := w |>) = (g2, calls2))
    (Hfly : weapon_fly_component (engine_objects (ensure_flyer env2 (g1 <| wire_state := w |>))) = Some fly) :
  weapon_glow_component (engine_objects g1) = None /\
  List.last calls2 (DieFade true)
    = SetWorldLocationAndRotation fly (target_weapon_pos w) (fly_rotation (target_weapon_rot w)).
Proof.
  unfold tick_remote_weapon in H1. rewrite Hskip1, Hheld in H1. cbn [negb] in H1.
  destruct (ghost (engine_objects g)) as [actor|] eqn:Ha; [|done].
  pose proof (put_away_fields env1 g) as (Hglow & Hprimed & _ & _ & _ & Hgh & _). rewrite H1 in *. cbn [fst] in *.
  split; [done|].
  assert (ghost (engine_objects (g1 <| wire_state := w |>)) <> None) as Hg2 by (destruct g1; cbn in *; congruence).
  assert (wire_state (g1 <| wire_state := w |>) = w) as Ew by (by destruct g1).
  pose proof (thrown_tick env2 _ fly Hskip2 Hg2 ltac:(by rewrite Ew) Hfly) as Ht. cbv zeta in Ht. rewrite H2, Ew in Ht.
  destruct Ht as (pre & -> & _). rewrite List.last_last.
  assert (weapon_render_primed (latches (g1 <| wire_state := w |>)) = false) as -> by (by destruct g1).
  unfold glide, must_snap. cbn [negb orb]. by destruct (weapon_segment _).
Qed.

(** A tick keeps the invariant, and what it draws is finite. *)
Lemma weapon_tick_ok env g :
  pt3 (target_weapon_pos (wire_state g)) -> sword_ok g -> sword_ok (tick_remote_weapon env g).1.
Proof.
  intros Ht Hs. destruct (weapon_prop_skipped env) eqn:Hskip.
  { unfold tick_remote_weapon. by rewrite Hskip. }
  destruct (ghost (engine_objects g)) as [actor|] eqn:Hg.
  2:{ unfold tick_remote_weapon. by rewrite Hskip, Hg. }
  destruct (target_weapon_thrown (wire_state g)) eqn:Hth.
  - destruct (weapon_fly_component (engine_objects (ensure_flyer env g))) as [fly|] eqn:Hfly.
    + pose proof (thrown_tick env g fly Hskip ltac:(congruence) Hth Hfly) as H. cbv zeta in H.
      destruct (tick_remote_weapon env g) as [g' calls]. destruct H as (pre & _ & _ & _ & Hok & _).
      intros _. apply Hok, glide_seg_ok; [done|]. intros Hp. apply ensure_flyer_fields. by apply Hs.
    + unfold tick_remote_weapon. rewrite Hskip, Hg, Hth. cbn [negb]. rewrite Hfly.
      destruct (ensure_flyer_fields env g) as (_ & Hl & _ & _ & He & _). unfold sword_ok. cbn [fst].
      rewrite Hl. intros Hp. by apply He, Hs.
  - unfold tick_remote_weapon. rewrite Hskip, Hg, Hth. cbn [negb].
    destruct (put_away_fields env g) as (_ & Hp & _). unfold sword_ok. by rewrite Hp.
Qed.

(** * The projectile *)

(** A component is held together with the world it was made in. *)
Definition projectile_ok (g : RemoteGhost) : Prop :=
  projectile_component (engine_objects g) <> None <-> projectile_component_world (engine_objects g) <> None.

Lemma forget_fields world h :
  (projectile_component h <> None <-> projectile_component_world h <> None) ->
  let h' := forget_other_world world h in
  (projectile_component h' <> None <-> projectile_component_world h' <> None) /\ ghost h' = ghost h /\
  (forall w, world = Some w -> projectile_component_world h' = None \/ projectile_component_world h' = Some w).
Proof.
  intros Hiff. unfold forget_other_world. destruct h. cbn in *.
  destruct projectile_component as [c|], world as [w|], projectile_component_world as [w'|];
    try case_bool_decide; cbn; split_and!; try done; try (by intros; auto); try (by destruct (proj2 Hiff)).
  intros ? [= <-]. right. by subst.
Qed.

Lemma start_fields env g :
  projectile_ok g -> projectile_component (engine_objects g) = None ->
  let g' := (start_projectile env g).1 in
  projectile_ok g' /\ wire_state g' = wire_state g /\ ghost (engine_objects g') = ghost (engine_objects g) /\
  (projectile_component_world (engine_objects g') = None \/
   projectile_component_world (engine_objects g') = current_world env).
Proof.
  intros Hok Hnone. assert (projectile_component_world (engine_objects g) = None) as Hw.
  { destruct (projectile_component_world (engine_objects g)) eqn:E; [|done]. unfold projectile_ok in Hok.
    rewrite Hnone, E in Hok. by destruct (proj2 Hok). }
  unfold projectile_ok in *. destruct g as [w ? h l s ? ?]. cbn in *. unfold start_projectile. cbv zeta. cbn.
  destruct (bool_decide _), (current_world env) as [world|]; try (by split_and!; auto).
  destruct (_ && _); [by split_and!; auto|]. destruct (peer_asset env _) as [a|]; [|by split_and!; auto].
  cbn. destruct (ghost h) eqn:Eg; [|by split_and!; auto].
  destruct (spawn_niagara_at_location _ _ _ _); [|by split_and!; auto]. destruct h. cbn in *. by split_and!; auto.
Qed.

Lemma projectile_tick (env : prop_env) (g : RemoteGhost) (Hok : projectile_ok g) :
  let g' := (tick_remote_projectile env g).1 in
  projectile_ok g' /\ wire_state g' = wire_state g /\ ghost (engine_objects g') = ghost (engine_objects g) /\
  (target_projectile_active (wire_state g) = false -> projectile_component (engine_objects g') = None) /\
  (forall w, current_world env = Some w ->
     projectile_component_world (engine_objects g') = None \/
     projectile_component_world (engine_objects g') = Some w).
Proof.
  unfold tick_remote_projectile. cbn [MIRROR_PEER_PROJECTILE negb]. cbv zeta.
  destruct (forget_fields (current_world env) (engine_objects g) Hok) as (H1 & H2 & H3).
  set (g1 := upd_handles (forget_other_world (current_world env)) g).
  assert (projectile_ok g1 /\ wire_state g1 = wire_state g /\ ghost (engine_objects g1) = ghost (engine_objects g) /\
    (forall w, current_world env = Some w -> projectile_component_world (engine_objects g1) = None \/
      projectile_component_world (engine_objects g1) = Some w)) as (Ha & Hb & Hc & Hd) by (by destruct g).
  clearbody g1. rewrite <- Hb, <- Hc. clear H1 H2 H3 Hok Hb Hc.
  destruct (target_projectile_active (wire_state g1)) eqn:Eact; cbn [negb].
  - destruct (projectile_component (engine_objects g1)) as [c|] eqn:Ec.
    + cbn [fst]. rewrite Ec. cbn [fst]. split_and!; try done.
    + destruct (start_fields env g1 Ha Ec) as (Hs1 & Hs2 & Hs3 & Hs4).
      destruct (start_projectile env g1) as [g2 cs]. cbn [fst] in *. split_and!; try done.
      intros w Ew. by rewrite Ew in Hs4.
  - unfold end_projectile. destruct (projectile_component (engine_objects g1)) as [c|] eqn:Ec; cbn [fst].
    + destruct g1 as [? ? h ? ? ? ?], h. cbn in *. unfold projectile_ok. cbn. split_and!; auto; done.
    + unfold projectile_ok in *. destruct g1 as [? ? h ? ? ? ?]. cbn in *. by split_and!.
Qed.

(** The projectile's component lives with the peer's shot and in the current world:
    after a tick there is none when the peer has no shot, and one that is there was made
    in the current world, so none of another level is ever called or moved. *)
Theorem projectile_follows_peer (env : prop_env) (g : RemoteGhost) (Hok : projectile_ok g) :
  let g' := (tick_remote_projectile env g).1 in
  projectile_ok g' /\ wire_state g' = wire_state g /\ ghost (engine_objects g') = ghost (engine_objects g) /\
  (target_projectile_active (wire_state g) = false -> projectile_component (engine_objects g') = None) /\
  (forall w, current_world env = Some w ->
     projectile_component_world (engine_objects g') = None \/
     projectile_component_world (engine_objects g') = Some w).
Proof. by apply projectile_tick. Qed.

(** * The empty-hand glow *)

(** No glow is held while none is shown. *)
Definition recall_ok (g : RemoteGhost) : Prop :=
  recall_glow_shown (latches g) = false -> recall_glow_component (engine_objects g) = None.

Lemma recall_tick (env : prop_env) (g g' : RemoteGhost) (calls : list fx_call)
    (Hg : ghost (engine_objects g) <> None) (Hok : recall_ok g) (Ht : tick_remote_recall_glow env g = (g', calls)) :
  recall_ok g' /\ recall_glow_shown (latches g') = target_recall_glow (wire_state g) /\
  (target_recall_glow (wire_state g) = false -> recall_glow_component (engine_objects g') = None) /\
  (recall_glow_shown (latches g) = true -> target_recall_glow (wire_state g) = true ->
     recall_glow_component (engine_objects g') = recall_glow_component (engine_objects g)) /\
  recall_glow_swept (latches g') = true /\
  (recall_glow_swept (latches g) = true -> recall_glow_shown (latches g) = target_recall_glow (wire_state g) ->
     calls = []).
Proof.
  unfold tick_remote_recall_glow in Ht. destruct (ghost (engine_objects g)) as [actor|] eqn:Ha; [|done].
  cbn [RECALL_GLOW_ENABLED negb] in Ht. cbv zeta in Ht. destruct g as [w ? h l ? ? ?], h, l.
  unfold recall_ok in *. cbn in *.
  destruct (target_recall_glow w), recall_glow_shown; cbn [Bool.eqb] in Ht.
  - simplify_eq. cbn. split_and!; try done. by intros ->.
  - destruct (fx_asset (fx env) RECALL_GLOW_ASSET), (weapon_mesh env); simplify_eq; cbn; by split_and!.
  - simplify_eq. cbn. by split_and!.
  - simplify_eq. cbn. split_and!; auto. by intros ->.
Qed.

(** The empty-hand glow follows the peer: after a tick of a ghost with a pawn what is
    shown is what the peer reports, nothing is held when it reports none, the glow is
    not made again while it is already shown, and the sweep of the glows the ghost built
    for itself runs once. *)
Theorem recall_glow_follows_peer (env : prop_env) (g g' : RemoteGhost) (calls : list fx_call)
    (Hg : ghost (engine_objects g) <> None) (Hok : recall_ok g) (Ht : tick_remote_recall_glow env g = (g', calls)) :
  recall_ok g' /\ recall_glow_shown (latches g') = target_recall_glow (wire_state g) /\
  (target_recall_glow (wire_state g) = false -> recall_glow_component (engine_objects g') = None) /\
  (recall_glow_shown (latches g) = true -> target_recall_glow (wire_state g) = true ->
     recall_glow_component (engine_objects g') = recall_glow_component (engine_objects g)) /\
  recall_glow_swept (latches g') = true /\
  (recall_glow_swept (latches g) = true -> recall_glow_shown (latches g) = target_recall_glow (wire_state g) ->
     calls = []).
Proof. by apply (recall_tick env g g' calls). Qed.

(** * Witnesses *)

Definition sample_props : prop_env :=
  {| fx := {| fx_asset := fun _ => Some 7%Z; ghost_location := vzero; observed_world_offset := fun _ => None;
              attach_component := fun _ => Some 8%Z; spawn_niagara_at_location := fun _ _ _ => Some 9%Z;
              spawn_niagara_attached := fun _ _ _ => Some 10%Z |};
     weapon_prop_skipped := false; hand := Some 5%Z; tick := 1000; now_ms := 5000; created_flyer := Some 6%Z;
     deactivate_immediate := false; peer_asset := fun _ => Some 11%Z; current_world := Some 2%Z;
     ghost_name := str "G_1"; niagara_components := []; weapon_mesh := Some 5%Z |}.

Definition sample_pos : vec3 := (of_Z 300, of_Z 40, of_Z 5).
Definition held_ghost : RemoteGhost :=
  RemoteGhost0 <| engine_objects := handles0 <| ghost := Some 1%Z |> <| weapon_glow_component := Some 3%Z |> |>
    <| latches := latch0 <| weapon_render_primed := true |> |>.
Definition thrown_wire : wire := wire0 <| target_weapon_thrown := true |> <| target_weapon_pos := sample_pos |>.

Lemma throw_starts_at_target_witness :
  exists g1 g2 calls1 calls2,
    tick_remote_weapon sample_props held_ghost = (g1, calls1) /\
    tick_remote_weapon sample_props (g1 <| wire_state := thrown_wire |>) = (g2, calls2) /\
    List.last calls2 (DieFade true) = SetWorldLocationAndRotation 6 sample_pos (dzero, dzero, of_Z 90).
Proof.
  destruct (tick_remote_weapon sample_props held_ghost) as [g1 calls1] eqn:E1.
  destruct (tick_remote_weapon sample_props (g1 <| wire_state := thrown_wire |>)) as [g2 calls2] eqn:E2.
  exists g1, g2, calls1, calls2. split; [done|]. split; [done|].
  refine (eq_trans (proj2 (throw_starts_at_target sample_props sample_props held_ghost g1 g2 thrown_wire calls1 calls2 6
    eq_refl eq_refl ltac:(vm_compute; discriminate) eq_refl E1 eq_refl E2 _)) _).
  - injection E1 as <- _. reflexivity.
  - by vm_compute.
Defined.

Lemma projectile_follows_peer_witness :
  projectile_component (engine_objects (tick_remote_projectile sample_props
    (RemoteGhost0 <| engine_objects := handles0 <| projectile_component := Some 4%Z |>
       <| projectile_component_world := Some 1%Z |> |>)).1) = None.
Proof. apply projectile_follows_peer; [by split|reflexivity]. Defined.

Lemma recall_glow_follows_peer_witness :
  recall_glow_shown (latches (tick_remote_recall_glow sample_props
    (held_ghost <| wire_state := wire0 <| target_recall_glow := true |> |>)).1) = true.
Proof.
  destruct (tick_remote_recall_glow _ _) as [g' calls] eqn:E.
  apply recall_glow_follows_peer in E as (_ & E & _); [exact E|vm_compute; discriminate|intros _; reflexivity].
Defined.
