(* ===== verification/DistanceTier.v ===== *)
(** Plugin.cpp, the distance tiers of a ghost: [ghost_tier_for_distance] with its
    hysteresis, the configuration poll, the knobs [apply_ghost_distance_tier] sets and
    the call site in the tick. *)
From S2P Require Import Prelude Float64 FloatFacts JsonString ScanFacts RemoteGhost Lifecycle.
From S2P Require Import VfxMirror.
From Stdlib Require Import NArith ZArith.

(** * Operations *)

(** [0.95] *)
Definition LEAVE : double := lit 95 100.

Record ranges := Ranges { g_ghost_range_throttle : double; g_ghost_range_far : double; g_ghost_range : double }.
#[export] Instance ranges_eta : Eta ranges := fun r =>
  Ranges (g_ghost_range_throttle r) (g_ghost_range_far r) (g_ghost_range r).
Definition ranges0 : ranges := Ranges (of_Z 6500) (of_Z 8500) (of_Z 10500).

(** One key of the configuration: a number, not negative, that differs. *)
Definition poll_key (value : option double) (old : double) : double :=
  match value with
  | Some v => if (v >=? dzero)%double && dne v old then v else old
  | None => old
  end.

(** [config_number_value] is the argument. *)
Definition poll_ghost_range_config (config : bytes -> option double) (r : ranges) : ranges :=
  Ranges (poll_key (config (str "ghost_range_throttle")) (g_ghost_range_throttle r))
    (poll_key (config (str "ghost_range_far")) (g_ghost_range_far r))
    (poll_key (config (str "ghost_range")) (g_ghost_range r)).

(** Whether a distance is in a tier or past it: the tier is entered at its range and
    left at 95% of it. *)
Definition beyond (distance : double) (current : Z) (range : double) (tier : Z) : bool :=
  if (range <=? dzero)%double then false
  else (distance >=? (if (current >=? tier)%Z then range * LEAVE else range))%double.

Definition ghost_tier_for_distance (r : ranges) (distance : double) (current : Z) : Z :=
  if beyond distance current (g_ghost_range r) 3 then 3
  else if beyond distance current (g_ghost_range_far r) 2 then 2
  else if beyond distance current (g_ghost_range_throttle r) 1 then 1
  else 0.

(** What a change of tier writes on the engine's objects. *)
Inductive tier_call :=
  | WriteBool (object : Z) (property : string) (value : bool)
  | CallBool (object : Z) (function : string) (value : bool).

Definition MESHES : list string := ["Mesh"; "VisualMesh"; "WeaponMesh"]%string.

Definition apply_ghost_distance_tier (mesh : string -> option Z) (movement : option Z) (tier : Z) (g : RemoteGhost)
    : RemoteGhost * list tier_call :=
  match ghost (engine_objects g) with
  | None => (g, [])
  | Some actor =>
      let throttle := (tier >=? 1)%Z in
      let freeze := (tier >=? 2)%Z in
      let dormant := (tier >=? 3)%Z in
      let knobs name := match mesh name with
                        | None => []
                        | Some m => [WriteBool m "bEnableUpdateRateOptimizations" throttle;
                                     WriteBool m "bPauseAnims" freeze; WriteBool m "bNoSkeletonUpdate" freeze]
                        end in
      (g <| latches := latches g <| distance_tier := tier |> |>,
       concat (map knobs MESHES)
       ++ [CallBool actor "SetActorHiddenInGame" dormant; CallBool actor "SetActorTickEnabled" (negb dormant)]
       ++ match movement with
          | Some m => if dormant || (distance_tier (latches g) >=? 3)%Z
                      then [CallBool m "SetComponentTickEnabled" (negb dormant)] else []
          | None => []
          end)
  end.

(** The tier of a ghost, from its target's distance to the local player; [true] when the
    rest of its tick is skipped. *)
Definition tick_distance_tier (r : ranges) (mesh : string -> option Z) (movement : option Z) (local_loc : option vec3)
    (g : RemoteGhost) : RemoteGhost * list tier_call * bool :=
  match local_loc with
  | None => (g, [], false)
  | Some (lx, ly, lz) =>
      let '(x, y, z) := target_pos (wire_state g) in
      let dx := (x - lx)%double in
      let dy := (y - ly)%double in
      let dz := (z - lz)%double in
      let tier := ghost_tier_for_distance r (dsqrt (dx * dx + dy * dy + dz * dz)%double) (distance_tier (latches g)) in
      let (g, calls) := if (tier =? distance_tier (latches g))%Z then (g, [])
                        else apply_ghost_distance_tier mesh movement tier g in
      (g, calls, (distance_tier (latches g) >=? 3)%Z)
  end.

(** * Lemmas *)

(** Leaving is never farther out than entering. *)
Lemma leave_le range :
  wf range -> isnan range = false -> (range <=? dzero)%double = false -> dle (range * LEAVE)%double range = true.
Proof.
  assert (exists m, LEAVE = DFin false m /\ (m <= scale)%N /\ m <> 0%N) as (l & -> & Hl & Hl0).
  { eexists. split; [by vm_compute|]. split; by vm_compute. }
  destruct range as [|[]|n m]; try done.
  - intros _ _ _. unfold dmul. by rewrite (proj2 (N.eqb_neq _ _) Hl0).
  - intros Hw _ Hp. unfold dzero in Hp. rewrite dle_fin in Hp. unfold wf_double in Hw.
    apply andb_true_iff in Hw as [Hr Hlm].
    destruct (of_ratio_le (xorb n false) (m * l) 1 1074 m) as (k & E & Hk & _);
      [done|done|by apply N.ltb_lt|rewrite N.mul_1_l, <- scale_pow; by apply N.mul_le_mono_l|].
    unfold dmul. rewrite E, dle_fin. unfold signed in *. destruct n; simpl in *; lia.
Qed.

Lemma dle_trans a b c : dle a b = true -> dle b c = true -> dle a c = true.
Proof.
  destruct a as [|[]|n m], b as [|[]|n' m'], c as [|[]|n'' m'']; try done.
  rewrite !dle_fin. lia.
Qed.

(** A range the hardware can hold, and not a NaN. *)
Definition range_ok (x : double) : Prop := wf x /\ isnan x = false.
Record ranges_ok (r : ranges) : Prop := RangesOk {
  throttle_ok : range_ok (g_ghost_range_throttle r); far_ok : range_ok (g_ghost_range_far r);
  dormant_ok : range_ok (g_ghost_range r)
}.

(** Being past a tier from one inside implies it from one past it. *)
Lemma beyond_mono range d cur tier :
  range_ok range -> beyond d cur range tier = true -> forall cur', (tier <= cur')%Z -> beyond d cur' range tier = true.
Proof.
  intros [Hw Hn] H cur' Hc. unfold beyond in *. destruct (range <=? dzero)%double eqn:Ep; [done|].
  rewrite (proj2 (Z.geb_le _ _)) by lia. destruct (cur >=? tier)%Z; [done|].
  eapply dle_trans; [by apply leave_le|done].
Qed.

(** Not being past it does not depend on a lower tier. *)
Lemma beyond_false range d cur tier cur' :
  range_ok range -> beyond d cur range tier = false -> (cur' < tier)%Z -> beyond d cur' range tier = false.
Proof.
  intros Hr H Hc. destruct (beyond d cur' range tier) eqn:E; [|done].
  destruct (Z.le_gt_cases tier cur) as [Hle|Hgt].
  - by rewrite (beyond_mono _ _ _ _ Hr E cur Hle) in H.
  - unfold beyond in *. destruct (range <=? dzero)%double; [done|].
    destruct (Z.geb_spec cur tier), (Z.geb_spec cur' tier); lia.
Qed.

Lemma tier_range r d cur : (0 <= ghost_tier_for_distance r d cur <= 3)%Z.
Proof. unfold ghost_tier_for_distance. repeat destruct (beyond _ _ _ _); cbn; lia. Qed.

(** The tiers do not flap: a ghost that does not move keeps the tier it was given, so
    a steady distance costs one comparison per tick and never a second change. *)
Theorem tier_steady (r : ranges) (d : double) (cur : Z) (Hr : ranges_ok r) :
  (0 <= ghost_tier_for_distance r d cur <= 3)%Z /\
  ghost_tier_for_distance r d (ghost_tier_for_distance r d cur) = ghost_tier_for_distance r d cur.
Proof.
  split; [apply tier_range|]. destruct Hr as [H1 H2 H3]. unfold ghost_tier_for_distance at 2 3.
  destruct (beyond d cur (g_ghost_range r) 3) eqn:E3.
  { unfold ghost_tier_for_distance. by rewrite (beyond_mono _ _ _ _ H3 E3). }
  destruct (beyond d cur (g_ghost_range_far r) 2) eqn:E2.
  { unfold ghost_tier_for_distance. rewrite (beyond_false _ _ _ _ _ H3 E3) by lia.
    by rewrite (beyond_mono _ _ _ _ H2 E2). }
  destruct (beyond d cur (g_ghost_range_throttle r) 1) eqn:E1; unfold ghost_tier_for_distance;
    rewrite (beyond_false _ _ _ _ _ H3 E3), (beyond_false _ _ _ _ _ H2 E2) by lia.
  - by rewrite (beyond_mono _ _ _ _ H1 E1).
  - by rewrite (beyond_false _ _ _ _ _ H1 E1).
Qed.

(** The hysteresis: a ghost already in a tier stays in it, or past it, at every
    distance at which one outside would enter it; and it is out only below 95% of the
    range. *)
Theorem tier_hysteresis (r : ranges) (d : double) (cur cur' : Z) (Hr : ranges_ok r) (Hcur : (cur <= cur')%Z) :
  (ghost_tier_for_distance r d cur <= ghost_tier_for_distance r d cur')%Z.
Proof.
  destruct Hr as [H1 H2 H3]. 
  assert (forall range tier, range_ok range -> beyond d cur range tier = true -> beyond d cur' range tier = true) as Hm.
  { intros range tier Ho H. destruct (Z.le_gt_cases tier cur') as [|Hgt]; [by eapply beyond_mono|].
    destruct (beyond d cur' range tier) eqn:E; [done|].
    by rewrite (beyond_false _ _ _ _ cur Ho E) in H by lia. }
  unfold ghost_tier_for_distance.
  destruct (beyond d cur (g_ghost_range r) 3) eqn:E3; [by rewrite (Hm _ _ H3 E3)|].
  destruct (beyond d cur (g_ghost_range_far r) 2) eqn:E2.
  { rewrite (Hm _ _ H2 E2). destruct (beyond d cur' (g_ghost_range r) 3); cbn; lia. }
  destruct (beyond d cur (g_ghost_range_throttle r) 1) eqn:E1.
  { rewrite (Hm _ _ H1 E1). destruct (beyond d cur' (g_ghost_range r) 3), (beyond d cur' (g_ghost_range_far r) 2); cbn; lia. }
  repeat destruct (beyond _ _ _ _); cbn; lia.
Qed.

(** The tick of the tiers leaves everything but the tier. *)
Lemma tier_tick_fields r mesh movement loc g :
  let g' := (tick_distance_tier r mesh movement loc g).1.1 in
  wire_state g' = wire_state g /\ engine_objects g' = engine_objects g /\
  weapon_segment g' = weapon_segment g /\ weapon_render_primed (latches g') = weapon_render_primed (latches g) /\
  recall_glow_shown (latches g') = recall_glow_shown (latches g) /\ pose g' = pose g /\ drive g' = drive g.
Proof.
  unfold tick_distance_tier. destruct loc as [[[lx ly] lz]|]; [|done].
  destruct (target_pos (wire_state g)) as [[x y] z]. cbv zeta. destruct (_ =? _)%Z; [done|].
  unfold apply_ghost_distance_tier. destruct (ghost (engine_objects g)); [|done].
  destruct g as [? ? ? l ? ? ?], l. done.
Qed.

(** * Witnesses *)

Lemma ranges0_ok : ranges_ok ranges0.
Proof. split; (split; [by vm_compute|done]). Qed.

Lemma tier_steady_witness :
  ghost_tier_for_distance ranges0 (of_Z 8200) 3 = 2%Z /\
  ghost_tier_for_distance ranges0 (of_Z 8200) 2 = 2%Z /\ ghost_tier_for_distance ranges0 (of_Z 8200) 0 = 1%Z.
Proof.
  split; [by vm_compute|]. split; [|by vm_compute].
  exact (eq_trans (proj2 (tier_steady ranges0 (of_Z 8200) 3 ranges0_ok)) ltac:(by vm_compute)).
Defined.

Lemma tier_hysteresis_witness :
  (ghost_tier_for_distance ranges0 (of_Z 8200) 0 <= ghost_tier_for_distance ranges0 (of_Z 8200) 2)%Z /\
  ghost_tier_for_distance ranges0 (of_Z 8200) 0 = 1%Z.
Proof. split; [apply (tier_hysteresis ranges0 (of_Z 8200) 0 2 ranges0_ok); lia|by vm_compute]. Defined.
