(* ===== verification/ObjectRegistry.v ===== *)
(** Plugin.cpp, [ObjectRegistry]: the live objects of a class, kept by events instead of
    a walk of the whole world.

    Four registries are fed by every construction the hook sees, at once on the game
    thread and through a staging list from the loading thread, and each is seeded again by
    a real enumeration when it is old.  A weak pointer is an address and the serial number
    of the object that was there: it resolves while that object lives. *)
From S2P Require Import Prelude.
From Stdlib Require Import ZArith Relations.

(** * The engine's objects *)

(** A live object: its serial number, never given twice, the names of its class and of the
    classes above it, and whether it is an object of the world: a template, an archetype
    or a default object is not ([IsValidObjectForFindXOf]). *)
Record uobject := UObject { serial : Z; chain : list string; listed : bool }.
Abbreviation objects := (gmap Z uobject).

(** A weak pointer taken of what is at an address, and what it resolves to. *)
Abbreviation weak := (Z * Z)%type.
Definition weak_get (w : objects) (p : weak) : option Z :=
  match w !! p.1 with Some o => if bool_decide (serial o = p.2) then Some p.1 else None | None => None end.

(** [FindAllOf], as documented: the objects of a class or of one below it, without the
    templates, the archetypes and the default objects. *)
Definition of_class (name : string) (o : uobject) : bool := bool_decide (name ∈ chain o).
Definition find_all_of (name : string) (w : objects) : gmap Z Z :=
  omap (fun o => if of_class name o && listed o then Some (serial o) else None) w.

(** * One registry *)

Definition REGISTRY_RESEED_TICKS : Z := 600.

Record registry := Registry { members : gmap Z Z (* the weak pointer to each address *); seeded_at_tick : Z; seeded : bool }.
Definition registry0 : registry := Registry ∅ 0 false.
#[export] Instance registry_inhabited : Inhabited registry := populate registry0.

Definition seed (w : objects) (tick : Z) (name : string) : registry := Registry (find_all_of name w) tick true.

Definition add (w : objects) (a : Z) (r : registry) : registry :=
  match w !! a with
  | None => r
  | Some o =>
      match members r !! a with
      | Some s => if bool_decide (s = serial o) then r
                  else Registry (<[a := serial o]> (members r)) (seeded_at_tick r) (seeded r)
      | None => Registry (<[a := serial o]> (members r)) (seeded_at_tick r) (seeded r)
      end
  end.

(** Seeded again when it is due; the dead are dropped and the rest returned. *)
Definition live (w : objects) (tick : Z) (name : string) (r : registry) : registry * list Z :=
  let r := if negb (seeded r) || (u64 (tick - seeded_at_tick r) >=? REGISTRY_RESEED_TICKS)%Z then seed w tick name else r in
  let alive := filter (fun p : Z * Z => is_Some (weak_get w p)) (members r) in
  (Registry alive (seeded_at_tick r) (seeded r), (map_to_list alive).*1).

Definition clear (r : registry) : registry := Registry ∅ (seeded_at_tick r) false.

(** * The feed *)

Definition REGISTRIES : list string := ["NiagaraComponent"; "BP_AfterImage_C"; "CameraComponent"; "BP_PlayerCam_C"]%string.

Record feed := Feed { registries : gmap string registry; g_registry_pending : list (string * weak) }.
Definition feed0 : feed := Feed ∅ [].

Definition upd_registry (name : string) (f : registry -> registry) (fd : feed) : feed :=
  Feed (<[name := f (registries fd !!! name)]> (registries fd)) (g_registry_pending fd).

(** Up the chain of classes, the first that has a registry. *)
Definition registry_for_class (chain : list string) : option string :=
  List.find (fun name => bool_decide (name ∈ REGISTRIES)) chain.

(** A construction, seen by the hook. *)
Definition registry_note_constructed (w : objects) (in_game_thread : bool) (a : Z) (fd : feed) : feed :=
  match w !! a with
  | None => fd
  | Some o =>
      match registry_for_class (chain o) with
      | None => fd
      | Some name => if in_game_thread then upd_registry name (add w a) fd
                     else Feed (registries fd) (g_registry_pending fd ++ [(name, (a, serial o))])
      end
  end.

(** The staged constructions, at the top of a tick. *)
Definition drain_step (w : objects) (fd : feed) (x : string * weak) : feed :=
  match weak_get w x.2 with Some a => upd_registry x.1 (add w a) fd | None => fd end.

Definition registry_drain_pending (w : objects) (fd : feed) : feed :=
  foldl (drain_step w) (Feed (registries fd) []) (g_registry_pending fd).

(** The list of a class, as of a tick. *)
Definition registry_live (w : objects) (tick : Z) (name : string) (fd : feed) : feed * list Z :=
  let (r, out) := live w tick name (registries fd !!! name) in
  (Feed (<[name := r]> (registries fd)) (g_registry_pending fd), out).

(** A level's end forgets all four; what is staged stays. *)
Definition registry_clear_all (fd : feed) : feed :=
  Feed (fold_right (fun name m => <[name := clear (m !!! name)]> m) (registries fd) REGISTRIES) (g_registry_pending fd).

(** * What may happen *)

(** The game constructs, on either thread and at times out of the hook's sight, and
    destroys; the plugin ticks, asks, and forgets.  [w_unseen] has the serial numbers the
    hook did not see. *)
Record sys := Sys { w_objects : objects; w_next : Z; w_unseen : gset Z; w_feed : feed }.
Definition sys0 : sys := Sys ∅ 0 ∅ feed0.

(** At most one of a class and those above it has a registry. *)
Definition one_registry (chain : list string) : Prop :=
  forall n m, n ∈ chain -> m ∈ chain -> n ∈ REGISTRIES -> m ∈ REGISTRIES -> n = m.

Inductive happens : sys -> sys -> Prop :=
  | Constructed w next u fd a ch l in_game_thread :
      w !! a = None ->
      let w' := <[a := UObject next ch l]> w in
      happens (Sys w next u fd) (Sys w' (next + 1) u (registry_note_constructed w' in_game_thread a fd))
  | Unseen w next u fd a ch l :
      w !! a = None -> happens (Sys w next u fd) (Sys (<[a := UObject next ch l]> w) (next + 1) ({[next]} ∪ u) fd)
  | Told w next u fd a o name :   (* the outline hook's, of an image it met *)
      name ∈ REGISTRIES -> w !! a = Some o -> name ∈ chain o -> happens (Sys w next u fd) (Sys w next u (upd_registry name (add w a) fd))
  | Destroyed w next u fd a : happens (Sys w next u fd) (Sys (delete a w) next u fd)
  | Drained w next u fd : happens (Sys w next u fd) (Sys w next u (registry_drain_pending w fd))
  | Asked w next u fd tick name :
      name ∈ REGISTRIES -> happens (Sys w next u fd) (Sys w next u (registry_live w tick name fd).1)
  | Cleared w next u fd : happens (Sys w next u fd) (Sys w next u (registry_clear_all fd)).

(** * What a registry holds *)

(** A weak pointer kept for a class: taken of an object of it. *)
Definition taken (w : objects) (next : Z) (name : string) (p : weak) : Prop :=
  (p.2 < next)%Z /\ forall o, w !! p.1 = Some o -> serial o = p.2 -> name ∈ chain o.

(** What a seeded registry must have: an object [FindAllOf] lists, of this registry's class
    and of no other's, whose construction was seen. *)
Record owed (u : gset Z) (name : string) (o : uobject) : Prop := Owed {
  ow_class : name ∈ chain o;
  ow_one : one_registry (chain o);
  ow_listed : listed o = true;
  ow_seen : serial o ∉ u
}.

Record registry_ok (w : objects) (next : Z) (u : gset Z) (pending : list (string * weak)) (name : string) (r : registry) : Prop := RegOk {
  rg_taken : forall a s, members r !! a = Some s -> taken w next name (a, s);
  rg_all : seeded r = true -> forall a o, w !! a = Some o -> owed u name o ->
           members r !! a = Some (serial o) \/ (name, (a, serial o)) ∈ pending
}.

Record sys_ok (s : sys) : Prop := SysOk {
  sy_serial : forall a o, w_objects s !! a = Some o -> (serial o < w_next s)%Z;
  sy_unseen : forall n, n ∈ w_unseen s -> (n < w_next s)%Z;
  sy_pending : forall n p, (n, p) ∈ g_registry_pending (w_feed s) -> n ∈ REGISTRIES /\ taken (w_objects s) (w_next s) n p;
  sy_regs : forall n, n ∈ REGISTRIES ->
            registry_ok (w_objects s) (w_next s) (w_unseen s) (g_registry_pending (w_feed s)) n (registries (w_feed s) !!! n)
}.

Lemma find_all_of_lookup name w a s :
  find_all_of name w !! a = Some s <-> exists o, w !! a = Some o /\ name ∈ chain o /\ listed o = true /\ serial o = s.
Proof.
  unfold find_all_of, of_class. rewrite lookup_omap. destruct (w !! a) as [o|]; cbn; [|naive_solver]. split.
  - destruct (bool_decide_reflect (name ∈ chain o)); [|done]. destruct (listed o) eqn:El; [|done]. intros [= <-]. eauto.
  - intros (o' & [= <-] & Hin & -> & <-). by rewrite bool_decide_true.
Qed.

Lemma weak_get_Some w a s : is_Some (weak_get w (a, s)) <-> exists o, w !! a = Some o /\ serial o = s.
Proof.
  unfold weak_get. cbn. destruct (w !! a) as [o|]; [|by split; [intros []|intros (? & ? & ?)]].
  destruct (bool_decide_reflect (serial o = s)); split; eauto; [by intros []|naive_solver].
Qed.

Lemma registry_for_class_in ch n : registry_for_class ch = Some n -> n ∈ ch /\ n ∈ REGISTRIES.
Proof.
  intros E. apply List.find_some in E as [H1 H2]. apply bool_decide_eq_true in H2.
  split; [by apply list_elem_of_In|done].
Qed.

Lemma registry_for_class_one ch n : one_registry ch -> n ∈ ch -> n ∈ REGISTRIES -> registry_for_class ch = Some n.
Proof.
  intros H1 Hn Hr. destruct (registry_for_class ch) as [m|] eqn:E.
  - apply registry_for_class_in in E as [Hm Hmr]. f_equal. by apply H1.
  - exfalso. apply list_elem_of_In in Hn. pose proof (List.find_none _ _ E n Hn) as Hf. by apply bool_decide_eq_false in Hf.
Qed.

(** * Each operation keeps it *)

Lemma add_members w a o r b :
  w !! a = Some o -> members (add w a r) !! b = (if bool_decide (b = a) then Some (serial o) else members r !! b) /\
                     seeded (add w a r) = seeded r.
Proof.
  intros E. unfold add. rewrite E. destruct (bool_decide_reflect (b = a)) as [->|Hb].
  - destruct (members r !! a) as [s|] eqn:Es; [destruct (bool_decide_reflect (s = serial o)) as [->|]|]; cbn;
      rewrite ?lookup_insert_eq; done.
  - destruct (members r !! a) as [s|]; [destruct (bool_decide _)|]; cbn; rewrite ?lookup_insert_ne by done; done.
Qed.

Lemma add_ok w next u pend n r a o :
  w !! a = Some o -> n ∈ chain o -> (serial o < next)%Z -> registry_ok w next u pend n r -> registry_ok w next u pend n (add w a r).
Proof.
  intros E Hn Hs [H1 H2]. split.
  - intros b s. rewrite (proj1 (add_members w a o r b E)). destruct (bool_decide_reflect (b = a)) as [->|].
    + intros [= <-]. split; [done|]. cbn. intros o' Eo _. by rewrite E in Eo; simplify_eq.
    + apply H1.
  - rewrite (proj2 (add_members w a o r a E)). intros Hsd b o' Eo Hin.
    rewrite (proj1 (add_members w a o r b E)). destruct (bool_decide_reflect (b = a)) as [->|]; [|by apply H2].
    rewrite E in Eo. simplify_eq. by left.
Qed.

Lemma seed_ok w next u pend n tick :
  (forall a o, w !! a = Some o -> (serial o < next)%Z) -> registry_ok w next u pend n (seed w tick n).
Proof.
  intros Hs. split; cbn.
  - intros a s (o & E & Hin & _ & <-)%find_all_of_lookup. split; [by eapply Hs|]. cbn. intros o' E' _. by rewrite E in E'; simplify_eq.
  - intros _ a o E [Hin _ Hl _]. left. apply find_all_of_lookup. eauto 6.
Qed.

Lemma live_ok w next u pend n tick r :
  (forall a o, w !! a = Some o -> (serial o < next)%Z) -> registry_ok w next u pend n r ->
  registry_ok w next u pend n (live w tick n r).1.
Proof.
  intros Hs Hr. unfold live. set (r' := if _ || _ then _ else r).
  assert (registry_ok w next u pend n r') as [H1 H2] by (unfold r'; destruct (_ || _); [by apply seed_ok|done]).
  split; cbn.
  - intros a s [E _]%map_lookup_filter_Some. by apply H1.
  - intros Hsd a o E Hin. destruct (H2 Hsd a o E Hin) as [H|H]; [left|by right].
    apply map_lookup_filter_Some. split; [done|]. apply weak_get_Some. eauto.
Qed.

Lemma clear_ok w next u pend n r : registry_ok w next u pend n (clear r).
Proof. split; cbn; [|done]. intros a s H. by rewrite lookup_empty in H. Qed.

Lemma taken_construct w next n p a ch l :
  w !! a = None -> taken w next n p -> taken (<[a := UObject next ch l]> w) (next + 1) n p.
Proof.
  intros Ha [H1 H2]. split; [lia|]. intros o. destruct (decide (p.1 = a)) as [->|Hne].
  - rewrite lookup_insert_eq. intros [= <-] E. cbn in E. lia.
  - rewrite lookup_insert_ne by done. apply H2.
Qed.

Lemma taken_destroy w next n p a : taken w next n p -> taken (delete a w) next n p.
Proof.
  intros [H1 H2]. split; [done|]. intros o E. apply H2. by apply lookup_delete_Some in E as [_ E].
Qed.

Definition regs_ok (w : objects) (next : Z) (u : gset Z) (pend : list (string * weak)) (regs : gmap string registry) : Prop :=
  forall n, n ∈ REGISTRIES -> registry_ok w next u pend n (regs !!! n).

Lemma regs_upd w next u pend regs n r :
  regs_ok w next u pend regs -> registry_ok w next u pend n r -> regs_ok w next u pend (<[n := r]> regs).
Proof.
  intros H Hr m Hm. destruct (decide (m = n)) as [->|]; [by rewrite lookup_total_insert_eq|].
  rewrite lookup_total_insert_ne by done. by apply H.
Qed.

Lemma drain_ok w next u (Hs : forall a o, w !! a = Some o -> (serial o < next)%Z) : forall pend fd,
  (forall n p, (n, p) ∈ pend -> n ∈ REGISTRIES /\ taken w next n p) ->
  regs_ok w next u pend (registries fd) -> regs_ok w next u [] (registries (foldl (drain_step w) fd pend)).
Proof.
  induction pend as [|[n [a s]] pend IH]; intros fd Hp H; [done|]. cbn [foldl]. apply IH; [intros; apply Hp; by right|].
  destruct (Hp n (a, s) ltac:(by left)) as [Hn [_ Ht]]. cbn in Ht. unfold drain_step. cbn [fst snd].
  destruct (weak_get w (a, s)) as [b|] eqn:Eg.
  - assert (b = a /\ exists o, w !! a = Some o /\ serial o = s) as [-> (o & Eo & Es)].
    { pose proof (proj1 (weak_get_Some w a s) ltac:(eauto)) as Ho. split; [|done]. unfold weak_get in Eg. cbn in Eg.
      destruct (w !! a); [|done]. destruct (bool_decide _); [by simplify_eq|done]. }
    unfold upd_registry. cbn [registries]. intros m Hm.
    assert (registry_ok w next u ((n, (a, s)) :: pend) n (add w a (registries fd !!! n))) as Ha by eauto using add_ok.
    destruct (decide (m = n)) as [->|Hne].
    + rewrite lookup_total_insert_eq. destruct Ha as [H1 H2]. split; [done|]. intros Hsd b o' Eb Hin.
      destruct (H2 Hsd b o' Eb Hin) as [?|[Heq|?]%list.elem_of_cons]; [by left| |by right]. simplify_eq.
      left. rewrite (proj1 (add_members w a o _ a Eo)). rewrite bool_decide_true by done. congruence.
    + rewrite lookup_total_insert_ne by done. destruct (H m Hm) as [H1 H2]. split; [done|]. intros Hsd b o' Eb Hin.
      destruct (H2 Hsd b o' Eb Hin) as [?|[Heq|?]%list.elem_of_cons]; [by left| |by right]. by simplify_eq.
  - intros m Hm. destruct (H m Hm) as [H1 H2]. split; [done|]. intros Hsd b o' Eb Hin.
    destruct (H2 Hsd b o' Eb Hin) as [?|[Heq|?]%list.elem_of_cons]; [by left| |by right]. simplify_eq.
    assert (is_Some (weak_get w (a, serial o'))) as [? E] by (apply weak_get_Some; eauto). congruence.
Qed.

Lemma drain_pending_nil w : forall pend fd, g_registry_pending (foldl (drain_step w) fd pend) = g_registry_pending fd.
Proof.
  intros pend. induction pend as [|x pend IH]; intros fd; [done|]. cbn. rewrite IH. unfold drain_step.
  by destruct (weak_get w x.2).
Qed.

Lemma drain_exact w next u pend fd :
  (forall a o, w !! a = Some o -> (serial o < next)%Z) ->
  (forall n p, (n, p) ∈ pend -> n ∈ REGISTRIES /\ taken w next n p) -> g_registry_pending fd = pend ->
  regs_ok w next u pend (registries fd) ->
  g_registry_pending (registry_drain_pending w fd) = [] /\ regs_ok w next u [] (registries (registry_drain_pending w fd)).
Proof.
  intros Hs Hp <- H. unfold registry_drain_pending. rewrite drain_pending_nil. split; [done|]. by apply drain_ok.
Qed.

(** What holds of a class before a new object is noted. *)
Lemma before_note w next u pend n r a ch l :
  w !! a = None -> registry_ok w next u pend n r ->
  let w' := <[a := UObject next ch l]> w in
  (forall b s, members r !! b = Some s -> taken w' (next + 1) n (b, s)) /\
  (seeded r = true -> forall b o, w' !! b = Some o -> owed u n o ->
     b = a \/ members r !! b = Some (serial o) \/ (n, (b, serial o)) ∈ pend).
Proof.
  intros Ha [H1 H2] w'. split; [intros; by apply taken_construct, H1|]. intros Hsd b o.
  destruct (decide (b = a)) as [->|]; [by left|]. unfold w'. rewrite lookup_insert_ne by done. right. by apply H2.
Qed.

Lemma note_at_once w next u pend n r a ch l :
  w !! a = None -> n ∈ ch -> registry_ok w next u pend n r ->
  registry_ok (<[a := UObject next ch l]> w) (next + 1) u pend n (add (<[a := UObject next ch l]> w) a r).
Proof.
  intros Ha Hin H. destruct (before_note w next u pend n r a ch l Ha H) as [O1 O2]. set (w' := <[a := UObject next ch l]> w) in *.
  assert (w' !! a = Some (UObject next ch l)) as Ea by (unfold w'; by rewrite lookup_insert_eq).
  split.
  - intros b s. rewrite (proj1 (add_members w' a _ _ b Ea)). destruct (bool_decide_reflect (b = a)) as [->|]; [|apply O1].
    intros [= <-]. split; [cbn; lia|]. cbn. intros o Eo _. by rewrite Ea in Eo; simplify_eq.
  - rewrite (proj2 (add_members w' a _ _ a Ea)). intros Hsd b o Eb Hno. rewrite (proj1 (add_members w' a _ _ b Ea)).
    destruct (bool_decide_reflect (b = a)) as [->|Hb]; [rewrite Ea in Eb; simplify_eq; by left|].
    destruct (O2 Hsd b o Eb Hno) as [?|[?|?]]; [done|by left|by right].
Qed.

(** Noted elsewhere, or staged for this class. *)
Lemma note_apart w next u pend pend' n r a ch l :
  w !! a = None -> registry_ok w next u pend n r -> (forall x, x ∈ pend -> x ∈ pend') ->
  (owed u n (UObject next ch l) -> (n, (a, next)) ∈ pend') -> registry_ok (<[a := UObject next ch l]> w) (next + 1) u pend' n r.
Proof.
  intros Ha H Hsub Hst. destruct (before_note w next u pend n r a ch l Ha H) as [O1 O2]. split; [done|].
  intros Hsd b o Eb Hno. destruct (O2 Hsd b o Eb Hno) as [->|[?|?]]; [|by left|right; by apply Hsub].
  rewrite lookup_insert_eq in Eb. simplify_eq. right. by apply Hst.
Qed.

Lemma note_ok w next u fd a ch l gt :
  w !! a = None -> (forall n p, (n, p) ∈ g_registry_pending fd -> n ∈ REGISTRIES /\ taken w next n p) ->
  regs_ok w next u (g_registry_pending fd) (registries fd) ->
  let w' := <[a := UObject next ch l]> w in
  let fd' := registry_note_constructed w' gt a fd in
  (forall n p, (n, p) ∈ g_registry_pending fd' -> n ∈ REGISTRIES /\ taken w' (next + 1) n p) /\
  regs_ok w' (next + 1) u (g_registry_pending fd') (registries fd').
Proof.
  intros Ha Hp H w' fd'.
  assert (forall n p, (n, p) ∈ g_registry_pending fd -> n ∈ REGISTRIES /\ taken w' (next + 1) n p) as Hp'.
  { intros n p Hin. destruct (Hp n p Hin). split; [done|]. by apply taken_construct. }
  unfold fd', registry_note_constructed, w'. rewrite lookup_insert_eq. cbn [chain].
  destruct (registry_for_class ch) as [name|] eqn:Er.
  - destruct (registry_for_class_in ch name Er) as [Hin Hreg].
    assert (forall m, m ∈ REGISTRIES -> owed u m (UObject next ch l) -> m = name) as Hone
      by (intros m Hm [Hc Ho _ _]; by apply Ho).
    destruct gt; cbn [g_registry_pending registries upd_registry].
    + split; [exact Hp'|]. intros m Hm. destruct (decide (m = name)) as [->|Hne].
      * rewrite lookup_total_insert_eq. by apply note_at_once; [| |apply H].
      * rewrite lookup_total_insert_ne by done. eapply note_apart; [done|by apply H|done|]. intros. by destruct Hne; apply Hone.
    + split.
      * intros n p [?|E%list_elem_of_singleton]%elem_of_app; [by apply Hp'|]. simplify_eq. split; [done|].
        split; [cbn; lia|]. cbn. intros o. rewrite lookup_insert_eq. by intros [= <-].
      * intros m Hm. eapply note_apart; [done|by apply H|intros; apply elem_of_app; by left|]. intros Hm'.
        apply elem_of_app. right. rewrite (Hone m Hm Hm'). apply list_elem_of_singleton. done.
  - split; [exact Hp'|]. intros m Hm. eapply note_apart; [done|by apply H|done|]. intros Hm'.
    destruct Hm' as [Hc Ho _ _]. by rewrite (registry_for_class_one ch m Ho Hc Hm) in Er.
Qed.

Lemma happens_ok s s' : happens s s' -> sys_ok s -> sys_ok s'.
Proof.
  intros [w next u fd a ch l gt Ha w'|w next u fd a ch l Ha|w next u fd a o name Hn Eo Hc|w next u fd a|w next u fd
         |w next u fd tick name Hn|w next u fd] [H1 H2 H3 H4]; cbn in *.
  - subst w'. destruct (note_ok w next u fd a ch l gt Ha H3 H4) as [P R]. split; cbn; [| |exact P|exact R].
    + intros b o. destruct (decide (b = a)) as [->|]; [rewrite lookup_insert_eq; intros [= <-]; cbn; lia|].
      rewrite lookup_insert_ne by done. intros E. specialize (H1 b o E). lia.
    + intros n Hn. specialize (H2 n Hn). lia.
  - split; cbn.
    + intros b o. destruct (decide (b = a)) as [->|]; [rewrite lookup_insert_eq; intros [= <-]; cbn; lia|].
      rewrite lookup_insert_ne by done. intros E. specialize (H1 b o E). lia.
    + intros n [->%elem_of_singleton|Hn]%elem_of_union; [lia|]. specialize (H2 n Hn). lia.
    + intros n p E. destruct (H3 n p E). split; [done|]. by apply taken_construct.
    + intros n Hn. destruct (before_note w next u _ n _ a ch l Ha (H4 n Hn)) as [O1 O2]. split; [done|].
      intros Hsd b o Eb [W1 W2 W3 W4]. rewrite not_elem_of_union in W4. destruct W4 as [W4 W5].
      destruct (O2 Hsd b o Eb) as [->|?]; [by split| |assumption]. rewrite lookup_insert_eq in Eb. simplify_eq.
      by destruct W4; apply elem_of_singleton.
  - split; cbn; [done..|]. apply regs_upd; [exact H4|]. apply (add_ok w next u _ name _ a o); eauto.
  - split; cbn.
    + intros b o [_ E]%lookup_delete_Some. by eapply H1.
    + done.
    + intros n p E. destruct (H3 n p E). split; [done|]. by apply taken_destroy.
    + intros n Hn. destruct (H4 n Hn) as [O1 O2]. split; [intros; by apply taken_destroy, O1|].
      intros Hsd b o [_ E]%lookup_delete_Some. by apply O2.
  - destruct (drain_exact w next u (g_registry_pending fd) fd H1 H3 eq_refl H4) as [E R]. split; cbn; [done..| |].
    + rewrite E. by intros n p ?%elem_of_nil.
    + rewrite E. exact R.
  - unfold registry_live. destruct (live w tick name (registries fd !!! name)) as [r out] eqn:El. split; cbn; [done..|].
    apply regs_upd; [done|]. replace r with (live w tick name (registries fd !!! name)).1 by by rewrite El. by apply live_ok, H4.
  - split; cbn [w_objects w_next w_unseen w_feed registry_clear_all g_registry_pending registries]; [done..|].
    assert (forall ns regs, regs_ok w next u (g_registry_pending fd) regs ->
              regs_ok w next u (g_registry_pending fd) (fold_right (fun n m => <[n := clear (m !!! n)]> m) regs ns)) as Hc.
    { clear. intros ns. induction ns as [|n ns IH]; intros regs H; [done|]. cbn. apply regs_upd; [by apply IH|apply clear_ok]. }
    by apply Hc.
Qed.

Lemma sys0_ok : sys_ok sys0.
Proof.
  split; cbn; [by intros ? ?|set_solver|by intros ? ? ?%elem_of_nil|]. intros n _. rewrite lookup_total_empty.
  split; [by intros a s|done].
Qed.

Lemma happened_ok s : rtc happens sys0 s -> sys_ok s.
Proof.
  assert (forall s s', rtc happens s s' -> sys_ok s -> sys_ok s') as H; [|by intros; eapply H, sys0_ok].
  induction 1; eauto using happens_ok.
Qed.

(** * Properties *)

Lemma live_list w tick n r a :
  a ∈ (live w tick n r).2 <->
  is_Some ((members (live w tick n r).1 : gmap Z Z) !! a).
Proof.
  unfold live. cbn [fst snd members]. rewrite list_elem_of_fmap. split.
  - intros ([b s] & -> & H%elem_of_map_to_list). by exists s.
  - intros [s H]. exists (a, s). split; [done|]. by apply elem_of_map_to_list.
Qed.

(** Asked when its interval has passed, or before it was ever seeded, a registry answers the walk. *)
Lemma live_fresh w tick n r a :
  (u64 (tick - seeded_at_tick r) >= REGISTRY_RESEED_TICKS)%Z \/ seeded r = false ->
  a ∈ (live w tick n r).2 <-> a ∈ dom (find_all_of n w).
Proof.
  intros Hdue. rewrite live_list, elem_of_dom. unfold live.
  assert (negb (seeded r) || (u64 (tick - seeded_at_tick r) >=? REGISTRY_RESEED_TICKS)%Z = true) as ->.
  { destruct Hdue as [H| ->]; [|done]. apply orb_true_iff. right. lia. }
  cbn [seed members fst]. split.
  - intros [s [E _]%map_lookup_filter_Some]. eauto.
  - intros [s E]. exists s. apply map_lookup_filter_Some. split; [done|]. apply find_all_of_lookup in E as (o & E & _ & _ & <-).
    apply weak_get_Some. eauto.
Qed.

Lemma live_alive w next u pend tick n r a :
  (forall a o, w !! a = Some o -> (serial o < next)%Z) -> registry_ok w next u pend n r ->
  a ∈ (live w tick n r).2 -> exists o, w !! a = Some o /\ n ∈ chain o.
Proof.
  intros Hs Hr [sn E]%live_list. destruct (live_ok w next u pend n tick r Hs Hr) as [L1 _].
  pose proof (L1 a sn E) as [_ Ht]. unfold live in E. cbn [fst members] in E.
  apply map_lookup_filter_Some in E as [_ (o & Eo & Es)%weak_get_Some]. exists o. split; [done|]. by apply Ht.
Qed.

(** C14: a registry stands for the walk of the world it replaces.  After any constructions
    on either thread, seen by the hook or not, of objects of the world or of templates and
    default objects, destructions (addresses reused), images the outline hook met, ticks,
    questions and level changes, once a tick has drained the staged constructions the list
    a registry answers has no object twice; all it has is alive and of the class; and
    against [FindAllOf]'s list it lacks only objects whose construction the hook did not
    see (or whose class descends from two of the four names, of which no class does), and
    is over only by templates, archetypes and default objects, which the hook is told of
    and [FindAllOf] hides.  A registry asked when its interval has passed answers exactly
    [FindAllOf]'s list, whatever was missed or over. *)
Theorem registry_covers_find_all_of (s : sys) (Hs : rtc happens sys0 s) (name : string) (Hn : name ∈ REGISTRIES) (tick : Z) :
  let w := w_objects s in
  let out := (registry_live w tick name (registry_drain_pending w (w_feed s))).2 in
  NoDup out /\
  (forall a, a ∈ out -> exists o, w !! a = Some o /\ name ∈ chain o /\ (a ∈ dom (find_all_of name w) \/ listed o = false)) /\
  (forall a o, a ∈ dom (find_all_of name w) -> w !! a = Some o -> a ∈ out \/ serial o ∈ w_unseen s \/ ~ one_registry (chain o)) /\
  forall r, (u64 (tick - seeded_at_tick r) >= REGISTRY_RESEED_TICKS)%Z ->
    forall a, a ∈ (live w tick name r).2 <-> a ∈ dom (find_all_of name w).
Proof.
  cbv zeta. destruct (happened_ok s Hs) as [H1 H2 H3 H4].
  destruct (drain_exact _ _ _ _ (w_feed s) H1 H3 eq_refl H4) as [_ R]. specialize (R name Hn).
  unfold registry_live. set (r := registries (registry_drain_pending (w_objects s) (w_feed s)) !!! name) in *.
  pose proof (live_list (w_objects s) tick name r) as Hl.
  pose proof (fun a => live_alive _ _ _ _ tick name r a H1 R) as Ha.
  destruct (live_ok _ _ _ _ name tick _ H1 R) as [_ L2].
  assert (seeded (live (w_objects s) tick name r).1 = true) as Hsd by (unfold live; destruct (seeded r) eqn:E; cbn; [by destruct (_ >=? _)%Z|done]).
  assert (NoDup (live (w_objects s) tick name r).2) as Hnd by (unfold live; cbn [snd]; apply NoDup_fst_map_to_list).
  destruct (live (w_objects s) tick name r) as [r' out] eqn:El. cbn [fst snd] in *. split_and!; [done| | |].
  - intros a (o & Eo & Hc)%Ha. exists o. split_and!; [done..|]. destruct (listed o) eqn:Ed; [left|by right].
    apply elem_of_dom. exists (serial o). apply find_all_of_lookup. eauto.
  - intros a o [sn (o' & Eo' & Hc & Ed & <-)%find_all_of_lookup]%elem_of_dom Eo. rewrite Eo in Eo'. injection Eo' as <-.
    destruct (decide (serial o ∈ w_unseen s)) as [|Hu]; [by right; left|].
    destruct (decide (Forall (fun n => Forall (fun m => n ∈ REGISTRIES -> m ∈ REGISTRIES -> n = m) (chain o)) (chain o))) as [Hone|Hone].
    + left. apply Hl. destruct (L2 Hsd a o Eo) as [->|[]%elem_of_nil]; [|by eexists].
      split; [done| |done..]. intros n m In Im. rewrite list.Forall_forall in Hone. specialize (Hone n In).
      rewrite list.Forall_forall in Hone. by apply Hone.
    + right. right. intros Ho. apply Hone. apply list.Forall_forall. intros n In. apply list.Forall_forall. intros m Im ? ?. by apply Ho.
  - intros r0 Hr a. apply live_fresh. by left.
Qed.

(** A component built on the loading thread, a template, another that dies and whose
    address is given to an object of no registry, and one the hook does not see. *)
Definition make (a : Z) (ch : list string) (l gt : bool) (s : sys) : sys :=
  let w := <[a := UObject (w_next s) ch l]> (w_objects s) in
  Sys w (w_next s + 1) (w_unseen s) (registry_note_constructed w gt a (w_feed s)).
Definition ask (tick : Z) (name : string) (s : sys) : sys :=
  Sys (w_objects s) (w_next s) (w_unseen s) (registry_live (w_objects s) tick name (w_feed s)).1.
Definition sample_steps (s : sys) : sys :=
  let s := ask 1 "NiagaraComponent" s in
  let s := make 5%Z ["NiagaraComponent"; "ActorComponent"]%string true false s in
  let s := make 6%Z ["NiagaraComponent"]%string true true s in
  let s := make 7%Z ["NiagaraComponent"]%string false true s in
  let s := Sys (delete 6%Z (w_objects s)) (w_next s) (w_unseen s) (w_feed s) in
  let s := make 6%Z ["Texture2D"]%string true true s in
  Sys (<[8%Z := UObject (w_next s) ["NiagaraComponent"]%string true]> (w_objects s)) (w_next s + 1)
      ({[w_next s]} ∪ w_unseen s) (w_feed s).
Lemma sample_happens : rtc happens sys0 (sample_steps sys0).
Proof.
  eapply rtc_l; [apply (Asked _ _ _ _ 1 "NiagaraComponent"); by left|].
  eapply rtc_l; [by apply (Constructed _ _ _ _ 5%Z ["NiagaraComponent"; "ActorComponent"]%string true false)|].
  eapply rtc_l; [by apply (Constructed _ _ _ _ 6%Z ["NiagaraComponent"]%string true true)|].
  eapply rtc_l; [by apply (Constructed _ _ _ _ 7%Z ["NiagaraComponent"]%string false true)|].
  eapply rtc_l; [apply (Destroyed _ _ _ _ 6%Z)|].
  eapply rtc_l; [by apply (Constructed _ _ _ _ 6%Z ["Texture2D"]%string true true)|].
  eapply rtc_l; [by apply (Unseen _ _ _ _ 8%Z ["NiagaraComponent"]%string true)|].
  apply rtc_refl.
Qed.

(** The template is in the list and the unseen component is not, until the next enumeration. *)
Example registry_between_seeds :
  let s := sample_steps sys0 in
  let asked tick := (registry_live (w_objects s) tick "NiagaraComponent" (registry_drain_pending (w_objects s) (w_feed s))).2 in
  asked 10%Z ≡ₚ [5; 7]%Z /\ asked 601%Z ≡ₚ [5; 8]%Z.
Proof. split; vm_compute; [apply Permutation_refl || apply Permutation_swap|apply Permutation_refl || apply Permutation_swap]. Qed.

Example registry_covers_find_all_of_witness :
  let s := sample_steps sys0 in
  let out := (registry_live (w_objects s) 10 "NiagaraComponent" (registry_drain_pending (w_objects s) (w_feed s))).2 in
  w_unseen s = {[4%Z]} /\ length out = 2 /\
  (5%Z ∈ out \/ 0%Z ∈ w_unseen s \/ ~ one_registry ["NiagaraComponent"; "ActorComponent"]%string) /\
  forall a, a ∈ out -> exists o, w_objects s !! a = Some o.
Proof.
  intros s out. split; [by vm_compute|]. split; [by vm_compute|].
  destruct (registry_covers_find_all_of s sample_happens "NiagaraComponent" ltac:(by left) 10) as (_ & H & H' & _). split.
  - apply (H' 5%Z (UObject 0 ["NiagaraComponent"; "ActorComponent"]%string true)); [|by vm_compute].
    apply elem_of_dom. vm_compute. by eexists.
  - intros a (o & E & _)%H. by exists o.
Defined.
