(* ===== verification/PoseMirror.v ===== *)
(** Plugin.cpp, [game_thread_tick]'s loop over the remotes: what a tick writes on a
    ghost's pawn so that it holds the peer's pose: the capsule and the crouch, the slide
    curve, the teleport, the animation state, the edges of the bubble, the wall run, the
    shadow and the landing pulses, the afterimage burst.

    The blocks a driven ghost skips run here ([DrivenTurn] is the turn that skips them).
    What the code reads of the engine's objects by reflection is an argument,
    [reflection]; what it asks of them is returned, in order.  A call on a function the
    object's class lacks does nothing. *)
From S2P Require Import Prelude Float64 JsonString JsonBounds RemoteGhost BridgeLine VfxMirror PeerProps.
From Stdlib Require Import ZArith.

(** * The engine *)

(** The objects, seen through their reflected properties. *)
Record reflection := Reflection {
  obj : Z -> string -> option Z;            (* an object property that resolves, and its object *)
  num : Z -> string -> option double;       (* a float or a double *)
  flag : Z -> string -> option bool;        (* a bool, read by its mask *)
  raw_flag : Z -> string -> option bool;    (* a bool, read as a whole byte *)
  objs : Z -> string -> option (list (option Z));   (* an array of objects *)
  has : Z -> string -> bool;                (* the property resolves *)
  has_fn : Z -> string -> bool              (* the class has the function *)
}.

(** The dev toggles the loop reads, files beside the DLL. *)
Record dev_toggles := DevToggles {
  equip_call_skipped : bool; equip_anim_skipped : bool;   (* g_ghost_equip_call_skipped, ... *)
  weapon_hidden : bool; mesh_hidden : bool; lightmesh_hidden : bool; fx_hidden : bool;
  shadow_hidden : bool; nametag_hidden : bool; vertexlight_killed : bool;
  keeps_custom_depth : bool; light_forced_on : bool
}.
Definition toggles_off : dev_toggles :=
  DevToggles false false false false false false false false false false false.

Inductive pose_call :=
  | Call (o : Z) (fn : string)                          (* a function without arguments *)
  | CallBool (o : Z) (fn param : string) (b : bool)
  | CallTwoFloats (o : Z) (fn : string) (x y : double)
  | WriteNumber (o : Z) (prop : string) (v : double)
  | WriteInt (o : Z) (prop : string) (v : Z)
  | WriteBool (o : Z) (prop : string) (b : bool)
  | WriteObject (o : Z) (prop : string) (v : Z)
  | WriteColor (o : Z) (prop : string) (rgb : vec3)
  | AddObject (o : Z) (prop : string) (v : Z)           (* to an array *)
  | Teleport (o : Z) (loc rot : vec3)
  | Show (o : Z) (visible propagate : bool)             (* SetVisibility *)
  | SetMesh (o asset : Z)
  | SetCustomDepth (o : Z) (on : bool)
  | SetLightIntensity (o : Z) (v : double)
  | DestroyActor (o : Z)
  | ResolveAsset (class : string) (path : bytes)        (* resolve_peer_named_asset *)
  | MontagePlay (anim montage : Z)
  | MontageStop (anim : Z) (blend_out : double)
  | DamageResponse (o : Z) (damage_type : Z)
  | TryDamage (hitable attacker : Z) (damage : double) (forward query : vec3).

Definition mg_read_bool (r : reflection) (o : Z) (prop : string) (fallback : bool) : bool :=
  default fallback (flag r o prop).
Definition mg_write_bool (r : reflection) (o : Z) (prop : string) (value : bool) : list pose_call :=
  match flag r o prop with Some _ => [WriteBool o prop value] | None => [] end.

(** [if (T* p = mg_property_value<T>(o, prop)) *p = value;] *)
Definition write_int (r : reflection) (o : Z) (prop : string) (v : Z) : list pose_call :=
  if has r o prop then [WriteInt o prop v] else [].
Definition write_bool (r : reflection) (o : Z) (prop : string) (b : bool) : list pose_call :=
  if has r o prop then [WriteBool o prop b] else [].
Definition write_number (r : reflection) (o : Z) (prop : string) (v : double) : list pose_call :=
  if has r o prop then [WriteNumber o prop v] else [].

(** A number written only when it differs from what is there. *)
Definition settle (r : reflection) (o : Z) (prop : string) (desired : double) : list pose_call :=
  match num r o prop with
  | Some held => if dne held desired then [WriteNumber o prop desired] else []
  | None => []
  end.

(** For the object a property holds. *)
Definition with_obj {A} (r : reflection) (o : Z) (prop : string) (f : Z -> list A) : list A :=
  match obj r o prop with Some c => f c | None => [] end.

Definition upd_pose (f : pose_latch -> pose_latch) (g : RemoteGhost) : RemoteGhost := g <| pose := f (pose g) |>.

(** * The head of the loop *)

Definition GHOST_PREHIT_PLAYER : bool := true.
Definition GHOST_BLOB_SHADOW_DRIVE : bool := true.
Definition GHOST_BLOB_SHADOW_ARM_MIRROR : bool := true.

(** The local player is in the ghost's own list of actors already hit. *)
Definition prehit_player (r : reflection) (a : Z) (player : option Z) : list pose_call :=
  match player with
  | Some p =>
      match objs r a "hitActorsArray" with
      | Some hit_list => if bool_decide (Some p ∈ hit_list) then [] else [AddObject a "hitActorsArray" p]
      | None => []
      end
  | None => []
  end.

(** The game's own shadow function, and the player's arm length on the ghost's arm. *)
Definition drive_blob_shadow (r : reflection) (a : Z) (player : option Z) : list pose_call :=
  let player_arm := player ≫= fun p => obj r p "SpringArm" ≫= fun s => num r s "TargetArmLength" in
  Call a "manageBlobShadow"
  :: match player_arm, obj r a "SpringArm" with
     | Some arm, Some spring => write_number r spring "TargetArmLength" arm
     | _, _ => []
     end.

(** * Capsule and crouch *)

Definition GHOST_CAPSULE_MIRROR : bool := true.
Definition GHOST_CROUCH_INPUT_CALL : bool := true.
Definition GHOST_CROUCH_CLEAR_ON_STAND : bool := true.
Definition GHOST_CROUCH_EVENT_CALL : bool := true.
Definition GHOST_SLIDE_TIMELINE_DRIVE : bool := true.
Definition GHOST_BASE_TRANSLATION_OFFSET_MIRROR : bool := true.
Definition SLIDE_TIMELINE_TRACK : string := "Timeline_1_NewTrack_0_0AEDA7BA4192BCE0E33EF9B34BF1FB91".
Definition SLIDE_TIMELINE_UPDATE : string := "Timeline_1__UpdateFunc".
Definition CROUCH_PRESS : string := "InpActEvt_IA_Crouch_K2Node_EnhancedInputActionEvent_16".
Definition CROUCH_RELEASE : string := "InpActEvt_IA_Crouch_K2Node_EnhancedInputActionEvent_15".

(** The peer said how tall its capsule is, and it is short of standing. *)
Definition peer_shrunk (w : wire) : bool := shrunk (target_capsule_half w).

Definition mirror_capsule (r : reflection) (a : Z) (w : wire) : list pose_call :=
  if (target_capsule_half w >? dzero)%double then
    with_obj r a "CapsuleComponent" (fun capsule =>
      settle r capsule "CapsuleHalfHeight" (clamp_to_float (target_capsule_half w) dzero (of_Z 4096)))
  else [].

(** The ghost's own crouch input, pressed and released on the edges of the pose. *)
Definition crouch_input (a : Z) (g : RemoteGhost) : RemoteGhost * list pose_call :=
  let shrunk := peer_shrunk (wire_state g) in
  if Bool.eqb shrunk (crouch_input_shrunk (latches g)) then (g, [])
  else (upd_latch (fun l => l <| crouch_input_shrunk := shrunk |>) g,
        [Call a (if shrunk then CROUCH_PRESS else CROUCH_RELEASE)]).

Definition mirror_is_crouched (r : reflection) (a : Z) (w : wire) : list pose_call :=
  let shrunk := peer_shrunk w in
  if Bool.eqb (mg_read_bool r a "bIsCrouched" (negb shrunk)) shrunk then []
  else mg_write_bool r a "bIsCrouched" shrunk.

(** The pawn's crouch handlers, with the height lost when the crouch began. *)
Definition crouch_event (a : Z) (g : RemoteGhost) : RemoteGhost * list pose_call :=
  let shrunk := peer_shrunk (wire_state g) in
  if Bool.eqb shrunk (crouch_event_shrunk (latches g)) then (g, [])
  else
    let adjust := if shrunk
                  then clamp_to_float (GHOST_STANDING_CAPSULE_HALF - target_capsule_half (wire_state g))%double
                         (of_Z (-4096)) (of_Z 4096)
                  else crouch_half_height_adjust (pose g) in
    (upd_pose (fun p => p <| crouch_half_height_adjust := adjust |>)
       (upd_latch (fun l => l <| crouch_event_shrunk := shrunk |>) g),
     [CallTwoFloats a (if shrunk then "K2_OnStartCrouch" else "K2_OnEndCrouch") adjust adjust]).

Definition drive_slide_timeline (r : reflection) (a : Z) (w : wire) : list pose_call :=
  match num r a SLIDE_TIMELINE_TRACK with
  | Some _ => settle r a SLIDE_TIMELINE_TRACK (clamp_to_float (target_slide_t w) (of_Z (-1024)) (of_Z 1024))
              ++ [Call a SLIDE_TIMELINE_UPDATE]
  | None => []
  end.

(** The Z of the vector [BaseTranslationOffset]. *)
Definition mirror_base_offset (r : reflection) (a : Z) (w : wire) : list pose_call :=
  if (target_capsule_half w >? dzero)%double then
    settle r a "BaseTranslationOffset" (dneg (target_capsule_half w + of_Z 1)%double)
  else [].

Definition teleport (a : Z) (w : wire) : list pose_call := [Teleport a (target_pos w) (target_rot w)].

(** * Edges of the pose *)

Definition IN_BUBBLE_MOVE_STATE : Z := 7.
Definition BUBBLE_MOVEMENT_MODE : Z := 5.

(** In the bubble, or still charged by it. *)
Definition peer_flash_on (w : wire) : bool :=
  ((clamp_to_uint8 (target_move_state w) =? IN_BUBBLE_MOVE_STATE)%Z
   && (clamp_to_uint8 (target_movement_mode w) =? BUBBLE_MOVEMENT_MODE)%Z)
  || target_bubble_charged w.

Definition bubble_flash (a : Z) (g : RemoteGhost) : RemoteGhost * list pose_call :=
  let on := peer_flash_on (wire_state g) in
  if Bool.eqb on (ghost_bubble_flash_on (pose g)) then (g, [])
  else (upd_pose (fun p => p <| ghost_bubble_flash_on := on |>) g,
        [CallBool a "changeBubbleChargedJump" "hasBubbleChargedJump" on;
         CallBool a "StartBubbleJumpFlash" "Condition" on]).

(** The fields the pawn's animation reads. *)
Definition write_animation_state (r : reflection) (a : Z) (w : wire) : list pose_call :=
  write_int r a "moveState" (clamp_to_uint8 (target_move_state w))
  ++ write_int r a "actionState" (clamp_to_uint8 (target_action_state w))
  ++ write_number r a "horizontalSpeed" (target_h_speed w)
  ++ write_number r a "verticalSpeed" (target_v_speed w)
  ++ write_int r a "animJumpType" (clamp_to_uint8 (target_anim_jump_type w))
  ++ with_obj r a "CharacterMovement" (fun m => write_int r m "MovementMode" (clamp_to_uint8 (target_movement_mode w))).

(** The equip calls, once for a new pawn and then on a change. *)
Definition equip_edge (r : reflection) (t : dev_toggles) (a : Z) (g : RemoteGhost) : RemoteGhost * list pose_call :=
  let equipped := target_weapon_equipped (wire_state g) in
  if weapon_equip_call_armed (latches g) && Bool.eqb equipped (last_synced_weapon_equipped (latches g)) then (g, [])
  else (upd_latch (fun l => l <| last_synced_weapon_equipped := equipped |> <| weapon_equip_call_armed := true |>) g,
        (if equip_call_skipped t then [] else [CallBool a "changeEquippedWeapon" "weaponEquipped?" equipped])
        ++ (if equip_anim_skipped t then []
            else with_obj r a "animBPref" (fun abp => [CallBool abp "updateWeaponEquip" "animEquippedWeapon" equipped]))).

(** The hand's mesh shows what the peer holds, unless the hand is emptied for a throw. *)
Definition show_weapon_mesh (r : reflection) (t : dev_toggles) (a : Z) (g : RemoteGhost) : list pose_call :=
  if weapon_hand_hidden (latches g) || weapon_hidden t then []
  else
    let want := target_weapon_equipped (wire_state g) in
    with_obj r a "WeaponMesh" (fun mesh =>
      if Bool.eqb (mg_read_bool r mesh "bVisible" want) want then [] else [Show mesh want false]).

Definition shadow_edge (r : reflection) (a : Z) (g : RemoteGhost) : RemoteGhost * list pose_call :=
  let visible := target_shadow_visible (wire_state g) in
  let want := if visible then 1%Z else 0%Z in
  if (want =? last_applied_shadow_visible (pose g))%Z then (g, [])
  else match obj r a "BlobShadow" with
       | Some shadow => (upd_pose (fun p => p <| last_applied_shadow_visible := want |>) g, [Show shadow visible true])
       | None => (g, [])
       end.

(** The flags of the weapon, written every tick after the calls. *)
Definition write_equipped (r : reflection) (a : Z) (w : wire) : list pose_call :=
  write_bool r a "weaponEquipped?" (target_weapon_equipped w)
  ++ with_obj r a "animBPref" (fun abp => write_bool r abp "animEquippedWeapon" (target_weapon_equipped w)).

(** * Landings and jumps *)

Definition PULSE_HOLD_TICKS : Z := 3.

Definition land_rise (g : RemoteGhost) : bool :=
  (target_land_count (wire_state g) >? last_seen_land_count (counters_seen g))%double.
Definition jump_rise (g : RemoteGhost) : bool :=
  (target_jump_count (wire_state g) >? last_seen_jump_count (counters_seen g))%double.

(** One hold window: re-armed on an edge; what is written, and what is left of it. *)
Definition hold_window (edge : bool) (left_ : Z) : bool * Z :=
  let left_ := if edge then PULSE_HOLD_TICKS else left_ in
  ((left_ >? 0)%Z, if (left_ >? 0)%Z then (left_ - 1)%Z else left_).

Definition tick_pulses (r : reflection) (a : Z) (g : RemoteGhost) : RemoteGhost * list pose_call :=
  let w := wire_state g in
  let land := land_rise g in
  let jump := jump_rise g in
  let (write_landed, landed_left) := hold_window land (landed_hold_ticks (pose g)) in
  let (write_jumped, jumped_left) := hold_window jump (jumped_hold_ticks (pose g)) in
  let s := counters_seen g in
  let s := if land then s <| last_seen_land_count := target_land_count w |> else s in
  let s := if jump then s <| last_seen_jump_count := target_jump_count w |> else s in
  (upd_pose (fun p => p <| landed_hold_ticks := landed_left |> <| jumped_hold_ticks := jumped_left |>)
     (g <| counters_seen := s |>),
   with_obj r a "animBPref" (fun abp =>
     write_bool r abp "landed?" write_landed ++ write_bool r abp "jumped?" write_jumped)).

(** The peer left a held pose: a lingering montage stops. *)
Definition pulse_stop (r : reflection) (a : Z) (edge : bool) : list pose_call :=
  if edge then with_obj r a "animBPref" (fun abp => [MontageStop abp dzero]) else [].

(** * The afterimages *)

Definition MAX_PEER_AFTERIMAGE_SPAWN : Z := 64.

(** The burst the peer asks for, or the game's own 6. *)
Definition spawn_count (requested_n : double) : Z :=
  if isfinite requested_n && (of_Z 1 <=? requested_n)%double
     && (requested_n <=? of_Z MAX_PEER_AFTERIMAGE_SPAWN)%double
  then cast_int requested_n else 6%Z.

Definition afterimages (r : reflection) (a : Z) (g : RemoteGhost) : RemoteGhost * list pose_call :=
  let w := wire_state g in
  if (target_afterimage_count w >? last_seen_afterimage_count (counters_seen g))%double then
    (g <| counters_seen := counters_seen g <| last_seen_afterimage_count := target_afterimage_count w |> |>,
     write_int r a "afterImagesToSpawn" (spawn_count (target_afterimage_spawn_n w))
     ++ (if afterimage_color_valid w && has r a "afterimageColor"
         then [WriteColor a "afterimageColor" (target_afterimage_color w)] else [])
     ++ [Call a "spawnNumAfterimages"])
  else (g, []).

(** * The wall run *)

Definition WALL_RUN_MOVE_STATE : Z := 4.

(** [call_audio_component_stop] *)
Definition stop_audio (r : reflection) (c : Z) : list pose_call :=
  if has_fn r c "Stop" then [Call c "Stop"] else if has_fn r c "Deactivate" then [Call c "Deactivate"] else [].

Definition wall_run (r : reflection) (a : Z) (g : RemoteGhost) : RemoteGhost * list pose_call :=
  let now := clamp_to_uint8 (target_move_state (wire_state g)) in
  let before := last_wallrun_move_state (pose g) in
  let on := (now =? WALL_RUN_MOVE_STATE)%Z in
  let was_on := (before =? WALL_RUN_MOVE_STATE)%Z in
  (upd_pose (fun p => p <| last_wallrun_move_state := now |>) g,
   if on && negb was_on then Call a "doWallRun" :: with_obj r a "wallRideSFX" (stop_audio r)
   else if negb on && was_on then
     with_obj r a "wallRideVFX" (fun vfx => [Call vfx "Deactivate"]) ++ with_obj r a "wallRideSFX" (stop_audio r)
   else []).

(** * The nudge *)

(** [bHidden] set and cleared, every [LOG_INTERVAL_TICKS]. *)
Definition nudge_hidden (r : reflection) (a : Z) (tick : Z) : list pose_call :=
  if (tick mod LOG_INTERVAL_TICKS =? 0)%Z && has r a "bHidden"
  then [WriteBool a "bHidden" true; WriteBool a "bHidden" false] else [].
