(* ===== verification/MontageMirror.v ===== *)
(** Plugin.cpp, the loop over the remotes: the montage a peer plays, and the meshes it
    wears (its outfit, its weapon), mirrored on its ghost.

    A peer names assets by path.  The resolution ([AssetCatalog]) is an argument here,
    and each attempt is recorded among the calls. *)
From S2P Require Import Prelude Float64 JsonString RemoteGhost VfxMirror PeerProps PoseMirror.
From Stdlib Require Import ZArith.

Record asset_view := AssetView {
  named_asset : string -> bytes -> option Z;   (* resolve_peer_named_asset *)
  class_name : Z -> option string;             (* GetClassPrivate()->GetName() *)
  live_skeleton : Z -> bool;                   (* its Skeleton is set, reachable and not being destroyed *)
  unreachable : Z -> bool;                     (* IsUnreachable *)
  active_montage : Z -> option bytes           (* read_current_active_montage: "Class /Path", or "none" *)
}.

(** What a path resolves to, unless it is an object of another class. *)
Definition resolve_checked (v : asset_view) (class : string) (path : bytes) : option Z :=
  o ← named_asset v class path;
  match class_name v o with
  | Some n => if bool_decide (n = class) then Some o else None
  | None => Some o
  end.

(** * The montage *)

Definition MONTAGE_DIVERGENCE_CHECK_INTERVAL_TICKS : Z := 4.
Definition MONTAGE_PROBES_SUPPRESS_ADAPTER_STOPS : bool := false.

Definition montage_rise (g : RemoteGhost) : bool :=
  (target_montage_count (wire_state g) >? last_seen_montage_count (counters_seen g))%double
  && negb (bool_decide (target_montage (wire_state g) = [])).

(** A start, once per rise of the peer's counter. *)
Definition montage_start (r : reflection) (v : asset_view) (a : Z) (g : RemoteGhost) : RemoteGhost * list pose_call :=
  let w := wire_state g in
  if montage_rise g then
    (g <| counters_seen := counters_seen g <| last_seen_montage_count := target_montage_count w |> |>,
     ResolveAsset "AnimMontage" (target_montage w)
     :: match resolve_checked v "AnimMontage" (target_montage w) with
        | Some montage => with_obj r a "animBPref" (fun abp => [MontagePlay abp montage])
        | None => []
        end)
  else (g, []).

(** A stop, once per rise of its counter; one that comes with a start is not made. *)
Definition montage_stop (r : reflection) (a : Z) (montage_started_this_tick : bool) (g : RemoteGhost)
    : RemoteGhost * list pose_call :=
  let w := wire_state g in
  if (target_montage_stop_count w >? last_seen_montage_stop_count (counters_seen g))%double then
    (g <| counters_seen := counters_seen g <| last_seen_montage_stop_count := target_montage_stop_count w |> |>,
     if montage_started_this_tick || MONTAGE_PROBES_SUPPRESS_ADAPTER_STOPS then []
     else with_obj r a "animBPref" (fun abp => [MontageStop abp dzero]))
  else (g, []).

(** The path half of "Class /Path". *)
Definition path_half (name : bytes) : bytes :=
  match find_char name " " 0 with Some space_pos => drop (space_pos + 1) name | None => name end.

(** A ghost that plays another montage than its peer's is set right. *)
Definition montage_divergence (r : reflection) (v : asset_view) (a tick : Z) (w : wire) : list pose_call :=
  if negb MONTAGE_PROBES_SUPPRESS_ADAPTER_STOPS && (tick mod MONTAGE_DIVERGENCE_CHECK_INTERVAL_TICKS =? 0)%Z then
    with_obj r a "animBPref" (fun abp =>
      match active_montage v abp with
      | Some ghost_montage =>
          if bool_decide (ghost_montage = []) || bool_decide (ghost_montage = str "none")
             || bool_decide (path_half ghost_montage = target_montage w) then []
          else
            MontageStop abp dzero
            :: if bool_decide (target_montage w = []) then []
               else ResolveAsset "AnimMontage" (target_montage w)
                    :: match named_asset v "AnimMontage" (target_montage w) with
                       | Some want =>
                           if bool_decide (class_name v want = Some "AnimMontage"%string)
                           then [MontagePlay abp want] else []
                       | None => []
                       end
      | None => []
      end)
  else [].

(** The three, in the loop's order. *)
Definition mirror_montage (r : reflection) (v : asset_view) (a tick : Z) : RemoteGhost -> RemoteGhost * list pose_call :=
  fun g =>
    let started := montage_rise g in
    (montage_start r v a ;> montage_stop r a started
     ;> emit (fun g => montage_divergence r v a tick (wire_state g))) g.

(** * The meshes *)

(** A mesh not yet applied, outside the wait after a failure. *)
Definition mesh_due (tick : Z) (target synced failed : bytes) (attempt : Z) : bool :=
  negb (bool_decide (target = [])) && negb (bool_decide (target = synced))
  && negb (negb (bool_decide (failed = [])) && (u64 (tick - attempt) <? LOG_INTERVAL_TICKS)%Z).

Definition mirror_outfit (r : reflection) (v : asset_view) (a tick : Z) (g : RemoteGhost) : RemoteGhost * list pose_call :=
  let target := target_outfit_mesh (wire_state g) in
  let l := latches g in
  if mesh_due tick target (last_synced_outfit_mesh l) (last_failed_outfit_mesh l) (last_outfit_attempt_tick (pose g)) then
    let ask := ResolveAsset "SkeletalMesh" target in
    match resolve_checked v "SkeletalMesh" target with
    | Some mesh =>
        (upd_latch (fun l => l <| last_synced_outfit_mesh := target |> <| last_failed_outfit_mesh := [] |>) g,
         ask :: with_obj r a "VisualMesh" (fun visual =>
           SetMesh visual mesh
           :: (if has r visual "SkeletalMesh" then [WriteObject visual "SkeletalMesh" mesh] else [])
           ++ (if has r visual "SkinnedAsset" then [WriteObject visual "SkinnedAsset" mesh] else [])))
    | None =>
        (upd_pose (fun p => p <| last_outfit_attempt_tick := tick |>)
           (upd_latch (fun l => l <| last_failed_outfit_mesh := target |>) g), [ask])
    end
  else (g, []).

(** What the weapon's mesh does to one of the two components: whether it was deferred,
    and the call. *)
Definition swap_weapon_mesh (r : reflection) (v : asset_view) (asset : Z) (mesh : option Z) : bool * list pose_call :=
  match mesh with
  | None => (false, [])
  | Some mesh =>
      if unreachable v mesh then (false, [])
      else if negb (mg_read_bool r mesh "bVisible" false) || negb (mg_read_bool r mesh "bRegistered" true)
      then (true, [])
      else if bool_decide (obj r mesh "SkeletalMesh" = Some asset) then (false, [])
      else (false, [SetMesh mesh asset])
  end.

(** A mesh with a live skeleton. *)
Definition resolve_weapon_mesh (v : asset_view) (path : bytes) : option Z :=
  mesh ← resolve_checked v "SkeletalMesh" path;
  if live_skeleton v mesh then Some mesh else None.

Definition mirror_weapon_mesh (r : reflection) (v : asset_view) (a tick : Z) (g : RemoteGhost)
    : RemoteGhost * list pose_call :=
  let target := target_weapon_mesh (wire_state g) in
  let l := latches g in
  if mesh_due tick target (last_synced_weapon_mesh l) (last_failed_weapon_mesh l)
       (last_weapon_mesh_attempt_tick (pose g)) then
    let ask := ResolveAsset "SkeletalMesh" target in
    match resolve_weapon_mesh v target with
    | Some mesh =>
        let (hand_deferred, hand_calls) := swap_weapon_mesh r v mesh (obj r a "WeaponMesh") in
        let (fly_deferred, fly_calls) := swap_weapon_mesh r v mesh (weapon_fly_component (engine_objects g)) in
        let deferred := hand_deferred || fly_deferred in
        let changed := negb (bool_decide (hand_calls ++ fly_calls = [])) in
        (if negb deferred || changed
         then upd_latch (fun l => l <| last_synced_weapon_mesh := target |> <| last_failed_weapon_mesh := [] |>) g
         else g, ask :: hand_calls ++ fly_calls)
    | None =>
        (upd_pose (fun p => p <| last_weapon_mesh_attempt_tick := tick |>)
           (upd_latch (fun l => l <| last_failed_weapon_mesh := target |>) g), [ask])
    end
  else (g, []).
