(* ===== verification/GhostSweeps.v ===== *)
(** Plugin.cpp, the loop over the remotes: the sweeps over what a ghost owns.  The dev
    subtractions, the meshes' visibility, the outline held off, the light held off.

    A sweep finds components by class over the whole world and keeps those whose full
    name holds the ghost's, or it walks the ghost's own tree of attached components. *)
From S2P Require Import Prelude Float64 JsonString RemoteGhost VfxMirror PeerProps PoseMirror.
From Stdlib Require Import ZArith.

Record world_view := WorldView {
  all_of : string -> list Z;           (* FindAllOf, without its null entries *)
  full_name : Z -> bytes;              (* GetFullName *)
  own_name : Z -> bytes;               (* GetName *)
  property_objects : Z -> list Z;      (* the objects held by the class's object properties *)
  owned_by : Z -> Z -> bool            (* component_is_owned_by *)
}.

(** The components of a class that carry the ghost's name. *)
Definition ghosts_own (wv : world_view) (a : Z) (class : string) : list Z :=
  List.filter (fun c => contains (full_name wv c) (own_name wv a)) (all_of wv class).

(** * The dev subtractions *)

(** Every particle system of the ghost, while armed and for one pass after. *)
Definition fx_sweep (r : reflection) (wv : world_view) (t : dev_toggles) (a : Z) (s : loop_statics)
    : loop_statics * list pose_call :=
  let pending := fx_hidden t || fx_sweep_pending s in
  let want := negb (fx_hidden t) in
  (s <| fx_sweep_pending := if fx_hidden t then pending else false |>,
   if pending then
     omap (fun c => match raw_flag r c "bVisible" with
                    | Some visible => if Bool.eqb visible want then None else Some (Show c want true)
                    | None => None
                    end) (ghosts_own wv a "NiagaraComponent" ++ ghosts_own wv a "ParticleSystemComponent")
   else []).

(** One subtraction by class: hidden while armed; shown again by every ghost's pass of
    the tick on which it was disarmed, and let go on a later tick. *)
Definition subtract (r : reflection) (wv : world_view) (tick : Z) (class : string) (hidden : bool) (a : Z) (sw : sweep)
    : sweep * list pose_call :=
  if hidden then
    (Sweep true 0,
     omap (fun c => if mg_read_bool r c "bVisible" false then Some (Show c false true) else None)
       (ghosts_own wv a class))
  else if negb (sweep_pending sw) then (sw, [])
  else
    (if (restore_tick sw =? 0)%Z then sw <| restore_tick := tick |>
     else if (tick >? restore_tick sw)%Z then Sweep false 0
     else sw,
     omap (fun c => if mg_read_bool r c "bVisible" true then None else Some (Show c true true))
       (ghosts_own wv a class)).

Definition subtractions (r : reflection) (wv : world_view) (t : dev_toggles) (tick a : Z) (s : loop_statics)
    : loop_statics * list pose_call :=
  let (shadow, c1) := subtract r wv tick "StaticMeshComponent" (shadow_hidden t) a (shadow_sweep s) in
  let (nametag, c2) := subtract r wv tick "TextRenderComponent" (nametag_hidden t) a (nametag_sweep s) in
  (s <| shadow_sweep := shadow |> <| nametag_sweep := nametag |>, c1 ++ c2).

(** Each mesh of the ghost, as the toggles, the throw and the peer's weapon want it. *)
Definition mesh_wanted (t : dev_toggles) (g : RemoteGhost) (mesh_name : string) : bool :=
  let named n := bool_decide (mesh_name = n) in
  negb (mesh_hidden t) && negb (weapon_hidden t && named "WeaponMesh"%string)
  && negb (lightmesh_hidden t && named "LightMesh"%string)
  && negb (weapon_hand_hidden (latches g) && named "WeaponMesh"%string)
  && negb (negb (target_weapon_equipped (wire_state g)) && named "WeaponMesh"%string).

Definition show_meshes (r : reflection) (t : dev_toggles) (a : Z) (g : RemoteGhost) : list pose_call :=
  concat (map (fun mesh_name =>
    with_obj r a mesh_name (fun mesh =>
      match raw_flag r mesh "bVisible" with
      | Some visible => if Bool.eqb visible (mesh_wanted t g mesh_name) then []
                        else [Show mesh (mesh_wanted t g mesh_name) true]
      | None => []
      end)) ["VisualMesh"; "WeaponMesh"; "LightMesh"]%string).

Definition kill_vertex_light (r : reflection) (t : dev_toggles) (a : Z) : list pose_call :=
  if vertexlight_killed t then
    with_obj r a "PlayerLight" (fun cac => with_obj r cac "ChildActor" (fun child => [DestroyActor child]))
  else [].

(** * The tree of attached components *)

Definition OUTLINE_SWEEP_MAX_COMPONENTS : nat := 256.

(** What a component leads to: through its child actor, when asked, and its children. *)
Definition child_actor_root (r : reflection) (node : Z) : list Z :=
  with_obj r node "ChildActor" (fun child => with_obj r child "RootComponent" (fun root => [root])).
Definition attach_children (r : reflection) (node : Z) : list Z :=
  omap id (default [] (objs r node "AttachChildren")).

(** Breadth first, up to the bound: the child actor's root is pushed unchecked, the
    children only while there is room. *)
Definition walk_visit (r : reflection) (through_actors : bool) (node : Z) (owned : list Z) : list Z :=
  let owned := owned ++ (if through_actors then child_actor_root r node else []) in
  owned ++ take (OUTLINE_SWEEP_MAX_COMPONENTS - length owned) (attach_children r node).

Definition attach_body (r : reflection) (through_actors : bool) (st : list Z * nat) : (list Z * nat) + list Z :=
  let (owned, i) := st in
  match owned !! i with
  | Some node => if length owned <? OUTLINE_SWEEP_MAX_COMPONENTS
                 then inl (walk_visit r through_actors node owned, S i) else inr owned
  | None => inr owned
  end.

Definition attach_measure (st : list Z * nat) : nat := OUTLINE_SWEEP_MAX_COMPONENTS - st.2.

#[export] Instance attach_decreasing r through : Decreasing attach_measure (attach_body r through).
Proof.
  intros [owned i] s' E. unfold attach_body in E. destruct (owned !! i) eqn:El; [|done]. nat_case; [|done].
  simplify_eq. apply lookup_lt_Some in El. unfold attach_measure. cbn [snd]. lia.
Qed.

Definition attach_walk (r : reflection) (through_actors : bool) (a : Z) : list Z :=
  with_obj r a "RootComponent" (fun root =>
    loop attach_measure (attach_body r through_actors) [] ([root], 0)).

(** * The outline *)

Definition OUTLINE_SWEEP_INTERVAL_TICKS : Z := 5.

(** The custom depth of a component that has it on, off. *)
Definition depth_off (r : reflection) (c : Z) : list pose_call :=
  match raw_flag r c "bRenderCustomDepth" with Some true => [SetCustomDepth c false] | _ => [] end.

Definition hold_outline_off (r : reflection) (wv : world_view) (tick a : Z) (weapon : option Z) : list pose_call :=
  concat (map (fun owner =>
      concat (map (fun c => if owned_by wv c owner then depth_off r c else []) (property_objects wv owner)))
    (a :: match weapon with Some w => [w] | None => [] end))
  ++ (if (tick mod OUTLINE_SWEEP_INTERVAL_TICKS =? 0)%Z
      then concat (map (depth_off r) (attach_walk r false a)) else []).

Definition sweep_outline (r : reflection) (wv : world_view) (t : dev_toggles) (tick a : Z) (weapon : option Z)
    : list pose_call :=
  if keeps_custom_depth t then
    concat (map (fun mesh_name => with_obj r a mesh_name (fun mesh =>
      match raw_flag r mesh "bRenderCustomDepth" with
      | Some false => [SetCustomDepth mesh true]
      | _ => []
      end)) ["VisualMesh"; "WeaponMesh"]%string)
  else hold_outline_off r wv tick a weapon.

(** * The light *)

Definition LIGHT_SWEEP_INTERVAL_TICKS : Z := 30.
Definition LIGHT_HOPS : nat := 8.

Definition light_target (t : dev_toggles) : double := if light_forced_on t then of_Z 5000 else dzero.

(** A light not at its target. *)
Definition is_lit (r : reflection) (target : double) (c : Z) : bool :=
  match num r c "Intensity" with Some held => dne held target | None => false end.
Definition dim (r : reflection) (target : double) (c : Z) : list pose_call :=
  if is_lit r target c then [SetLightIntensity c target] else [].

Definition hold_light (r : reflection) (t : dev_toggles) (a : Z) : list pose_call :=
  concat (map (dim r (light_target t)) (attach_walk r true a)).

(** Up the chain of attachments: whether one of the next [hops] carries the name. *)
Fixpoint owner_named (r : reflection) (wv : world_view) (name : bytes) (hops : nat) (node : Z) : bool :=
  match hops with
  | 0 => false
  | S hops => match obj r node "AttachParent" with
              | Some parent => contains (full_name wv parent) name || owner_named r wv name hops parent
              | None => false
              end
  end.

Definition light_is_ours (r : reflection) (wv : world_view) (a light : Z) : bool :=
  contains (full_name wv light) (own_name wv a) || owner_named r wv (own_name wv a) LIGHT_HOPS light.

(** The lit lights of the world, listed by the first ghost of the tick for all. *)
Definition list_lit (r : reflection) (wv : world_view) (target : double) (tick : Z) (s : loop_statics) : loop_statics :=
  if (lit_lights_tick s =? tick)%Z then s
  else s <| lit_lights_tick := tick |>
         <| lit_lights := List.filter (is_lit r target) (all_of wv "PointLightComponent" ++ all_of wv "SpotLightComponent") |>.

Definition sweep_lights (r : reflection) (wv : world_view) (t : dev_toggles) (tick a : Z) (s : loop_statics)
    : loop_statics * list pose_call :=
  if (tick mod LIGHT_SWEEP_INTERVAL_TICKS =? 0)%Z then
    let s := list_lit r wv (light_target t) tick s in
    (s, concat (map (fun c => if light_is_ours r wv a c then dim r (light_target t) c else []) (lit_lights s)))
  else (s, []).

(** * The sweeps of one ghost, in the loop's order *)

Definition sweep_owned (rd : nat -> reflection) (wv : world_view) (t : dev_toggles) (tick a : Z) (g : RemoteGhost)
    : loop_statics -> loop_statics * list pose_call :=
  fx_sweep (rd 0) wv t a ;> subtractions (rd 1) wv t tick a
  ;> emit (fun _ => show_meshes (rd 2) t a g ++ kill_vertex_light (rd 3) t a)
  ;> emit (fun _ => sweep_outline (rd 4) wv t tick a (weapon_actor (engine_objects g))).

Definition sweep_lit (rd : nat -> reflection) (wv : world_view) (t : dev_toggles) (tick a : Z)
    : loop_statics -> loop_statics * list pose_call :=
  emit (fun _ => hold_light (rd 5) t a) ;> sweep_lights (rd 6) wv t tick a.

Definition tick_sweeps (rd : nat -> reflection) (wv : world_view) (t : dev_toggles) (tick a : Z) (g : RemoteGhost)
    : loop_statics -> loop_statics * list pose_call :=
  sweep_owned rd wv t tick a g ;> sweep_lit rd wv t tick a.
