(* ===== verification/Chaser.v ===== *)
(** Plugin.cpp, the loop over the remotes: the hurt reaction of a ghost, and the contact
    of a chaser, a ghost that hunts the local player. *)
From S2P Require Import Prelude Float64 JsonString RemoteGhost Lifecycle VfxMirror PeerProps PoseMirror.
From Stdlib Require Import ZArith.

Definition MIRROR_HURT_REACTION : bool := true.
Definition CHASER_HURT_DAMAGE : double := of_Z 5.

(** [id.rfind("chaser:", 0) == 0] *)
Definition is_chaser (id : bytes) : bool := starts_with (str "chaser:") id.

(** * The hurt reaction *)

(** The player's health around the reaction, and whether the reaction could be called. *)
Record hurt_env := HurtEnv {
  hp_before : option double;   (* read_shared_current_hp *)
  response_called : bool;      (* what call_perform_damage_response returns *)
  hp_after : option double
}.

(** The call moved the player's health: the mirror disarms for the session. *)
Definition trips (env : hurt_env) : bool :=
  match response_called env, hp_before env, hp_after env with
  | true, Some before, Some after => dne after before
  | _, _, _ => false
  end.

Definition hurt_reaction (env : hurt_env) (id : bytes) (a : Z) (st : loop_statics * RemoteGhost)
    : (loop_statics * RemoteGhost) * list pose_call :=
  let (s, g) := st in
  let count := target_hurt_count (wire_state g) in
  if MIRROR_HURT_REACTION && negb (hurt_mirror_disarmed s) && (count >? last_seen_hurt_count (counters_seen g))%Z then
    let g := g <| counters_seen := counters_seen g <| last_seen_hurt_count := count |> |> in
    if is_chaser id then ((s, g), [])
    else ((s <| hurt_mirror_disarmed := trips env |>, g), [DamageResponse a 0])
  else (st, []).

(** * Contact *)

(** An actor's capsule and location. *)
Record capsule := Capsule { radius : double; half_height : double; centre : vec3 }.

(** [read_capsule] *)
Definition read_capsule (r : reflection) (location : Z -> vec3) (actor : Z) : option capsule :=
  cap ← obj r actor "CapsuleComponent";
  rad ← num r cap "CapsuleRadius";
  half ← num r cap "CapsuleHalfHeight";
  Some (Capsule rad half (location actor)).

Definition dabs (a : double) : double := match a with DFin _ m => DFin false m | DInf _ => DInf false | DNaN => DNaN end.

Definition capsules_overlap (p g : capsule) : bool :=
  let '(px, py, pz) := centre p in
  let '(gx, gy, gz) := centre g in
  let dx := (px - gx)%double in
  let dy := (py - gy)%double in
  let horiz_limit := (radius p + radius g)%double in
  if (dx * dx + dy * dy >? horiz_limit * horiz_limit)%double then false
  else (dabs (pz - gz) <=? half_height p + half_height g)%double.

Definition chaser_capsules_overlap (r : reflection) (location : Z -> vec3) (player : option Z) (ghost : Z) : bool :=
  match player ≫= read_capsule r location, read_capsule r location ghost with
  | Some p, Some g => capsules_overlap p g
  | _, _ => false
  end.

Record contact_env := ContactEnv {
  seen_by : reflection;
  location_of : Z -> vec3;     (* K2_GetActorLocation *)
  player_frozen_sent : bool
}.

(** The flat unit vector from the chaser to the player, or X when they are on one spot. *)
Definition push_direction (player_loc chaser_loc : vec3) : vec3 :=
  let '(px, py, _) := player_loc in
  let '(cx, cy, _) := chaser_loc in
  let dx := (px - cx)%double in
  let dy := (py - cy)%double in
  let len := dsqrt (dx * dx + dy * dy)%double in
  if (len >? lit 1 1000)%double then ((dx / len)%double, (dy / len)%double, dzero) else (of_Z 1, dzero, dzero).

(** The touch, when the player can be hurt: an enemy's damage, or all it has left. *)
Definition contact_damage (env : contact_env) (mode : bytes) (player a : Z) : list pose_call :=
  let r := seen_by env in
  with_obj r player "BP_HpHitable" (fun hitable =>
    match num r hitable "CurrentHp" with
    | Some hp =>
        if (hp >? dzero)%double && negb (mg_read_bool r hitable "intangible?" true) then
          let damage := if bool_decide (mode = str "kill") then hp else CHASER_HURT_DAMAGE in
          let player_loc := location_of env player in
          [TryDamage hitable a damage (push_direction player_loc (location_of env a)) player_loc]
        else []
    | None => []
    end).

Definition chaser_contact (env : contact_env) (player : option Z) (mode id : bytes) (a : Z) (g : RemoteGhost)
    : RemoteGhost * list pose_call :=
  if is_chaser id && negb (bool_decide (mode = [])) then
    let overlapping := negb (player_frozen_sent env)
                       && chaser_capsules_overlap (seen_by env) (location_of env) player a in
    (upd_pose (fun p => p <| chaser_contact_overlapping := overlapping |>) g,
     match player with
     | Some player => if overlapping && (bool_decide (mode = str "hurt") || bool_decide (mode = str "kill"))
                      then contact_damage env mode player a else []
     | None => []
     end)
  else (g, []).
