(* ===== verification/InputDisplay.v ===== *)
(** Plugin.cpp, the on-screen input history: the edges of a replay ghost that are due
    ([game_thread_tick]), the rows of a panel and its text ([input_display_observe]).

    A panel is per source.  Its widget is an argument: when it is gone the rows are kept
    and no text is set.  Text is a list of 16-bit units. *)
From S2P Require Import Prelude Float64 JsonString RemoteGhost.
From Stdlib Require Import ZArith.

(** * The edges that are due *)

(** The axes an edge carries overwrite the first ones held. *)
Definition write_axes (e : GhostInputEdge) (held : list double) : list double :=
  let n := length (e_ax e) `min` 8 in take n (e_ax e) ++ drop n held.

Definition apply_edge (e : GhostInputEdge) (track : GhostInputTrack) : GhostInputTrack :=
  track <| mask := e_m e |> <| ax := write_axes e (ax track) |>
        <| ax_n := Z.max (ax_n track) (Z.of_nat (length (e_ax e))) |> <| have_state := true |>.

(** From the front, while the newest rendered state has reached the edge. *)
Fixpoint apply_from (target_ts : double) (es : list GhostInputEdge) (track : GhostInputTrack) : GhostInputTrack :=
  match es with
  | e :: rest => if (e_at e <=? target_ts)%double then apply_from target_ts rest (apply_edge e track)
                 else track <| edges := es |>
  | [] => track <| edges := [] |>
  end.

Definition apply_due (target_ts : double) (track : GhostInputTrack) : GhostInputTrack :=
  apply_from target_ts (edges track) track.

(** * The configuration *)

Record display := Display {
  g_disp_rows : Z;
  g_disp_unit : bytes;       (* cs, ms and frames, comma-joined, in display order *)
  g_disp_count_left : bool;
  g_disp_fps_note : bool;
  g_disp_ghost : bool
}.

(** A letter as [std::tolower] leaves it in the C locale. *)
Definition lower (c : ascii) : ascii := if in_range "A" "Z" c then ascii_of_N (N_of_ascii c + 32) else c.

Definition known_unit (token : bytes) : bool :=
  bool_decide (token = str "cs") || bool_decide (token = str "ms") || bool_decide (token = str "frames").

(** The end of a token of the setting: a known one not yet taken is appended. *)
Definition flush (token cleaned : bytes) : bytes :=
  if known_unit token then
    match find_str token cleaned with
    | Some _ => cleaned
    | None => cleaned ++ (if bool_decide (cleaned = []) then [] else [","%char]) ++ token
    end
  else cleaned.

Definition is_separator (c : ascii) : bool :=
  Ascii.eqb c "," || Ascii.eqb c " " || Ascii.eqb c "+" || Ascii.eqb c "/".

Fixpoint clean_from (unit token cleaned : bytes) : bytes :=
  match unit with
  | [] => flush token cleaned
  | c :: rest => if is_separator c then clean_from rest [] (flush token cleaned)
                 else clean_from rest (token ++ [lower c]) cleaned
  end.

(** The setting [unit] as it is kept. *)
Definition clean_unit (unit : bytes) : bytes :=
  let cleaned := clean_from unit [] [] in if bool_decide (cleaned = []) then str "cs" else cleaned.

(** * The rows *)

Definition STICK : double := lit 35 100.

(** Bits 1 up, 2 down, 4 left, 8 right. *)
Definition direction (move_x move_y : double) : Z :=
  let bit (b : bool) (v : Z) := if b then v else 0%Z in
  Z.lor (Z.lor (Z.lor (bit (move_y >? STICK)%double 1%Z) (bit (move_y <? dneg STICK)%double 2%Z))
     (bit (move_x <? dneg STICK)%double 4%Z)) (bit (move_x >? STICK)%double 8%Z).

(** The newest row grows while the state holds; another state starts a row. *)
Definition observe_rows (max_rows now mask dir : Z) (rows : list InputHistoryRow) : list InputHistoryRow :=
  match rows with
  | r :: rest =>
      if (row_mask r =? mask)%Z && (row_dir r =? dir)%Z
      then r <| row_frames := u64 (row_frames r + 1) |> <| row_last_ms := now |> :: rest
      else take (Z.to_nat (Z.max max_rows 1)) (MkRow mask dir 1 now now :: rows)
  | [] => take (Z.to_nat (Z.max max_rows 1)) [MkRow mask dir 1 now now]
  end.

(** * The text *)

Abbreviation wide := (list Z).
Definition wide_str (s : string) : wide := map (fun c => Z.of_N (N_of_ascii c)) (str s).
Definition wide_number (n : Z) : wide := wide_str (pretty n).

(** ["%4llu"] and ["%5llu"]: padded with spaces on the left. *)
Definition pad_left (width : nat) (w : wide) : wide := replicate (width - length w) 32%Z ++ w.

(** The fields of the setting between its commas, the empty ones left out. *)
Fixpoint split_units (field s : bytes) : list bytes :=
  let out := if bool_decide (field = []) then [] else [field] in
  match s with
  | [] => out
  | c :: rest => if Ascii.eqb c "," then out ++ split_units [] rest else split_units (field ++ [c]) rest
  end.

Definition unit_cap (unit : bytes) : Z := if bool_decide (unit = str "ms") then 9999 else 999.
Definition unit_width (unit : bytes) : nat := if bool_decide (unit = str "ms") then 5 else 4.

(** How long a row was held, in a unit. *)
Definition unit_count (unit : bytes) (r : InputHistoryRow) : Z :=
  let held_ms := (row_last_ms r - row_start_ms r)%Z in
  if bool_decide (unit = str "cs") then u64 (Z.quot held_ms 10)
  else if bool_decide (unit = str "ms") then u64 held_ms
  else row_frames r.

Definition one_count (unit : bytes) (r : InputHistoryRow) : wide :=
  pad_left (unit_width unit) (wide_number (Z.min (unit_count unit r) (unit_cap unit))).

(** Joined by spaces. *)
Fixpoint join_counts (parts : list wide) : wide :=
  match parts with
  | [] => []
  | [w] => w
  | w :: rest => w ++ 32%Z :: join_counts rest
  end.

Definition row_head (unit : bytes) (count_left : bool) (r : InputHistoryRow) : wide :=
  let head := join_counts (map (fun u => one_count u r) (split_units [] unit)) in
  if count_left then head ++ wide_str "  " else wide_str "  " ++ head.

Definition INPUT_HISTORY_TOKENS : string := "JACWTGILPMV".

(** One glyph per direction, none for opposites. *)
Definition ARROWS : list wide :=
  map (map Z.of_N)
    [[]; [8593]; [8595]; []; [8592]; [8598]; [8601]; []; [8594]; [8599]; [8600]; []; []; []; []; []]%N.

Definition row_inputs (r : InputHistoryRow) : wide :=
  (if (row_dir r =? 0)%Z && (row_mask r =? 0)%Z then [183%Z] else [])
  ++ (match (if (0 <=? row_dir r)%Z then ARROWS !! Z.to_nat (row_dir r) else None) with
      | Some (glyph :: _) => [glyph; 32%Z]
      | _ => []
      end)
  ++ concat (imap (fun b c => if Z.testbit (row_mask r) (Z.of_nat b) then [c; 32%Z] else [])
       (wide_str INPUT_HISTORY_TOKENS)).

Definition row_text (cfg : display) (r : InputHistoryRow) : wide :=
  let head := row_head (g_disp_unit cfg) (g_disp_count_left cfg) r in
  (if g_disp_count_left cfg then head ++ row_inputs r else row_inputs r ++ head) ++ [10%Z].

Definition show_frames (cfg : display) : bool :=
  match find_str (str "frames") (g_disp_unit cfg) with Some _ => true | None => false end.

(** The text of a panel, without its last line's end. *)
Definition panel_text (cfg : display) (fps : Z) (rows : list InputHistoryRow) : wide :=
  let out := (if show_frames cfg && g_disp_fps_note cfg then wide_str "@ " ++ wide_number fps ++ wide_str " fps" ++ [10%Z]
              else []) ++ concat (map (row_text cfg) rows) in
  take (length out - 1) out.

(** * One observation *)

(** Frames of the engine per second of wall clock, counted on the player's panel. *)
Record fps_state := Fps { g_disp_fps_frames : Z; g_disp_fps_since_ms : Z; g_disp_fps : Z }.

(** [static_cast<int>] of a wider integer. *)
Definition as_int (z : Z) : Z := ((z + 2 ^ 31) mod 2 ^ 32 - 2 ^ 31)%Z.

(** The counters after a frame, and whether the second is over. *)
Definition count_frame (now : Z) (f : fps_state) : fps_state * bool :=
  let frames := u64 (g_disp_fps_frames f + 1) in
  if (g_disp_fps_since_ms f =? 0)%Z then (Fps frames now (g_disp_fps f), false)
  else if (now - g_disp_fps_since_ms f >=? 1000)%Z
  then (Fps 0 now (as_int (u64 (frames * 1000) / u64 (now - g_disp_fps_since_ms f))), true)
  else (Fps frames (g_disp_fps_since_ms f) (g_disp_fps f), false).

(** The rows, then the text when there is a widget: at once for a new row, every fourth
    frame while the top row only grows.  The text set, if it changed. *)
Definition observe_panel (cfg : display) (fps now : Z) (text : option Z) (mask dir : Z) (p : InputPanel)
    : InputPanel * option wide :=
  let p := p <| rows := observe_rows (g_disp_rows cfg) now mask dir (rows p) |> in
  match text, rows p with
  | Some _, top :: _ =>
      if (row_frames top >? 1)%Z && negb (row_frames top mod 4 =? 0)%Z then (p, None)
      else
        let out := panel_text cfg fps (rows p) in
        if bool_decide (out = last_text p) then (p, None) else (p <| last_text := out |>, Some out)
  | _, _ => (p, None)
  end.

(** On the player's panel, which also counts the frames. *)
Definition observe_player (cfg : display) (now : Z) (text : option Z) (mask : Z) (move_x move_y : double)
    (st : fps_state * InputPanel * InputPanel) : fps_state * InputPanel * InputPanel * option wide :=
  let '(f, player, ghost) := st in
  let (f, second) := count_frame now f in
  let redraw (p : InputPanel) := if second && show_frames cfg then p <| last_text := [] |> else p in
  let (player, out) := observe_panel cfg (g_disp_fps f) now text mask (direction move_x move_y) (redraw player) in
  (f, player, redraw ghost, out).

(** * The ghost's panel, in the tick of its ghost *)

Record display_env := DisplayEnv { config : display; fps_shown : Z; ghost_text : option Z; display_now : Z }.

(** The axis at an index of [ax[8]]. *)
Definition axis (i : nat) (track : GhostInputTrack) : double := default dzero (ax track !! i).

Definition tick_ghost_inputs (env : display_env) (id : bytes) (target_ts : double) (p : plugin) : plugin * option wide :=
  match ghost_inputs p !! id with
  | None => (p, None)
  | Some track =>
      let track := apply_due target_ts track in
      let p := p <| ghost_inputs := <[id := track]> (ghost_inputs p) |>
                 <| g_disp_ghost_id := if bool_decide (g_disp_ghost_id p = []) then id else g_disp_ghost_id p |> in
      if bool_decide (g_disp_ghost_id p = id) && have_state track && g_disp_ghost (config env) then
        let (panel, out) := observe_panel (config env) (fps_shown env) (display_now env) (ghost_text env) (mask track)
                              (direction (axis 0 track) (axis 1 track)) (g_disp_ghost_panel p) in
        (p <| g_disp_ghost_panel := panel |>, out)
      else (p, None)
  end.
