(* ===== verification/PoseFacts.v ===== *)
(** The lemmas under the invariants of the pose: what the blocks of a turn keep of an
    entry, and the bounds of what they write. *)
From S2P Require Import Prelude Float64 FloatFacts JsonString JsonBounds RemoteGhost BridgeLine BridgeLineFacts.
From S2P Require Import VfxMirror PeerProps PoseMirror MontageMirror GhostSweeps Chaser InputDisplay.
From Stdlib Require Import ZArith.

(** * The latches *)

Record pose_ok (p : pose_latch) : Prop := PoseOk {
  adjust_ok : isfinite (crouch_half_height_adjust p) = true;
  landed_ok : (0 <= landed_hold_ticks p <= PULSE_HOLD_TICKS)%Z;
  jumped_ok : (0 <= jumped_hold_ticks p <= PULSE_HOLD_TICKS)%Z;
  shadow_ok : (-1 <= last_applied_shadow_visible p <= 1)%Z;
  wallrun_ok : (0 <= last_wallrun_move_state p <= 255)%Z
}.

Lemma pose_latch0_ok : pose_ok pose_latch0.
Proof. unfold pose_latch0, PULSE_HOLD_TICKS. split; cbn; done || lia. Qed.

(** What a block of the pose leaves alone, and the bounds it keeps. *)
Record pose_kept (g g' : RemoteGhost) : Prop := PoseKept {
  p_wire : wire_state g' = wire_state g;
  p_objects : engine_objects g' = engine_objects g;
  p_segment : weapon_segment g' = weapon_segment g;
  p_primed : weapon_render_primed (latches g') = weapon_render_primed (latches g);
  p_shown : recall_glow_shown (latches g') = recall_glow_shown (latches g);
  p_ok : pose_ok (pose g) -> pose_ok (pose g');
  p_drive : drive g' = drive g
}.

#[export] Instance pose_kept_preorder : PreOrder pose_kept.
Proof. split; [by split|]. intros ? ? ? [] []. split; try congruence. auto. Qed.

(** Closes [pose_kept] for an update of latches and counters. *)
Ltac pose_fields := let g := fresh in let l := fresh in let p := fresh in
  match goal with |- pose_kept ?x _ => destruct x as [? ? ? l ? ? ? p] end; destruct l, p;
  split; try done; intros []; split; cbn in *; try done.

Lemma clamp_uint8_range v : (0 <= clamp_to_uint8 v <= 255)%Z.
Proof. apply clamp_to_uint8_bounds. Qed.

Lemma between_finite lo x hi :
  isfinite lo = true -> isfinite hi = true -> dle lo x = true -> dle x hi = true -> isfinite x = true.
Proof. destruct lo as [| |n m], hi as [| |n' m'], x as [|[]|? ?]; unfold dle; cbn; done. Qed.

Lemma of_Z_finite z : (Z.abs z <= 2 ^ 53)%Z -> isfinite (of_Z z) = true.
Proof. intros Hz. by destruct (of_Z_int z Hz) as (? & ? & -> & _). Qed.

(** Between two integers a double is finite. *)
Lemma between_ints a x b :
  (Z.abs a <= 2 ^ 53)%Z -> (Z.abs b <= 2 ^ 53)%Z -> dle (of_Z a) x = true -> dle x (of_Z b) = true -> isfinite x = true.
Proof. intros Ha Hb. apply between_finite; by apply of_Z_finite. Qed.

Lemma clamp_to_float_finite value lo hi :
  wf_float lo = true -> wf_float hi = true -> dle lo hi = true -> isfinite lo = true -> isfinite hi = true ->
  isfinite (clamp_to_float value lo hi) = true.
Proof. intros Wl Wh Hle Fl Fh. destruct (clamp_to_float_between value lo hi Wl Wh Hle) as (_ & H1 & H2). exact (between_finite lo _ hi Fl Fh H1 H2). Qed.

(** * What is written on a pawn *)

(** The two numbers written without a bound: the mesh's offset, whatever the peer's
    capsule, and the shadow's arm, the player's own. *)
Definition unbounded (prop : string) : bool :=
  bool_decide (prop = "BaseTranslationOffset"%string) || bool_decide (prop = "TargetArmLength"%string).

(** Places, colours and numbers are finite, and an integer fits the byte it goes to. *)
Definition within (c : pose_call) : Prop :=
  match c with
  | Teleport _ loc rot => finite3 loc = true /\ finite3 rot = true
  | WriteColor _ _ rgb => finite3 rgb = true
  | CallTwoFloats _ _ x y => isfinite x = true /\ isfinite y = true
  | WriteNumber _ prop v => unbounded prop = true \/ isfinite v = true
  | WriteInt _ _ v => (0 <= v <= 255)%Z
  | SetLightIntensity _ v | MontageStop _ v => isfinite v = true
  | _ => True
  end.

Lemma within_nil : Forall within []. Proof. constructor. Qed.
Lemma within_cons c cs : within c -> Forall within cs -> Forall within (c :: cs). Proof. by constructor. Qed.
Lemma within_one c : within c -> Forall within [c].
Proof. intros. by apply within_cons, within_nil. Qed.
Lemma within_with_obj r o prop f : (forall c, Forall within (f c)) -> Forall within (with_obj r o prop f).
Proof. intros H. unfold with_obj. by destruct (obj r o prop). Qed.
Lemma within_settle r o prop v : unbounded prop = true \/ isfinite v = true -> Forall within (settle r o prop v).
Proof. intros H. unfold settle. destruct (num r o prop); [|constructor]. destruct (dne _ _); [by apply within_one|constructor]. Qed.
Lemma within_int r o prop v : (0 <= v <= 255)%Z -> Forall within (write_int r o prop v).
Proof. intros. unfold write_int. destruct (has r o prop); [by apply within_one|constructor]. Qed.
Lemma within_number r o prop v : unbounded prop = true \/ isfinite v = true -> Forall within (write_number r o prop v).
Proof. intros. unfold write_number. destruct (has r o prop); [by apply within_one|constructor]. Qed.
Lemma within_bool r o prop b : Forall within (write_bool r o prop b).
Proof. unfold write_bool. destruct (has r o prop); [by apply within_one|constructor]. Qed.
Lemma within_app a b : Forall within a -> Forall within b -> Forall within (a ++ b).
Proof. intros. by apply Forall_app. Qed.
Lemma within_concat css : Forall (Forall within) css -> Forall within (concat css).
Proof. induction 1; [constructor|]. by apply within_app. Qed.
Lemma within_map {A} (f : A -> list pose_call) l : (forall x, Forall within (f x)) -> Forall within (concat (map f l)).
Proof. intros H. apply within_concat. induction l; constructor; auto. Qed.
Lemma within_omap {A} (f : A -> option pose_call) l : (forall x c, f x = Some c -> within c) -> Forall within (omap f l).
Proof. intros H. apply list.Forall_forall. intros c Hc. apply list_elem_of_omap in Hc as (x & _ & Hx). by eapply H. Qed.

Create HintDb within.
#[export] Hint Resolve within_with_obj within_settle within_int within_number within_bool within_app within_nil
  within_cons within_map clamp_uint8_range : within.
#[export] Hint Extern 1 (within _) => exact I : within.
#[export] Hint Extern 1 (within (MontageStop _ dzero)) => exact eq_refl : within.
#[export] Hint Extern 2 (Forall within (if ?b then _ else _)) => destruct b : within.
#[export] Hint Extern 2 (Forall within (match ?o with Some _ => _ | None => _ end)) => destruct o : within.

(** * A block of the pose *)

(** It leaves the rest of the entry alone, and what it asks for is within bounds. *)
Definition tame (f : RemoteGhost -> RemoteGhost * list pose_call) : Prop :=
  forall g, pose_kept g (f g).1 /\ (wire_ok (wire_state g) -> pose_ok (pose g) -> Forall within (f g).2).

Lemma tame_then f h : tame f -> tame h -> tame (f ;> h).
Proof.
  intros Hf Hh g. destruct (Hf g) as [K1 W1]. destruct (Hh (f g).1) as [K2 W2].
  split; [rewrite and_then_fst; by etrans|]. intros Hw Hp. rewrite and_then_snd.
  apply within_app; [auto|]. apply W2; [by rewrite (p_wire _ _ K1)|by apply K1].
Qed.
Lemma tame_emit f : (forall g, wire_ok (wire_state g) -> Forall within (f g)) -> tame (emit f).
Proof. intros H g. split; [reflexivity|]. intros Hw _. by apply H. Qed.
(** A block that changed nothing, and one that updated latches and made calls. *)
Ltac tame_idle := split; [reflexivity|constructor].
Ltac tame_done := split; [cbn [fst]; pose_fields|intros ? ?; cbn [snd]; auto 10 with within].
Create HintDb tame.
#[export] Hint Resolve tame_then : tame.

(** ** Capsule and crouch *)

Lemma crouch_input_tame a : tame (crouch_input a).
Proof.
  intros g. unfold crouch_input. cbv zeta. destruct (Bool.eqb _ _); [tame_idle|].
  tame_done.
Qed.

Lemma crouch_event_tame a : tame (crouch_event a).
Proof.
  intros g. unfold crouch_event. cbv zeta. destruct (Bool.eqb _ _); [tame_idle|].
  set (adjust := if peer_shrunk _ then _ else _).
  assert (pose_ok (pose g) -> isfinite adjust = true) as Ha.
  { intros []. unfold adjust. destruct (peer_shrunk _); [|done]. apply clamp_to_float_finite; by vm_compute. }
  clearbody adjust. split; cbn [fst snd].
  - pose_fields. apply Ha. by split.
  - intros _ Hp. specialize (Ha Hp). by apply within_one.
Qed.

Lemma capsule_within r a w : Forall within (mirror_capsule r a w).
Proof.
  unfold mirror_capsule. destruct (_ >? _)%double; [|constructor]. apply within_with_obj. intros c. apply within_settle.
  right. apply clamp_to_float_finite; by vm_compute.
Qed.
Lemma timeline_within r a w : Forall within (drive_slide_timeline r a w).
Proof.
  unfold drive_slide_timeline. destruct (num _ _ _); [|constructor]. apply within_app; [|auto with within].
  apply within_settle. right. apply clamp_to_float_finite; by vm_compute.
Qed.
Lemma offset_within r a w : Forall within (mirror_base_offset r a w).
Proof. unfold mirror_base_offset. destruct (_ >? _)%double; [|constructor]. apply within_settle. by left. Qed.
Lemma crouched_within r a w : Forall within (mirror_is_crouched r a w).
Proof. unfold mirror_is_crouched, mg_write_bool. auto with within. Qed.
Lemma prehit_within r a p : Forall within (prehit_player r a p).
Proof. unfold prehit_player. auto with within. Qed.
Lemma shadow_arm_within r a p : Forall within (drive_blob_shadow r a p).
Proof.
  unfold drive_blob_shadow. apply within_cons; [done|]. destruct (_ ≫= _); [|constructor].
  destruct (obj r a _); [|constructor]. apply within_number. by left.
Qed.
#[export] Hint Resolve capsule_within timeline_within offset_within crouched_within prehit_within shadow_arm_within : within.
#[export] Hint Resolve crouch_input_tame crouch_event_tame : tame.

(** ** Animation *)

Lemma bubble_tame a : tame (bubble_flash a).
Proof.
  intros g. unfold bubble_flash. cbv zeta. destruct (Bool.eqb _ _); [tame_idle|].
  tame_done.
Qed.

Lemma animation_within r a w : wire_ok w -> Forall within (write_animation_state r a w).
Proof.
  intros Hw. unfold write_animation_state.
  assert (forall v, speed_ok v -> isfinite v = true) as Hs.
  { intros v [H1 H2]. by apply (between_ints (-1000000) v 1000000). }
  pose proof (Hs _ (hs_ok _ Hw)). pose proof (Hs _ (vs_ok _ Hw)). auto 10 with within.
Qed.

Lemma equip_tame r t a : tame (equip_edge r t a).
Proof.
  intros g. unfold equip_edge. cbv zeta. destruct (_ && _); [tame_idle|]. tame_done.
Qed.
Lemma weapon_mesh_within r t a g : Forall within (show_weapon_mesh r t a g).
Proof. unfold show_weapon_mesh. auto with within. Qed.

Lemma shadow_tame r a : tame (shadow_edge r a).
Proof.
  intros g. unfold shadow_edge. cbv zeta. destruct (_ =? _)%Z; [tame_idle|]. destruct (obj r a _); [|tame_idle].
  tame_done. destruct (target_shadow_visible _); lia.
Qed.

Lemma equipped_within r a w : Forall within (write_equipped r a w).
Proof. unfold write_equipped. auto with within. Qed.

Lemma hold_window_bounds edge n :
  (0 <= n <= PULSE_HOLD_TICKS)%Z -> (0 <= (hold_window edge n).2 <= PULSE_HOLD_TICKS)%Z.
Proof. unfold hold_window, PULSE_HOLD_TICKS. destruct edge; cbn; [lia|]. destruct (_ >? _)%Z eqn:E; cbn; lia. Qed.

Lemma pulses_tame r a : tame (tick_pulses r a).
Proof.
  intros g. unfold tick_pulses. cbv zeta.
  pose proof (hold_window_bounds (land_rise g) (landed_hold_ticks (pose g))) as H1.
  pose proof (hold_window_bounds (jump_rise g) (jumped_hold_ticks (pose g))) as H2.
  destruct (hold_window (land_rise g) _) as [wl ll], (hold_window (jump_rise g) _) as [wj lj]. cbn [snd] in *.
  split; cbn [fst snd]; [|intros; auto 10 with within]. generalize (land_rise g) (jump_rise g). intros b1 b2.
  destruct g as [? ? ? l ? ? ? p], p. split; try done. intros []. cbn in *. split; cbn; auto.
Qed.

Lemma pulse_stop_within r a edge : Forall within (pulse_stop r a edge).
Proof. unfold pulse_stop. auto with within. Qed.

Lemma spawn_count_range n : (1 <= spawn_count n <= MAX_PEER_AFTERIMAGE_SPAWN)%Z.
Proof.
  unfold spawn_count, MAX_PEER_AFTERIMAGE_SPAWN.
  destruct (isfinite n && (of_Z 1 <=? n)%double && (n <=? of_Z 64)%double) eqn:E; [|lia].
  apply andb_true_iff in E as [[Hf H1]%andb_true_iff H2].
  unfold cast_int. destruct (dtrunc_between n 1 64) as (k & -> & Hk); done || lia.
Qed.

Lemma color_finite v : color_ok v -> finite3 v = true.
Proof.
  destruct v as [[x y] z]. intros ((_ & Hx1 & Hx2) & (_ & Hy1 & Hy2) & (_ & Hz1 & Hz2)). unfold finite3.
  by rewrite (between_ints (-1024) x 1024), (between_ints (-1024) y 1024), (between_ints (-1024) z 1024).
Qed.

Lemma afterimages_tame r a : tame (afterimages r a).
Proof.
  intros g. unfold afterimages. cbv zeta. destruct (_ >? _)%double; [|tame_idle]. split; cbn [fst snd]; [pose_fields|].
  intros Hw _. pose proof (color_finite _ (col_ok _ Hw)).
  pose proof (spawn_count_range (target_afterimage_spawn_n (wire_state g))). unfold MAX_PEER_AFTERIMAGE_SPAWN in *.
  apply within_app; [apply within_int; lia|]. apply within_app; [|auto with within].
  destruct (_ && _); [by apply within_one|constructor].
Qed.

Lemma stop_audio_within r c : Forall within (stop_audio r c).
Proof. unfold stop_audio. auto with within. Qed.
#[export] Hint Resolve stop_audio_within : within.

Lemma wall_run_tame r a : tame (wall_run r a).
Proof.
  intros g. unfold wall_run. cbv zeta. pose proof (clamp_uint8_range (target_move_state (wire_state g))) as Hc.
  revert Hc. generalize (clamp_to_uint8 (target_move_state (wire_state g))). intros now Hc. tame_done.
Qed.

Lemma nudge_within r a tick : Forall within (nudge_hidden r a tick).
Proof. unfold nudge_hidden. auto with within. Qed.
#[export] Hint Resolve animation_within weapon_mesh_within equipped_within pulse_stop_within nudge_within : within.
#[export] Hint Resolve bubble_tame equip_tame shadow_tame pulses_tame afterimages_tame wall_run_tame : tame.

(** ** Montage and meshes *)

Lemma montage_start_tame r v a : tame (montage_start r v a).
Proof. intros g. unfold montage_start. cbv zeta. destruct (montage_rise g); [|tame_idle]. tame_done. Qed.
Lemma montage_stop_tame r a b : tame (montage_stop r a b).
Proof. intros g. unfold montage_stop. cbv zeta. destruct (_ >? _)%double; [|tame_idle]. tame_done. Qed.
Lemma divergence_within r v a tick w : Forall within (montage_divergence r v a tick w).
Proof. unfold montage_divergence. auto 20 with within. Qed.
#[export] Hint Resolve montage_start_tame montage_stop_tame divergence_within : tame within.

Lemma mirror_montage_tame r v a tick : tame (mirror_montage r v a tick).
Proof.
  intros g. unfold mirror_montage.
  apply (tame_then (montage_start r v a ;> montage_stop r a (montage_rise g))); [by auto with tame|].
  apply tame_emit. auto with within.
Qed.

Lemma outfit_tame r v a tick : tame (mirror_outfit r v a tick).
Proof.
  intros g. unfold mirror_outfit. cbv zeta. destruct (mesh_due _ _ _ _ _); [|tame_idle].
  destruct (resolve_checked _ _ _); tame_done.
Qed.

Lemma swap_within r v asset mesh : Forall within (swap_weapon_mesh r v asset mesh).2.
Proof.
  unfold swap_weapon_mesh. destruct mesh as [m|]; [|constructor]. destruct (unreachable v m); [constructor|].
  destruct (_ || _); [constructor|]. destruct (bool_decide _); cbn [snd]; auto with within.
Qed.

Lemma weapon_mesh_tame r v a tick : tame (mirror_weapon_mesh r v a tick).
Proof.
  intros g. unfold mirror_weapon_mesh. cbv zeta. destruct (mesh_due _ _ _ _ _); [|tame_idle].
  destruct (resolve_weapon_mesh _ _) as [mesh|]; [|tame_done].
  pose proof (swap_within r v mesh (obj r a "WeaponMesh")) as W1.
  pose proof (swap_within r v mesh (weapon_fly_component (engine_objects g))) as W2.
  destruct (swap_weapon_mesh _ _ _ (obj r a _)) as [d1 c1], (swap_weapon_mesh _ _ _ (weapon_fly_component _)) as [d2 c2].
  cbn [snd] in *. split; cbn [fst snd]; [destruct (_ || _); [pose_fields|reflexivity]|]. intros _ _. auto with within.
Qed.
#[export] Hint Resolve mirror_montage_tame outfit_tame weapon_mesh_tame : tame.

(** ** Hurt and contact *)

Lemma hurt_kept env id a s g :
  pose_kept g (hurt_reaction env id a (s, g)).1.2 /\ Forall within (hurt_reaction env id a (s, g)).2.
Proof.
  unfold hurt_reaction. cbv zeta. destruct (_ && _); [|by split]. destruct (is_chaser id); (split; [cbn [fst snd]; pose_fields|]);
    cbn [snd]; auto with within.
Qed.

Lemma contact_tame env player mode id a : tame (chaser_contact env player mode id a).
Proof.
  intros g. unfold chaser_contact. cbv zeta. destruct (_ && _); [|tame_idle].
  split; cbn [fst snd]; [pose_fields|]. intros _ _. destruct player as [p|]; [|constructor].
  destruct (_ && _); [|constructor]. unfold contact_damage. apply within_with_obj. intros c.
  destruct (num _ _ _); [|constructor]. destruct (_ && _); [|constructor]. by apply within_one.
Qed.

(** ** The sweeps *)

Lemma fx_sweep_within r wv t a s : Forall within (fx_sweep r wv t a s).2.
Proof.
  unfold fx_sweep. cbn [snd]. destruct (_ || _); [|constructor]. apply within_omap. intros c x.
  destruct (raw_flag r c _); [|done]. destruct (Bool.eqb _ _); [done|]. by intros [= <-].
Qed.
Lemma subtract_within r wv tick class hidden a sw : Forall within (subtract r wv tick class hidden a sw).2.
Proof.
  unfold subtract. destruct hidden; cbn [snd].
  - apply within_omap. intros c x. destruct (mg_read_bool _ _ _ _); [|done]. by intros [= <-].
  - destruct (negb _); [constructor|]. apply within_omap. intros c x. destruct (mg_read_bool _ _ _ _); [done|]. by intros [= <-].
Qed.
Lemma subtractions_within r wv t tick a s : Forall within (subtractions r wv t tick a s).2.
Proof.
  unfold subtractions. pose proof (subtract_within r wv tick "StaticMeshComponent" (shadow_hidden t) a (shadow_sweep s)).
  pose proof (subtract_within r wv tick "TextRenderComponent" (nametag_hidden t) a (nametag_sweep s)).
  destruct (subtract _ _ _ "StaticMeshComponent" _ _ _), (subtract _ _ _ "TextRenderComponent" _ _ _). by apply within_app.
Qed.
Lemma depth_off_within r c : Forall within (depth_off r c).
Proof. unfold depth_off. destruct (raw_flag r c _) as [[]|]; auto with within. Qed.
#[export] Hint Resolve depth_off_within : within.

Lemma light_target_finite t : isfinite (light_target t) = true.
Proof. unfold light_target. destruct (light_forced_on t); [by apply of_Z_finite|done]. Qed.
Lemma dim_within r t c : Forall within (dim r (light_target t) c).
Proof. unfold dim. destruct (is_lit _ _ _); [|constructor]. apply within_one, light_target_finite. Qed.
#[export] Hint Resolve dim_within : within.

Lemma within_then {A} (f h : A -> A * list pose_call) :
  (forall s, Forall within (f s).2) -> (forall s, Forall within (h s).2) -> forall s, Forall within ((f ;> h) s).2.
Proof. intros Hf Hh s. rewrite and_then_snd. by apply within_app. Qed.

Lemma sweeps_within rd wv t tick a g s : Forall within (tick_sweeps rd wv t tick a g s).2.
Proof.
  revert s. unfold tick_sweeps, sweep_owned, sweep_lit. repeat apply within_then; intros s.
  - apply fx_sweep_within.
  - apply subtractions_within.
  - unfold emit, show_meshes, kill_vertex_light. cbn [snd]. apply within_app; [|auto with within].
    apply within_map. intros mesh_name. apply within_with_obj. intros mesh. destruct (raw_flag _ _ _); auto with within.
  - unfold emit, sweep_outline, hold_outline_off. cbn [snd]. destruct (keeps_custom_depth t); [|auto 10 with within].
    apply within_map. intros mesh_name. apply within_with_obj. intros mesh. destruct (raw_flag _ _ _) as [[]|]; auto with within.
  - unfold emit, hold_light. cbn [snd]. auto with within.
  - unfold sweep_lights. destruct (_ =? _)%Z; [|constructor]. cbn [snd]. auto with within.
Qed.
