(* ===== verification/Nametag.v ===== *)
(** Plugin.cpp, [update_ghost_nametag]: the floating name above one ghost, the peer's
    colour on a plate behind it.

    The text components are the engine's: what it makes, what their properties hold and
    where things are is an argument, [tag_env]; what is asked of it is returned, in order.
    The mathematics library and the system's UTF-8 decoder are arguments too. *)
From S2P Require Import Prelude Float64 CScan JsonString RemoteGhost Lifecycle AssetCatalog VfxMirror PeerProps PoseMirror.
From Stdlib Require Import NArith ZArith.

Definition NAMETAG_GAP_ABOVE_OUTFIT : double := of_Z 34.
Definition NAMETAG_OUTFIT_TOP_MIN : double := of_Z 40.
Definition NAMETAG_OUTFIT_TOP_MAX : double := of_Z 400.

(** * The arguments *)

(** [std::atan2], [std::cos], [std::sin] and [std::pow] on [float]. *)
Record libm := Libm { atan2 : double -> double -> double; cos : double -> double; sin : double -> double; powf : double -> double -> double }.

(** The numbers of the tuning file a tag is drawn by, and their generation. *)
Record tag_tuning := TagTuning {
  g_nametag_up : double; g_nametag_size : double; g_nametag_behind : double;
  g_plate_margin_chars : double; g_plate_scale_h : double; g_nametag_gen : Z
}.

Record tag_env := TagEnv {
  made_text : option Z; made_plate : option Z;      (* create_text_render_on, the first and the second *)
  made_material : option Z;                         (* create_plate_material *)
  sets_vectors : bool;                              (* SetVectorParameterValue has what it needs *)
  world_size : option double;                       (* the tag's WorldSize, where the tuning is applied *)
  held_size : Z -> option double;                   (* WorldSize, where a mesh is rebuilt *)
  placed_at : vec3;                                 (* K2_GetActorLocation of the ghost *)
  outfit_reads : reflection; relative_location : Z -> option vec3; extended_bounds : Z -> option (double * double);
  camera : option vec3; pawn_at : option vec3
}.

#[export] Instance tag_env_eta : Eta tag_env := fun r =>
  TagEnv (made_text r) (made_plate r) (made_material r) (sets_vectors r) (world_size r) (held_size r) (placed_at r)
    (outfit_reads r) (relative_location r) (extended_bounds r) (camera r) (pawn_at r).

(** What is asked of a text component, or of a plate's material. *)
Inductive tag_call :=
  | SetText (c : Z) (text : list Z)
  | CenterText (c : Z)
  | SetWorldSize (c : Z) (size : double)
  | SetRelativeScale (c : Z) (scale : vec3)
  | SetColor (material : Z) (rgb : vec3)
  | Place (c : Z) (loc rot : vec3)
  | Refresh (c : Z).                                (* SetVisibility, off and on *)

Section Tag.
Context (MultiByteToWideChar : bytes -> option (list Z)) (m : libm).

(** * The texts *)

(** [MultiByteToWideChar] gives [None] for a size that is not positive. *)
Definition utf8_to_wide (s : bytes) : list Z :=
  match s with [] => [] | _ => default (to_wide_ascii s) (MultiByteToWideChar s) end.

(** What is read of a string given by [c_str]. *)
Fixpoint c_wstr (w : list Z) : list Z :=
  match w with [] => [] | u :: w => if (u =? 0)%Z then [] else u :: c_wstr w end.

Definition drawn_name (name : bytes) : list Z := c_wstr (utf8_to_wide name).

(** * The colour *)

Definition hex_byte (hi lo : ascii) : option Z :=
  match hex_val hi, hex_val lo with Some hi, Some lo => Some (Z.of_N (hi * 16 + lo)) | _, _ => None end.

(** ["#RRGGBB"], its three channels. *)
Definition hex_color (hex : bytes) : option (Z * Z * Z) :=
  match hex with
  | [mark; r1; r0; g1; g0; b1; b0] =>
      if Ascii.eqb mark "#" then
        match hex_byte r1 r0, hex_byte g1 g0, hex_byte b1 b0 with Some r, Some g, Some b => Some (r, g, b) | _, _, _ => None end
      else None
  | _ => None
  end.

(** A channel through the sRGB curve, in [float]. *)
Definition linear (v : Z) : double :=
  let channel := to_float (of_Z v / of_Z 255)%double in
  if (channel <=? to_float (lit 4045 100000))%double then to_float (channel / to_float (lit 1292 100))%double
  else powf m (to_float (to_float (channel + to_float (lit 55 1000)) / to_float (lit 1055 1000))%double) (to_float (lit 24 10)).

Definition set_plate_color (settable : bool) (mid : Z) (hex : bytes) : bool * list tag_call :=
  match hex_color hex with
  | Some (r, g, b) => if settable then (true, [SetColor mid (linear r, linear g, linear b)]) else (false, [])
  | None => (false, [])
  end.

(** * The size *)

Definition plate_scale_for (text_size : double) : double := to_float text_size.

Definition plate_width_scale_for (t : tag_tuning) (chars : nat) : double :=
  (of_Z 1 + (of_Z 2 * g_plate_margin_chars t) / of_Z (Z.of_nat (Nat.max chars 1)))%double.

Definition size_calls (t : tag_tuning) (base : option double) (c : Z) (plate : option Z) (chars : nat) : list tag_call :=
  (if (dzero <? g_nametag_size t)%double then [SetWorldSize c (to_float (g_nametag_size t))] else [])
  ++ match plate with
     | Some p => match base with Some b => [SetWorldSize p (plate_scale_for b)] | None => [] end
                 ++ [SetRelativeScale p (of_Z 1, plate_width_scale_for t chars, g_plate_scale_h t)]
     | None => []
     end.

Definition apply_nametag_tuning (t : tag_tuning) (base : option double) (c : Z) (chars : nat) (g : RemoteGhost)
    : RemoteGhost * list tag_call :=
  (upd_latch (fun l => l <| nametag_tuning_gen := g_nametag_gen t |>) g,
   size_calls t base c (nametag_plate (engine_objects g)) chars).

Definition force_text_rebuild (env : tag_env) (c : Z) : list tag_call :=
  match held_size env c with
  | Some size => if (size <=? dzero)%double then [] else [SetWorldSize c size]
  | None => []
  end.

(** * The parts of an update *)

Definition upd_handles (f : handles -> handles) (g : RemoteGhost) : RemoteGhost := g <| engine_objects := f (engine_objects g) |>.

(** The name is gone: an existing tag is blanked, once. *)
Definition blank_tag (g : RemoteGhost) : RemoteGhost * list tag_call :=
  match nametag_component (engine_objects g) with
  | Some c =>
      if bool_decide (nametag_applied_name (latches g) = []) then (g, [])
      else (upd_latch (fun l => l <| nametag_applied_name := [] |>) g,
            SetText c [] :: match nametag_plate (engine_objects g) with Some p => [SetText p []] | None => [] end)
  | None => (g, [])
  end.

(** The plate of a tag just made; one without a material is forgotten. *)
Definition create_plate (env : tag_env) (t : tag_tuning) (name : bytes) (c : Z) (g : RemoteGhost) : RemoteGhost * list tag_call :=
  match made_plate env with
  | None => (upd_handles (fun h => h <| nametag_plate := None |>) g, [])
  | Some p =>
      let g := upd_handles (fun h => h <| nametag_plate := Some p |>) g in
      let (g, sized) := apply_nametag_tuning t (world_size env) c (length (utf8_to_wide name)) g in
      (upd_handles (fun h => h <| nametag_plate_mid := made_material env |>
                               <| nametag_plate := match made_material env with Some _ => Some p | None => None end |>) g,
       [SetText p []; CenterText c; CenterText p] ++ sized)
  end.

(** The tag, made when there is none; [None] in third place when it cannot be. *)
Definition create_tag (env : tag_env) (t : tag_tuning) (name : bytes) (g : RemoteGhost)
    : RemoteGhost * list tag_call * option Z :=
  match nametag_component (engine_objects g) with
  | Some c => (g, [], Some c)
  | None =>
      match made_text env with
      | None => (upd_latch (fun l => l <| nametag_create_failed := true |>) g, [], None)
      | Some c =>
          let (g, calls) := create_plate env t name c (upd_handles (fun h => h <| nametag_component := Some c |>) g) in
          (g, calls, Some c)
      end
  end.

Definition color_plate (env : tag_env) (name color : bytes) (g : RemoteGhost) : RemoteGhost * list tag_call :=
  match nametag_plate_mid (engine_objects g) with
  | Some mid =>
      if bool_decide (nametag_plate_applied_color (latches g) = color) then (g, [])
      else
        let (has, calls) := set_plate_color (sets_vectors env) mid color in
        (upd_latch (fun l => l <| nametag_plate_has_color := has |> <| nametag_plate_applied_color := color |>) g,
         calls ++ match nametag_plate (engine_objects g) with
                  | Some p => [SetText p (if has then drawn_name name else [])]
                  | None => []
                  end)
  | None => (g, [])
  end.

(** The name, when it differs; whether it did. *)
Definition apply_name (name : bytes) (c : Z) (g : RemoteGhost) : RemoteGhost * list tag_call * bool :=
  if bool_decide (nametag_applied_name (latches g) = name) then (g, [], false)
  else (upd_latch (fun l => l <| nametag_applied_name := name |>) g,
        SetText c (drawn_name name)
        :: match nametag_plate (engine_objects g) with
           | Some p => if nametag_plate_has_color (latches g) then [SetText p (drawn_name name)] else []
           | None => []
           end, true).

(** [outfit_mesh_top_above_actor] *)
Definition outfit_mesh_top_above_actor (env : tag_env) (actor : Z) : option double :=
  match obj (outfit_reads env) actor "VisualMesh" with
  | None => None
  | Some mesh =>
      match relative_location env mesh, obj (outfit_reads env) mesh "SkeletalMesh" with
      | Some (_, _, rel_z), Some asset =>
          match extended_bounds env asset with Some (origin_z, extent_z) => Some (rel_z + origin_z + extent_z)%double | None => None end
      | _, _ => None
      end
  end.

Definition tag_height (t : tag_tuning) (top : option double) (gz : double) : double :=
  match top with
  | Some top =>
      if (NAMETAG_OUTFIT_TOP_MIN <=? top)%double && (top <=? NAMETAG_OUTFIT_TOP_MAX)%double
      then (gz + (top + NAMETAG_GAP_ABOVE_OUTFIT))%double else (gz + g_nametag_up t)%double
  | None => (gz + g_nametag_up t)%double
  end.

Definition RAD_TO_DEG : double := (of_Z 180 / lit 314159265358979323846 100000000000000000000)%double.

(** Above the ghost, the front to the viewer; the plate behind it along the same line. *)
Definition place_tag (env : tag_env) (t : tag_tuning) (actor c : Z) (plate : option Z) : list tag_call :=
  let '(gx, gy, gz) := placed_at env in
  let tag_z := tag_height t (outfit_mesh_top_above_actor env actor) gz in
  let '(px, py, pz) := match camera env, pawn_at env with
                       | Some viewer, _ => viewer
                       | None, Some pawn => pawn
                       | None, None => (gx, gy + of_Z 1, tag_z)%double
                       end in
  let yaw := (atan2 m (py - gy) (px - gx) * RAD_TO_DEG)%double in
  let horizontal := dsqrt ((px - gx) * (px - gx) + (py - gy) * (py - gy))%double in
  let pitch := (atan2 m (pz - tag_z) horizontal * RAD_TO_DEG)%double in
  Place c (gx, gy, tag_z) (pitch, yaw, dzero)
  :: match plate with
     | Some p =>
         let yaw_rad := (yaw / RAD_TO_DEG)%double in
         let pitch_rad := (pitch / RAD_TO_DEG)%double in
         let flat := (cos m pitch_rad * g_nametag_behind t)%double in
         [Place p (gx - cos m yaw_rad * flat, gy - sin m yaw_rad * flat, tag_z - sin m pitch_rad * g_nametag_behind t)%double
            (pitch, yaw, dzero)]
     | None => []
     end.

(** The tuning file changed since this tag was sized. *)
Definition retune_tag (env : tag_env) (t : tag_tuning) (name : bytes) (c : Z) (g : RemoteGhost) : RemoteGhost * list tag_call :=
  if (nametag_tuning_gen (latches g) =? g_nametag_gen t)%Z then (g, [])
  else
    let (g, sized) := apply_nametag_tuning t (world_size env) c (length (utf8_to_wide name)) g in
    (g, sized ++ force_text_rebuild env c
        ++ match nametag_plate (engine_objects g) with Some p => force_text_rebuild env p | None => [] end).

Definition refresh_tag (first_application : bool) (c : Z) (plate : option Z) : list tag_call :=
  if first_application then Refresh c :: match plate with Some p => [Refresh p] | None => [] end else [].

(** * The update *)

(** [tag] is the peer's own, from [nametags]. *)
Definition update_ghost_nametag (env : tag_env) (t : tag_tuning) (tag : option Nametag) (g : RemoteGhost)
    : RemoteGhost * list tag_call :=
  match ghost (engine_objects g) with
  | None => (g, [])
  | Some actor =>
      if nametag_create_failed (latches g) then (g, [])
      else
        let '(MkNametag name color) := default Nametag0 tag in
        if bool_decide (name = []) then blank_tag g
        else
          let '(g, c1, component) := create_tag env t name g in
          match component with
          | None => (g, c1)
          | Some c =>
              let (g, c2) := color_plate env name color g in
              let '(g, c3, first_application) := apply_name name c g in
              let c4 := place_tag env t actor c (nametag_plate (engine_objects g)) in
              let (g, c5) := retune_tag env t name c g in
              (g, c1 ++ c2 ++ c3 ++ c4 ++ c5 ++ refresh_tag first_application c (nametag_plate (engine_objects g)))
          end
  end.
End Tag.
