(* ===== verification/TextCalls.v ===== *)
(** Plugin.cpp, the helpers over text components: their string, their colour, the plate's
    material, their size and scale, and the camera they face.

    A property the helper writes itself, where a setter is missing, is answered rather
    than called: the component's own fields are not in the model. *)
From S2P Require Import Prelude Float64 FloatFacts JsonString RemoteGhost Frames Reflect EngineCalls StructCalls Nametag.
From Stdlib Require Import ZArith.

Section Calls.
Context (e : engine).

(** * Creation *)

(** The component's alignment, and nothing else, is written after. *)
Definition create_text_render_on (owner : option Z) : M (option Z) :=
  match owner, static_object e "/Script/Engine.TextRenderComponent", static_function e ADD_COMPONENT with
  | Some o, Some text_class, Some f => add_component e o text_class f
  | _, _, _ => ret None
  end.

(** * The string *)

(** The engine's setter where its parameter has room; else the property is written, when
    it resolves, and the component marked: the string so written. *)
Definition set_text_render_string (has_slot : bool) (component : option Z) (text : option (list Z)) : M (option (list Z)) :=
  match component, text with
  | Some o, Some text =>
      setter <- match function_of e o "SetText" with
                | Some f =>
                    match param e f "Value" with
                    | Some p =>
                        room <- attempt (room_for p f) ;;
                        if (room : bool) then
                          b <- new_frame (parms_size f) ;;
                          b <- attempt (store (poffset p) (Raw (ftext e text)) b) ;;
                          process_frame e o f b ;; ret true
                        else ret false
                    | None => ret false
                    end
                | None => ret false
                end ;;
      if (setter : bool) then ret None
      else if has_slot then
        on_function e (Some o) "MarkRenderStateDirty" tt process_bare ;; ret (Some text)
      else ret None
  | _, _ => ret None
  end.

(** * Colours *)

(** Each member found by its name is given a value; [None] in the answer when one is
    missing. *)
Fixpoint fill_fields (fields : list fproperty) (ok : fproperty -> bool) (base : Z) (vs : list (string * cell)) (b : frame)
    : option (option frame) :=
  match vs with
  | [] => Some (Some b)
  | (n, c) :: vs =>
      match find_property e fields n with
      | Some p => if ok p then b ← store (base + poffset p) c b; fill_fields fields ok base vs b else Some None
      | None => Some None
      end
  end.

(** The four channels of an [FColor]; a string that is not a colour asks for nothing. *)
Definition set_text_render_color (component : option Z) (hex : bytes) : M unit :=
  match component, hex_color hex with
  | Some o, Some (r, g, bl) =>
      on_function e (Some o) "SetTextRenderColor" tt (fun o f =>
        match param e f "Value" with
        | Some p =>
            room <- attempt (room_for p f) ;;
            match (if (room : bool) then cast_struct p else None) with
            | Some fields =>
                b <- new_frame (parms_size f) ;;
                filled <- attempt (fill_fields fields any (poffset p) [("R", U8 r); ("G", U8 g); ("B", U8 bl); ("A", U8 255)]%string b) ;;
                match filled with Some b => quietly (process_frame e o f b) | None => ret tt end
            | None => ret tt
            end
        | None => ret tt
        end)
  | _, _ => ret tt
  end.

(** [SetVectorParameterValue] on the plate's material: the part of [set_plate_color] that
    makes the call.  The name is copied by the parameter's own size. *)
Definition call_set_vector_parameter (mid : Z) (rgb : vec3) : M bool :=
  on_function e (Some mid) "SetVectorParameterValue" false (fun o f =>
    match param e f "ParameterName", param e f "Value" with
    | Some name, Some value =>
        match cast_struct value with
        | Some fields =>
            room <- attempt (room_for value f) ;;
            if negb room || (psize name <? 0)%Z || (8 <? psize name)%Z then ret false
            else
              let '(r, g, bl) := rgb in
              b <- new_frame (parms_size f) ;;
              b <- attempt (store (poffset name) (Raw (take (Z.to_nat (psize name)) (le 8 (fname e "Color")))) b) ;;
              filled <- attempt (fill_fields fields (fun p => psize p =? 4)%Z (poffset value)
                                   [("R", F32 r); ("G", F32 g); ("B", F32 bl); ("A", F32 (of_Z 1))]%string b) ;;
              match filled with Some b => process_frame e o f b ;; ret true | None => ret false end
        | None => ret false
        end
    | _, _ => ret false
    end).

(** A dynamic instance of the debug material, made the component's own. *)
Definition create_plate_material (component : option Z) : M (option Z) :=
  match component with
  | None => ret None
  | Some o =>
      match static_object e "/Engine/EngineDebugMaterials/DebugMeshMaterial.DebugMeshMaterial",
            function_of e o "CreateDynamicMaterialInstance", function_of e o "SetTextMaterial" with
      | Some master, Some create_fn, Some set_fn =>
          match param e create_fn "SourceMaterial", param e create_fn "ReturnValue" with
          | Some source, Some return_param =>
              if (parms_size create_fn <? 1)%Z then ret None
              else
                b <- new_frame (parms_size create_fn) ;;
                b <- attempt (store_opt (param e create_fn "ElementIndex") (I32 0) b) ;;
                b <- attempt (store (poffset source) (Ptr master) b) ;;
                b <- process_frame e o create_fn b ;;
                v <- attempt (load (poffset return_param) 8 b) ;;
                match as_ptr v with
                | None => ret None
                | Some mid =>
                    match param e set_fn "Material" with
                    | Some p =>
                        if (parms_size set_fn >=? i32 (poffset p + 8))%Z then
                          b <- new_frame (parms_size set_fn) ;;
                          b <- attempt (store (poffset p) (Ptr mid) b) ;;
                          process_frame e o set_fn b ;; ret (Some mid)
                        else ret None
                    | None => ret None
                    end
                end
          | _, _ => ret None
          end
      | _, _, _ => ret None
      end
  end.

(** Off and on again. *)
Definition force_render_refresh (component : option Z) : M unit :=
  on_function e component "SetVisibility" tt (fun o f =>
    match param e f "bNewVisibility" with
    | Some p =>
        past <- attempt (add32 (poffset p) 1) ;;
        if (parms_size f <? past)%Z then ret tt
        else
          let show v := b <- new_frame (parms_size f) ;;
                        b <- attempt (store (poffset p) (U8 v) b) ;;
                        quietly (process_frame e o f b) in
          show 0%Z ;; show 1%Z
    | None => ret tt
    end).

(** * Size and place *)

(** Called whether or not a parameter of four bytes is there. *)
Definition call_float_setter (component : option Z) (function_name : string) (value : double) : M bool :=
  on_function e component function_name false (fun o f =>
    if (parms_size f <? 4)%Z then ret false
    else
      b <- new_frame (parms_size f) ;;
      filled <- attempt (store_first (fun p => psize p =? 4)%Z (F32 value) f b) ;;
      process_frame e o f (fst filled) ;; ret true).

(** [world_size] is the component's own, where the property resolves. *)
Definition force_text_rebuild (world_size : option double) (component : option Z) : M unit :=
  match component with
  | None => ret tt
  | Some _ =>
      let size := default dzero world_size in
      if (size <=? dzero)%double then ret tt else quietly (call_float_setter component "SetWorldSize" size)
  end.

(** Whether the property was written instead. *)
Definition set_component_relative_scale (has_scale : bool) (world_size : option double) (component : option Z) (scale : vec3) : M bool :=
  match component with
  | None => ret false
  | Some o =>
      called <- match static_function e "/Script/Engine.SceneComponent:SetRelativeScale3D" with
                | Some f =>
                    match param e f "NewScale3D" with
                    | Some p =>
                        if (1 <=? parms_size f)%Z then
                          b <- new_frame (parms_size f) ;;
                          filled <- attempt (write_vector_param e 0 p scale b) ;;
                          if snd filled then process_frame e o f (fst filled) ;; ret true else ret false
                        else ret false
                    | None => ret false
                    end
                | None => ret false
                end ;;
      if (called : bool) then ret false
      else if has_scale then force_text_rebuild world_size component ;; ret true
      else ret false
  end.

(** One of the two alignments, by its setter. *)
Definition align (o : Z) (setter : string) : M bool :=
  on_function e (Some o) setter false (fun o f =>
    if (1 <=? parms_size f)%Z then
      b <- new_frame (parms_size f) ;;
      b <- attempt (store 0 (U8 1) b) ;;
      process_frame e o f b ;; ret true
    else ret false).

(** Whether the properties were written instead. *)
Definition center_text_component (world_size : option double) (component : option Z) : M bool :=
  match component with
  | None => ret false
  | Some o =>
      h <- align o "SetHorizontalAlignment" ;;
      v <- align o "SetVerticalAlignment" ;;
      if h || v then ret false else force_text_rebuild world_size component ;; ret true
  end.

(** * The camera *)

Fixpoint read_fields (fields : list fproperty) (base : Z) (names : list string) (b : frame) : option (option (list double)) :=
  match names with
  | [] => Some (Some [])
  | n :: names =>
      match find_property e fields n with
      | None => Some None
      | Some p =>
          v ← (if (psize p =? 8)%Z then of_bits64 <$> load (base + poffset p) 8 b else of_bits32 <$> load (base + poffset p) 4 b);
          vs ← read_fields fields base names b;
          Some (match vs with Some vs => Some (v :: vs) | None => None end)
      end
  end.

(** A struct of three numbers the camera manager returns. *)
Definition ask_camera (camera_manager : option Z) (function_name : string) (n1 n2 n3 : string) : M (option vec3) :=
  on_function e camera_manager function_name None (fun o f =>
    match param e f "ReturnValue" with
    | None => ret None
    | Some p =>
        room <- attempt (room_for p f) ;;
        if negb room then ret None
        else
          b <- new_frame (parms_size f) ;;
          b <- process_frame e o f b ;;
          match cast_struct p with
          | None => ret None
          | Some fields =>
              vs <- attempt (read_fields fields (poffset p) [n1; n2; n3] b) ;;
              ret (match vs with Some [x; y; z] => Some (x, y, z) | _ => None end)
          end
    end).

Definition camera_world_location (camera_manager : option Z) : M (option vec3) :=
  ask_camera camera_manager "GetCameraLocation" "X" "Y" "Z".
Definition camera_world_rotation (camera_manager : option Z) : M (option vec3) :=
  ask_camera camera_manager "GetCameraRotation" "Pitch" "Yaw" "Roll".
End Calls.
