(* ===== verification/RemoteTick.v ===== *)
(** Plugin.cpp, [game_thread_tick]'s loop over the remotes: the whole turn of one peer,
    in the order the loop runs it.  The staleness checks and the distance tier, the name
    tag, the pose and the input edges, the props, the sweeps, the moments, the effects, the animation.

    Left out of a turn: the traces and probes.  This is the turn with the ghost drive rig
    disarmed; [DrivenTurn] is the turn armed or not. *)
From S2P Require Import Prelude Float64 JsonString RemoteGhost Lifecycle VfxMirror PeerProps.
From S2P Require Import DistanceTier PoseMirror MontageMirror GhostSweeps Chaser InputDisplay Nametag.
From Stdlib Require Import ZArith.

(** * A pawn that is gone *)

(** What is forgotten with a pawn that died or stayed in another world.  The components
    spawned in the world (the sword's glow, the projectile, the one-shots) stay. *)
Definition stale_handles (h : handles) : handles :=
  h <| vfx_components := ∅ |> <| weapon_fly_component := None |> <| recall_glow_component := None |>
    <| nametag_component := None |> <| nametag_plate := None |> <| nametag_plate_mid := None |>
    <| drive_private_gi := None |> <| drive_own_hitable := None |> <| ghost := None |> <| owning_world := None |>.

Definition stale_latches (l : latch) : latch :=
  l <| weapon_hand_hidden := false |> <| recall_glow_shown := false |> <| recall_glow_swept := false |>
    <| spawn_weapon_trace_tick := 0%Z |> <| spawn_weapon_traced_at_spawn := false |>
    <| spawn_weapon_traced_after := false |> <| weapon_equip_call_armed := false |>
    <| last_synced_weapon_equipped := false |> <| last_synced_outfit_mesh := [] |>
    <| last_failed_outfit_mesh := [] |> <| last_synced_weapon_mesh := [] |> <| last_failed_weapon_mesh := [] |>
    <| crouch_event_shrunk := false |> <| crouch_input_shrunk := false |>
    <| nametag_applied_name := [] |> <| nametag_applied_color := [] |> <| nametag_plate_applied_color := [] |>
    <| nametag_plate_has_color := false |> <| nametag_create_failed := false |> <| drive_prepared := false |>.

Definition drop_stale (id : bytes) (actor : Z) (g : RemoteGhost) (p : plugin) : plugin :=
  set_remote id (g <| engine_objects := stale_handles (engine_objects g) |> <| latches := stale_latches (latches g) |>)
    (p <| hijacked_actors := hijacked_actors p ∖ {[actor]} |>
       <| g_drive_ghost := drop_drive_ghost (Some actor) (g_drive_ghost p) |>).

(** * Moments *)

Definition MIRROR_PLAYER_BLINK : bool := false.

(** The death fade and the blink, each on a rise of its counter. *)
Definition tick_moments (g : RemoteGhost) : RemoteGhost * list fx_call :=
  let w := wire_state g in
  let s := counters_seen g in
  let die := MIRROR_DEATH_FADE && (last_seen_death_count s <? target_death_count w)%Z in
  let s := if die then s <| last_seen_death_count := target_death_count w |> else s in
  let blink := MIRROR_PLAYER_BLINK && (last_seen_blink_count s <? target_blink_count w)%Z in
  let s := if blink then s <| last_seen_blink_count := target_blink_count w |> else s in
  (g <| counters_seen := s |>, (if die then [DieFade true] else []) ++ (if blink then [StartBlink] else [])).

(** * One remote *)

(** Everything a turn of the loop asks of the engine. *)
Record remote_env := RemoteEnv {
  alive : bool;                                   (* actor_is_alive *)
  props : prop_env;
  tier_ranges : ranges; local_loc : option vec3; tier_mesh : string -> option Z; tier_movement : option Z;
  local_player : option Z;                        (* pawn_obj *)
  toggles : dev_toggles;
  reads : nat -> reflection;                      (* what each block reads, in order *)
  view : world_view;
  assets : asset_view;
  ambient_stripped : bool;                        (* strip_ghost_ambient_particles *)
  hurt : hurt_env;
  contact : contact_env;
  panel : display_env;
  nametag_view : tag_env; nametag_tuning : tag_tuning;
  decode_utf8 : bytes -> option wide; mathematics : libm
}.

(** A call on an effect component, on the pawn or on its name tag; the text set on a panel. *)
Inductive ghost_call := Fx (c : fx_call) | Pose (c : pose_call) | Tag (c : tag_call) | PanelText (text : wide).

(** The world is known and is not the ghost's. *)
Definition other_world (world owning : option Z) : bool :=
  match world, owning with
  | Some w, Some o => bool_decide (o <> w)
  | _, _ => false
  end.

(** The ambient emitter, looked for again for a short while after the spawn. *)
Definition retry_ambient (tick : Z) (stripped : bool) (g : RemoteGhost) : RemoteGhost :=
  if negb (ambient_fx_stripped (latches g)) && (tick <? u64 (spawned_at_tick (latches g) + 120))%Z
  then upd_latch (fun l => l <| ambient_fx_stripped := stripped |>) g else g.

Section Turn.
Context (env : remote_env) (id : bytes) (a : Z).
Local Abbreviation rd := (reads env).
Local Abbreviation tick := (PeerProps.tick (props env)).
Local Abbreviation step := (RemoteGhost -> RemoteGhost * list ghost_call).

(** Up to the input edges. *)
Definition tick_head : step :=
  calling Pose
    (emit (fun _ => prehit_player (rd 0) a (local_player env) ++ drive_blob_shadow (rd 1) a (local_player env))
     ;> emit (fun g => mirror_capsule (rd 2) a (wire_state g)) ;> crouch_input a
     ;> emit (fun g => mirror_is_crouched (rd 3) a (wire_state g)) ;> crouch_event a
     ;> emit (fun g => drive_slide_timeline (rd 4) a (wire_state g) ++ mirror_base_offset (rd 5) a (wire_state g))).

(** The teleport and the props. *)
Definition tick_placed : step :=
  calling Pose (emit (fun g => teleport a (wire_state g)))
  ;> calling Fx (tick_remote_weapon (props env)) ;> calling Fx (tick_remote_projectile (props env)).

(** The moments and the effects. *)
Definition tick_effects : step :=
  calling Fx tick_moments ;> calling Fx (tick_remote_recall_glow (props env))
  ;> calling Fx (tick_remote_mirrored_vfx (fx (props env))).

(** The animation, the weapon in the hand, the montage and the meshes. *)
Definition tick_animation : step :=
  calling Pose
    (bubble_flash a ;> emit (fun g => write_animation_state (rd 13) a (wire_state g))
     ;> equip_edge (rd 14) (toggles env) a ;> emit (show_weapon_mesh (rd 15) (toggles env) a) ;> shadow_edge (rd 16) a
     ;> mirror_montage (rd 17) (assets env) a tick ;> emit (fun g => write_equipped (rd 18) a (wire_state g))
     ;> mirror_outfit (rd 19) (assets env) a tick ;> mirror_weapon_mesh (rd 20) (assets env) a tick).

(** The pulses, the afterimages, the wall run. *)
Definition tick_pulsed : step := fun g =>
  let edge := land_rise g || jump_rise g in
  calling Pose
    (tick_pulses (rd 21) a ;> afterimages (rd 22) a ;> wall_run (rd 23) a ;> emit (fun _ => pulse_stop (rd 24) a edge)
     ;> emit (fun _ => nudge_hidden (rd 25) a tick)) g.

Definition tick_tail : step := tick_effects ;> tick_animation ;> tick_pulsed.

(** A turn of a ghost that is awake and in the current world. *)
Definition tick_awake (p : plugin) (g : RemoteGhost) : plugin * RemoteGhost * list ghost_call :=
  let (g, c1) := tick_head (retry_ambient tick (ambient_stripped env) g) in
  let (p, text) := tick_ghost_inputs (panel env) id (target_ts (wire_state g)) p in
  let (g, c2) := tick_placed g in
  let (s, c3) := tick_sweeps (fun i => rd (6 + i)) (view env) (toggles env) tick a g (statics p) in
  let '(s, g, c4) := hurt_reaction (hurt env) id a (s, g) in
  let (g, c5) := chaser_contact (contact env) (local_player env) (g_chaser_contact_mode p) id a g in
  let (g, c6) := tick_tail g in
  (p <| statics := s |>, g,
   c1 ++ (match text with Some t => [PanelText t] | None => [] end) ++ c2 ++ map Pose (c3 ++ c4 ++ c5) ++ c6).
End Turn.

(** The name tag; left alone while the dev subtraction hides the tags. *)
Definition tick_tag (env : remote_env) (id : bytes) (p : plugin) (g : RemoteGhost) : RemoteGhost * list ghost_call :=
  if nametag_hidden (toggles env) then (g, [])
  else calling Tag (update_ghost_nametag (decode_utf8 env) (mathematics env) (nametag_view env) (nametag_tuning env) (nametags p !! id)) g.

Definition tick_remote (env : remote_env) (id : bytes) (p : plugin) : plugin * list tier_call * list ghost_call :=
  match remotes p !! id with
  | None => (p, [], [])
  | Some g =>
      match ghost (engine_objects g) with
      | None => (p, [], [])
      | Some actor =>
          if negb (alive env) then (drop_stale id actor g p, [], [])
          else
            let '(g, tiers, dormant) :=
              tick_distance_tier (tier_ranges env) (tier_mesh env) (tier_movement env) (local_loc env) g in
            let (g, tags) := tick_tag env id p g in
            if dormant then (set_remote id g p, tiers, map Pose (teleport actor (wire_state g)) ++ tags)
            else if other_world (current_world (props env)) (owning_world (engine_objects g))
            then (drop_stale id actor g p, tiers, tags)
            else let '(p, g, calls) := tick_awake env id actor p g in (set_remote id g p, tiers, tags ++ calls)
      end
  end.

(** The loop: each remote with its environment, in the map's order. *)
Definition tick_remotes (envs : list (bytes * remote_env)) (p : plugin) : plugin :=
  foldl (fun p '(id, env) => (tick_remote env id p).1.1) p envs.
