(* ===== verification/NametagProps.v ===== *)
(** The name tag of a ghost: what its two texts show over any updates and losses of its
    pawn, that a settled tag is only moved, and what an update leaves of the entry. *)
From S2P Require Import Prelude Float64 FloatFacts CScan JsonString RemoteGhost Lifecycle AssetCatalog VfxMirror PeerProps PoseMirror Nametag RemoteTick.
From Stdlib Require Import NArith ZArith.

(** * What an update touches *)

(** An entry without its tag. *)
Definition untagged (g : RemoteGhost) : RemoteGhost :=
  g <| engine_objects := engine_objects g <| nametag_component := None |> <| nametag_plate := None |> <| nametag_plate_mid := None |> |>
    <| latches := latches g <| nametag_applied_name := [] |> <| nametag_applied_color := [] |> <| nametag_plate_applied_color := [] |>
         <| nametag_plate_has_color := false |> <| nametag_create_failed := false |> <| nametag_tuning_gen := 0%Z |> |>.

(** Only the tag's own fields differ. *)
Definition tag_fields (g g' : RemoteGhost) : Prop := untagged g' = untagged g.

Lemma tag_fields_trans g1 g2 g3 : tag_fields g1 g2 -> tag_fields g2 g3 -> tag_fields g1 g3.
Proof. unfold tag_fields. congruence. Qed.

Ltac tag_step := match goal with g : RemoteGhost |- _ => by destruct g as [? ? [] [] ? ? ? ?] end.

Section Tag.
Context (decode : bytes -> option (list Z)) (m : libm).

Lemma blank_fields g : tag_fields g (blank_tag g).1.
Proof. unfold blank_tag. destruct (nametag_component _); [|done]. case_bool_decide; [done|tag_step]. Qed.

Lemma plate_fields env t name c g : tag_fields g (create_plate decode env t name c g).1.
Proof. unfold create_plate. destruct (made_plate env); [|tag_step]. cbn. destruct (made_material env); tag_step. Qed.

Lemma create_fields env t name g : tag_fields g (create_tag decode env t name g).1.1.
Proof.
  unfold create_tag. destruct (nametag_component _); [done|]. destruct (made_text env) as [c|]; [|tag_step].
  pose proof (plate_fields env t name c (upd_handles (fun h => h <| nametag_component := Some c |>) g)) as H.
  destruct (create_plate _ _ _ _ _ _) as [g0 calls]. etransitivity; [exact H|]. tag_step.
Qed.

Lemma color_fields env name color g : tag_fields g (color_plate decode m env name color g).1.
Proof.
  unfold color_plate. destruct (nametag_plate_mid _); [|done]. case_bool_decide; [done|].
  destruct (set_plate_color _ _ _ _). tag_step.
Qed.

Lemma name_fields name c g : tag_fields g (apply_name decode name c g).1.1.
Proof. unfold apply_name. case_bool_decide; [done|tag_step]. Qed.

Lemma retune_fields env t name c g : tag_fields g (retune_tag decode env t name c g).1.
Proof. unfold retune_tag. destruct (_ =? _)%Z; [done|tag_step]. Qed.

Lemma update_fields env t tag g : tag_fields g (update_ghost_nametag decode m env t tag g).1.
Proof.
  unfold update_ghost_nametag. destruct (ghost _) as [a|]; [|done].
  destruct (nametag_create_failed _); [done|]. destruct (default Nametag0 tag) as [name color].
  case_bool_decide; [apply blank_fields|].
  pose proof (create_fields env t name g) as H1. destruct (create_tag _ _ _ _ _) as [[g1 c1] [c|]]; [|exact H1].
  pose proof (color_fields env name color g1) as H2. destruct (color_plate _ _ _ _ _ _) as [g2 c2].
  pose proof (name_fields name c g2) as H3. destruct (apply_name _ _ _ _) as [[g3 c3] first].
  pose proof (retune_fields env t name c g3) as H4. destruct (retune_tag _ _ _ _ _ _) as [g4 c4]. cbn [fst] in *.
  congruence.
Qed.
End Tag.

(** * What the texts show *)

(** The text each component was last given, and the colour each material. *)
Record screen := Screen { texts : gmap Z (list Z); colors : gmap Z vec3 }.
#[export] Instance screen_eta : Eta screen := fun r => Screen (texts r) (colors r).
Definition screen0 : screen := Screen ∅ ∅.

Definition show (s : screen) (c : tag_call) : screen :=
  match c with
  | SetText c text => s <| texts := <[c := text]> (texts s) |>
  | SetColor mid rgb => s <| colors := <[mid := rgb]> (colors s) |>
  | _ => s
  end.

(** The tag's part of an entry. *)
Definition tag_part (g : RemoteGhost) :=
  (nametag_component (engine_objects g), nametag_plate (engine_objects g), nametag_plate_mid (engine_objects g),
   nametag_applied_name (latches g), nametag_plate_applied_color (latches g), nametag_plate_has_color (latches g),
   nametag_create_failed (latches g)).
Definition no_tag (g : RemoteGhost) : Prop := tag_part g = (None, None, None, [], [], false, false).

Section Life.
Context (decode : bytes -> option (list Z)) (m : libm) (settable : bool).

(** The engine makes two different texts; whether a material takes a colour does not
    change. *)
Definition tag_env_ok (env : tag_env) : Prop :=
  (forall c, made_text env = Some c -> made_plate env <> Some c) /\ sets_vectors env = settable.

(** One step in the life of an entry and of its tag: an update; the pawn is lost, and the
    tag with it; anything else, which leaves the tag alone. *)
Inductive life : RemoteGhost * screen -> RemoteGhost * screen -> Prop :=
  | LifeUpdate env t tag g s :
      tag_env_ok env ->
      life (g, s) ((update_ghost_nametag decode m env t tag g).1, foldl show s (update_ghost_nametag decode m env t tag g).2)
  | LifeLost g g' s : no_tag g' -> life (g, s) (g', s)
  | LifeOther g g' s :
      tag_part g' = tag_part g -> (nametag_component (engine_objects g') <> None -> ghost (engine_objects g') <> None) ->
      life (g, s) (g', s).

(** Whether the plate is drawn for a colour. *)
Definition plate_drawn (color : bytes) : bool := bool_decide (is_Some (hex_color color)) && settable.

Definition plate_ok (s : screen) (name color : bytes) (p mid : Z) : Prop :=
  texts s !! p = Some (if plate_drawn color then drawn_name decode name else []) /\
  forall r g b, hex_color color = Some (r, g, b) -> settable = true -> colors s !! mid = Some (linear m r, linear m g, linear m b).

Record tag_ok (g : RemoteGhost) (s : screen) (c : Z) : Prop := TagOk {
  tag_ghost : ghost (engine_objects g) <> None;
  tag_made : nametag_create_failed (latches g) = false;
  tag_text : texts s !! c = Some (drawn_name decode (nametag_applied_name (latches g)));
  tag_plate : match nametag_plate (engine_objects g), nametag_plate_mid (engine_objects g) with
              | Some p, Some mid => p <> c /\ nametag_plate_has_color (latches g) = plate_drawn (nametag_plate_applied_color (latches g)) /\
                                    plate_ok s (nametag_applied_name (latches g)) (nametag_plate_applied_color (latches g)) p mid
              | None, None => True
              | _, _ => False
              end
}.

Definition life_ok (st : RemoteGhost * screen) : Prop :=
  match nametag_component (engine_objects st.1) with
  | Some c => tag_ok st.1 st.2 c
  | None => exists failed, tag_part st.1 = (None, None, None, [], [], false, failed)
  end.

(** Everything but a text and a colour leaves the screen alone. *)
Definition plain (c : tag_call) : bool := match c with SetText _ _ | SetColor _ _ => false | _ => true end.

Lemma show_plain calls s : forallb plain calls = true -> foldl show s calls = s.
Proof. induction calls as [|c calls IH]; [done|]. cbn. intros [Hc H]%andb_true_iff. destruct c; try done; by apply IH. Qed.

Lemma size_plain t base c plate chars : forallb plain (size_calls t base c plate chars) = true.
Proof. unfold size_calls. destruct (dzero <? _)%double, plate, base; done. Qed.

Lemma place_plain env t actor c plate : forallb plain (place_tag m env t actor c plate) = true.
Proof. unfold place_tag. destruct (placed_at env) as [[]], (camera env) as [[[]]|], (pawn_at env) as [[[]]|], plate; done. Qed.

Lemma rebuild_plain env c : forallb plain (force_text_rebuild env c) = true.
Proof. unfold force_text_rebuild. destruct (held_size env c); [by destruct (_ <=? _)%double|done]. Qed.

Lemma refresh_plain first c plate : forallb plain (refresh_tag first c plate) = true.
Proof. by destruct first, plate. Qed.

Lemma retune_plain env t name c g : forallb plain (retune_tag decode env t name c g).2 = true.
Proof.
  unfold retune_tag. destruct (_ =? _)%Z; [done|]. cbn [apply_nametag_tuning snd]. rewrite !forallb_app, size_plain, rebuild_plain.
  destruct (nametag_plate _); [by rewrite rebuild_plain|done].
Qed.

(** ** The stages of an update *)

(** A tag whose name may be still to come. *)
Record made_ok (g : RemoteGhost) (s : screen) (c : Z) : Prop := MadeOk {
  made_component : nametag_component (engine_objects g) = Some c;
  made_ghost : ghost (engine_objects g) <> None;
  made_not_failed : nametag_create_failed (latches g) = false;
  made_name : nametag_applied_name (latches g) = [] \/ texts s !! c = Some (drawn_name decode (nametag_applied_name (latches g)));
  made_back : match nametag_plate (engine_objects g), nametag_plate_mid (engine_objects g) with
              | Some p, Some mid => p <> c /\ nametag_plate_has_color (latches g) = plate_drawn (nametag_plate_applied_color (latches g)) /\
                                    plate_ok s (nametag_applied_name (latches g)) (nametag_plate_applied_color (latches g)) p mid
              | None, None => True
              | _, _ => False
              end
}.

Lemma create_shown env t name g s :
  tag_env_ok env -> life_ok (g, s) -> ghost (engine_objects g) <> None -> nametag_create_failed (latches g) = false ->
  let '(g1, calls, r) := create_tag decode env t name g in
  match r with
  | Some c => made_ok g1 (foldl show s calls) c
  | None => nametag_component (engine_objects g1) = None /\ life_ok (g1, foldl show s calls)
  end.
Proof.
  intros [Hne Hset] Hl Hg Hf. unfold create_tag, life_ok in *. cbn [fst snd] in Hl.
  destruct (nametag_component (engine_objects g)) as [c|] eqn:Ec.
  { destruct Hl as [_ _ H1 H2]. split; [done..|by right|exact H2]. }
  destruct Hl as [failed E]. destruct (made_text env) as [c|] eqn:Em.
  - unfold create_plate. destruct g as [w sn [] [] seg vc vb po]. cbn in *. injection E as -> -> -> -> -> -> ->.
    destruct (made_plate env) as [p|] eqn:Ep; [|split; cbn; auto].
    assert (p <> c) as Hpc by (intros ->; by eapply Hne). cbn. rewrite (show_plain _ _ (size_plain _ _ _ _ _)).
    split; cbn; auto. destruct (made_material env) as [mid|]; [|done]. split_and!; [done|done|]. split; [|done].
    cbn. by rewrite lookup_insert_eq.
  - cbn. destruct g as [w sn [] [] seg vc vb po]. cbn in *. injection E as -> -> -> -> -> -> ->. split; [done|by eexists].
Qed.

(** The plate has its colour, and one of the two names. *)
Record colored_ok (g : RemoteGhost) (s : screen) (c : Z) (name color : bytes) : Prop := ColoredOk {
  colored_component : nametag_component (engine_objects g) = Some c;
  colored_ghost : ghost (engine_objects g) <> None;
  colored_not_failed : nametag_create_failed (latches g) = false;
  colored_name : nametag_applied_name (latches g) = [] \/ texts s !! c = Some (drawn_name decode (nametag_applied_name (latches g)));
  colored_back : match nametag_plate (engine_objects g), nametag_plate_mid (engine_objects g) with
                 | Some p, Some mid =>
                     p <> c /\ nametag_plate_applied_color (latches g) = color /\ nametag_plate_has_color (latches g) = plate_drawn color /\
                     (plate_ok s name color p mid \/ plate_ok s (nametag_applied_name (latches g)) color p mid)
                 | None, None => True
                 | _, _ => False
                 end
}.

Lemma plate_color_drawn env mid color :
  tag_env_ok env ->
  (set_plate_color m (sets_vectors env) mid color).1 = plate_drawn color /\
  forall s, texts (foldl show s (set_plate_color m (sets_vectors env) mid color).2) = texts s /\
    forall r g b, hex_color color = Some (r, g, b) -> settable = true ->
      colors (foldl show s (set_plate_color m (sets_vectors env) mid color).2) !! mid = Some (linear m r, linear m g, linear m b).
Proof.
  intros [_ ->]. unfold set_plate_color, plate_drawn.
  destruct (hex_color color) as [[[r g] b]|] eqn:E; [|by split].
  rewrite bool_decide_true by (by eexists). destruct settable; cbn; (split; [done|]); intros s; (split; [done|]).
  - intros r' g' b' [= <- <- <-] _. by rewrite lookup_insert_eq.
  - done.
Qed.

Lemma color_shown env name color g s c :
  tag_env_ok env -> made_ok g s c ->
  let (g1, calls) := color_plate decode m env name color g in colored_ok g1 (foldl show s calls) c name color.
Proof.
  intros Henv [H1 H2 H3 H4 H5]. unfold color_plate.
  destruct (nametag_plate_mid (engine_objects g)) as [mid|] eqn:Em;
    [|split; try done; by destruct (nametag_plate (engine_objects g)), (nametag_plate_mid (engine_objects g))].
  destruct (nametag_plate (engine_objects g)) as [p|] eqn:Ep; [|done]. destruct H5 as (Hpc & Hhas & Hplate).
  case_bool_decide as Ecol.
  { rewrite Ecol in *. split; try done. rewrite Ep, Em. auto. }
  destruct (plate_color_drawn env mid color Henv) as [E1 E2]. specialize (E2 s).
  destruct (set_plate_color m (sets_vectors env) mid color) as [has calls]. cbn [fst snd] in E1, E2. destruct E2 as [E2 E3].
  rewrite foldl_app. revert E2 E3. generalize (foldl show s calls). intros s1 E2 E3.
  destruct g as [w sn [] [] seg vc vb po]. cbn in *. subst. split; cbn; try done.
  - destruct H4 as [H4|H4]; [by left|right]. by rewrite lookup_insert_ne, E2 by done.
  - split_and!; [done..|]. left. split; [|exact E3]. cbn. by rewrite lookup_insert_eq.
Qed.

Lemma name_shown name color g s c :
  name <> [] -> colored_ok g s c name color ->
  let '(g1, calls, _) := apply_name decode name c g in
  nametag_component (engine_objects g1) = Some c /\ tag_ok g1 (foldl show s calls) c /\ nametag_applied_name (latches g1) = name /\
  (nametag_plate_mid (engine_objects g1) <> None -> nametag_plate_applied_color (latches g1) = color).
Proof.
  intros Hne [H1 H2 H3 H4 H5].
  assert (forall g1 s1, let '(g', calls, _) := apply_name decode name c g in g1 = g' -> s1 = foldl show s calls ->
    nametag_component (engine_objects g1) = Some c /\ ghost (engine_objects g1) <> None /\ nametag_create_failed (latches g1) = false /\
    nametag_applied_name (latches g1) = name /\ texts s1 !! c = Some (drawn_name decode name) /\
    match nametag_plate (engine_objects g1), nametag_plate_mid (engine_objects g1) with
    | Some p, Some mid => p <> c /\ nametag_plate_applied_color (latches g1) = color /\
                          nametag_plate_has_color (latches g1) = plate_drawn color /\ plate_ok s1 name color p mid
    | None, None => True
    | _, _ => False
    end) as H.
  { intros g1 s1. unfold apply_name. case_bool_decide as En.
    - intros -> ->. destruct H4 as [H4|H4]; [congruence|]. rewrite En in *. split_and!; try done.
      destruct (nametag_plate _), (nametag_plate_mid _); try done. destruct H5 as (? & ? & ? & [?|?]); by rewrite ?En in *.
    - intros -> ->. destruct g as [w sn [] [] seg vc vb po]. cbn in *.
      destruct nametag_plate as [p|], nametag_plate_mid as [mid|]; try done; cbn; [|by rewrite lookup_insert_eq].
      destruct H5 as (Hpc & -> & -> & H5). destruct (plate_drawn color) eqn:Ed; cbn.
      + split_and!; try done; [rewrite lookup_insert_ne by done; by rewrite lookup_insert_eq|]. split; cbn; [by rewrite lookup_insert_eq, Ed|].
        destruct H5 as [[_ H]|[_ H]]; exact H.
      + split_and!; try done; [by rewrite lookup_insert_eq|]. split; cbn; [rewrite lookup_insert_ne by done|];
          destruct H5 as [[H H']|[H H']]; rewrite ?Ed in *; done. }
  destruct (apply_name decode name c g) as [[g1 calls] first]. specialize (H g1 _ eq_refl eq_refl).
  destruct H as (E1 & E2 & E3 & E4 & E5 & E6). split_and!; [done| |done|].
  - split; [done..|by rewrite E4|]. revert E6. destruct (nametag_plate (engine_objects g1)), (nametag_plate_mid (engine_objects g1)); try (by intros []).
    intros (? & -> & ? & ?). by rewrite E4.
  - intros Hm. revert E6. destruct (nametag_plate (engine_objects g1)), (nametag_plate_mid (engine_objects g1)); try (by intros []). by intros (? & -> & ?).
Qed.

Lemma retune_tag_part env t name c g :
  tag_part (retune_tag decode env t name c g).1 = tag_part g /\
  ghost (engine_objects (retune_tag decode env t name c g).1) = ghost (engine_objects g) /\
  nametag_tuning_gen (latches (retune_tag decode env t name c g).1) = g_nametag_gen t.
Proof.
  unfold retune_tag. destruct (Z.eqb_spec (nametag_tuning_gen (latches g)) (g_nametag_gen t)) as [E|]; [done|].
  cbn [apply_nametag_tuning fst]. by destruct g as [? ? [] [] ? ? ? ?].
Qed.

Lemma tag_ok_part g g' s c :
  tag_part g' = tag_part g -> ghost (engine_objects g') <> None -> tag_ok g s c -> tag_ok g' s c.
Proof. unfold tag_part. intros [= E1 E2 E3 E4 E5 E6 E7] Hg [H1 H2 H3 H4]. split; [done|..]; by rewrite ?E2, ?E3, ?E4, ?E5, ?E6, ?E7. Qed.

Lemma blank_shown g s c :
  nametag_component (engine_objects g) = Some c -> tag_ok g s c ->
  nametag_component (engine_objects (blank_tag g).1) = Some c /\
  tag_ok (blank_tag g).1 (foldl show s (blank_tag g).2) c /\ nametag_applied_name (latches (blank_tag g).1) = [].
Proof.
  intros Ec [H1 H2 H3 H4]. unfold blank_tag. rewrite Ec. case_bool_decide as En; [by split_and!|].
  destruct g as [w sn [] [] seg vc vb po]. cbn in *. split_and!; [done| |done].
  destruct nametag_plate as [p|], nametag_plate_mid as [mid|]; try done; cbn.
  - destruct H4 as (Hpc & -> & H4 & H5). split; cbn; [done..|rewrite lookup_insert_ne by done; by rewrite lookup_insert_eq|].
    split_and!; [done..|]. split; [|exact H5]. cbn. rewrite lookup_insert_eq. by destruct (plate_drawn _).
  - split; cbn; [done..|by rewrite lookup_insert_eq|done].
Qed.

(** What an update with a name leaves of a tag. *)
Lemma named_shown env t name color g s c :
  name <> [] -> tag_env_ok env -> made_ok g s c ->
  let '(g2, c2) := color_plate decode m env name color g in
  let '(g3, c3, first) := apply_name decode name c g2 in
  let '(g4, c5) := retune_tag decode env t name c g3 in
  forall plate plate' actor,
  let s' := foldl show s (c2 ++ c3 ++ place_tag m env t actor c plate ++ c5 ++ refresh_tag first c plate') in
  nametag_component (engine_objects g4) = Some c /\ tag_ok g4 s' c /\ nametag_applied_name (latches g4) = name /\
  (nametag_plate_mid (engine_objects g4) <> None -> nametag_plate_applied_color (latches g4) = color) /\
  nametag_tuning_gen (latches g4) = g_nametag_gen t.
Proof.
  intros Hne Henv Hm. pose proof (color_shown env name color g s c Henv Hm) as H. destruct (color_plate _ _ _ _ _ g) as [g2 c2].
  pose proof (name_shown name color g2 _ c Hne H) as H'. destruct (apply_name _ _ _ g2) as [[g3 c3] first].
  destruct H' as (E1 & Ht & E2 & E3). destruct (retune_tag_part env t name c g3) as (P1 & P2 & P3).
  pose proof (retune_plain env t name c g3) as Hp. destruct (retune_tag _ _ _ _ _ g3) as [g4 c5]. cbn [fst snd] in *.
  intros plate plate' actor. cbv zeta. rewrite !foldl_app, (show_plain _ _ (refresh_plain _ _ _)), (show_plain _ _ Hp),
    (show_plain _ _ (place_plain _ _ _ _ _)).
  unfold tag_part in P1. injection P1 as F1 F2 F3 F4 F5 F6 F7. rewrite F1, F3, F4, F5, P3. split_and!; try done.
  apply (tag_ok_part g3); [unfold tag_part; congruence|rewrite P2; apply Ht|done].
Qed.

(** An update that leaves a tag, and what the tag is then. *)
Lemma update_shown env t tag g s :
  tag_env_ok env -> life_ok (g, s) ->
  let g' := (update_ghost_nametag decode m env t tag g).1 in
  let s' := foldl show s (update_ghost_nametag decode m env t tag g).2 in
  let '(MkNametag name color) := default Nametag0 tag in
  life_ok (g', s') /\
  forall c, nametag_component (engine_objects g') = Some c ->
    tag_ok g' s' c /\ nametag_applied_name (latches g') = name /\
    (name <> [] -> (nametag_plate_mid (engine_objects g') <> None -> nametag_plate_applied_color (latches g') = color) /\
                   nametag_tuning_gen (latches g') = g_nametag_gen t).
Proof.
  intros Henv Hl. cbv zeta. unfold update_ghost_nametag. destruct (default Nametag0 tag) as [name color].
  destruct (ghost (engine_objects g)) as [actor|] eqn:Eg.
  2:{ split; [done|]. intros c Ec. unfold life_ok in Hl. cbn [fst snd] in *. rewrite Ec in Hl. by destruct Hl. }
  destruct (nametag_create_failed (latches g)) eqn:Ef.
  { split; [done|]. intros c Ec. unfold life_ok in Hl. cbn [fst snd] in *. rewrite Ec in Hl. destruct Hl. congruence. }
  case_bool_decide as En.
  { subst name. unfold life_ok in *. cbn [fst snd] in *. destruct (nametag_component (engine_objects g)) as [c|] eqn:Ec.
    - destruct (blank_shown g s c Ec Hl) as (E1 & Ht & E2). rewrite E1. split; [done|]. by intros c' [= <-].
    - unfold blank_tag. rewrite Ec. cbn [fst snd]. rewrite Ec. by split. }
  pose proof (create_shown env t name g s Henv Hl ltac:(by rewrite Eg) Ef) as Hc.
  destruct (create_tag _ _ _ _ g) as [[g1 c1] [c|]]; cbn [fst snd] in *.
  2:{ destruct Hc as [Ec Hc]. rewrite Ec. by split. }
  pose proof (named_shown env t name color g1 _ c En Henv Hc) as H.
  destruct (color_plate _ _ _ _ _ g1) as [g2 c2]. destruct (apply_name _ _ _ g2) as [[g3 c3] first].
  destruct (retune_tag _ _ _ _ _ g3) as [g4 c5]. cbn [fst snd]. rewrite foldl_app.
  destruct (H (nametag_plate (engine_objects g3)) (nametag_plate (engine_objects g4)) actor) as (E1 & Ht & E2 & E3 & E4).
  unfold life_ok. cbn [fst snd]. rewrite E1. split; [done|]. by intros c' [= <-].
Qed.

Lemma life_keeps st st' : life st st' -> life_ok st -> life_ok st'.
Proof.
  destruct 1 as [env t tag g s Henv|g g' s Hn|g g' s E Hg]; intros Hl.
  - pose proof (update_shown env t tag g s Henv Hl) as H. cbv zeta in H. destruct (default Nametag0 tag). apply H.
  - unfold life_ok, no_tag, tag_part in *. cbn [fst]. injection Hn as -> -> -> -> -> -> ->. by eexists.
  - unfold life_ok in *. cbn [fst snd] in *. pose proof E as E'. unfold tag_part in E'. injection E' as E1 _ _ _ _ _ _.
    rewrite E1 in *. destruct (nametag_component (engine_objects g)) as [c|].
    + apply (tag_ok_part g); [done|by apply Hg|done].
    + destruct Hl as [failed Hl]. exists failed. congruence.
Qed.

Lemma lived st : rtc life (RemoteGhost0, screen0) st -> life_ok st.
Proof.
  intros H. assert (life_ok (RemoteGhost0, screen0)) as H0 by (by exists false).
  revert H H0. generalize (RemoteGhost0, screen0). induction 1; [done|]. intros Hl. by eapply IHrtc, life_keeps.
Qed.

(** A settled tag is only moved. *)
Lemma settled_update env t tag name color g s c actor :
  default Nametag0 tag = MkNametag name color -> name <> [] -> ghost (engine_objects g) = Some actor ->
  nametag_component (engine_objects g) = Some c -> tag_ok g s c -> nametag_applied_name (latches g) = name ->
  (nametag_plate_mid (engine_objects g) <> None -> nametag_plate_applied_color (latches g) = color) ->
  nametag_tuning_gen (latches g) = g_nametag_gen t ->
  update_ghost_nametag decode m env t tag g = (g, place_tag m env t actor c (nametag_plate (engine_objects g))).
Proof.
  intros Ed Hne Ea Ec [_ Hf _ _] En Ecol Eg. unfold update_ghost_nametag. rewrite Ea, Hf, Ed, bool_decide_false by done.
  unfold create_tag. rewrite Ec.
  assert (color_plate decode m env name color g = (g, [])) as ->.
  { unfold color_plate. destruct (nametag_plate_mid _); [|done]. by rewrite Ecol, bool_decide_true by done. }
  unfold apply_name. rewrite bool_decide_true by done. unfold retune_tag. rewrite Eg, Z.eqb_refl. cbn. by rewrite app_nil_r.
Qed.

(** C23: whatever came before in the life of a peer's entry (updates, names and colours that
    change or go away, the pawn lost and spawned again, texts or plates the engine could
    not make), after an update a tag shows the peer's name as it is now, and nothing for
    a peer with none; a plate shows the same text where the peer's colour is one the plate
    can carry, and nothing where it is not, and its material then has that colour through
    the sRGB curve.  Such a tag is settled: the next update for the same name and colour
    moves it and writes nothing else. *)
Theorem nametag_settled (g : RemoteGhost) (s : screen) (Hlife : rtc life (RemoteGhost0, screen0) (g, s))
    (env : tag_env) (Henv : tag_env_ok env) (t : tag_tuning) (tag : option Nametag) :
  let g' := (update_ghost_nametag decode m env t tag g).1 in
  let s' := foldl show s (update_ghost_nametag decode m env t tag g).2 in
  let '(MkNametag name color) := default Nametag0 tag in
  forall c, nametag_component (engine_objects g') = Some c ->
  texts s' !! c = Some (drawn_name decode name) /\
  (forall p, nametag_plate (engine_objects g') = Some p ->
     p <> c /\ texts s' !! p = Some (if plate_drawn color then drawn_name decode name else [])) /\
  (name <> [] ->
     (forall mid r gr b, nametag_plate_mid (engine_objects g') = Some mid -> hex_color color = Some (r, gr, b) -> settable = true ->
        colors s' !! mid = Some (linear m r, linear m gr, linear m b)) /\
     exists actor, ghost (engine_objects g') = Some actor /\
       forall env', update_ghost_nametag decode m env' t tag g' = (g', place_tag m env' t actor c (nametag_plate (engine_objects g')))).
Proof.
  pose proof (update_shown env t tag g s Henv (lived _ Hlife)) as H. cbv zeta in *. revert H.
  generalize (foldl show s (update_ghost_nametag decode m env t tag g).2) (update_ghost_nametag decode m env t tag g).1.
  intros s' g'. destruct (default Nametag0 tag) as [name color] eqn:Ed. intros [_ H] c Ec. destruct (H c Ec) as ([H1 H2 H3 H4] & En & Hn).
  rewrite En in *. split; [done|]. split.
  - intros p Ep. rewrite Ep in H4. destruct (nametag_plate_mid (engine_objects g')); [|done].
    destruct H4 as (Hpc & _ & H4 & _). split; [done|]. destruct (decide (name = [])) as [->|Hne].
    + rewrite H4. by destruct (plate_drawn _), (plate_drawn _).
    + by rewrite H4, (proj1 (Hn Hne)).
  - intros Hne. destruct (Hn Hne) as [Hcol Hgen]. split.
    + intros mid r gr b Em Eh Hs. rewrite Em in *. destruct (nametag_plate (engine_objects g')); [|done].
      destruct H4 as (_ & _ & _ & H4). apply H4; [by rewrite Hcol|done].
    + destruct (ghost (engine_objects g')) as [actor|] eqn:Ea; [|done]. exists actor. split; [done|]. intros env'.
      eapply settled_update; eauto. split; rewrite ?Ea, ?En; done.
Qed.

End Life.

(** The ways a pawn is lost leave an entry without a tag. *)
Lemma stale_no_tag g : no_tag (g <| engine_objects := stale_handles (engine_objects g) |> <| latches := stale_latches (latches g) |>).
Proof. by destruct g as [? ? [] [] ? ? ? ?]. Qed.

Lemma forget_no_tag g : no_tag (forget_entry g).
Proof. by destruct g as [? ? [] [] ? ? ? ?]. Qed.

(** * A sample

    An engine that makes the two texts and the plate's material, an outfit whose top is 76
    above its ghost, and a camera behind and above. *)

Definition sample_libm : libm := Libm (fun _ _ => dzero) (fun _ => of_Z 1) (fun _ => dzero) (fun x _ => x).
Definition sample_decode (s : bytes) : option (list Z) := Some (to_wide_ascii s).
Definition sample_tuning : tag_tuning := TagTuning (of_Z 110) dzero (of_Z 4) (lit 35 100) (lit 78 100) 1.
Definition sample_tag_env (base : Z) : tag_env :=
  TagEnv (Some base) (Some (base + 1)%Z) (Some (base + 2)%Z) true (Some (of_Z 26)) (fun _ => Some (of_Z 26)) (of_Z 310, of_Z 41, of_Z 6)
    (Reflection (fun o p => match p with "VisualMesh"%string => Some 5%Z | _ => Some 6%Z end) (fun _ _ => None) (fun _ _ => None)
       (fun _ _ => None) (fun _ _ => None) (fun _ _ => true) (fun _ _ => true))
    (fun _ => Some (dzero, dzero, of_Z (-14))) (fun _ => Some (of_Z 45, of_Z 45)) (Some (of_Z 0, of_Z 0, of_Z 200)) None.

(** A ghost named twice, its pawn replaced in between. *)
Definition named (name color : string) : option Nametag := Some (MkNametag (str name) (str color)).
Definition sample_ghost : RemoteGhost := RemoteGhost0 <| engine_objects := handles0 <| ghost := Some 77%Z |> |>.
Definition first_named : RemoteGhost * list tag_call :=
  update_ghost_nametag sample_decode sample_libm (sample_tag_env 61) sample_tuning (named "Ann" "#EE4B2B") sample_ghost.

Lemma sample_env_ok base : tag_env_ok true (sample_tag_env base).
Proof. split; [|done]. cbn. intros c [= <-] [= E]. lia. Qed.

Lemma sample_life :
  rtc (life sample_decode sample_libm true) (RemoteGhost0, screen0) (sample_ghost, foldl show screen0 first_named.2).
Proof.
  eapply rtc_l; [by apply (LifeOther _ _ _ RemoteGhost0 sample_ghost)|].
  eapply rtc_l; [by apply (LifeUpdate _ _ _ (sample_tag_env 61) sample_tuning (named "Ann" "#EE4B2B")), sample_env_ok|].
  eapply rtc_l; [apply (LifeLost _ _ _ _ (forget_entry first_named.1)), forget_no_tag|].
  apply rtc_once. by apply LifeOther.
Qed.

Example nametag_settled_witness :
  let u := update_ghost_nametag sample_decode sample_libm (sample_tag_env 71) sample_tuning (named "Ann-Marie" "red") sample_ghost in
  let s' := foldl show (foldl show screen0 first_named.2) u.2 in
  nametag_component (engine_objects u.1) = Some 71%Z /\ texts s' !! 71%Z = Some (to_wide_ascii (str "Ann-Marie")) /\
  texts s' !! 72%Z = Some [].
Proof.
  pose proof (nametag_settled sample_decode sample_libm true sample_ghost _ sample_life (sample_tag_env 71) (sample_env_ok 71)
    sample_tuning (named "Ann-Marie" "red")) as H. cbv zeta in *. cbn [named default] in H.
  destruct (H 71%Z ltac:(by vm_compute)) as (H1 & H2 & _). split; [by vm_compute|]. split.
  - rewrite H1. by vm_compute.
  - destruct (H2 72%Z ltac:(by vm_compute)) as [_ H3]. rewrite H3. by vm_compute.
Defined.

(** * What an update does not do *)

(** The plate is stretched for the name the tag was made with: a name that changes later keeps that width. *)
Example plate_keeps_first_width :
  let u := update_ghost_nametag sample_decode sample_libm (sample_tag_env 71) sample_tuning (named "A" "#EE4B2B") sample_ghost in
  let v := update_ghost_nametag sample_decode sample_libm (sample_tag_env 71) sample_tuning (named "A-much-longer-name" "#EE4B2B") u.1 in
  SetRelativeScale 72 (of_Z 1, plate_width_scale_for sample_tuning 1, g_plate_scale_h sample_tuning) ∈ u.2 /\
  Forall (fun c => match c with SetRelativeScale _ _ => False | _ => True end) v.2 /\
  dne (plate_width_scale_for sample_tuning 1) (plate_width_scale_for sample_tuning 18) = true.
Proof.
  cbv zeta. split_and!; [apply list_elem_of_lookup; exists 4; by vm_compute| |by vm_compute].
  match goal with |- Forall _ ?l => let v := eval vm_compute in l in change l with v end. by repeat constructor.
Qed.

(** An outfit lower than the stock one takes the tag below the fixed height. *)
Example short_outfit_lowers_tag :
  dlt (tag_height sample_tuning (Some (of_Z 45)) dzero) (tag_height sample_tuning None dzero) = true.
Proof. by vm_compute. Qed.
