(* ===== verification/TickFacts.v ===== *)
(** What the ticks of one remote keep of its entry (the objects held, the wire state) and
    what they hand the engine: the lemmas under the invariants of the whole plugin.
    Then one whole turn: it keeps the invariant of the entry and of the input tracks, and
    everything it asks of the engine is within bounds. *)
From S2P Require Import Prelude Float64 JsonString FloatFacts JsonBounds ScanFacts RemoteGhost Lifecycle.
From S2P Require Import BridgeLine BridgeLineFacts VfxMirror VfxProps PeerProps GlideProps PropFacts.
From S2P Require Import DistanceTier PoseMirror MontageMirror GhostSweeps Chaser InputDisplay PoseFacts.
From S2P Require Import RemoteTick NametagProps.
From Stdlib Require Import ZArith.

(** * What each tick keeps of the objects a ghost holds *)

Record kept (g g' : RemoteGhost) : Prop := Kept {
  k_wire : wire_state g' = wire_state g;
  k_ghost : ghost (engine_objects g') = ghost (engine_objects g);
  k_prj : projectile_component (engine_objects g') = projectile_component (engine_objects g);
  k_prj_world : projectile_component_world (engine_objects g') = projectile_component_world (engine_objects g);
  k_recall : recall_glow_component (engine_objects g') = recall_glow_component (engine_objects g);
  k_shown : recall_glow_shown (latches g') = recall_glow_shown (latches g);
  k_pose : pose g' = pose g;
  k_ring : ring_ok g -> ring_ok g';
  k_drive : drive g' = drive g
}.

#[export] Instance kept_preorder : PreOrder kept.
Proof. split; [by split|]. intros ? ? ? [] []. split; try congruence. auto. Qed.

Lemma kept_remember c g : kept g (remember_one_shot c g).
Proof.
  destruct c; [|reflexivity]. destruct g as [? ? h ? ? ? ?], h. split; try done. apply track_one_shot_length.
Qed.

(** Closes [kept] for an update of other fields. *)
Ltac kept_fields := let g := fresh in match goal with |- kept ?x _ => destruct x as [? ? g ? ? ? ?] end;
  destruct g; by split.

Lemma land_kept env g : kept g (land_edge env g).1.
Proof.
  unfold land_edge. destruct (dne _ _); [|reflexivity]. cbv zeta.
  set (g1 := upd_latch _ g). assert (kept g g1) as H1 by (destruct g as [? ? h l ? ? ?], h, l; by split). clearbody g1.
  set (dust := match (_ =? _)%Z with true => _ | false => _ end).
  assert (kept g dust.1) as H2.
  { unfold dust. destruct (_ =? _)%Z; [|done]. destruct (fx_asset _ _); [|done]. etrans; [done|apply kept_remember]. }
  clearbody dust. destruct dust as [g2 cs]. cbn [fst] in H2.
  destruct (_ =? _)%Z; [|done]. destruct (weapon_glow_component (engine_objects g2)); [done|].
  destruct (bool_decide _); [done|]. destruct (peer_asset env _); [|done]. etrans; [done|]. kept_fields.
Qed.

Lemma bounce_kept env g : kept g (bounce env g).1.
Proof. unfold bounce. cbv zeta. destruct (dlt _ dzero); [|destruct (dlt _ _); [|reflexivity]]; kept_fields. Qed.

Lemma ensure_flyer_kept env g : kept g (ensure_flyer env g).
Proof.
  unfold ensure_flyer. destruct (weapon_fly_component _); [reflexivity|]. cbv zeta.
  destruct (_ && _); [reflexivity|kept_fields].
Qed.

Lemma weapon_kept env g : kept g (tick_remote_weapon env g).1.
Proof.
  unfold tick_remote_weapon. destruct (weapon_prop_skipped env); [reflexivity|].
  destruct (ghost (engine_objects g)); [|reflexivity]. destruct (negb _).
  { unfold put_away. destruct g as [? ? h l ? ? ?], h, l. by split. }
  cbv zeta. pose proof (ensure_flyer_kept env g) as H. revert H. generalize (ensure_flyer env g). intros g1 H.
  destruct (weapon_fly_component (engine_objects g1)) as [fly|]; [|done].
  match goal with |- context [land_edge env ?x] => set (g2 := x) end.
  assert (kept g1 g2) as H2 by (destruct g1 as [? ? h l ? ? ?], h, l; by split). clearbody g2.
  pose proof (land_kept env g2) as H3. destruct (land_edge env g2) as [g3 landing]. cbn [fst] in H3.
  pose proof (bounce_kept env g3) as H4. destruct (bounce env g3) as [g4 hits]. cbn [fst] in *.
  do 4 (etrans; [eassumption|]). kept_fields.
Qed.

(** * The invariant of an entry *)

(** Without a pawn, nothing that hangs off one is held. *)
Definition attached_ok (g : RemoteGhost) : Prop :=
  let h := engine_objects g in
  ghost h = None ->
  owning_world h = None /\ weapon_fly_component h = None /\ recall_glow_component h = None /\
  nametag_component h = None /\ nametag_plate h = None /\ nametag_plate_mid h = None /\
  drive_private_gi h = None /\ drive_own_hitable h = None /\ vfx_components h = ∅.

Record object_ok (g : RemoteGhost) : Prop := ObjectOk {
  o_attached : attached_ok g; o_sword : sword_ok g; o_projectile : projectile_ok g; o_recall : recall_ok g;
  o_ring : ring_ok g; o_pose : pose_ok (pose g)
}.

(** An entry is judged by its objects, its latches, its segment and its pose. *)
Lemma object_ok_ext g g' :
  engine_objects g' = engine_objects g -> latches g' = latches g -> weapon_segment g' = weapon_segment g ->
  pose g' = pose g -> object_ok g -> object_ok g'.
Proof.
  intros E1 E2 E3 E4 [H1 H2 H3 H4 H5 H6]. unfold attached_ok, sword_ok, projectile_ok, recall_ok, ring_ok in *.
  split; unfold attached_ok, sword_ok, projectile_ok, recall_ok, ring_ok; by rewrite ?E1, ?E2, ?E3, ?E4.
Qed.

Lemma object0_ok : object_ok RemoteGhost0.
Proof.
  split; unfold attached_ok, sword_ok, projectile_ok, recall_ok, ring_ok; cbn; try done; first [lia|apply pose_latch0_ok].
Qed.

(** Without the segment's invariant, the rest of it. *)
Lemma kept_objects g g' :
  kept g g' -> sword_ok g' -> ghost (engine_objects g) <> None -> object_ok g -> object_ok g'.
Proof.
  intros [_ E1 E2 E3 E4 E5 E6 E7] Hs Hg [H1 H2 H3 H4 H5 H6].
  split; unfold attached_ok, projectile_ok, recall_ok in *; [congruence|done|by rewrite E2, E3|by rewrite E4, E5|auto|by rewrite E6].
Qed.

(** * Ticks *)

Lemma weapon_objects env g :
  pt3 (target_weapon_pos (wire_state g)) -> ghost (engine_objects g) <> None -> object_ok g ->
  object_ok (tick_remote_weapon env g).1.
Proof. intros Ht Hg Hok. eapply kept_objects; [apply weapon_kept|by apply weapon_tick_ok; [|destruct Hok]|done|done]. Qed.

(** The fields a projectile's tick does not touch. *)
Record beside_projectile (g g' : RemoteGhost) : Prop := BesideProjectile {
  b_wire : wire_state g' = wire_state g;
  b_latch : latches g' = latches g; b_pose : pose g' = pose g;
  b_recall : recall_glow_component (engine_objects g') = recall_glow_component (engine_objects g);
  b_ring : recent_one_shot_components (engine_objects g') = recent_one_shot_components (engine_objects g);
  b_seg : seg_ok (weapon_segment g) -> seg_ok (weapon_segment g');
  b_drive : drive g' = drive g;
  b_ghost : ghost (engine_objects g') = ghost (engine_objects g)
}.

#[export] Instance beside_preorder : PreOrder beside_projectile.
Proof. split; [by split|]. intros ? ? ? [] []. split; try congruence. auto. Qed.

Ltac beside_fields := let h := fresh in let s := fresh in
  match goal with |- beside_projectile ?x _ => destruct x as [? ? h ? s ? ?] end;
  destruct h, s; split; try done; intros []; by split.

Lemma start_beside env g : beside_projectile g (start_projectile env g).1.
Proof.
  unfold start_projectile. cbv zeta. destruct (bool_decide _), (current_world env); try reflexivity.
  destruct (_ && _); [reflexivity|]. destruct (peer_asset env _); [|beside_fields].
  destruct (ghost _); [|beside_fields]. destruct (spawn_niagara_at_location _ _ _ _); beside_fields.
Qed.

Lemma projectile_beside env g : beside_projectile g (tick_remote_projectile env g).1.
Proof.
  unfold tick_remote_projectile. cbn [MIRROR_PEER_PROJECTILE negb]. cbv zeta.
  set (g1 := upd_handles _ g).
  assert (beside_projectile g g1) as H.
  { assert (forall h, recall_glow_component (forget_other_world (current_world env) h) = recall_glow_component h /\
      recent_one_shot_components (forget_other_world (current_world env) h) = recent_one_shot_components h /\
      ghost (forget_other_world (current_world env) h) = ghost h) as Hf.
    { intros h. unfold forget_other_world. destruct (projectile_component h), (current_world env); try done.
      destruct (projectile_component_world h); [|done]. case_bool_decide; by destruct h. }
    destruct (Hf (engine_objects g)) as (? & ? & ?). unfold g1. by destruct g. }
  clearbody g1. destruct (negb _).
  - unfold end_projectile. destruct (projectile_component (engine_objects g1)); cbn [fst]; (etrans; [exact H|]); beside_fields.
  - destruct (projectile_component (engine_objects g1)); [exact H|]. pose proof (start_beside env g1) as H2.
    destruct (start_projectile env g1). by etrans.
Qed.

Lemma projectile_objects env g :
  ghost (engine_objects g) <> None -> object_ok g -> object_ok (tick_remote_projectile env g).1.
Proof.
  intros Hg [H1 H2 H3 H4 H5 H6]. destruct (projectile_beside env g) as [_ E1 E5 E2 E3 E4].
  destruct (projectile_tick env g H3) as (H3' & _ & Eg & _).
  split; unfold attached_ok, sword_ok, recall_ok, ring_ok in *; [congruence| |done| | |].
  - rewrite E1. auto.
  - by rewrite E1, E2.
  - by rewrite E3.
  - by rewrite E5.
Qed.

Lemma moments_objects g : object_ok g -> object_ok (tick_moments g).1.
Proof. apply object_ok_ext; unfold tick_moments; cbv zeta; by destruct g. Qed.

(** The fields the empty-hand glow's tick does not touch. *)
Lemma recall_beside env g :
  let g' := (tick_remote_recall_glow env g).1 in
  wire_state g' = wire_state g /\ ghost (engine_objects g') = ghost (engine_objects g) /\ weapon_segment g' = weapon_segment g /\
  weapon_render_primed (latches g') = weapon_render_primed (latches g) /\
  projectile_component (engine_objects g') = projectile_component (engine_objects g) /\
  projectile_component_world (engine_objects g') = projectile_component_world (engine_objects g) /\
  recent_one_shot_components (engine_objects g') = recent_one_shot_components (engine_objects g) /\ pose g' = pose g /\
  drive g' = drive g.
Proof.
  unfold tick_remote_recall_glow. destruct (ghost (engine_objects g)) eqn:Ha; [|done].
  cbn [RECALL_GLOW_ENABLED negb]. cbv zeta. destruct g as [? ? h l ? ? ?], h, l. cbn in Ha. subst.
  destruct (Bool.eqb _ _); [done|]. destruct (target_recall_glow _); [|done].
  by destruct (fx_asset _ _), (weapon_mesh env).
Qed.

Lemma recall_objects env g :
  ghost (engine_objects g) <> None -> object_ok g -> object_ok (tick_remote_recall_glow env g).1.
Proof.
  intros Hg Hok. destruct (recall_beside env g) as (_ & E1 & E2 & E3 & E4 & E5 & E6 & E7 & _).
  destruct (tick_remote_recall_glow env g) as [g' calls] eqn:E. cbn [fst] in *.
  destruct (recall_tick env g g' calls Hg (o_recall _ Hok) E) as (Hr & _).
  destruct Hok as [H1 H2 H3 _ H5 H6].
  split; unfold attached_ok, sword_ok, projectile_ok, ring_ok in *; rewrite ?E1, ?E2, ?E3, ?E4, ?E5, ?E6, ?E7; done.
Qed.

Lemma vfx_objects env g :
  ghost (engine_objects g) <> None -> object_ok g -> object_ok (tick_remote_mirrored_vfx env g).1.
Proof.
  intros Hg Hok. unfold tick_remote_mirrored_vfx. cbn [MIRROR_PLAYER_VFX negb].
  destruct (ghost (engine_objects g)) as [actor|] eqn:Ha; [|done].
  destruct (foldl (mirror_row env) (g, []) (imap pair MIRRORED_EFFECTS)) as [g1 c1] eqn:Ef.
  destruct (rows_done env g _ g [] g1 c1 keys_distinct ltac:(reflexivity) ltac:(by split) Ef) as (Hu & _).
  cbn [fst]. apply (object_ok_ext g1); [by destruct g1..|]. destruct Hu, Hok as [H1 H2 H3 H4 H5 H6].
  split; unfold attached_ok, sword_ok, projectile_ok, recall_ok in *; [congruence|..]; rewrite ?uw_latch, ?uw_seg, ?uw_prj, ?uw_prj_world, ?uw_recall, ?uw_pose; auto.
Qed.

Lemma target_pt3 w : wire_ok w -> pt3 (target_weapon_pos w).
Proof.
  intros Hw. pose proof (wpn_pos_ok _ Hw) as Hf. pose proof (wpn_pos_wf _ Hw) as Hv.
  destruct (target_weapon_pos w) as [[x y] z]. unfold finite3 in Hf.
  apply andb_true_iff in Hf as [[? ?]%andb_true_iff ?]. by destruct Hv as (? & ? & ?).
Qed.

(** * What the ticks hand the engine *)

(** The places and the rotations are finite. *)
Definition call_finite (c : fx_call) : Prop :=
  match c with
  | SpawnAtLocation _ v yaw _ => finite3 v = true /\ isfinite yaw = true
  | WriteRelativeLocation _ v => finite3 v = true
  | SetWorldLocationAndRotation _ v r => finite3 v = true /\ finite3 r = true
  | SpawnAttached _ _ _ | SetVisibility _ _ | CallByName _ _ | DieFade _ | StartBlink => True
  end.
Definition calls_finite : list fx_call -> Prop := Forall call_finite.

(** The engine places the ghost at a finite location, and the offsets measured on the
    local player's own effects are small. *)
Definition small (d : double) : Prop := isfinite d = true /\ forall n m, d = DFin n m -> (m <= 2 ^ 2043)%N.
Record remote_env_ok (env : remote_env) : Prop := RemoteEnvOk {
  at_finite : pt3 (ghost_location (fx (props env)));
  offsets_small : forall i d, observed_world_offset (fx (props env)) i = Some d -> small d
}.

Lemma pt3_finite v : pt3 v -> finite3 v = true.
Proof. destruct v as [[x y] z]. intros ([_ E1] & [_ E2] & [_ E3]). unfold finite3. by rewrite E1, E2, E3. Qed.

Lemma drop_z_finite v : pt3 v -> finite3 (drop_z v FLOOR_DROP) = true.
Proof.
  destruct v as [[x y] z]. intros ([_ E1] & [_ E2] & [W E3]). unfold drop_z, finite3. rewrite E1, E2. cbn [andb].
  assert (FLOOR_DROP = DFin false (38 * scale)) as E by (by vm_compute).
  assert (38 * scale <= 2 ^ 2043)%N as Hle by (by vm_compute).
  unfold dsub. apply dadd_small; [done|done|by rewrite E|]. rewrite E. cbn [dneg]. intros n m E'. injection E' as _ <-. exact Hle.
Qed.

Lemma calls_on_finite o f : (forall c, calls_finite (f c)) -> calls_finite (calls_on o f).
Proof. intros Hf. destruct o; [apply Hf|constructor]. Qed.

Lemma fly_finite r : finite3 r = true -> wf3 r -> finite3 (fly_rotation r) = true.
Proof.
  destruct r as [[p y] ro]. intros F (_ & _ & W). unfold finite3 in *. cbn [fly_rotation] in *. apply andb_true_iff in F as [-> F].
  cbn [andb]. apply dadd_small; [done|done|by vm_compute|]. assert (of_Z 90 = DFin false (90 * scale)) as -> by (by vm_compute).
  assert (90 * scale <= 2 ^ 2043)%N as Hle by (by vm_compute). intros n m [= _ <-]. exact Hle.
Qed.

Lemma land_finite env g : pt3 (target_weapon_pos (wire_state g)) -> calls_finite (land_edge env g).2.
Proof.
  intros Ht%drop_z_finite. unfold land_edge. destruct (dne _ _); [|constructor]. cbv zeta.
  revert Ht. generalize (drop_z (target_weapon_pos (wire_state g)) FLOOR_DROP). intros v Ht.
  set (dust := match (_ =? _)%Z with true => _ | false => _ end).
  assert (calls_finite dust.2) as H.
  { unfold dust. destruct (_ =? _)%Z; [|constructor]. destruct (fx_asset _ _); constructor; [done|constructor]. }
  clearbody dust. destruct dust as [g2 cs]. cbn [snd] in H.
  destruct (_ =? _)%Z; [|done]. destruct (weapon_glow_component _); [done|]. destruct (bool_decide _); [done|].
  destruct (peer_asset env _); [|done]. apply Forall_app. split; [done|]. constructor; [done|constructor].
Qed.

Lemma bounce_finite env g : pt3 (render_weapon (weapon_segment g)) -> calls_finite (bounce env g).2.
Proof.
  intros Ht%pt3_finite. unfold bounce. cbv zeta. destruct (dlt _ dzero); [constructor|].
  destruct (dlt _ _); [|constructor]. apply calls_on_finite. intros a. constructor; [done|constructor].
Qed.

Lemma weapon_finite env g :
  pt3 (target_weapon_pos (wire_state g)) -> finite3 (fly_rotation (target_weapon_rot (wire_state g))) = true ->
  sword_ok g -> calls_finite (tick_remote_weapon env g).2.
Proof.
  intros Ht Hrot Hs. unfold tick_remote_weapon. destruct (weapon_prop_skipped env); [constructor|].
  destruct (ghost (engine_objects g)); [|constructor]. destruct (negb _).
  { unfold put_away. cbn [snd]. repeat (apply Forall_app; split);
      try (destruct (match hand env with Some _ => _ | None => _ end)); try (apply calls_on_finite; intros c); repeat constructor. }
  cbv zeta. destruct (ensure_flyer_fields env g) as (Ew & El & _ & _ & He & _).
  revert Ew El He. generalize (ensure_flyer env g). intros g1 Ew El He.
  destruct (weapon_fly_component (engine_objects g1)) as [fly|]; [|constructor].
  rewrite <- Ew in Ht, Hrot. unfold sword_ok in Hs. rewrite <- El in Hs.
  pose proof (glide_seg_ok (now_ms env) _ (weapon_render_primed (latches g1)) (weapon_segment g1) Ht
    (fun Hp => He (Hs Hp))) as Hseg.
  match goal with |- context [land_edge env ?x] => set (g2 := x) end.
  assert (wire_state g2 = wire_state g1 /\ weapon_segment g2 = glide (now_ms env) (target_weapon_pos (wire_state g1))
            (weapon_render_primed (latches g1)) (weapon_segment g1)) as [E1 E2] by (by destruct g1).
  clearbody g2. rewrite <- E2 in Hseg. rewrite <- E1 in Ht, Hrot |- *. clear E1 E2.
  pose proof (land_drawn env g2) as D1. pose proof (land_finite env g2 Ht) as F1.
  destruct (land_edge env g2) as [g3 landing]. cbn [fst snd] in *.
  pose proof (bounce_drawn env g3) as D2. pose proof (bounce_finite env g3) as F2.
  destruct (bounce env g3) as [g4 hits]. cbn [fst snd] in *.
  assert (pt3 (render_weapon (weapon_segment g3))) as Hr by (rewrite (dr_render _ _ D1); apply Hseg).
  assert (finite3 (render_weapon (weapon_segment g4)) = true) as Hr4
    by (rewrite (dr_render _ _ D2); by apply pt3_finite).
  repeat (apply Forall_app; split); [|repeat constructor|done|by apply F2| |].
  - destruct (match hand env with Some _ => _ | None => _ end); [apply calls_on_finite; intros ?|]; repeat constructor.
  - destruct (_ =? _)%Z; [|constructor]. apply calls_on_finite. intros c. repeat constructor.
    by apply drop_z_finite.
  - repeat constructor; [done|]. by rewrite (dr_wire _ _ D2), (dr_wire _ _ D1).
Qed.

Lemma projectile_finite env g :
  finite3 (target_projectile_pos (wire_state g)) = true -> finite3 (target_projectile_rot (wire_state g)) = true ->
  calls_finite (tick_remote_projectile env g).2.
Proof.
  intros Ht Hr. unfold tick_remote_projectile. cbn [MIRROR_PEER_PROJECTILE negb]. cbv zeta.
  set (g1 := upd_handles _ g). assert (wire_state g1 = wire_state g) as E by done. clearbody g1. rewrite <- E in Ht, Hr.
  destruct (negb _).
  - unfold end_projectile. destruct (projectile_component _); repeat constructor.
  - assert (calls_finite (start_projectile env g1).2) as Hs.
    { unfold start_projectile. cbv zeta. destruct (bool_decide _), (current_world env); try constructor.
      destruct (_ && _); [constructor|]. destruct (peer_asset env _); [|constructor].
      destruct (ghost _); [|constructor]. destruct (spawn_niagara_at_location _ _ _ _); by repeat constructor. }
    pose proof (start_beside env g1) as [Eb _ _ _ _].
    destruct (projectile_component (engine_objects g1)).
    + apply Forall_app. split; [constructor|]. apply calls_on_finite. intros c. by repeat constructor.
    + destruct (start_projectile env g1) as [g2 cs]. cbn [fst snd] in *. rewrite <- Eb in Ht, Hr. apply Forall_app. split; [done|].
      apply calls_on_finite. intros c. by repeat constructor.
Qed.

Lemma recall_finite env g : calls_finite (tick_remote_recall_glow env g).2.
Proof.
  assert (forall c, calls_finite (take_down c)) as Hd by (intros c; repeat constructor).
  unfold tick_remote_recall_glow. destruct (ghost _); [|constructor]. cbn [RECALL_GLOW_ENABLED negb]. cbv zeta.
  match goal with |- context [if recall_glow_swept _ then ?a else ?b] =>
    assert (calls_finite (if recall_glow_swept (latches g) then a else b)) as H end.
  { destruct (recall_glow_swept _); [constructor|]. induction (own_glows env (engine_objects g)); [constructor|].
    cbn. by repeat constructor. }
  revert H. match goal with |- calls_finite ?x -> _ => generalize x end. intros swept H.
  destruct (Bool.eqb _ _); [done|]. destruct (target_recall_glow _).
  - destruct (fx_asset _ _), (weapon_mesh env); try done. apply Forall_app. split; [done|repeat constructor].
  - apply Forall_app. split; [done|]. by apply calls_on_finite.
Qed.

Definition row_finite (e : MirroredEffect) : Prop := small (world_offset_z e) /\ finite3 (attach_offset e) = true.

Lemma rows_finite : Forall row_finite MIRRORED_EFFECTS.
Proof.
  pose (ok e := match world_offset_z e with DFin _ m => (m <=? 2 ^ 2043)%N | _ => false end && finite3 (attach_offset e)).
  assert (forallb ok MIRRORED_EFFECTS = true) as H by (by vm_compute).
  apply list.Forall_forall. intros e He%list_elem_of_In. rewrite forallb_forall in H. specialize (H e He). unfold ok in H.
  apply andb_true_iff in H as [H1 H2]. split; [|exact H2]. destruct (world_offset_z e) as [| |n m]; [discriminate H1..|].
  split; [reflexivity|]. intros n' m' E. injection E as _ <-. by apply N.leb_le in H1.
Qed.

Lemma sustained_finite env e wanted g : row_finite e -> calls_finite (mirror_sustained env e wanted g).2.
Proof.
  intros [_ Hf]. unfold mirror_sustained. destruct wanted, (vfx_components _ !! key e); try (by repeat constructor).
  destruct (fx_asset env (asset e)), (attach_component env (attach_prop e)); try constructor; [done|].
  apply Forall_app. split.
  - destruct (spawn_niagara_attached _ _ _ _); [|constructor]. case_bool_decide; [|constructor]. by repeat constructor.
  - destruct (MIRROR_DEATH_FADE && _); repeat constructor.
Qed.

Lemma one_shot_finite env i e count g :
  pt3 (ghost_location env) -> (forall d, observed_world_offset env i = Some d -> small d) -> row_finite e ->
  finite3 (target_rot (wire_state g)) = true -> calls_finite (mirror_one_shot env i e count g).2.
Proof.
  intros Hl Ho [He _] Hyaw. unfold mirror_one_shot. destruct count; [|constructor]. cbv zeta.
  destruct (vfx_counts g !! key e); [|constructor]. destruct (negb _); [constructor|].
  destruct (dle _ _); [constructor|]. destruct (fx_asset env (asset e)); [|constructor].
  assert (small (default (world_offset_z e) (observed_world_offset env i))) as Hs
    by (destruct (observed_world_offset env i) eqn:E; [by apply Ho|done]).
  revert Hs. generalize (default (world_offset_z e) (observed_world_offset env i)). intros off [Hd Hm].
  destruct (ghost_location env) as [[px py] pz]. destruct Hl as ([_ Fx] & [_ Fy] & [Wz Fz]).
  destruct (dadd_small pz off Wz Fz Hd Hm) as [F _]. repeat constructor; [unfold finite3; by rewrite Fx, Fy, F|].
  destruct (use_performer_yaw e); [|done]. change (wire_state (g <| vfx_counts := <[key e := d]> (vfx_counts g) |>)) with (wire_state g).
  destruct (target_rot (wire_state g)) as [[? ?] ?]. unfold finite3 in Hyaw. by apply andb_true_iff in Hyaw as [[_ ?]%andb_true_iff _].
Qed.

Lemma mirrored_finite env g :
  pt3 (ghost_location env) -> (forall i d, observed_world_offset env i = Some d -> small d) ->
  finite3 (target_rot (wire_state g)) = true -> calls_finite (tick_remote_mirrored_vfx env g).2.
Proof.
  intros Hl Ho Hyaw. unfold tick_remote_mirrored_vfx. cbn [MIRROR_PLAYER_VFX negb]. destruct (ghost _); [|constructor].
  assert (Forall (fun ie : nat * MirroredEffect => row_finite ie.2) (imap pair MIRRORED_EFFECTS)) as Hr.
  { apply list.Forall_forall. intros [i e] Hi. apply list_elem_of_lookup in Hi as [k Hk].
    rewrite list_lookup_imap in Hk. destruct (MIRRORED_EFFECTS !! k) eqn:E; [|done]. simplify_eq/=.
    pose proof rows_finite as Hall. rewrite Forall_lookup in Hall. by eapply Hall. }
  assert (forall rows g calls, Forall (fun ie : nat * MirroredEffect => row_finite ie.2) rows -> calls_finite calls ->
    finite3 (target_rot (wire_state g)) = true -> calls_finite (foldl (mirror_row env) (g, calls) rows).2) as Hfold.
  { clear Hr Hyaw g. induction rows as [|[i e] rows IH]; intros g calls Hr Hc Hyaw; [done|]. inversion_clear Hr as [|? ? He Hrest].
    cbn [foldl]. unfold mirror_row at 2. destruct (vfx_lookup _ _) as [wanted count].
    match goal with |- context [let (_, _) := ?b in _] =>
      assert (calls_finite b.2 /\ unwritten g b.1) as [Hb Hu];
        [|destruct b as [g' cs]; cbn [fst snd] in *; apply IH; [done|by apply Forall_app|by rewrite (uw_wire _ _ Hu)]] end.
    cbn in He. destruct (world_spawned e).
    - destruct wanted; cbn [fst snd]; [|split; [by constructor|reflexivity]]. split; [apply one_shot_finite; [done|intros d; apply Ho|done|done]|].
      by apply (one_shot_row env i e count g _ _ (surjective_pairing _)).
    - split; [by apply sustained_finite|]. by apply (sustained_row env e wanted g _ _ (surjective_pairing _)). }
  specialize (Hfold _ g [] Hr ltac:(constructor) Hyaw). by destruct (foldl _ _ _).
Qed.

(** * The input tracks *)

Lemma write_axes_length e held : length held = 8 -> length (write_axes e held) = 8.
Proof. intros H. unfold write_axes. rewrite length_app, length_take, length_drop. lia. Qed.

Lemma apply_edge_ok e t : edge_ok e -> track_ok t -> track_ok (apply_edge e t).
Proof.
  intros [_ _ Hm Hx _] [H1 H2 H3 H4 H5 H6 H7]. destruct t. split; cbn in *; try done; [by apply write_axes_length|lia].
Qed.

Lemma apply_from_ok ts es : forall t,
  Forall edge_ok es -> length es <= GHOST_INPUT_EDGE_CAP -> track_ok t -> track_ok (apply_from ts es t).
Proof.
  induction es as [|e es IH]; intros t He Hl Ht.
  - destruct t, Ht. by split; cbn in *; try done; lia.
  - inversion_clear He. cbn [apply_from]. destruct (_ <=? _)%double.
    + apply IH; [done| |by apply apply_edge_ok]. cbn [length] in Hl. lia.
    + destruct t, Ht. split; cbn in *; try done. by constructor.
Qed.

Lemma apply_due_ok ts t : track_ok t -> track_ok (apply_due ts t).
Proof. intros Ht. apply apply_from_ok; apply Ht. Qed.

Lemma tick_ghost_inputs_ok env id ts p :
  map_Forall (fun _ t => track_ok t) (ghost_inputs p) ->
  let p' := (tick_ghost_inputs env id ts p).1 in
  remotes p' = remotes p /\ map_Forall (fun _ t => track_ok t) (ghost_inputs p').
Proof.
  intros H. unfold tick_ghost_inputs. destruct (ghost_inputs p !! id) as [t|] eqn:E; [|done]. cbv zeta.
  assert (map_Forall (fun _ t => track_ok t) (<[id := apply_due ts t]> (ghost_inputs p))) as H'.
  { apply map_Forall_insert_2; [|done]. apply apply_due_ok. by eapply H. }
  revert H'. generalize (apply_due ts t). intros t' H'.
  destruct (bool_decide (_ = id) && _ && _); [|done]. by destruct (observe_panel _ _ _ _ _ _ _).
Qed.

(** * The turn *)

(** An entry in its turn: it has a pawn. *)
Record turn_ok (g : RemoteGhost) : Prop := TurnOk {
  t_ghost : ghost (engine_objects g) <> None; t_wire : wire_ok (wire_state g); t_object : object_ok g
}.

Definition ghost_call_ok (c : ghost_call) : Prop :=
  match c with Fx c => call_finite c | Pose c => within c | Tag _ | PanelText _ => True end.

(** The name tag's part of it: nothing of the entry but the tag. *)
Lemma tag_turn env id p g :
  let g' := (tick_tag env id p g).1 in
  ghost (engine_objects g') = ghost (engine_objects g) /\ wire_state g' = wire_state g /\ (turn_ok g -> turn_ok g').
Proof.
  cbv zeta. assert (tag_fields g (tick_tag env id p g).1) as H.
  { unfold tick_tag. destruct (nametag_hidden _); [done|]. rewrite calling_fst. apply update_fields. }
  revert H. generalize (tick_tag env id p g).1. intros g' H. unfold tag_fields in H.
  destruct g as [? ? [] [] ? ? ? ?], g' as [? ? [] [] ? ? ? ?]. injection H as. subst. do 2 (split; [done|]).
  intros [T1 T2 [H1 H2 H3 H4 H5 H6]]. split; [done..|]. by split.
Qed.

Lemma tag_calls_ok env id p g : Forall ghost_call_ok (tick_tag env id p g).2.
Proof.
  unfold tick_tag. destruct (nametag_hidden _); [constructor|]. rewrite calling_snd. apply Forall_map, list.Forall_forall. by intros c _.
Qed.

Section Turn.
Context (env : remote_env).

Definition good (step : RemoteGhost -> RemoteGhost * list ghost_call) : Prop :=
  forall g, turn_ok g -> turn_ok (step g).1 /\ (remote_env_ok env -> Forall ghost_call_ok (step g).2).

Lemma good_then f h : good f -> good h -> good (f ;> h).
Proof.
  intros Hf Hh g Hg. destruct (Hf g Hg) as [T1 C1]. destruct (Hh _ T1) as [T2 C2].
  rewrite and_then_fst, and_then_snd. split; [done|]. intros He. apply Forall_app. auto.
Qed.

Lemma pose_kept_turn g g' : pose_kept g g' -> turn_ok g -> turn_ok g'.
Proof.
  intros [E1 E2 E3 E4 E5 Ep] [H1 H2 [O1 O2 O3 O4 O5 O6]]. split; rewrite ?E1, ?E2; try done.
  split; unfold attached_ok, sword_ok, projectile_ok, recall_ok, ring_ok in *; rewrite ?E2, ?E3, ?E4, ?E5; auto.
Qed.

Lemma good_pose f : tame f -> good (calling Pose f).
Proof.
  intros Hf g Hg. rewrite calling_fst, calling_snd. destruct (Hf g) as [K W]. split; [by eapply pose_kept_turn|].
  intros _. apply Forall_map. apply W; apply Hg.
Qed.

(** A sequence of blocks, one by one. *)
Ltac tame_blocks :=
  repeat match goal with |- tame (_ ;> _) => apply tame_then end;
  match goal with |- tame (emit _) => apply tame_emit; intros ? ?; auto with within | _ => auto with tame end.

(** A tick of [TickFacts]. *)
Lemma good_fx f :
  (forall g, turn_ok g -> wire_state (f g).1 = wire_state g /\ ghost (engine_objects (f g).1) = ghost (engine_objects g)) ->
  (forall g, turn_ok g -> object_ok (f g).1) -> (forall g, turn_ok g -> remote_env_ok env -> calls_finite (f g).2) ->
  good (calling Fx f).
Proof.
  intros Hk Ho Hc g Hg. rewrite calling_fst, calling_snd. destruct (Hk g Hg) as [E1 E2]. split.
  - split; [rewrite E2|rewrite E1|]; [apply Hg|apply Hg|auto].
  - intros He. apply Forall_map. by apply Hc.
Qed.

Lemma good_weapon : good (calling Fx (tick_remote_weapon (props env))).
Proof.
  apply good_fx; intros g [Hg Hw Ho]; pose proof (target_pt3 _ Hw).
  - by destruct (weapon_kept (props env) g).
  - by apply weapon_objects.
  - intros _. apply weapon_finite; [done|apply fly_finite; apply Hw|apply Ho].
Qed.

Lemma good_projectile : good (calling Fx (tick_remote_projectile (props env))).
Proof.
  apply good_fx; intros g [Hg Hw Ho].
  - by destruct (projectile_tick (props env) g (o_projectile _ Ho)) as (_ & E1 & E2 & _).
  - by apply projectile_objects.
  - intros _. apply projectile_finite; apply Hw.
Qed.

Lemma good_moments : good (calling Fx tick_moments).
Proof.
  apply good_fx; intros g [Hg Hw Ho].
  - unfold tick_moments. cbv zeta. by destruct g.
  - by apply moments_objects.
  - intros _. unfold tick_moments. cbv zeta. cbn [snd]. apply Forall_app. split; destruct (_ && _)%bool; repeat constructor.
Qed.

Lemma good_recall : good (calling Fx (tick_remote_recall_glow (props env))).
Proof.
  apply good_fx; intros g [Hg Hw Ho].
  - by destruct (recall_beside (props env) g) as (E1 & E2 & _).
  - by apply recall_objects.
  - intros _. apply recall_finite.
Qed.

Lemma good_vfx : good (calling Fx (tick_remote_mirrored_vfx (fx (props env)))).
Proof.
  apply good_fx; intros g [Hg Hw Ho].
  - destruct (ghost (engine_objects g)) as [actor|] eqn:Ea; [|done].
    destruct (tick_remote_mirrored_vfx (fx (props env)) g) as [g' calls] eqn:E.
    destruct (tick_done _ _ _ _ _ Ea E) as (_ & E1 & E2 & _). by rewrite Ea in E2.
  - by apply vfx_objects.
  - intros [Hl Hoff]. apply mirrored_finite; [done|done|apply Hw].
Qed.

Lemma good_head a : good (tick_head env a).
Proof.
  apply good_pose. tame_blocks.
Qed.

Lemma good_placed a : good (tick_placed env a).
Proof.
  apply good_then; [apply good_then|apply good_projectile]; [|apply good_weapon].
  apply good_pose, tame_emit. intros g Hw. apply within_one. split; apply Hw.
Qed.

Lemma good_tail a : good (tick_tail env a).
Proof.
  apply good_then; [apply good_then|].
  - apply good_then; [apply good_then|apply good_vfx]; [apply good_moments|apply good_recall].
  - apply good_pose. tame_blocks.
  - intros g. unfold tick_pulsed. cbv zeta. generalize (land_rise g || jump_rise g). intros edge. revert g.
    apply good_pose. tame_blocks.
Qed.

Lemma retry_ambient_turn tick stripped g : turn_ok g -> turn_ok (retry_ambient tick stripped g).
Proof.
  apply pose_kept_turn. unfold retry_ambient. destruct (_ && _); [|reflexivity]. pose_fields.
Qed.

(** The whole turn. *)
Lemma awake_ok id a p g :
  turn_ok g -> map_Forall (fun _ t => track_ok t) (ghost_inputs p) ->
  let '(p', g', calls) := tick_awake env id a p g in
  turn_ok g' /\ remotes p' = remotes p /\ map_Forall (fun _ t => track_ok t) (ghost_inputs p') /\
  (remote_env_ok env -> Forall ghost_call_ok calls).
Proof.
  intros Hg Hp. unfold tick_awake.
  destruct (good_head a _ (retry_ambient_turn (PeerProps.tick (props env)) (ambient_stripped env) g Hg)) as [T1 C1].
  destruct (tick_head env a _) as [g1 c1]. cbn [fst snd] in *.
  destruct (tick_ghost_inputs_ok (panel env) id (target_ts (wire_state g1)) p Hp) as [E1 Hp1].
  destruct (tick_ghost_inputs _ _ _ p) as [p1 text]. cbn [fst] in *.
  destruct (good_placed a g1 T1) as [T2 C2]. destruct (tick_placed env a g1) as [g2 c2]. cbn [fst snd] in *.
  pose proof (sweeps_within (fun i => reads env (6 + i)) (view env) (toggles env) (PeerProps.tick (props env)) a g2 (statics p1)) as C3.
  destruct (tick_sweeps _ _ _ _ _ _ _) as [s c3]. cbn [snd] in C3.
  destruct (hurt_kept (hurt env) id a s g2) as [K4 C4].
  destruct (hurt_reaction _ _ _ _) as [[s' g3] c4]. cbn [fst snd] in *. pose proof (pose_kept_turn _ _ K4 T2) as T3.
  destruct (contact_tame (contact env) (local_player env) (g_chaser_contact_mode p1) id a g3) as [K5 C5].
  destruct (chaser_contact _ _ _ _ _ g3) as [g4 c5]. cbn [fst snd] in *. pose proof (pose_kept_turn _ _ K5 T3) as T4.
  specialize (C5 (t_wire _ T3) (o_pose _ (t_object _ T3))).
  destruct (good_tail a g4 T4) as [T6 C6]. destruct (tick_tail env a g4) as [g5 c6]. cbn [fst snd] in *.
  split_and!; try done. intros He. repeat (apply Forall_app; split); auto.
  - destruct text; repeat constructor.
  - apply Forall_map. by repeat apply within_app.
Qed.
End Turn.
