(* ===== verification/PoseProps.v ===== *)
(** The pose mirror: the landing pulses, the latches that call on an edge, the hurt
    reaction and the contact of a chaser. *)
From S2P Require Import Prelude Float64 JsonString JsonBounds RemoteGhost BridgeLine VfxMirror PeerProps.
From S2P Require Import PoseMirror Chaser.
From Stdlib Require Import ZArith.

(** * The landing pulses *)

(** The ticks of the pulses under a sequence of wire states. *)
Fixpoint pulse_run (r : reflection) (a : Z) (ws : list wire) (g : RemoteGhost) : list (list pose_call) :=
  match ws with
  | [] => []
  | w :: ws => let (g', calls) := tick_pulses r a (g <| wire_state := w |>) in calls :: pulse_run r a ws g'
  end.

(** Whether each count rises above the highest acted on. *)
Fixpoint rises (last : double) (counts : list double) : list bool :=
  match counts with
  | [] => []
  | c :: counts => (c >? last)%double :: rises (if (c >? last)%double then c else last) counts
  end.

(** One of the last three ticks, [k] included, had a rise. *)
Definition recent (rs : list bool) (k : nat) : bool := existsb id (drop (k - 2) (take (S k) rs)).

(** The windows alone. *)
Fixpoint hold_run (rs : list bool) (left_ : Z) : list bool :=
  match rs with
  | [] => []
  | b :: rs => let (w, left_) := hold_window b left_ in w :: hold_run rs left_
  end.

Lemma recent_cons b rs k :
  recent (b :: rs) (S k) = recent rs k || (b && (k <? 2)).
Proof.
  unfold recent. change (take (S (S k)) (b :: rs)) with (b :: take (S k) rs).
  destruct k as [|[|k]].
  - cbn. by rewrite andb_true_r, orb_comm.
  - cbn. by rewrite andb_true_r, orb_comm.
  - rewrite (proj2 (Nat.ltb_ge (S (S k)) 2)) by lia. rewrite andb_false_r, orb_false_r.
    replace (S (S (S k)) - 2) with (S k) by lia. by replace (S (S k) - 2) with k by lia.
Qed.

Lemma hold_run_recent rs : forall n k,
  (0 <= n <= PULSE_HOLD_TICKS)%Z -> k < length rs ->
  hold_run rs n !! k = Some (recent rs k || (Z.of_nat k <? n)%Z).
Proof.
  unfold PULSE_HOLD_TICKS.
  induction rs as [|b rs IH]; intros n k Hn Hk; cbn [length] in Hk; [lia|].
  cbn [hold_run]. unfold hold_window, PULSE_HOLD_TICKS.
  set (m := if b then 3%Z else n). destruct k as [|k].
  - cbn [lookup list_lookup]. f_equal. unfold recent, m. cbn. rewrite orb_false_r.
    destruct b; cbn; [done|]. apply Z.gtb_ltb.
  - change ((?x :: ?l) !! S k) with (l !! k). rewrite IH; [|unfold m; destruct b, (_ >? 0)%Z eqn:E; lia|lia].
    f_equal. rewrite recent_cons. unfold m. destruct b; cbn [andb].
    + rewrite <- orb_assoc. f_equal. destruct (Nat.ltb_spec k 2), (Z.ltb_spec (Z.of_nat k) 2), (Z.ltb_spec (Z.of_nat (S k)) n);
        cbn; try done; lia.
    + rewrite orb_false_r. f_equal. destruct (n >? 0)%Z eqn:E; lia.
Qed.

Lemma pulse_run_windows r a abp : forall ws g,
  obj r a "animBPref" = Some abp -> has r abp "landed?" = true -> has r abp "jumped?" = true ->
  pulse_run r a ws g
  = zip_with (fun l j => [WriteBool abp "landed?" l; WriteBool abp "jumped?" j])
      (hold_run (rises (last_seen_land_count (counters_seen g)) (map target_land_count ws)) (landed_hold_ticks (pose g)))
      (hold_run (rises (last_seen_jump_count (counters_seen g)) (map target_jump_count ws)) (jumped_hold_ticks (pose g))).
Proof.
  intros ws g Ho Hl Hj. revert g. induction ws as [|w ws IH]; intros g; [done|]. cbn [pulse_run map rises hold_run].
  unfold tick_pulses. cbv zeta. unfold land_rise, jump_rise, with_obj. rewrite Ho. unfold write_bool. rewrite Hl, Hj.
  destruct g as [? [] ? ? ? ? ? []]. cbn -[hold_window dlt].
  destruct (hold_window (dlt _ _) landed_hold_ticks) as [wl ll], (hold_window (dlt _ _) jumped_hold_ticks) as [wj lj].
  cbn -[hold_window dlt zip_with]. rewrite IH. cbn -[hold_window dlt]. f_equal.
  by destruct (dlt _ _), (dlt _ _).
Qed.

Lemma hold_run_length rs : forall n, length (hold_run rs n) = length rs.
Proof. induction rs as [|b rs IH]; intros n; [done|]. cbn. by rewrite IH. Qed.
Lemma rises_length cs : forall last, length (rises last cs) = length cs.
Proof. induction cs as [|c cs IH]; intros last; [done|]. cbn. by rewrite IH. Qed.

(** A landing or a jump is written as a pulse of exactly three ticks: starting with
    no window open, at every tick of any sequence of samples the animation is told
    "landed" exactly when the peer's landing counter rose above all it had acted on
    within the last three ticks, and the same for "jumped"; a rise inside a window
    restarts it, and no rise is missed or told twice. *)
Theorem pulses_last_three_ticks (r : reflection) (a abp : Z) (ws : list wire) (g : RemoteGhost) (k : nat)
    (Habp : obj r a "animBPref" = Some abp)
    (Hland : has r abp "landed?" = true) (Hjump : has r abp "jumped?" = true)
    (H0 : landed_hold_ticks (pose g) = 0%Z) (H1 : jumped_hold_ticks (pose g) = 0%Z) (Hk : k < length ws) :
  pulse_run r a ws g !! k
  = Some [WriteBool abp "landed?" (recent (rises (last_seen_land_count (counters_seen g)) (map target_land_count ws)) k);
          WriteBool abp "jumped?" (recent (rises (last_seen_jump_count (counters_seen g)) (map target_jump_count ws)) k)].
Proof.
  rewrite (pulse_run_windows r a abp) by done. rewrite H0, H1.
  rewrite lookup_zip_with, !hold_run_recent by (unfold PULSE_HOLD_TICKS; rewrite ?rises_length, ?length_map; lia).
  cbn. rewrite (proj2 (Z.ltb_ge (Z.of_nat k) 0)) by lia. by rewrite !orb_false_r.
Qed.

(** A peer that lands twice, with a jump between, on a ghost whose animation resolves. *)
Definition pulse_reflection : reflection :=
  {| obj := fun _ _ => Some 20%Z; num := fun _ _ => None; flag := fun _ _ => None; raw_flag := fun _ _ => None;
     objs := fun _ _ => None; has := fun _ _ => true; has_fn := fun _ _ => true |}.
Definition landing_wires : list wire :=
  map (fun '(l, j) => wire0 <| target_land_count := of_Z l |> <| target_jump_count := of_Z j |>)
    [(1, 0); (1, 0); (2, 1); (2, 1); (2, 1); (2, 1)]%Z.
Example pulses_last_three_ticks_witness :
  forallb (fun k => bool_decide (recent (rises dzero (map target_land_count landing_wires)) k
                                 = nth k [true; true; true; true; true; false] false)) (seq 0 6) = true /\
  pulse_run pulse_reflection 1 landing_wires RemoteGhost0 !! 4
  = Some [WriteBool 20 "landed?" true; WriteBool 20 "jumped?" true] /\
  pulse_run pulse_reflection 1 landing_wires RemoteGhost0 !! 5
  = Some [WriteBool 20 "landed?" false; WriteBool 20 "jumped?" false].
Proof.
  split; [by vm_compute|]. split.
  - refine (eq_trans (pulses_last_three_ticks pulse_reflection 1 20 landing_wires RemoteGhost0 4
      eq_refl eq_refl eq_refl eq_refl eq_refl _) _); [cbn; lia|by vm_compute].
  - refine (eq_trans (pulses_last_three_ticks pulse_reflection 1 20 landing_wires RemoteGhost0 5
      eq_refl eq_refl eq_refl eq_refl eq_refl _) _); [cbn; lia|by vm_compute].
Defined.

(** * The calls made on an edge *)

Section Edge.
(** A block that calls when what the peer shows differs from what was last told. *)
Context (block : RemoteGhost -> RemoteGhost * list pose_call).
Context (want : wire -> bool) (told : RemoteGhost -> bool) (on off : list pose_call).
Context (Htold : forall g, told (block g).1 = want (wire_state g)).
Context (Hcalls : forall g, (block g).2 = if Bool.eqb (want (wire_state g)) (told g) then []
                                          else if want (wire_state g) then on else off).
Context (Hkeep : forall g w, told (g <| wire_state := w |>) = told g).

Fixpoint edge_run (ws : list wire) (g : RemoteGhost) : RemoteGhost * list (list pose_call) :=
  match ws with
  | [] => (g, [])
  | w :: ws => let (g, calls) := block (g <| wire_state := w |>) in
               let (g, rest) := edge_run ws g in (g, calls :: rest)
  end.

(** On and off in turn, the first of the two as given. *)
Fixpoint in_turn (first : bool) (n : nat) : list pose_call :=
  match n with 0 => [] | S n => (if first then on else off) ++ in_turn (negb first) n end.

Lemma edge_run_alternates : forall ws g,
  exists n, concat (edge_run ws g).2 = in_turn (negb (told g)) n /\
    told (edge_run ws g).1 = List.last (told g :: map want ws) false /\
    Nat.odd n = xorb (told g) (told (edge_run ws g).1).
Proof.
  intros ws. induction ws as [|w ws IH]; intros g; cbn [edge_run].
  { exists 0. cbn. by destruct (told g). }
  pose proof (Htold (g <| wire_state := w |>)) as H1. pose proof (Hcalls (g <| wire_state := w |>)) as H2.
  rewrite Hkeep in H2. change (wire_state (g <| wire_state := w |>)) with w in H1, H2.
  destruct (block _) as [g1 c1]. cbn [fst snd] in H1, H2.
  destruct (IH g1) as (n & E1 & E2 & E3). destruct (edge_run ws g1) as [g2 cs]. cbn [fst snd concat] in *.
  assert (told g2 = List.last (told g :: map want (w :: ws)) false) as Hl.
  { rewrite E2, H1. by destruct ws. }
  rewrite E1, H1, H2. destruct (want w) eqn:Ew, (told g) eqn:Et; cbn [Bool.eqb app negb].
  - exists n. rewrite H1 in E3. by rewrite E3.
  - exists (S n). cbn [in_turn negb]. rewrite H1 in E3. rewrite Nat.odd_succ, <- Nat.negb_odd, E3. by destruct (told g2).
  - exists (S n). cbn [in_turn negb]. rewrite H1 in E3. rewrite Nat.odd_succ, <- Nat.negb_odd, E3. by destruct (told g2).
  - exists n. rewrite H1 in E3. by rewrite E3.
Qed.
End Edge.

(** The wall run, by the marker state alone. *)
Definition on_wall (w : wire) : bool := (clamp_to_uint8 (target_move_state w) =? WALL_RUN_MOVE_STATE)%Z.
Definition told_on_wall (g : RemoteGhost) : bool := (last_wallrun_move_state (pose g) =? WALL_RUN_MOVE_STATE)%Z.

(** The pawn's own functions are called on changes only, and in turn: over any
    sequence of samples the crouch input is pressed and released alternately, the bubble
    flash is switched on and off alternately, and the wall run is started and ended
    alternately, each beginning with the opposite of what the ghost was last told and
    ending with what the last sample shows. *)
Theorem edges_alternate (r : reflection) (a : Z) (ws : list wire) (g : RemoteGhost) :
  (exists n, concat (edge_run (crouch_input a) ws g).2
     = in_turn [Call a CROUCH_PRESS] [Call a CROUCH_RELEASE] (negb (crouch_input_shrunk (latches g))) n /\
     crouch_input_shrunk (latches (edge_run (crouch_input a) ws g).1)
     = List.last (crouch_input_shrunk (latches g) :: map peer_shrunk ws) false) /\
  (exists n, concat (edge_run (bubble_flash a) ws g).2
     = in_turn [CallBool a "changeBubbleChargedJump" "hasBubbleChargedJump" true; CallBool a "StartBubbleJumpFlash" "Condition" true]
         [CallBool a "changeBubbleChargedJump" "hasBubbleChargedJump" false; CallBool a "StartBubbleJumpFlash" "Condition" false]
         (negb (ghost_bubble_flash_on (pose g))) n /\
     ghost_bubble_flash_on (pose (edge_run (bubble_flash a) ws g).1)
     = List.last (ghost_bubble_flash_on (pose g) :: map peer_flash_on ws) false) /\
  (exists n, concat (edge_run (wall_run r a) ws g).2
     = in_turn (Call a "doWallRun" :: with_obj r a "wallRideSFX" (stop_audio r))
         (with_obj r a "wallRideVFX" (fun vfx => [Call vfx "Deactivate"]) ++ with_obj r a "wallRideSFX" (stop_audio r))
         (negb (told_on_wall g)) n /\
     told_on_wall (edge_run (wall_run r a) ws g).1 = List.last (told_on_wall g :: map on_wall ws) false).
Proof.
  split_and!.
  - destruct (edge_run_alternates (crouch_input a) peer_shrunk (fun g => crouch_input_shrunk (latches g))
      [Call a CROUCH_PRESS] [Call a CROUCH_RELEASE]) with (ws := ws) (g := g) as (n & H1 & H2 & _); [..|by exists n].
    + intros [? ? ? [] ? ? ? ?]. unfold crouch_input. cbn. by destruct (Bool.eqb_spec (peer_shrunk wire_state) crouch_input_shrunk).
    + intros g0. unfold crouch_input. cbv zeta. destruct (Bool.eqb _ _); [done|]. by destruct (peer_shrunk _).
    + by intros [].
  - destruct (edge_run_alternates (bubble_flash a) peer_flash_on (fun g => ghost_bubble_flash_on (pose g))
      [CallBool a "changeBubbleChargedJump" "hasBubbleChargedJump" true; CallBool a "StartBubbleJumpFlash" "Condition" true]
      [CallBool a "changeBubbleChargedJump" "hasBubbleChargedJump" false; CallBool a "StartBubbleJumpFlash" "Condition" false])
      with (ws := ws) (g := g) as (n & H1 & H2 & _); [..|by exists n].
    + intros [? ? ? ? ? ? ? []]. unfold bubble_flash. cbn. by destruct (Bool.eqb_spec (peer_flash_on wire_state) ghost_bubble_flash_on).
    + intros g0. unfold bubble_flash. cbv zeta. destruct (Bool.eqb _ _); [done|]. by destruct (peer_flash_on _).
    + by intros [].
  - destruct (edge_run_alternates (wall_run r a) on_wall told_on_wall
      (Call a "doWallRun" :: with_obj r a "wallRideSFX" (stop_audio r))
      (with_obj r a "wallRideVFX" (fun vfx => [Call vfx "Deactivate"]) ++ with_obj r a "wallRideSFX" (stop_audio r)))
      with (ws := ws) (g := g) as (n & H1 & H2 & _); [..|by exists n].
    + intros [? ? ? ? ? ? ? []]. reflexivity.
    + intros g0. unfold wall_run, on_wall, told_on_wall. cbv zeta. cbn [snd].
      by destruct (clamp_to_uint8 _ =? _)%Z, (last_wallrun_move_state _ =? _)%Z.
    + by intros [].
Qed.

(** * Hurt and contact *)

(** The hurt reactions of a sequence of ghosts, in whatever order, over any samples. *)
Definition hurt_turn : Type := hurt_env * bytes * Z * RemoteGhost.
Fixpoint hurt_run (turns : list hurt_turn) (s : loop_statics) : list (list pose_call) :=
  match turns with
  | [] => []
  | (env, id, a, g) :: turns =>
      let '(s, _, calls) := hurt_reaction env id a (s, g) in calls :: hurt_run turns s
  end.

Lemma hurt_run_disarmed turns : forall s,
  hurt_mirror_disarmed s = true -> concat (hurt_run turns s) = [].
Proof.
  induction turns as [|[[[env id] a] g] turns IH]; intros s Hs; [done|].
  cbn [hurt_run]. unfold hurt_reaction. cbv zeta. rewrite Hs. cbn [negb andb MIRROR_HURT_REACTION]. by apply IH.
Qed.

(** A chaser never plays the hurt reaction, yet its counter is consumed; another
    ghost plays it once per rise; and as soon as one such call has moved the player's own
    health, no ghost whatsoever is made to play it again in the session. *)
Theorem hurt_reaction_contract (env : hurt_env) (id : bytes) (a : Z) (s : loop_statics) (g : RemoteGhost)
    (turns : list hurt_turn)
    (Harmed : hurt_mirror_disarmed s = false)
    (Hrise : (last_seen_hurt_count (counters_seen g) < target_hurt_count (wire_state g))%Z) :
  let '(s', g', calls) := hurt_reaction env id a (s, g) in
  last_seen_hurt_count (counters_seen g') = target_hurt_count (wire_state g) /\
  calls = (if is_chaser id then [] else [DamageResponse a 0]) /\
  (hurt_reaction env id a (s', g')).2 = [] /\
  (is_chaser id = false -> trips env = true -> concat (hurt_run turns s') = []).
Proof.
  unfold hurt_reaction at 1. cbv zeta. rewrite Harmed.
  assert (target_hurt_count (wire_state g) >? last_seen_hurt_count (counters_seen g) = true)%Z as -> by lia.
  cbn [negb andb MIRROR_HURT_REACTION].
  assert (forall s' g', last_seen_hurt_count (counters_seen g') = target_hurt_count (wire_state g') ->
            (hurt_reaction env id a (s', g')).2 = []) as Hagain.
  { intros s' g' E. unfold hurt_reaction. cbv zeta. rewrite E.
    assert (target_hurt_count (wire_state g') >? target_hurt_count (wire_state g') = false)%Z as -> by lia.
    by rewrite andb_false_r. }
  destruct (is_chaser id).
  - split_and!; [by destruct g as [? [] ? ? ? ? ? ?]|done|apply Hagain; by destruct g as [? [] ? ? ? ? ? ?]|done].
  - split_and!; [by destruct g as [? [] ? ? ? ? ? ?]|done|apply Hagain; by destruct g as [? [] ? ? ? ? ? ?]|].
    intros _ ->. apply hurt_run_disarmed. by destruct s.
Qed.

Definition hurt_ghost : RemoteGhost := RemoteGhost0 <| wire_state := wire0 <| target_hurt_count := 3%Z |> |>.
Example hurt_reaction_contract_witness :
  let env := HurtEnv (Some (of_Z 5)) true (Some (of_Z 4)) in
  let '(s', g', calls) := hurt_reaction env (str "p1") 1 (loop_statics0, hurt_ghost) in
  calls = [DamageResponse 1 0] /\ hurt_run [(env, str "p2", 2%Z, hurt_ghost)] s' = [[]] /\
  last_seen_hurt_count (counters_seen g') = 3%Z.
Proof.
  intros env. pose proof (hurt_reaction_contract env (str "p1") 1 loop_statics0 hurt_ghost
    [(env, str "p2", 2%Z, hurt_ghost)] eq_refl ltac:(cbn; lia)) as H.
  destruct (hurt_reaction env (str "p1") 1 (loop_statics0, hurt_ghost)) as [[s' g'] calls] eqn:E.
  destruct H as (H1 & H2 & _ & H4). split; [exact H2|]. split; [|exact H1].
  vm_compute in E. injection E as <- _ _. by vm_compute.
Defined.

(** The player can be hurt through its component: it has health left and can be touched. *)
Definition vulnerable (r : reflection) (hitable : Z) (hp : double) : Prop :=
  num r hitable "CurrentHp" = Some hp /\ (hp >? dzero)%double = true /\ mg_read_bool r hitable "intangible?" true = false.

(** C22: contact hurts the player only through a chaser that overlaps it, in the "hurt" or
    the "kill" mode, with the player not dead, not intangible, and not frozen as the core
    was last told (the latch of the edge line, which a refused line leaves behind the
    player's state); and then the blow does land, from that ghost, of an enemy's damage or
    of all the health left, along the ground.  It lands on every tick the overlap lasts,
    in the "kill" mode too, whose comment says once per overlap; no other ghost and no
    other mode strikes. *)
Theorem contact_hurts_only_on_overlap (env : contact_env) (player : option Z) (mode id : bytes) (a : Z) (g : RemoteGhost)
    (c : pose_call) :
  c ∈ (chaser_contact env player mode id a g).2 <->
  exists p hitable hp,
    is_chaser id = true /\ (mode = str "hurt" \/ mode = str "kill") /\ player_frozen_sent env = false /\
    player = Some p /\ chaser_capsules_overlap (seen_by env) (location_of env) player a = true /\
    obj (seen_by env) p "BP_HpHitable" = Some hitable /\ vulnerable (seen_by env) hitable hp /\
    c = TryDamage hitable a (if bool_decide (mode = str "kill") then hp else CHASER_HURT_DAMAGE)
          (push_direction (location_of env p) (location_of env a)) (location_of env p).
Proof.
  unfold chaser_contact, contact_damage, with_obj, vulnerable. cbv zeta. split.
  - destruct (is_chaser id); cbn [andb]; [|by intros ?%elem_of_nil].
    destruct (bool_decide (mode = [])); cbn [negb snd]; [by intros ?%elem_of_nil|].
    destruct player as [p|]; [|by intros ?%elem_of_nil].
    destruct (player_frozen_sent env); cbn [negb andb]; [by intros ?%elem_of_nil|].
    destruct (chaser_capsules_overlap _ _ _ _) eqn:Eo; cbn [andb]; [|by intros ?%elem_of_nil].
    destruct (bool_decide (mode = str "hurt") || bool_decide (mode = str "kill")) eqn:Em; [|by intros ?%elem_of_nil].
    destruct (obj _ p _) as [h|] eqn:Eh; [|by intros ?%elem_of_nil].
    destruct (num _ h _) as [hp|] eqn:En; [|by intros ?%elem_of_nil].
    destruct (_ && _) eqn:Ev; [|by intros ?%elem_of_nil]. intros ->%list_elem_of_singleton.
    apply andb_true_iff in Ev as [Hv1 Hv2%negb_true_iff]. exists p, h, hp. split_and!; try done.
    apply orb_true_iff in Em as [?%bool_decide_eq_true|?%bool_decide_eq_true]; auto.
  - intros (p & h & hp & Hc & Hm & Hf & -> & Ho & Eh & (En & Hv1 & Hv2) & ->).
    rewrite Hc, Hf, Ho, Eh, En, Hv1, Hv2. cbn [negb andb].
    assert (bool_decide (mode = []) = false) as -> by (destruct Hm; subst; by vm_compute). cbn [negb snd].
    assert (bool_decide (mode = str "hurt") || bool_decide (mode = str "kill") = true) as ->
      by (destruct Hm; subst; by vm_compute).
    by apply list_elem_of_singleton.
Qed.

(** A chaser at the player's place. *)
Definition touch_env : contact_env :=
  ContactEnv {| obj := fun o _ => Some (o + 100)%Z; num := fun _ _ => Some (of_Z 20); flag := fun _ _ => Some false;
                raw_flag := fun _ _ => None; objs := fun _ _ => None; has := fun _ _ => true; has_fn := fun _ _ => true |}
    (fun _ => vzero) false.

(** The flag the overlap is kept in is never read: in the "kill" mode a lasting overlap
    strikes on every tick, not once. *)
Theorem kill_strikes_every_tick :
  let strike g := chaser_contact touch_env (Some 1%Z) (str "kill") (str "chaser:1") 2 g in
  let g1 := (strike RemoteGhost0).1 in
  chaser_contact_overlapping (pose g1) = true /\ (strike g1).2 = (strike RemoteGhost0).2 /\
  (strike g1).2 = [TryDamage 101 2 (of_Z 20) (of_Z 1, dzero, dzero) vzero].
Proof. split_and!; by vm_compute. Qed.
