(* ===== verification/MontageProps.v ===== *)
(** The montage a ghost plays against the one its peer plays, and how often a mesh that
    does not resolve is looked up. *)
From S2P Require Import Prelude Float64 JsonString RemoteGhost VfxMirror PeerProps PoseMirror MontageMirror.
From Stdlib Require Import ZArith.

(** * What the animation plays *)

(** The montage of the animation [abp] after a call. *)
Definition played (abp : Z) (playing : option Z) (c : pose_call) : option Z :=
  match c with
  | MontagePlay anim montage => if (anim =? abp)%Z then Some montage else playing
  | MontageStop anim _ => if (anim =? abp)%Z then None else playing
  | _ => playing
  end.
Definition after_calls (abp : Z) (playing : option Z) (calls : list pose_call) : option Z :=
  foldl (played abp) playing calls.

Lemma after_calls_app abp playing a b :
  after_calls abp playing (a ++ b) = after_calls abp (after_calls abp playing a) b.
Proof. apply foldl_app. Qed.

(** What the divergence check reads of the animation: nothing it sets right, or another
    montage than the peer's. *)
Definition reads_well (v : asset_view) (abp : Z) (target : bytes) : Prop :=
  forall name, active_montage v abp = Some name -> name = [] \/ name = str "none" \/ path_half name = target.
Definition reads_other (v : asset_view) (abp : Z) (target : bytes) : Prop :=
  exists name, active_montage v abp = Some name /\ name <> [] /\ name <> str "none" /\ path_half name <> target.
(** The path is that of a montage the check accepts. *)
Definition is_montage (v : asset_view) (path : bytes) (m : Z) : Prop :=
  named_asset v "AnimMontage" path = Some m /\ class_name v m = Some "AnimMontage"%string.

Lemma montage_start_plays r v a abp g montage playing :
  obj r a "animBPref" = Some abp -> montage_rise g = true ->
  resolve_checked v "AnimMontage" (target_montage (wire_state g)) = Some montage ->
  after_calls abp playing (montage_start r v a g).2 = Some montage.
Proof.
  intros Ho Hr Hm. unfold montage_start. cbv zeta. rewrite Hr, Hm. unfold with_obj. rewrite Ho. cbn.
  by rewrite Z.eqb_refl.
Qed.

Lemma montage_start_wire r v a g : wire_state (montage_start r v a g).1 = wire_state g.
Proof. unfold montage_start. cbv zeta. destruct (montage_rise g); [|done]. by destruct g. Qed.
Lemma montage_stop_wire r a b g : wire_state (montage_stop r a b g).1 = wire_state g.
Proof. unfold montage_stop. cbv zeta. destruct (dlt _ _); [|done]. by destruct g. Qed.

(** A stop that comes with a start is consumed, and stops nothing. *)
Lemma montage_stop_started r a g : (montage_stop r a true g).2 = [].
Proof. unfold montage_stop. cbv zeta. by destruct (dlt _ _). Qed.

Lemma divergence_agrees r v a tick w abp :
  obj r a "animBPref" = Some abp -> reads_well v abp (target_montage w) -> montage_divergence r v a tick w = [].
Proof.
  intros Ho Hr. unfold montage_divergence. destruct (_ && _); [|done]. unfold with_obj. rewrite Ho.
  destruct (active_montage v abp) as [name|] eqn:E; [|done]. specialize (Hr name E).
  destruct (bool_decide (name = [])) eqn:B1; [done|]. destruct (bool_decide (name = str "none")) eqn:B2; [done|].
  apply bool_decide_eq_false in B1, B2. destruct Hr as [?|[?|H]]; [done..|]. by rewrite bool_decide_true.
Qed.

(** Where it does set something right, the peer's montage is the one that plays. *)
Lemma divergence_plays r v a tick w abp m playing :
  obj r a "animBPref" = Some abp -> is_montage v (target_montage w) m -> target_montage w <> [] ->
  playing = Some m \/ (reads_other v abp (target_montage w) /\ (tick mod MONTAGE_DIVERGENCE_CHECK_INTERVAL_TICKS = 0)%Z) ->
  after_calls abp playing (montage_divergence r v a tick w) = Some m.
Proof.
  intros Ho [Hn Hc] Ht Hp. unfold montage_divergence. cbn [negb MONTAGE_PROBES_SUPPRESS_ADAPTER_STOPS andb].
  destruct (Z.eqb_spec (tick mod MONTAGE_DIVERGENCE_CHECK_INTERVAL_TICKS) 0) as [Hm|Hm]; [|by destruct Hp as [->|[_ ?]]].
  unfold with_obj. rewrite Ho. destruct (active_montage v abp) as [name|] eqn:E.
  - destruct (_ || _ || _) eqn:Eb.
    + destruct Hp as [->|[(name' & E' & N1 & N2 & N3) _]]; [done|]. rewrite E in E'. injection E' as <-.
      by rewrite !bool_decide_false in Eb.
    + rewrite Hn, bool_decide_false, bool_decide_true by done. cbn. by rewrite !Z.eqb_refl.
  - destruct Hp as [->|[(name' & E' & _) _]]; [done|congruence].
Qed.

Lemma start_resolves v path m : resolve_checked v "AnimMontage" path = Some m -> class_name v m = Some "AnimMontage"%string -> is_montage v path m.
Proof.
  unfold resolve_checked, is_montage. intros H Hc. apply bind_Some in H as (o & Ho & H).
  destruct (class_name v o); [case_bool_decide; [|done]|]; by injection H as ->.
Qed.

(** The counters once a start has been made, and its stop taken with it. *)
Lemma started_settles r a g v :
  montage_rise g = true -> isnan (target_montage_count (wire_state g)) = false -> isnan (target_montage_stop_count (wire_state g)) = false ->
  let g2 := (montage_stop r a true (montage_start r v a g).1).1 in
  wire_state g2 = wire_state g /\ montage_rise g2 = false /\ forall r' a' b, montage_stop r' a' b g2 = (g2, []).
Proof.
  intros Hrise Hnan Hnan'. unfold montage_start. cbv zeta. rewrite Hrise. cbn [fst].
  assert (forall d, isnan d = false -> dlt d d = false) as Hirr
    by (intros d Hd; destruct d as [|[]|[] m]; try done; unfold dlt, dcmp; by rewrite Z.compare_refl).
  destruct g as [w [] ? ? ? ? ? ?]. unfold montage_stop, montage_rise in *. cbn in *.
  destruct (dlt _ (target_montage_stop_count _)) eqn:E; cbn; (split; [done|]); rewrite Hirr by done; (split; [done|]); intros; cbn;
    rewrite ?E, ?Hirr by done; done.
Qed.

(** C20: a montage the peer starts is the one its ghost is told to play: when the peer's
    start counter rises and its path resolves to a montage, then after the calls of the
    three montage blocks of the tick that montage is the animation's, whatever it played
    before, whatever stop the same sample brought and whatever the engine reads the
    animation as playing.  On any later tick with no further rise nothing is started or
    stopped, unless a check finds the animation playing another montage, and then the
    peer's is put back (an animation that plays nothing, as when the engine declined the
    start, is left alone).  This is of the three blocks: a landing or a jump of the same
    sample stops the montage later in the tick. *)
Theorem montage_start_wins (r : reflection) (v : asset_view) (a abp tick montage : Z) (g : RemoteGhost) (playing : option Z)
    (Habp : obj r a "animBPref" = Some abp) (Hrise : montage_rise g = true)
    (Hres : resolve_checked v "AnimMontage" (target_montage (wire_state g)) = Some montage)
    (Hclass : class_name v montage = Some "AnimMontage"%string)
    (Hnan : isnan (target_montage_count (wire_state g)) = false)
    (Hnan' : isnan (target_montage_stop_count (wire_state g)) = false) :
  let '(g', calls) := mirror_montage r v a tick g in
  after_calls abp playing calls = Some montage /\
  forall r' v' abp' tick', obj r' a "animBPref" = Some abp' ->
    let (g'', calls') := mirror_montage r' v' a tick' g' in
    g'' = g' /\
    (reads_well v' abp' (target_montage (wire_state g)) -> calls' = []) /\
    (forall playing' m, reads_other v' abp' (target_montage (wire_state g)) ->
       (tick' mod MONTAGE_DIVERGENCE_CHECK_INTERVAL_TICKS = 0)%Z -> is_montage v' (target_montage (wire_state g)) m ->
       after_calls abp' playing' calls' = Some m).
Proof.
  assert (target_montage (wire_state g) <> []) as Ht
    by (unfold montage_rise in Hrise; by apply andb_true_iff in Hrise as [_ H%negb_true_iff%bool_decide_eq_false]).
  destruct (started_settles r a g v Hrise Hnan Hnan') as (Hw & Hr2 & Hstop).
  pose proof (montage_start_plays r v a abp g montage playing Habp Hrise Hres) as Hp.
  unfold mirror_montage. cbv zeta. rewrite Hrise. unfold and_then, emit.
  destruct (montage_start r v a g) as [g1 c1]. cbn [fst snd] in *. pose proof (montage_stop_started r a g1) as Hs.
  destruct (montage_stop r a true g1) as [g2 c2]. cbn [fst snd] in *. subst c2. rewrite Hw. cbn [app]. split.
  - rewrite ?app_nil_r, !after_calls_app, Hp. apply divergence_plays; [done|by apply start_resolves|done|by left].
  - intros r' v' abp' tick' Ho. rewrite Hr2. unfold montage_start. cbv zeta. rewrite Hr2, Hstop, Hw. cbn [app]. split; [done|]. split.
    + intros Hread. by apply (divergence_agrees r' v' a tick' _ abp').
    + intros playing' m Hread Hm Hmt. apply divergence_plays; [done..|by right].
Qed.

(** The peer starts a throw while its ghost still plays another montage. *)
Definition throw_path : bytes := str "/Game/Anim/Throw.Throw".
Definition throwing : RemoteGhost :=
  RemoteGhost0 <| wire_state := wire0 <| target_montage := throw_path |> <| target_montage_count := of_Z 2 |>
    <| target_montage_stop_count := of_Z 1 |> |>.
Definition throw_reflection : reflection :=
  {| obj := fun _ _ => Some 20%Z; num := fun _ _ => None; flag := fun _ _ => None; raw_flag := fun _ _ => None;
     objs := fun _ _ => None; has := fun _ _ => true; has_fn := fun _ _ => true |}.
Definition throw_view (reading : bytes) : asset_view :=
  {| named_asset := fun _ _ => Some 40%Z; class_name := fun _ => Some "AnimMontage"%string;
     live_skeleton := fun _ => true; unreachable := fun _ => false; active_montage := fun _ => Some reading |}.
Definition throw_reading : bytes := str "AnimMontage " ++ throw_path.

Example montage_start_wins_witness :
  let run tick g := mirror_montage throw_reflection (throw_view throw_reading) 1 tick g in
  after_calls 20 (Some 39%Z) (run 8%Z throwing).2 = Some 40%Z /\ (run 12%Z (run 8%Z throwing).1).2 = [].
Proof.
  intros run.
  pose proof (montage_start_wins throw_reflection (throw_view throw_reading) 1 20 8 40 throwing (Some 39%Z)
    eq_refl ltac:(by vm_compute) eq_refl eq_refl ltac:(by vm_compute) ltac:(by vm_compute)) as H.
  unfold run. destruct (mirror_montage throw_reflection (throw_view throw_reading) 1 8 throwing) as [g' calls].
  destruct H as [H1 H2]. split; [exact H1|]. specialize (H2 throw_reflection (throw_view throw_reading) 20%Z 12%Z eq_refl).
  cbn [fst]. destruct (mirror_montage throw_reflection (throw_view throw_reading) 1 12 g') as [g'' calls']. cbn [snd]. apply H2.
  intros name [= <-]. right; right. by vm_compute.
Defined.

(** The stop on a landing or a jump is not so careful: a montage started by the sample
    that brings the rise is stopped in the same tick, and the ghost, idle from then on, is
    left without it. *)
Theorem landing_stops_started_montage (r : reflection) (v : asset_view) (a abp tick : Z) (g : RemoteGhost)
    (playing : option Z)
    (Habp : obj r a "animBPref" = Some abp) (Hland : land_rise g || jump_rise g = true) :
  after_calls abp playing ((mirror_montage r v a tick g).2 ++ pulse_stop r a (land_rise g || jump_rise g)) = None.
Proof.
  rewrite after_calls_app, Hland. unfold pulse_stop, with_obj. rewrite Habp. cbn. by rewrite Z.eqb_refl.
Qed.

Example landing_stops_started_montage_witness :
  let g := throwing <| wire_state := wire_state throwing <| target_land_count := of_Z 1 |> |> in
  let calls := (mirror_montage throw_reflection (throw_view (str "none")) 1 8 g).2 in
  after_calls 20 None calls = Some 40%Z /\
  after_calls 20 None (calls ++ pulse_stop throw_reflection 1 true) = None /\
  (mirror_montage throw_reflection (throw_view (str "none")) 1 12
     (mirror_montage throw_reflection (throw_view (str "none")) 1 8 g).1).2 = [].
Proof.
  intros g calls. split_and!; [by vm_compute| |by vm_compute].
  exact (landing_stops_started_montage throw_reflection (throw_view (str "none")) 1 20 8 g None eq_refl ltac:(by vm_compute)).
Defined.

(** * Lookups of meshes *)

Definition asks (calls : list pose_call) : bool :=
  existsb (fun c => match c with ResolveAsset _ _ => true | _ => false end) calls.

(** A tick: its number, what resolves then, and the peer's state. *)
Record mesh_turn := MeshTurn { mt_tick : Z; mt_assets : asset_view; mt_wire : wire }.

(** Ticks go forward, in 64 bits. *)
Fixpoint ticks_ok (last : Z) (ts : list mesh_turn) : Prop :=
  match ts with
  | [] => True
  | t :: ts => (last <= mt_tick t < 2 ^ 64)%Z /\ ticks_ok (mt_tick t) ts
  end.

(** Each lookup, with whether it failed, is at least the interval after the last failed
    one. *)
Fixpoint throttled (fail : option Z) (ls : list (Z * bool)) : Prop :=
  match ls with
  | [] => True
  | (t, failed) :: ls =>
      match fail with Some t0 => (t0 + LOG_INTERVAL_TICKS <= t)%Z | None => True end /\
      throttled (if failed then Some t else fail) ls
  end.

Section Lookups.
Context (step : asset_view -> Z -> RemoteGhost -> RemoteGhost * list pose_call) (res : asset_view -> bytes -> option Z).
Context (target : wire -> bytes) (failed : RemoteGhost -> bytes) (attempt : RemoteGhost -> Z).
Context (Hkeep : forall g w, failed (g <| wire_state := w |>) = failed g /\ attempt (g <| wire_state := w |>) = attempt g).
Context (Hidle : forall v t g, asks (step v t g).2 = false -> (step v t g).1 = g).
Context (Hasks : forall v t g, asks (step v t g).2 = true ->
  (failed g = [] \/ (LOG_INTERVAL_TICKS <= u64 (t - attempt g))%Z) /\
  match res v (target (wire_state g)) with
  | None => attempt (step v t g).1 = t
  | Some _ => failed (step v t g).1 = [] \/ (failed (step v t g).1 = failed g /\ attempt (step v t g).1 = attempt g)
  end).

Fixpoint lookups (ts : list mesh_turn) (g : RemoteGhost) : list (Z * bool) :=
  match ts with
  | [] => []
  | t :: ts =>
      let (g', calls) := step (mt_assets t) (mt_tick t) (g <| wire_state := mt_wire t |>) in
      (if asks calls
       then [(mt_tick t, match res (mt_assets t) (target (mt_wire t)) with Some _ => false | None => true end)] else [])
      ++ lookups ts g'
  end.

Lemma lookups_throttled : forall ts g last fail,
  ticks_ok last ts -> (0 <= last)%Z ->
  match fail with
  | Some t0 => (0 <= t0)%Z /\ ((t0 + LOG_INTERVAL_TICKS <= last)%Z \/ (failed g <> [] /\ attempt g = t0 /\ (t0 <= last)%Z))
  | None => True
  end ->
  (forall v t g, res v (target (wire_state g)) = None -> asks (step v t g).2 = true -> failed (step v t g).1 <> []) ->
  throttled fail (lookups ts g).
Proof.
  intros ts. induction ts as [|[t v w] ts IH]; intros g last fail Ht Hl Hf Hne; [done|].
  cbn [lookups mt_tick mt_assets mt_wire]. destruct Ht as [Ht Hts]. cbn [mt_tick] in Ht, Hts.
  pose proof (Hidle v t (g <| wire_state := w |>)) as Hi. pose proof (Hasks v t (g <| wire_state := w |>)) as Ha.
  pose proof (Hne v t (g <| wire_state := w |>)) as Hn.
  destruct (Hkeep g w) as [Kf Ka]. rewrite Kf, Ka in Ha. change (wire_state (g <| wire_state := w |>)) with w in Ha, Hn.
  destruct (step v t (g <| wire_state := w |>)) as [g' calls]. cbn [fst snd] in *. destruct (asks calls) eqn:Ec.
  - destruct (Ha eq_refl) as [Hdue Hres]. cbn [app throttled].
    assert (match fail with Some t0 => (t0 + LOG_INTERVAL_TICKS <= t)%Z | None => True end) as Hd.
    { destruct fail as [t0|]; [|done]. destruct Hf as [H0 [Hf|(Hf & Hat & Hle)]]; [lia|].
      destruct Hdue as [?|Hdue]; [done|]. rewrite Hat in Hdue. unfold u64 in Hdue. rewrite Z.mod_small in Hdue; lia. }
    split; [exact Hd|]. destruct (res v (target w)) eqn:Er.
    + apply (IH g' t); [done|lia| |done]. destruct fail as [t0|]; [|done]. split; [apply Hf|]. by left.
    + apply (IH g' t); [done|lia| |done]. split; [lia|]. right. split_and!; [by apply Hn|done|lia].
  - cbn [app]. rewrite (Hi eq_refl). apply (IH _ t); [done|lia| |done].
    destruct fail as [t0|]; [|done]. rewrite Kf, Ka. destruct Hf as [H0 [Hf|(? & ? & ?)]]; (split; [done|]); [left; lia|].
    right. split_and!; try done. lia.
Qed.
End Lookups.

(** A mesh path that does not resolve on this machine costs one lookup per interval,
    whatever the peer does: over any ticks and any samples, even a peer that alternates
    names, each lookup of an outfit is at least [LOG_INTERVAL_TICKS] after the last one
    that failed, and the same for the weapon's mesh. *)
Theorem mesh_lookups_throttled (r : reflection) (a : Z) (ts : list mesh_turn) (g : RemoteGhost) (Hts : ticks_ok 0 ts) :
  throttled None (lookups (fun v t => mirror_outfit r v a t) (fun v => resolve_checked v "SkeletalMesh")
                    target_outfit_mesh ts g) /\
  throttled None (lookups (fun v t => mirror_weapon_mesh r v a t) resolve_weapon_mesh target_weapon_mesh ts g).
Proof.
  assert (forall t tgt synced failed att, mesh_due t tgt synced failed att = true ->
            tgt <> [] /\ (failed = [] \/ (LOG_INTERVAL_TICKS <= u64 (t - att))%Z)) as Hdue.
  { intros t tgt synced failed att. unfold mesh_due.
    destruct (bool_decide_reflect (tgt = [])); [done|]. destruct (bool_decide_reflect (failed = [])); [by auto|].
    destruct (Z.ltb_spec (u64 (t - att)) LOG_INTERVAL_TICKS); rewrite ?andb_false_r; [done|]. auto. }
  split.
  - apply (lookups_throttled _ _ _ (fun g => last_failed_outfit_mesh (latches g)) (fun g => last_outfit_attempt_tick (pose g)))
      with (last := 0%Z); [by intros []| | |done|done|done|].
    + intros v t g0. unfold mirror_outfit. cbv zeta. destruct (mesh_due _ _ _ _ _); [|done]. by destruct (resolve_checked _ _ _).
    + intros v t g0. unfold mirror_outfit. cbv zeta. destruct (mesh_due _ _ _ _ _) eqn:E; [|done]. intros _.
      split; [by eapply Hdue|]. destruct g0 as [? ? ? [] ? ? ? []]. destruct (resolve_checked _ _ _); cbn; auto.
    + intros v t g0 Hr. unfold mirror_outfit. cbv zeta. rewrite Hr. destruct (mesh_due _ _ _ _ _) eqn:E; [|done]. intros _.
      destruct (Hdue _ _ _ _ _ E). by destruct g0 as [? ? ? [] ? ? ? []].
  - apply (lookups_throttled _ _ _ (fun g => last_failed_weapon_mesh (latches g)) (fun g => last_weapon_mesh_attempt_tick (pose g)))
      with (last := 0%Z); [by intros []| | |done|done|done|].
    + intros v t g0. unfold mirror_weapon_mesh. cbv zeta. destruct (mesh_due _ _ _ _ _); [|done].
      destruct (resolve_weapon_mesh _ _) as [mesh|]; [|done].
      by destruct (swap_weapon_mesh _ _ _ (obj _ _ _)), (swap_weapon_mesh _ _ _ (weapon_fly_component _)).
    + intros v t g0. unfold mirror_weapon_mesh. cbv zeta. destruct (mesh_due _ _ _ _ _) eqn:E; [|done]. intros _.
      split; [by eapply Hdue|]. destruct (resolve_weapon_mesh _ _) as [mesh|]; [|by destruct g0 as [? ? ? [] ? ? ? []]].
      destruct (swap_weapon_mesh _ _ _ (obj _ _ _)) as [d1 c1], (swap_weapon_mesh _ _ _ (weapon_fly_component _)) as [d2 c2].
      cbn [fst]. destruct (_ || _); [left; by destruct g0 as [? ? ? [] ? ? ? []]|by right].
    + intros v t g0 Hr. unfold mirror_weapon_mesh. cbv zeta. rewrite Hr. destruct (mesh_due _ _ _ _ _) eqn:E; [|done]. intros _.
      destruct (Hdue _ _ _ _ _ E). by destruct g0 as [? ? ? [] ? ? ? []].
Qed.

(** A peer alternating two names this machine does not have, over four ticks. *)
Definition missing_assets : asset_view :=
  {| named_asset := fun _ _ => None; class_name := fun _ => None; live_skeleton := fun _ => false;
     unreachable := fun _ => false; active_montage := fun _ => None |}.
Definition missing_turns : list mesh_turn :=
  map (fun '(t, name) => MeshTurn t missing_assets (wire0 <| target_outfit_mesh := str name |>))
    [(100, "/A.A"); (101, "/B.B"); (219, "/A.A"); (220, "/B.B")]%Z%string.
Example mesh_lookups_throttled_witness :
  lookups (fun v t => mirror_outfit throw_reflection v 1 t) (fun v => resolve_checked v "SkeletalMesh")
    target_outfit_mesh missing_turns RemoteGhost0 = [(100%Z, true); (220%Z, true)] /\
  throttled None (lookups (fun v t => mirror_outfit throw_reflection v 1 t) (fun v => resolve_checked v "SkeletalMesh")
                    target_outfit_mesh missing_turns RemoteGhost0).
Proof.
  split; [by vm_compute|].
  exact (proj1 (mesh_lookups_throttled throw_reflection 1 missing_turns RemoteGhost0 ltac:(cbn; lia))).
Defined.
