(* ===== verification/SweepProps.v ===== *)
(** The sweeps over what a ghost owns: the walk of its attached components, and the
    restore pass of the dev subtractions. *)
From S2P Require Import Prelude Float64 JsonString RemoteGhost VfxMirror PeerProps PoseMirror GhostSweeps.
From Stdlib Require Import ZArith Relations.

(** * The walk *)

Section Walk.
Context (r : reflection) (through : bool).

(** What one component leads to. *)
Definition leads_to (x y : Z) : Prop :=
  y ∈ attach_children r x \/ (through = true /\ y ∈ child_actor_root r x).

Lemma walk_visit_spec node owned :
  exists new, walk_visit r through node owned = owned ++ new /\ Forall (leads_to node) new /\
    (length owned < OUTLINE_SWEEP_MAX_COMPONENTS -> length (walk_visit r through node owned) <= OUTLINE_SWEEP_MAX_COMPONENTS) /\
    (length (walk_visit r through node owned) < OUTLINE_SWEEP_MAX_COMPONENTS -> forall y, leads_to node y -> y ∈ new).
Proof.
  unfold walk_visit. cbv zeta. set (roots := if through then child_actor_root r node else []).
  assert (length roots <= 1) as Hr.
  { unfold roots, child_actor_root, with_obj. destruct through; [|cbn; lia].
    destruct (obj r node _) as [c|]; [destruct (obj r c _)|]; cbn; lia. }
  generalize OUTLINE_SWEEP_MAX_COMPONENTS. intros bound.
  set (kids := take _ _). exists (roots ++ kids). rewrite <- app_assoc. split; [done|].
  assert (length kids = (bound - length (owned ++ roots)) `min` length (attach_children r node)) as Hk by apply length_take.
  rewrite !length_app in *. split; [|split].
  - apply list.Forall_forall. intros y [Hy|Hy]%elem_of_app.
    + right. unfold roots in Hy. by destruct through; [|apply elem_of_nil in Hy].
    + left. unfold kids in Hy. apply elem_of_take in Hy as (i & Hi & _). by eapply list_elem_of_lookup_2.
  - lia.
  - intros Hlt y [Hy|[-> Hy]]; apply elem_of_app; [right|by left].
    unfold kids in *. rewrite take_ge; [done|]. rewrite length_app. lia.
Qed.

(** What the walk has found before its position [i] has been visited: everything it leads
    to is found too. *)
Record walk_inv (root : Z) (st : list Z * nat) : Prop := WalkInv {
  wi_own : Forall (rtc leads_to root) st.1;
  wi_root : root ∈ st.1;
  wi_bound : length st.1 <= OUTLINE_SWEEP_MAX_COMPONENTS;
  wi_pos : st.2 <= length st.1;
  wi_closed : length st.1 < OUTLINE_SWEEP_MAX_COMPONENTS ->
              forall k x y, k < st.2 -> st.1 !! k = Some x -> leads_to x y -> y ∈ st.1
}.

Lemma walk_inv_step root st st' : walk_inv root st -> attach_body r through st = inl st' -> walk_inv root st'.
Proof.
  destruct st as [owned i]. intros [H1 H2 H3 H4 H5] E. unfold attach_body in E. cbn [fst snd] in *.
  destruct (owned !! i) as [node|] eqn:En; [|done]. destruct (Nat.ltb_spec (length owned) OUTLINE_SWEEP_MAX_COMPONENTS); [|done].
  simplify_eq. destruct (walk_visit_spec node owned) as (new & Ew & Hn & Hb & Hc).
  pose proof (lookup_lt_Some _ _ _ En) as Hi. split; cbn [fst snd].
  - rewrite Ew. apply Forall_app. split; [done|]. eapply list.Forall_impl; [exact Hn|]. intros y Hy.
    eapply rtc_r; [|exact Hy]. by eapply (Forall_lookup_1 _ _ _ _ H1).
  - rewrite Ew. apply elem_of_app. by left.
  - auto.
  - rewrite Ew, length_app. lia.
  - intros Hlt k x y Hk Hx Hy. rewrite Ew in Hx |- *. apply elem_of_app.
    destruct (decide (k = i)) as [->|Hne].
    + rewrite lookup_app_l in Hx by done. rewrite En in Hx. simplify_eq. right. by apply Hc.
    + left. rewrite lookup_app_l in Hx by lia. eapply (H5 ltac:(lia) k x y); [lia|done|done].
Qed.

Lemma walk_result root :
  let owned := loop attach_measure (attach_body r through) [] ([root], 0) in
  Forall (rtc leads_to root) owned /\ root ∈ owned /\ length owned <= OUTLINE_SWEEP_MAX_COMPONENTS /\
  (length owned < OUTLINE_SWEEP_MAX_COMPONENTS -> forall y, rtc leads_to root y -> y ∈ owned).
Proof.
  apply (loop_inv attach_measure (attach_body r through) (walk_inv root)
    (fun owned => Forall (rtc leads_to root) owned /\ root ∈ owned /\ length owned <= OUTLINE_SWEEP_MAX_COMPONENTS /\
       (length owned < OUTLINE_SWEEP_MAX_COMPONENTS -> forall y, rtc leads_to root y -> y ∈ owned))).
  - intros s s'. apply walk_inv_step.
  - intros [owned i] out [H1 H2 H3 H4 H5] E. unfold attach_body in E. cbn [fst snd] in *.
    assert (owned = out /\ (length owned < OUTLINE_SWEEP_MAX_COMPONENTS -> owned !! i = None)) as [<- Hend].
    { destruct (owned !! i); [|by simplify_eq]. destruct (Nat.ltb_spec (length owned) OUTLINE_SWEEP_MAX_COMPONENTS); [done|].
      simplify_eq. split; [done|lia]. }
    split_and!; try done. intros Hlt y Hy. specialize (Hend Hlt). apply lookup_ge_None in Hend.
    clear H1. revert H2. induction Hy as [x|x z y Hxz _ IH]; intros Hx; [done|]. apply IH.
    apply list_elem_of_lookup in Hx as [k Hk]. pose proof (lookup_lt_Some _ _ _ Hk).
    eapply (H5 Hlt k x z); [lia|done|done].
  - split; cbn; [by repeat constructor|by left| |lia|intros; lia]. unfold OUTLINE_SWEEP_MAX_COMPONENTS. lia.
Qed.
End Walk.

(** The walk over a ghost's attached components stops, on a cycle too; it visits at
    most [OUTLINE_SWEEP_MAX_COMPONENTS]; everything it visits hangs off the ghost's own
    root, so no sweep touches another actor's component; and short of the bound it misses
    nothing. *)
Theorem attach_walk_own_tree (r : reflection) (through : bool) (a root : Z) (Hroot : obj r a "RootComponent" = Some root) :
  let owned := attach_walk r through a in
  (forall y, y ∈ owned -> rtc (leads_to r through) root y) /\
  length owned <= OUTLINE_SWEEP_MAX_COMPONENTS /\
  (length owned < OUTLINE_SWEEP_MAX_COMPONENTS -> forall y, y ∈ owned <-> rtc (leads_to r through) root y).
Proof.
  unfold attach_walk, with_obj. rewrite Hroot. destruct (walk_result r through root) as (H1 & _ & H3 & H4).
  cbv zeta. revert H1 H3 H4. generalize (loop attach_measure (attach_body r through) [] ([root], 0)). intros owned H1 H3 H4.
  rewrite list.Forall_forall in H1. split_and!; [done|done|]. intros Hlt y. split; auto.
Qed.

(** A root with two children, one of which holds an actor and the other points back. *)
Definition tree_reflection : reflection :=
  {| obj := fun o p => if bool_decide (p = "RootComponent"%string) then (if (o =? 1)%Z then Some 10 else Some 30)%Z
                       else if bool_decide (p = "ChildActor"%string) && (o =? 11)%Z then Some 2%Z else None;
     num := fun _ _ => None; flag := fun _ _ => None; raw_flag := fun _ _ => None;
     objs := fun o _ => if (o =? 10)%Z then Some [Some 11; None; Some 12]%Z else None;
     has := fun _ _ => true; has_fn := fun _ _ => true |}.
Example attach_walk_own_tree_witness :
  attach_walk tree_reflection true 1 = [10; 11; 12; 30]%Z /\ rtc (leads_to tree_reflection true) 10%Z 30%Z /\
  attach_walk tree_reflection false 1 = [10; 11; 12]%Z.
Proof.
  split; [by vm_compute|]. split; [|by vm_compute].
  apply (proj1 (attach_walk_own_tree tree_reflection true 1 10 eq_refl)). vm_compute. do 3 right. left.
Defined.

(** * Disarming a subtraction *)

(** What one ghost's pass reads. *)
Record ghost_pass := GhostPass { gp_reads : reflection; gp_world : world_view; gp_actor : Z }.

(** The passes of one tick, one per ghost. *)
Fixpoint passes {S : Type} (step : ghost_pass -> S -> S * list pose_call) (gs : list ghost_pass) (s : S)
    : S * list (list pose_call) :=
  match gs with
  | [] => (s, [])
  | x :: gs => let (s, calls) := step x s in let (s, all) := passes step gs s in (s, calls :: all)
  end.

Definition subtract_pass (tick : Z) (class : string) (hidden : bool) (x : ghost_pass) : sweep -> sweep * list pose_call :=
  subtract (gp_reads x) (gp_world x) tick class hidden (gp_actor x).

(** Every component of the ghost whose flag says otherwise is switched, and nothing else is. *)
Definition switched (class : string) (hidden : bool) (x : ghost_pass) (calls : list pose_call) : Prop :=
  forall k, k ∈ calls <-> exists c, k = Show c (negb hidden) true /\ c ∈ ghosts_own (gp_world x) (gp_actor x) class /\
                                    mg_read_bool (gp_reads x) c "bVisible" (negb hidden) = hidden.

Lemma elem_of_switch (class : string) (hidden : bool) x :
  switched class hidden x
    (omap (fun c => if Bool.eqb (mg_read_bool (gp_reads x) c "bVisible" (negb hidden)) hidden
                    then Some (Show c (negb hidden) true) else None) (ghosts_own (gp_world x) (gp_actor x) class)).
Proof.
  intros k. rewrite list_elem_of_omap. split.
  - intros (c & Hc & E). destruct (Bool.eqb _ _) eqn:Eb; [|done]. apply Bool.eqb_prop in Eb. simplify_eq. eauto.
  - intros (c & -> & Hc & E). exists c. split; [done|]. by rewrite E, Bool.eqb_reflx.
Qed.

Lemma omap_ext_all {A B} (f g : A -> option B) (l : list A) : (forall x, f x = g x) -> omap f l = omap g l.
Proof. intros H. induction l as [|x l IH]; [done|]. cbn. by rewrite H, IH. Qed.

Lemma subtract_armed tick class x sw :
  (subtract_pass tick class true x sw).1 = Sweep true 0 /\ switched class true x (subtract_pass tick class true x sw).2.
Proof.
  split; [done|]. unfold subtract_pass, subtract. cbn [snd].
  erewrite omap_ext_all; [apply elem_of_switch|]. intros c. cbn [negb]. by destruct (mg_read_bool _ _ _ _).
Qed.

Lemma subtract_pending tick class x t0 :
  (subtract_pass tick class false x (Sweep true t0)).1
  = (if (t0 =? 0)%Z then Sweep true tick else if (tick >? t0)%Z then Sweep false 0 else Sweep true t0) /\
  switched class false x (subtract_pass tick class false x (Sweep true t0)).2.
Proof.
  split; [done|]. unfold subtract_pass, subtract. cbn [negb sweep_pending snd].
  erewrite omap_ext_all; [apply elem_of_switch|]. intros c. cbn [negb]. by destruct (mg_read_bool _ _ _ _).
Qed.

Lemma passes_invariant {S} (step : ghost_pass -> S -> S * list pose_call) (Q : ghost_pass -> list pose_call -> Prop) s :
  (forall x, (step x s).1 = s /\ Q x (step x s).2) -> forall gs, (passes step gs s).1 = s /\ Forall2 Q gs (passes step gs s).2.
Proof.
  intros H gs. induction gs as [|x gs [E1 E2]]; [done|]. cbn. destruct (H x) as [Hs Hq].
  destruct (step x s) as [s1 c1]. cbn in Hs, Hq. subst s1. destruct (passes step gs s). cbn in *. split; [done|]. by constructor.
Qed.

Lemma passes_settle {S} (step : ghost_pass -> S -> S * list pose_call) (Q : ghost_pass -> list pose_call -> Prop) s0 s1 gs :
  (forall x, (step x s0).1 = s1 /\ Q x (step x s0).2) -> (forall x, (step x s1).1 = s1 /\ Q x (step x s1).2) ->
  gs <> [] -> (passes step gs s0).1 = s1 /\ Forall2 Q gs (passes step gs s0).2.
Proof.
  intros H0 H1 Hg. destruct gs as [|x gs]; [done|]. cbn [passes]. destruct (H0 x) as [Hs Hq].
  destruct (step x s0) as [s c]. cbn [fst snd] in Hs, Hq. subst s. destruct (passes_invariant step Q s1 H1 gs).
  destruct (passes step gs s1). cbn [fst snd] in *. split; [done|]. by constructor.
Qed.

(** C24: a class's subtraction (the shadow's and the name tag's, which differ in the class
    alone; the particles' is another code, and restores the first ghost only) reaches
    every ghost of the room, on and off.  While armed, each ghost's pass hides
    exactly the visible components of the class that carry the ghost's name; on the tick it
    is disarmed every ghost's pass shows again exactly the ones of its own that are hidden
    by then, whichever ghosts there are and whatever they read, none left out, because the
    latch outlives the loop over the ghosts; on the next tick the latch is let go, and
    from then on no component is touched. *)
Theorem disarm_restores_every_ghost (class : string) (t0 t1 t2 : Z) (gs ks hs : list ghost_pass) (sw : sweep)
    (H1 : (0 < t1)%Z) (H2 : (t1 < t2)%Z) (Hg : gs <> []) (Hk : ks <> []) (Hh : hs <> []) :
  let armed := passes (subtract_pass t0 class true) gs sw in
  let restored := passes (subtract_pass t1 class false) ks armed.1 in
  let after := passes (subtract_pass t2 class false) hs restored.1 in
  Forall2 (switched class true) gs armed.2 /\
  Forall2 (switched class false) ks restored.2 /\
  sweep_pending after.1 = false /\
  forall t ls, (passes (subtract_pass t class false) ls after.1).2 = map (fun _ => []) ls.
Proof.
  cbv zeta.
  destruct (passes_settle (subtract_pass t0 class true) (switched class true) sw (Sweep true 0) gs) as [-> ?];
    [intros x; apply subtract_armed|intros x; apply subtract_armed|done|].
  destruct (passes_settle (subtract_pass t1 class false) (switched class false) (Sweep true 0) (Sweep true t1) ks) as [-> ?];
    [intros x; apply (subtract_pending t1 class x 0)| |done|].
  { intros x. destruct (subtract_pending t1 class x t1) as [-> ?]. split; [|done].
    rewrite (proj2 (Z.eqb_neq _ _)) by lia. by rewrite Z.gtb_ltb, Z.ltb_irrefl. }
  destruct (passes_settle (subtract_pass t2 class false) (fun _ _ => True) (Sweep true t1) (Sweep false 0) hs) as [-> _];
    [|done|done|].
  { intros x. destruct (subtract_pending t2 class x t1) as [-> _]. split; [|done].
    rewrite (proj2 (Z.eqb_neq _ _)) by lia. by rewrite Z.gtb_ltb, (proj2 (Z.ltb_lt _ _)) by lia. }
  split_and!; try done. intros t ls. induction ls as [|x ls IH]; [done|]. cbn [passes map].
  change (subtract_pass t class false x (Sweep false 0)) with (Sweep false 0, @nil pose_call). cbv iota beta.
  by destruct (passes _ ls _); cbn [snd] in *; rewrite IH.
Qed.

(** Two ghosts with one shadow each; the object's number is its name. *)
Definition shadow_world : world_view :=
  {| all_of := fun class => if bool_decide (class = "StaticMeshComponent"%string) then [10; 20]%Z else [];
     full_name := fun o => if (o =? 10)%Z then str "Pawn_1.Shadow" else str "Pawn_2.Shadow";
     own_name := fun a => if (a =? 1)%Z then str "Pawn_1" else str "Pawn_2";
     property_objects := fun _ => []; owned_by := fun _ _ => false |}.
Definition shadow_reads (visible : bool) : reflection :=
  {| obj := fun _ _ => None; num := fun _ _ => None; flag := fun _ _ => Some visible; raw_flag := fun _ _ => Some visible;
     objs := fun _ _ => None; has := fun _ _ => true; has_fn := fun _ _ => true |}.
Definition two_ghosts (visible : bool) : list ghost_pass :=
  [GhostPass (shadow_reads visible) shadow_world 1; GhostPass (shadow_reads visible) shadow_world 2].
Example disarm_restores_every_ghost_witness :
  let armed := passes (subtract_pass 7 "StaticMeshComponent" true) (two_ghosts true) (Sweep false 0) in
  let restored := passes (subtract_pass 8 "StaticMeshComponent" false) (two_ghosts false) armed.1 in
  armed.2 = [[Show 10 false true]; [Show 20 false true]] /\ restored.2 = [[Show 10 true true]; [Show 20 true true]] /\
  Forall2 (switched "StaticMeshComponent" false) (two_ghosts false) restored.2.
Proof.
  intros armed restored. split; [by vm_compute|]. split; [by vm_compute|].
  exact (proj1 (proj2 (disarm_restores_every_ghost "StaticMeshComponent" 7 8 9 (two_ghosts true) (two_ghosts false) (two_ghosts false)
    (Sweep false 0) ltac:(lia) ltac:(lia) ltac:(done) ltac:(done) ltac:(done)))).
Defined.

(** The particle subtraction is let go inside the loop over the ghosts: on the tick it is
    disarmed only the first ghost's pass restores anything, whatever the others own. *)
Lemma fx_restore_first_only (t : dev_toggles) (x : ghost_pass) (gs : list ghost_pass) (s : loop_statics)
    (Hoff : fx_hidden t = false) :
  let pass x := fx_sweep (gp_reads x) (gp_world x) t (gp_actor x) in
  (passes pass (x :: gs) s).2 = (pass x s).2 :: map (fun _ => []) gs.
Proof.
  cbv zeta. set (pass x := fx_sweep (gp_reads x) (gp_world x) t (gp_actor x)).
  assert (forall x s, fx_sweep_pending (pass x s).1 = false) as Hclear.
  { intros y s'. unfold pass, fx_sweep. rewrite Hoff. by destruct s'. }
  assert (forall gs s', fx_sweep_pending s' = false -> (passes pass gs s').2 = map (fun _ => []) gs) as Hnone.
  { intros ks. induction ks as [|y ks IH]; intros s' E; [done|]. cbn [passes map].
    assert ((pass y s').2 = []) as En by (unfold pass, fx_sweep; by rewrite Hoff, E).
    pose proof (Hclear y s') as Ec. destruct (pass y s') as [s1 c1]. cbn [fst snd] in *. specialize (IH s1 Ec).
    destruct (passes pass ks s1). cbn [snd] in *. by rewrite En, IH. }
  cbn [passes]. pose proof (Hnone gs _ (Hclear x s)) as E. destruct (pass x s) as [s1 c1]. cbn [fst snd] in *.
  destruct (passes pass gs s1). cbn [snd] in *. by rewrite E.
Qed.
