(* ===== verification/InputDisplayProps.v ===== *)
(** The input history on the screen: the edges of a replay are applied whatever the
    cadence of the ticks, a panel's rows are the history run-length coded, and its
    columns stand still. *)
From S2P Require Import Prelude Float64 JsonString RemoteGhost DistanceTier InputDisplay.
From Stdlib Require Import ZArith.

(** * The edges that are due *)

Definition due (ts : double) (e : GhostInputEdge) : bool := (e_at e <=? ts)%double.

Definition apply_all (es : list GhostInputEdge) (track : GhostInputTrack) : GhostInputTrack :=
  foldl (fun track e => apply_edge e track) track es.

Lemma apply_all_snoc gone e track : apply_all (gone ++ [e]) track = apply_edge e (apply_all gone track).
Proof. unfold apply_all. by rewrite foldl_app. Qed.

Lemma apply_from_edges ts es : forall old track, apply_from ts es (track <| edges := old |>) = apply_from ts es track.
Proof.
  induction es as [|e es IH]; intros old track; cbn [apply_from]; [by destruct track|].
  destruct (_ <=? _)%double; [|by destruct track]. by rewrite <- (IH old (apply_edge e track)).
Qed.

(** The edges split at the first one that is not due. *)
Lemma apply_from_split ts es : forall track,
  exists gone rest, es = gone ++ rest /\ Forall (fun e => due ts e) gone /\
    match rest with e :: _ => due ts e = false | [] => True end /\
    apply_from ts es track = apply_all gone track <| edges := rest |>.
Proof.
  induction es as [|e es IH]; intros track; cbn [apply_from]; [by exists [], []|].
  fold (due ts e). destruct (due ts e) eqn:E.
  - destruct (IH (apply_edge e track)) as (gone & rest & -> & Hg & Hr & ->). exists (e :: gone), rest.
    split_and!; try done. constructor; [by rewrite E|done].
  - by exists [], (e :: es).
Qed.

Lemma apply_from_gone ts gone rest : forall track,
  Forall (fun e => due ts e) gone -> apply_from ts (gone ++ rest) track = apply_from ts rest (apply_all gone track).
Proof.
  induction gone as [|e gone IH]; intros track Hg; [done|]. inversion_clear Hg as [|? ? He Hgs]. cbn [app apply_from].
  unfold due in He. destruct (e_at e <=? ts)%double; [|done]. by rewrite IH.
Qed.

Lemma due_mono ts ts' e : dle ts ts' = true -> due ts e = true -> due ts' e = true.
Proof. unfold due. intros. by eapply dle_trans. Qed.

(** The render times of a sequence of ticks, none before the one before it. *)
Fixpoint going_on (ts : double) (rest : list double) : Prop :=
  match rest with [] => True | ts' :: rest => dle ts ts' = true /\ going_on ts' rest end.

(** C35: a tick applies exactly the queued edges the rendered state has reached, front to
    back, and leaves the queue at the first one it has not; and how often the game ticks does not
    matter: any sequence of ticks whose render times go forward leaves the track as one
    tick at the last of them would, the same buttons, the same axes, the same queue. *)
Theorem due_edges_any_cadence (track : GhostInputTrack) :
  (forall ts, exists gone rest,
     edges track = gone ++ rest /\ Forall (fun e => due ts e) gone /\
     match rest with e :: _ => due ts e = false | [] => True end /\
     apply_due ts track = apply_all gone track <| edges := rest |> /\
     mask (apply_due ts track) = match list.last gone with Some e => e_m e | None => mask track end) /\
  forall first times, going_on first times ->
    foldl (fun track ts => apply_due ts track) (apply_due first track) times
    = apply_due (default first (list.last times)) track.
Proof.
  split.
  - intros ts. destruct (apply_from_split ts (edges track) track) as (gone & rest & E1 & E2 & E3 & E4).
    exists gone, rest. unfold apply_due. rewrite E4. split_and!; try done. clear.
    assert (mask (apply_all gone track <| edges := rest |>) = mask (apply_all gone track)) as -> by by destruct (apply_all _ _).
    destruct gone as [|e gone _] using rev_ind; [done|]. rewrite apply_all_snoc, last_snoc. by destruct (apply_all gone track).
  - assert (forall ts ts' track, dle ts ts' = true -> apply_due ts' (apply_due ts track) = apply_due ts' track) as H.
    { clear. intros ts ts' track Hts. unfold apply_due at 2 3.
      destruct (apply_from_split ts (edges track) track) as (gone & rest & -> & Hg & _ & ->).
      unfold apply_due. rewrite apply_from_gone.
      - change (edges (apply_all gone track <| edges := rest |>)) with rest.
        apply apply_from_edges.
      - eapply list.Forall_impl; [done|]. intros e He. apply Is_true_true in He. apply Is_true_true. by eapply due_mono. }
    intros first times. revert first. induction times as [|ts times IH]; intros first Hgo; [done|].
    destruct Hgo as [Hts Hgo]. cbn [foldl]. rewrite H by done. rewrite IH by done. f_equal.
    by destruct times as [|x times] using rev_ind; [|rewrite last_cons, last_snoc].
Qed.

(** Three edges, two of them due by 20, the ticks at 5, 15 and 20. *)
Definition edge_at (at_ m : Z) : GhostInputEdge := GhostInputEdge0 <| e_at := of_Z at_ |> <| e_m := m |>.
Definition three_edges : GhostInputTrack := GhostInputTrack0 <| edges := [edge_at 10 1; edge_at 20 3; edge_at 30 0] |>.
Example due_edges_any_cadence_witness :
  foldl (fun track ts => apply_due ts track) (apply_due (of_Z 5) three_edges) [of_Z 15; of_Z 20]
  = apply_due (of_Z 20) three_edges /\
  mask (apply_due (of_Z 20) three_edges) = 3%Z /\ edges (apply_due (of_Z 20) three_edges) = [edge_at 30 0].
Proof.
  split; [|by vm_compute].
  apply (proj2 (due_edges_any_cadence three_edges) (of_Z 5) [of_Z 15; of_Z 20]). by vm_compute.
Defined.

(** * The rows *)

(** One frame as it is observed. *)
Record frame := Frame { fr_now : Z; fr_mask : Z; fr_dir : Z }.

(** A row stands for a run of equal frames, the newest first. *)
Record row_of (row : InputHistoryRow) (seg : list frame) : Prop := RowOf {
  ro_same : Forall (fun f => fr_mask f = row_mask row /\ fr_dir f = row_dir row) seg;
  ro_count : row_frames row = u64 (Z.of_nat (length seg));
  ro_newest : fr_now <$> head seg = Some (row_last_ms row);
  ro_oldest : fr_now <$> list.last seg = Some (row_start_ms row)
}.

Fixpoint neighbours_differ (rows : list InputHistoryRow) : Prop :=
  match rows with
  | r :: (s :: _) as rest => (row_mask r, row_dir r) <> (row_mask s, row_dir s) /\ neighbours_differ rest
  | _ => True
  end.

(** The rows of a history, its newest frame first: its newest frames, run by run; all of
    them unless the panel is full. *)
Record rows_of (bound : nat) (history : list frame) (rows : list InputHistoryRow) : Prop := RowsOf {
  rw_bound : length rows <= bound;
  rw_differ : neighbours_differ rows;
  rw_runs : exists segs older, Forall2 row_of rows segs /\ history = concat segs ++ older /\
                               (length rows < bound -> older = [])
}.

Definition panel_bound (max_rows : Z) : nat := Z.to_nat (Z.max max_rows 1).

Definition observe_frame (max_rows : Z) (rows : list InputHistoryRow) (f : frame) : list InputHistoryRow :=
  observe_rows max_rows (fr_now f) (fr_mask f) (fr_dir f) rows.

Lemma neighbours_differ_take n : forall rows, neighbours_differ rows -> neighbours_differ (take n rows).
Proof.
  induction n as [|n IH]; intros [|r rows] H; [done..|]. cbn [take]. destruct n as [|n], rows as [|s rows]; try done.
  destruct H as [H1 H2]. split; [done|]. apply (IH (s :: rows) H2).
Qed.

Lemma u64_succ n : u64 (u64 n + 1) = u64 (n + 1).
Proof. unfold u64. by rewrite Zplus_mod_idemp_l. Qed.

Lemma row_of_more row seg f :
  row_of row seg -> fr_mask f = row_mask row -> fr_dir f = row_dir row ->
  row_of (row <| row_frames := u64 (row_frames row + 1) |> <| row_last_ms := fr_now f |>) (f :: seg).
Proof.
  intros [H1 H2 H3 H4] Em Ed. destruct row. split; cbn in *; try done.
  - by constructor.
  - rewrite H2, u64_succ. f_equal. lia.
  - by destruct seg.
Qed.

Lemma rows_of_new bound history rows f :
  0 < bound -> rows_of bound history rows ->
  match rows with r :: _ => (fr_mask f, fr_dir f) <> (row_mask r, row_dir r) | [] => True end ->
  rows_of bound (f :: history) (take bound (MkRow (fr_mask f) (fr_dir f) 1 (fr_now f) (fr_now f) :: rows)).
Proof.
  intros Hb [H1 H2 (segs & older & Hs & -> & Ho)] Hd. set (row := MkRow _ _ _ _ _).
  assert (row_of row [f]) as Hrow by (split; try done; by repeat constructor).
  split.
  - rewrite length_take. lia.
  - apply neighbours_differ_take. destruct rows; [done|]. by split.
  - exists (take bound ([f] :: segs)), (concat (drop bound ([f] :: segs)) ++ older). split_and!.
    + apply Forall2_take. by constructor.
    + by rewrite app_assoc, <- concat_app, take_drop.
    + intros Hlt. rewrite length_take in Hlt. cbn [length] in Hlt. pose proof (list.Forall2_length _ _ _ Hs).
      rewrite drop_ge by (cbn [length]; lia). cbn. apply Ho. lia.
Qed.

Lemma observe_frame_rows max_rows history rows f :
  rows_of (panel_bound max_rows) history rows ->
  rows_of (panel_bound max_rows) (f :: history) (observe_frame max_rows rows f).
Proof.
  assert (0 < panel_bound max_rows) as Hb by (unfold panel_bound; lia). intros H.
  pose proof (rows_of_new _ _ _ f Hb H) as Hnew. unfold observe_frame, observe_rows. fold (panel_bound max_rows).
  destruct rows as [|row rows]; [by apply Hnew|].
  destruct ((row_mask row =? fr_mask f)%Z && (row_dir row =? fr_dir f)%Z) eqn:E; [|apply Hnew; intros [=]; lia].
  destruct H as [H1 H2 (segs & older & Hs & -> & Ho)]. inversion Hs as [|? seg ? segs' Hr Hs']; subst. split.
  - done.
  - destruct rows as [|s rows]; [done|]. by destruct row.
  - exists ((f :: seg) :: segs'), older. split_and!; [|done|exact Ho]. constructor; [|done]. apply row_of_more; [done|lia..].
Qed.

(** C36: a panel's rows are the observed history, run-length coded: after any frames, newest first
    the rows are the newest maximal runs of equal state, each with its count of
    frames (in 64 bits) and the times of its first and last one; at most [max 1 rows] of them; and
    unless the panel is full the whole history is on it, no frame lost or counted
    twice. *)
Theorem history_rows_runs (max_rows : Z) (frames : list frame) :
  rows_of (panel_bound max_rows) (reverse frames) (foldl (observe_frame max_rows) [] frames).
Proof.
  induction frames as [|f frames IH] using rev_ind.
  - split; [unfold panel_bound; cbn; lia|done|]. by exists [], [].
  - rewrite foldl_app, reverse_snoc. by apply observe_frame_rows.
Qed.

(** * The columns *)

(** The setting's text for a list of units. *)
Fixpoint join_units (us : list bytes) : bytes :=
  match us with
  | [] => []
  | [u] => u
  | u :: rest => u ++ ","%char :: join_units rest
  end.

Definition UNITS : list bytes := [str "cs"; str "ms"; str "frames"].

(** The orders the units can be kept in. *)
Definition unit_orders : list (list bytes) :=
  [[]] ++ ((fun u => [u]) <$> UNITS)
  ++ (u ← UNITS; v ← UNITS; if bool_decide (u = v) then [] else [[u; v]])
  ++ (u ← UNITS; v ← UNITS; w ← UNITS; if bool_decide (NoDup [u; v; w]) then [[u; v; w]] else []).

Lemma unit_orders_flush :
  Forall (fun us => Forall (fun u => flush u (join_units us) ∈ join_units <$> unit_orders) UNITS) unit_orders.
Proof. apply (bool_decide_unpack _). by vm_compute. Qed.

Lemma known_unit_UNITS token : known_unit token = true -> token ∈ UNITS.
Proof.
  unfold known_unit, UNITS. intros H. rewrite !list.elem_of_cons.
  apply orb_prop in H as [[H|H]%orb_prop|H]; apply bool_decide_eq_true in H; auto.
Qed.

Lemma flush_kept token cleaned : cleaned ∈ join_units <$> unit_orders -> flush token cleaned ∈ join_units <$> unit_orders.
Proof.
  intros (us & -> & Hus)%list_elem_of_fmap. destruct (known_unit token) eqn:E.
  - pose proof unit_orders_flush as H. rewrite list.Forall_forall in H. specialize (H us Hus).
    rewrite list.Forall_forall in H. by apply H, known_unit_UNITS.
  - unfold flush. rewrite E. by apply list_elem_of_fmap_2.
Qed.

Lemma clean_from_kept unit : forall token cleaned,
  cleaned ∈ join_units <$> unit_orders -> clean_from unit token cleaned ∈ join_units <$> unit_orders.
Proof.
  induction unit as [|c unit IH]; intros token cleaned H; cbn [clean_from]; [by apply flush_kept|].
  destruct (is_separator c); auto using flush_kept.
Qed.

(** What each order the setting can be kept in reads back as. *)
Definition canonical (us : list bytes) : Prop :=
  us <> [] -> NoDup us /\ us ⊆ UNITS /\ split_units [] (join_units us) = us /\ clean_unit (join_units us) = join_units us.

#[export] Instance canonical_dec us : Decision (canonical us).
Proof. unfold canonical. apply _. Defined.

Lemma unit_orders_canonical : Forall canonical unit_orders.
Proof. apply (bool_decide_unpack _). by vm_compute. Qed.

Lemma clean_unit_canonical unit : exists us, us ∈ unit_orders /\ us <> [] /\ clean_unit unit = join_units us.
Proof.
  assert (clean_from unit [] [] ∈ join_units <$> unit_orders) as H.
  { apply clean_from_kept, list_elem_of_fmap. exists []. split; [done|]. by left. }
  unfold clean_unit. destruct (bool_decide_reflect (clean_from unit [] [] = [])) as [E|E].
  - exists [str "cs"]. split_and!; [|done|done]. by right; left.
  - apply list_elem_of_fmap in H as (us & Eu & Hus). exists us. split_and!; [done| |done]. by intros ->.
Qed.

(** * The widths *)

Lemma four_digits : Forall (fun n => length (wide_number n) <= 4) (seqZ 0 10000).
Proof. apply (bool_decide_unpack _). by vm_compute. Qed.
Lemma three_digits : Forall (fun n => length (wide_number n) <= 3) (seqZ 0 1000).
Proof. apply (bool_decide_unpack _). by vm_compute. Qed.

Lemma unit_count_nonneg unit r : (0 <= row_frames r)%Z -> (0 <= unit_count unit r)%Z.
Proof.
  intros H. unfold unit_count, u64. destruct (bool_decide _); [by apply Z.mod_pos_bound|].
  destruct (bool_decide _); [by apply Z.mod_pos_bound|done].
Qed.

Lemma one_count_length unit r : (0 <= row_frames r)%Z -> length (one_count unit r) = unit_width unit.
Proof.
  intros H. pose proof (unit_count_nonneg unit r H) as Hc. unfold one_count, pad_left, unit_cap, unit_width.
  rewrite length_app, length_replicate. revert Hc. generalize (unit_count unit r). intros n Hn.
  assert (length (wide_number (n `min` 9999)) <= 4).
  { pose proof four_digits as F. rewrite list.Forall_forall in F. apply F, elem_of_seqZ. lia. }
  assert (length (wide_number (n `min` 999)) <= 3).
  { pose proof three_digits as F. rewrite list.Forall_forall in F. apply F, elem_of_seqZ. lia. }
  destruct (bool_decide _); lia.
Qed.

(** The columns of a row of [us]: their widths and a space between each two. *)
Definition columns (us : list bytes) : nat := sum_list (unit_width <$> us) + (length us - 1).

Lemma join_counts_length us r :
  (0 <= row_frames r)%Z -> length (join_counts (map (fun u => one_count u r) us)) = columns us.
Proof.
  intros H. unfold columns. induction us as [|u us IH]; [done|]. destruct us as [|v us].
  - cbn. rewrite one_count_length by done. lia.
  - change (join_counts (map _ (u :: v :: us)))
      with (one_count u r ++ 32%Z :: join_counts (map (fun u => one_count u r) (v :: us))).
    rewrite length_app, one_count_length by done. cbn [length]. rewrite IH. cbn. lia.
Qed.

(** Whatever text the setting holds, what is kept of it is a non-empty list of
    distinct known units, in the order they were asked for, it reads back as that list
    and keeping it again changes nothing; and under it the count of every row takes the
    same width, however long the row was held, so the columns of a panel never move. *)
Theorem display_columns (unit : bytes) :
  exists us, us <> [] /\ NoDup us /\ us ⊆ UNITS /\ clean_unit unit = join_units us /\
    split_units [] (clean_unit unit) = us /\ clean_unit (clean_unit unit) = clean_unit unit /\
    forall count_left r, (0 <= row_frames r)%Z ->
      length (row_head (clean_unit unit) count_left r) = columns us + 2.
Proof.
  destruct (clean_unit_canonical unit) as (us & Hus & Hne & ->). pose proof unit_orders_canonical as H.
  rewrite list.Forall_forall in H. destruct (H us Hus Hne) as (Hd & Hin & Hs & Hc). exists us. split_and!; try done.
  intros count_left r Hr. unfold row_head. rewrite Hs.
  destruct count_left; rewrite length_app, join_counts_length by done; cbn; lia.
Qed.

Example display_columns_witness :
  clean_unit (str "Frames+cs/frames; ms, ms") = str "frames,cs,ms" /\
  exists n, length (row_head (clean_unit (str "Frames+cs/frames; ms, ms")) true (MkRow 1 0 3 100 5000)) = n + 2.
Proof.
  split; [by vm_compute|].
  destruct (display_columns (str "Frames+cs/frames; ms, ms")) as (us & _ & _ & _ & _ & _ & _ & H).
  exists (columns us). apply H. cbn. lia.
Defined.
