(* ===== verification/LocalCapture.v ===== *)
(** Plugin.cpp, [game_thread_tick]: what is read of the local player each tick, and the
    edges counted from it (a hurt, a death, a landing, a montage, a bounce of the thrown
    sword, a shot in flight, the empty hand's glow).

    A peer acts on the counters, not on the flags, so a moment shorter than the interval
    of the sends still arrives.  What is read of the engine is an argument, [local_view]. *)
From S2P Require Import Prelude Float64 JsonString RemoteGhost Lifecycle ObjectRegistry VfxMirror PeerProps.
From S2P Require Import PoseMirror MontageMirror.
From Stdlib Require Import ZArith.

Record local_view := LocalView {
  refl : reflection;
  integer : Z -> string -> option Z;         (* a uint8_t or an int32_t property *)
  vector : Z -> string -> option vec3;       (* an FVector *)
  colour : Z -> string -> option vec3;       (* read_linear_color, its r, g and b *)
  short_name : Z -> bytes;                   (* GetName *)
  long_name : Z -> bytes;                    (* GetFullName *)
  class_of : Z -> option Z;                  (* GetClassPrivate *)
  world_of : Z -> option Z;                  (* GetWorld *)
  outer : Z -> option Z;                     (* GetOuterPrivate *)
  place : Z -> vec3;                         (* K2_GetActorLocation *)
  heading : Z -> vec3;                       (* K2_GetActorRotation: pitch, yaw, roll *)
  is_active : Z -> bool;                     (* component_is_active *)
  is_gone : Z -> bool;                       (* IsUnreachable *)
  montage_name : Z -> option bytes;          (* read_current_active_montage *)
  one_byte : Z -> string -> bool;            (* a ByteProperty or EnumProperty of size 1 *)
  held_objects : Z -> list Z;                (* the objects of the class's object properties *)
  bool_properties : Z -> list string;        (* the class's BoolProperty names *)
  instances : string -> list Z;              (* FindAllOf *)
  world_objects : objects                    (* what weak pointers resolve in *)
}.

(** The path in [GetFullName]'s "Class /Path". *)
Definition asset_path (v : local_view) (o : Z) : bytes := path_half (long_name v o).

(** * Health *)

Record vitals := Vitals {
  local_last_seen_hp : double;     (* -1 before the first reading *)
  local_hurt_count : Z;
  local_was_dead : bool;
  local_death_count : Z;
  chaser_reset_death_count : Z
}.
#[export] Instance vitals_eta : Eta vitals := fun r =>
  Vitals (local_last_seen_hp r) (local_hurt_count r) (local_was_dead r) (local_death_count r) (chaser_reset_death_count r).
Definition vitals0 : vitals := Vitals (of_Z (-1)) 0 false 0 0.

(** [read_shared_current_hp] *)
Definition read_shared_current_hp (v : local_view) (a : Z) : option double :=
  gi ← obj (refl v) a "As MV Game Instance Ref"; num (refl v) gi "CurrentHp".

(** Any drop of the health is a hurt. *)
Definition note_hurt (hp : option double) (s : vitals) : vitals :=
  match hp with
  | Some hp_now =>
      let s := if (local_last_seen_hp s >=? dzero)%double && (hp_now <? local_last_seen_hp s)%double
               then s <| local_hurt_count := (local_hurt_count s + 1)%Z |> else s in
      s <| local_last_seen_hp := hp_now |>
  | None => s
  end.

(** Health at zero is death, counted as it comes. *)
Definition note_death (hp : option double) (s : vitals) : vitals :=
  match hp with
  | Some hp =>
      let dead_now := (hp <=? dzero)%double in
      let s := if dead_now && negb (local_was_dead s)
               then s <| local_death_count := (local_death_count s + 1)%Z |> else s in
      s <| local_was_dead := dead_now |>
  | None => s
  end.

(** An edge line: latched only when its send was confirmed.  [send] is the bridge, when
    there is one. *)
Definition CHASER_RESET : bytes := js "{'type':'chaser_reset','payload':{}}".
Definition reset_chasers (send : option (bytes -> bool)) (s : vitals) : vitals * list bytes :=
  match send with
  | Some send =>
      if (local_death_count s >? chaser_reset_death_count s)%Z then
        (if send CHASER_RESET then s <| chaser_reset_death_count := local_death_count s |> else s, [CHASER_RESET])
      else (s, [])
  | None => (s, [])
  end.

(** The baselines a level's end forgets ([release_all_ghosts]). *)
Definition forget_vitals (s : vitals) : vitals :=
  s <| local_last_seen_hp := of_Z (-1) |> <| local_was_dead := false |>.

(** * The freeze *)

Definition SEATED_MOVE_STATE : Z := 8.

(** The player cannot act: paused, seated, or in a conversation.  [None] when the build
    has no such property. *)
Definition read_frozen (v : local_view) (controller : Z) (pawn : option Z) : option bool :=
  let r := refl v in
  world ← world_of v controller;
  level ← obj r world "PersistentLevel";
  settings ← obj r level "WorldSettings";
  if has r settings "PauserPlayerState" then
    let pauser_set := bool_decide (is_Some (obj r settings "PauserPlayerState")) in
    let seated := bool_decide (pawn ≫= (fun a => integer v a "moveState") = Some SEATED_MOVE_STATE) in
    let in_dialogue := match pawn with
                       | Some a => one_byte v a "controlState"
                                   && match integer v a "controlState" with Some s => negb (s =? 0)%Z | None => false end
                       | None => false
                       end in
    Some (pauser_set || seated || in_dialogue)
  else None.

Definition FROZEN_LINE (frozen : bool) : bytes :=
  js "{'type':'player_frozen','payload':{'frozen':" ++ str (if frozen then "true" else "false") ++ js "}}".

(** Sent on a change; what the core was told, and the line tried. *)
Definition send_frozen (send : option (bytes -> bool)) (frozen : option bool) (player_frozen_sent : bool)
    : bool * list bytes :=
  match frozen with
  | Some frozen =>
      if Bool.eqb frozen player_frozen_sent then (player_frozen_sent, [])
      else match send with
           | Some send => (if send (FROZEN_LINE frozen) then frozen else player_frozen_sent, [FROZEN_LINE frozen])
           | None => (player_frozen_sent, [])
           end
  | None => (player_frozen_sent, [])
  end.

(** * A shot in flight *)

Definition PROJECTILE_SAMPLE_INTERVAL_TICKS : Z := 3.
Definition PROJECTILE_RESCAN_INTERVAL_TICKS : Z := 30.

Record shot := Shot { shot_active : bool; shot_vfx : bytes; shot_loc : vec3; shot_rot : vec3 }.
Definition shot0 : shot := Shot false [] vzero vzero.

(** The local player fired it and it still moves. *)
Definition in_flight (v : local_view) (pawn c : Z) : bool :=
  let r := refl v in
  has r c "RootComponent" && bool_decide (obj r c "Instigator" = Some pawn)
  && match obj r c "ProjectileMovement" with
     | Some movement => is_active v movement
     | None => match raw_flag r c "bHidden" with Some hidden => negb hidden | None => true end
     end.

(** The asset of the first of the shot's components that has one. *)
Definition shot_asset (v : local_view) (c : Z) : option bytes :=
  match class_of v c with
  | None => None
  | Some _ => head (omap (fun component => asset_path v <$> obj (refl v) component "Asset") (held_objects v c))
  end.

Definition weak_of (w : objects) (a : Z) : weak := (a, match w !! a with Some o => serial o | None => (-1)%Z end).

Definition sample_shot (v : local_view) (tick pawn : Z) (st : list weak * shot) : list weak * shot :=
  let (pool, s) := st in
  if (tick mod PROJECTILE_SAMPLE_INTERVAL_TICKS =? 0)%Z then
    let pool := if (tick mod PROJECTILE_RESCAN_INTERVAL_TICKS =? 0)%Z
                then map (weak_of (world_objects v)) (instances v "PRJ_PlayerCutter_C") else pool in
    (pool, match List.find (in_flight v pawn) (omap (weak_get (world_objects v)) pool) with
           | Some c => Shot true (default (shot_vfx s) (shot_asset v c)) (place v c) (heading v c)
           | None => Shot false (shot_vfx s) (shot_loc s) (shot_rot s)
           end)
  else (pool, s).

(** * The thrown sword *)

Record thrown := Thrown {
  weapon_thrown : bool; weapon_class : bytes; weapon_state : Z; weapon_glow : bytes; weapon_loc : vec3; weapon_rot : vec3
}.
Definition thrown0 : thrown := Thrown false [] 0 [] vzero vzero.

Record bounces := Bounces { local_weapon_bounce_count : Z; prev_vel : vec3; have_prev_vel : bool }.
Definition bounces0 : bounces := Bounces 0 vzero false.

Definition flipped (before now : double) : bool :=
  ((before >? of_Z 40)%double && (now <? of_Z (-40))%double) || ((before <? of_Z (-40))%double && (now >? of_Z 40)%double).

(** A component of the velocity changes sign: a bounce. *)
Definition note_velocity (vel : vec3) (b : bounces) : bounces :=
  let '(px, py, pz) := prev_vel b in
  let '(vx, vy, vz) := vel in
  let bounced := have_prev_vel b && (flipped px vx || flipped py vy || flipped pz vz) in
  Bounces (if bounced then u64 (local_weapon_bounce_count b + 1) else local_weapon_bounce_count b) vel true.

Definition sample_bounce (v : local_view) (weapon state : Z) (b : bounces) : bounces :=
  if (state =? 0)%Z then
    match obj (refl v) weapon "ProjectileMovement" ≫= (fun pm => vector v pm "Velocity") with
    | Some vel => note_velocity vel b
    | None => b
    end
  else Bounces (local_weapon_bounce_count b) (prev_vel b) false.

(** Loose: not in hand, and away from the origin, where the game parks a sword picked up. *)
Definition sample_weapon (v : local_view) (pawn : Z) (in_hand : bool) (b : bounces) : bounces * thrown :=
  let r := refl v in
  match obj r pawn "weaponRef" with
  | Some weapon =>
      let '(x, y, z) := place v weapon in
      if negb in_hand && has r weapon "RootComponent"
         && (dsqrt (x * x + y * y + z * z) >=? MIN_PLAUSIBLE_DISTANCE)%double then
        let state := default 0%Z (integer v weapon "weaponState") in
        (sample_bounce v weapon state b,
         Thrown true (match class_of v weapon with Some class => asset_path v class | None => [] end) state
           (match obj r weapon "idleGlowVFX" ≫= (fun glow => obj r glow "Asset") with
            | Some a => asset_path v a | None => [] end)
           (x, y, z) (heading v weapon))
      else (b, thrown0)
  | None => (b, thrown0)
  end.

(** * The empty hand's glow *)

Record recall := Recall {
  local_recall_glow : bool; g_recall_identity : gmap Z bool; g_recall_identity_pawn : option Z
}.
Definition recall0 : recall := Recall false ∅ None.

(** A component of the pawn that shows the glow's asset. *)
Definition is_recall_glow (v : local_view) (pawn c : Z) : bool :=
  PeerProps.contains (long_name v c) (short_name v pawn)
  && match obj (refl v) c "Asset" with Some a => PeerProps.contains (long_name v a) (str RECALL_GLOW_ASSET) | None => false end.

(** Each component is identified once, at its first sighting for this pawn. *)
Definition sample_recall (v : local_view) (pawn : Z) (components : list Z) (s : recall) : recall :=
  let known := if bool_decide (g_recall_identity_pawn s = Some pawn) then g_recall_identity s else ∅ in
  let identity c := default (is_recall_glow v pawn c) (known !! c) in
  Recall (existsb (fun c => identity c && is_active v c) components)
    (list_to_map (map (fun c => (c, identity c)) components)) (Some pawn).

(** * The montage *)

Record montages := Montages { prev_local_montage : bytes; montage_count : Z; montage_stop_count : Z }.
#[export] Instance montages_eta : Eta montages := fun r =>
  Montages (prev_local_montage r) (montage_count r) (montage_stop_count r).
Definition montages0 : montages := Montages [] 0 0.

(** Unsigned 32-bit arithmetic wraps. *)
Definition u32 (z : Z) : Z := (z mod 2 ^ 32)%Z.

Definition montage_path (v : local_view) (pawn : Z) : bytes :=
  match obj (refl v) pawn "animBPref" ≫= montage_name v with
  | Some name => if bool_decide (name = []) || bool_decide (name = str "none") then [] else path_half name
  | None => []
  end.

(** An end, a start, both counted. *)
Definition note_montage (path : bytes) (s : montages) : montages :=
  let s := if bool_decide (path = []) && negb (bool_decide (prev_local_montage s = []))
           then s <| montage_stop_count := u32 (montage_stop_count s + 1) |> else s in
  let s := if negb (bool_decide (path = [])) && negb (bool_decide (path = prev_local_montage s))
           then s <| montage_count := u32 (montage_count s + 1) |> else s in
  s <| prev_local_montage := path |>.

(** * Landings and jumps *)

Record pulses := Pulses { landed_count : Z; jumped_count : Z; prev_landed_raw : bool; prev_jumped_raw : bool }.
Definition pulses0 : pulses := Pulses 0 0 false false.

(** [read_animbp_bool] *)
Definition read_animbp_bool (v : local_view) (a : Z) (prop : string) : bool :=
  match obj (refl v) a "animBPref" ≫= (fun abp => raw_flag (refl v) abp prop) with Some b => b | None => false end.

Definition note_pulses (landed_now jumped_now : bool) (s : pulses) : pulses :=
  Pulses (if landed_now && negb (prev_landed_raw s) then u32 (landed_count s + 1) else landed_count s)
    (if jumped_now && negb (prev_jumped_raw s) then u32 (jumped_count s + 1) else jumped_count s) landed_now jumped_now.

(** * The bubble *)

(** The charged-jump flag's name is looked for once, among the pawn's bools. *)
Record bubble := Bubble { bubble_charge_prop_searched : bool; bubble_charge_prop_name : option string }.
Definition bubble0 : bubble := Bubble false None.

Definition names_bubble (name : string) : bool :=
  PeerProps.contains (str name) (str "ubble") || PeerProps.contains (str name) (str "harged").

Definition search_bubble (v : local_view) (pawn : Z) (looks_like_player : bool) (s : bubble) : bubble :=
  if negb (bubble_charge_prop_searched s) && looks_like_player then
    Bubble true (match class_of v pawn with
                 | Some _ => match bubble_charge_prop_name s with
                             | Some name => Some name
                             | None => List.find names_bubble (bool_properties v pawn)
                             end
                 | None => bubble_charge_prop_name s
                 end)
  else s.

Definition bubble_charged (v : local_view) (pawn : Z) (s : bubble) : bool :=
  match bubble_charge_prop_name s ≫= raw_flag (refl v) pawn with Some b => b | None => false end.
