(* ===== verification/TrailCapture.v ===== *)
(** Plugin.cpp, [game_thread_tick]: the trail of afterimages.  The images the game really
    spawned for the local player are found on a cadence, told from pooled ones by their
    jump to the player, and counted with the colour they have.

    The other triggers (the game's own burst counter, the slide) are compiled in but
    disabled by [AFTERIMAGE_TRIGGER_FROM_OBSERVATION], and are left out. *)
From S2P Require Import Prelude Float64 JsonString RemoteGhost Chaser LocalCapture PoseMirror.
From Stdlib Require Import ZArith.

Definition AFTERIMAGE_TRIGGER_FROM_OBSERVATION : bool := true.
Definition AFTERIMAGE_OBSERVE_SCAN_INTERVAL_TICKS : Z := 6.
Definition AFTERIMAGE_REQUIRE_SPAWN_PROXIMITY : bool := true.
Definition AFTERIMAGE_SPAWN_PROXIMITY_UNITS : double := of_Z 400.
Definition REUSE_MOVE_THRESHOLD : double := of_Z 5.
Definition COLOR_MATCH_EPSILON : double := to_float (lit 1 100).

(** * One observation *)

Record observation := Observation {
  obs_color : vec3; have_color : bool; have_special : bool; images_new : Z; images_rejected_far : Z
}.
#[export] Instance observation_eta : Eta observation := fun r =>
  Observation (obs_color r) (have_color r) (have_special r) (images_new r) (images_rejected_far r).
Definition observation0 : observation := Observation vzero false false 0 0.

Definition dist_sq (p q : vec3) : double :=
  let '(px, py, pz) := p in
  let '(qx, qy, qz) := q in
  let dx := (px - qx)%double in
  let dy := (py - qy)%double in
  let dz := (pz - qz)%double in
  (dx * dx + dy * dy + dz * dz)%double.

(** A float differs from another. *)
Definition off (a b : double) : bool := (dabs (to_float (a - b)) >? COLOR_MATCH_EPSILON)%double.
Definition differs_from_baseline (color baseline : vec3) : bool :=
  let '(r, g, b) := color in
  let '(br, bg, bb) := baseline in
  off r br || off g bg || off b bb.

(** A colour off the baseline outranks one on it, whatever the order. *)
Definition note_color (baseline color : vec3) (o : observation) : observation :=
  let special := differs_from_baseline color baseline in
  let o := if negb (have_color o) || (special && negb (have_special o))
           then o <| obs_color := color |> <| have_color := true |> else o in
  o <| have_special := have_special o || special |>.

(** Its first sighting, or it has moved: images never move once placed, unless the pool
    hands them out again. *)
Definition is_new_image (pos : gmap Z vec3) (image : Z) (loc : vec3) : bool :=
  match pos !! image with
  | Some known => (dist_sq loc known >? REUSE_MOVE_THRESHOLD * REUSE_MOVE_THRESHOLD)%double
  | None => true
  end.

Definition is_ours (v : local_view) (pawn image : Z) : bool :=
  match obj (refl v) image "cachedMesh" with Some m => bool_decide (outer v m = Some pawn) | None => false end.

Definition observe_image (v : local_view) (pawn : Z) (baseline : vec3) (st : gmap Z vec3 * observation) (image : Z)
    : gmap Z vec3 * observation :=
  let (pos, o) := st in
  if is_ours v pawn image then
    let loc := place v image in
    let fresh := is_new_image pos image loc in
    let pos := <[image := loc]> pos in
    if negb fresh then (pos, o)
    else if AFTERIMAGE_REQUIRE_SPAWN_PROXIMITY
            && (dist_sq loc (place v pawn) >? AFTERIMAGE_SPAWN_PROXIMITY_UNITS * AFTERIMAGE_SPAWN_PROXIMITY_UNITS)%double
    then (pos, o <| images_rejected_far := (images_rejected_far o + 1)%Z |>)
    else
      let o := o <| images_new := (images_new o + 1)%Z |> in
      (pos, match colour v image "Color" with Some c => note_color baseline c o | None => o end)
  else (pos, o).

(** [observe_local_afterimage_colors] *)
Definition observe_local_afterimage_colors (v : local_view) (pawn : Z) (baseline : vec3) (images : list Z)
    (pos : gmap Z vec3) : gmap Z vec3 * observation :=
  foldl (observe_image v pawn baseline) (pos, observation0) images.

(** * The trail *)

Record trail := Trail {
  afterimage_count : Z;
  afterimage_spawn_n : Z;
  afterimage_have_observed_color : bool;
  latched_afterimage_color : vec3;
  afterimage_idle_next_scan_tick : Z;
  afterimage_pos_primed : bool;
  afterimage_pos_by_ptr : gmap Z vec3
}.
#[export] Instance trail_eta : Eta trail := fun r =>
  Trail (afterimage_count r) (afterimage_spawn_n r) (afterimage_have_observed_color r) (latched_afterimage_color r)
    (afterimage_idle_next_scan_tick r) (afterimage_pos_primed r) (afterimage_pos_by_ptr r).
Definition trail0 : trail := Trail 0 0 false vzero 0 false ∅.

(** The event and its colour are latched together; the first scan only learns where the
    pooled images are. *)
Definition apply_observation (o : observation) (s : trail) : trail :=
  if negb (afterimage_pos_primed s) then s <| afterimage_pos_primed := true |>
  else if (images_new o >? 0)%Z then
    s <| latched_afterimage_color := obs_color o |> <| afterimage_have_observed_color := true |>
      <| afterimage_count := u32 (afterimage_count s + 1) |> <| afterimage_spawn_n := images_new o |>
  else s.

Definition scan_due (tick : Z) (s : trail) : bool := (afterimage_idle_next_scan_tick s <=? tick)%Z.

(** [images] is what the registry answers, asked when a scan is due. *)
Definition scan_trail (v : local_view) (pawn tick : Z) (baseline : vec3) (images : list Z) (s : trail) : trail :=
  if scan_due tick s then
    let s := s <| afterimage_idle_next_scan_tick := u64 (tick + AFTERIMAGE_OBSERVE_SCAN_INTERVAL_TICKS) |> in
    let (pos, o) := observe_local_afterimage_colors v pawn baseline images (afterimage_pos_by_ptr s) in
    apply_observation o (s <| afterimage_pos_by_ptr := pos |>)
  else s.

(** The colour a send carries: the latched one, else the pawn's, else white. *)
Definition trail_color (pawn_color : option vec3) (s : trail) : vec3 :=
  if afterimage_have_observed_color s then latched_afterimage_color s
  else default (of_Z 1, of_Z 1, of_Z 1) pawn_color.

Definition sample_trail (v : local_view) (pawn tick : Z) (images : list Z) (s : trail) : trail * vec3 :=
  let pawn_color := colour v pawn "afterimageColor" in
  let s := scan_trail v pawn tick (default vzero pawn_color) images s in
  (s, trail_color pawn_color s).

(** A level's end: the positions, and the learning, start over. *)
Definition forget_trail (s : trail) : trail := s <| afterimage_pos_by_ptr := ∅ |> <| afterimage_pos_primed := false |>.
