(* ===== verification/VfxCapture.v ===== *)
(** Plugin.cpp, [game_thread_tick]: which effects of [MIRRORED_EFFECTS] the local player
    shows, and the wire string that tells its peers.

    A sustained row is named while it is active; a one-shot row is named always, with the
    count of its bursts, so a peer never takes the first burst for its baseline. *)
From S2P Require Import Prelude Float64 JsonString RemoteGhost VfxMirror PeerProps PoseMirror LocalCapture TrailCapture.
From Stdlib Require Import ZArith.

Definition MIRROR_PLAYER_VFX_INTERVAL_TICKS : Z := 5.
Definition MIRROR_WORLD_VFX_RADIUS : double := of_Z 600.

Record vfx_capture := VfxCapture {
  vfx_identity : gmap Z (option nat);        (* a component's row, [None] for no row of ours *)
  mirrored_vfx_keys : bytes;
  observed_world_offset_z : gmap nat double;
  world_vfx_start_count : gmap nat Z
}.
#[export] Instance vfx_capture_eta : Eta vfx_capture := fun r =>
  VfxCapture (vfx_identity r) (mirrored_vfx_keys r) (observed_world_offset_z r) (world_vfx_start_count r).
Definition vfx_capture0 : vfx_capture := VfxCapture ∅ [] ∅ ∅.

(** Every component the plugin spawned onto a ghost. *)
Definition spawned_by_us (remotes : gmap bytes RemoteGhost) : list Z :=
  concat (map (fun '(_, g) => map snd (map_to_list (vfx_components (engine_objects g)))
                              ++ recent_one_shot_components (engine_objects g)) (map_to_list remotes)).

(** The row whose asset the component shows; an attached row is ours only on the pawn. *)
Definition row_of_asset (path : bytes) : option nat :=
  fst <$> list_find (fun e => path = str (asset e)) MIRRORED_EFFECTS.
Definition is_world_row (i : nat) : bool := match MIRRORED_EFFECTS !! i with Some e => world_spawned e | None => false end.

Definition identify (v : local_view) (pawn c : Z) : option nat :=
  a ← obj (refl v) c "Asset";
  i ← row_of_asset (asset_path v a);
  if is_world_row i || PeerProps.contains (long_name v c) (short_name v pawn) then Some i else None.

(** A burst in the world is the player's when it is near it, and not nearer to its
    thrown sword; what is returned is its height over the player. *)
Definition near_player (v : local_view) (player : vec3) (sword : option vec3) (c : Z) : option double :=
  where_ ← vector v c "RelativeLocation";
  let d := dist_sq where_ player in
  if (d >? MIRROR_WORLD_VFX_RADIUS * MIRROR_WORLD_VFX_RADIUS)%double then None
  else match sword with
       | Some at_ => if (dist_sq where_ at_ <? d)%double then None else Some (where_.2 - player.2)%double
       | None => Some (where_.2 - player.2)%double
       end.

(** The rows seen active, and what a first sighting teaches. *)
Record seen_rows := SeenRows { active_rows : list nat; offsets : gmap nat double; starts : gmap nat Z }.

Definition see_component (v : local_view) (player : vec3) (sword : option vec3) (known : gmap Z (option nat))
    (st : seen_rows) (cw : Z * option nat) : seen_rows :=
  let '(c, which) := cw in
  match which with
  | None => st
  | Some i =>
      if negb (is_active v c) then st
      else if is_world_row i then
        match near_player v player sword c with
        | None => st
        | Some dz =>
            if bool_decide (known !! c = None)
            then SeenRows (i :: active_rows st) (<[i := dz]> (offsets st)) (<[i := u64 (default 0%Z (starts st !! i) + 1)]> (starts st))
            else SeenRows (i :: active_rows st) (offsets st) (starts st)
        end
      else SeenRows (i :: active_rows st) (offsets st) (starts st)
  end.

(** The token of a row; the keys of the rows told, comma-joined. *)
Definition row_token (active : list nat) (starts : gmap nat Z) (i : nat) (e : MirroredEffect) : option bytes :=
  if world_spawned e then Some (key e ++ ":"%char :: str (pretty (default 0%Z (starts !! i))))
  else if bool_decide (i ∈ active) then Some (key e) else None.

Fixpoint join_keys (tokens : list bytes) : bytes :=
  match tokens with
  | [] => []
  | [t] => t
  | t :: rest => t ++ ","%char :: join_keys rest
  end.

Definition vfx_keys (active : list nat) (starts : gmap nat Z) : bytes :=
  join_keys (omap id (imap (row_token active starts) MIRRORED_EFFECTS)).

(** [components] is what the registry answers, asked when a sample is due. *)
Definition vfx_due (tick : Z) : bool := MIRROR_PLAYER_VFX && (tick mod MIRROR_PLAYER_VFX_INTERVAL_TICKS =? 0)%Z.

Definition sample_vfx (v : local_view) (pawn : Z) (sword : option vec3) (ours components : list Z) (s : vfx_capture)
    : vfx_capture :=
  let known := vfx_identity s in
  let theirs := List.filter (fun c => negb (bool_decide (c ∈ ours))) components in
  let rows := map (fun c => (c, default (identify v pawn c) (known !! c))) theirs in
  let st := foldl (see_component v (place v pawn) sword known) (SeenRows [] (observed_world_offset_z s) (world_vfx_start_count s)) rows in
  VfxCapture (list_to_map rows) (vfx_keys (active_rows st) (starts st)) (offsets st) (starts st).
