(* ===== verification/VfxCaptureProps.v ===== *)
(** Properties of the effects a player shows: the keys and counts its peers read are the
    rows it had active and the bursts it counted. *)
From S2P Require Import Prelude Float64 CScan JsonString JsonSpec JsonReaders NumberText RemoteGhost VfxMirror VfxProps.
From S2P Require Import PeerProps PoseMirror LocalCapture TrailCapture VfxCapture.
From Stdlib Require Import ZArith.

(** * A count at the end of a text *)

Lemma wire_number_count n :
  (0 <= n < 10 ^ 10)%Z -> wire_number (str (pretty n)) = Some (of_Z n).
Proof.
  intros Hn. assert (exists m, n = Z.of_N m) as [m ->] by (exists (Z.to_N n); lia).
  assert (str (pretty (Z.of_N m)) = str (pretty m)) as -> by (by destruct m).
  destruct (pretty_digits m) as (Hd & Hv & Hne). unfold wire_number.
  rewrite bool_decide_false by done. rewrite (proj2 (Nat.leb_le _ _)).
  2:{ apply pretty_length. change (10 ^ N.of_nat 10)%N with (10 ^ 10)%N. lia. }
  assert (forallb is_digit (str (pretty m)) = true) as -> by (by apply forallb_forall, List.Forall_forall).
  cbn [andb negb].
  destruct (str (pretty m)) as [|c t]; [done|]. rewrite strtod_digits by (by apply forallb_forall, List.Forall_forall).
  rewrite Hv, of_scientific_int. f_equal. unfold of_Z.
  destruct (Z.ltb_spec (Z.of_N m) 0); [lia|]. by replace (Z.to_N (Z.abs (Z.of_N m))) with m by lia.
Qed.

(** * The tokens *)

Lemma split_tokens ts : ts <> [] -> Forall (free_of ",") ts -> split_on "," (join_keys ts) = ts.
Proof.
  induction ts as [|t ts IH]; [done|]. intros _ [Ht Hts]%Forall_cons_1. destruct ts as [|t' ts]; [by apply split_on_all|].
  change (join_keys (t :: t' :: ts)) with (t ++ ","%char :: join_keys (t' :: ts)).
  rewrite split_on_app by done. by rewrite IH.
Qed.

(** No key holds a separator, and no two rows share one. *)
Definition separator_free (k : bytes) : Prop := free_of "," k /\ free_of ":" k.

Lemma keys_free : Forall (fun e => separator_free (key e)) MIRRORED_EFFECTS.
Proof. repeat constructor. Qed.
Lemma row_keys_distinct : NoDup (map key MIRRORED_EFFECTS).
Proof. apply (bool_decide_unpack _). by vm_compute. Qed.

Lemma token_key_plain k : free_of ":" k -> token_key k = k.
Proof. intros H. unfold token_key. rewrite find_char_0. by rewrite find_if_all. Qed.

Lemma token_key_counted k n : free_of ":" k -> token_key (k ++ ":"%char :: n) = k.
Proof.
  intros H. unfold token_key. rewrite find_char_0. by rewrite find_if_app, take_app_length by done.
Qed.

Lemma token_count_plain k : free_of ":" k -> token_count k = None.
Proof. intros H. unfold token_count. rewrite find_char_0. by rewrite find_if_all. Qed.

Lemma token_count_counted k n : free_of ":" k -> token_count (k ++ ":"%char :: n) = wire_number n.
Proof.
  intros H. unfold token_count. rewrite find_char_0. rewrite find_if_app by done.
  by rewrite <- (Nat.add_0_r (length k)), <- Nat.add_assoc, drop_add_app.
Qed.

Lemma row_token_key active starts i e t : separator_free (key e) -> row_token active starts i e = Some t -> token_key t = key e.
Proof.
  intros [_ Hc]. unfold row_token. destruct (world_spawned e); [|destruct (bool_decide _); [|done]]; intros [= <-];
    auto using token_key_plain, token_key_counted.
Qed.

Lemma digits_free c ds : digits ds -> is_digit c = false -> free_of c ds.
Proof.
  intros Hd Hc. eapply Forall_impl; [|exact Hd]. intros a Ha. apply Ascii.eqb_neq. congruence.
Qed.

Lemma row_token_free active starts i e t :
  separator_free (key e) -> (0 <= default 0%Z (starts !! i))%Z -> row_token active starts i e = Some t -> free_of "," t.
Proof.
  intros [Hk _] Hn. unfold row_token. destruct (world_spawned e); [|destruct (bool_decide _); [|done]]; intros [= <-]; [|done].
  apply Forall_app_2; [done|]. constructor; [done|]. destruct (default 0%Z (starts !! i)) as [|p|p]; [by repeat constructor| |lia].
  apply digits_free; [apply (pretty_digits (Npos p))|done].
Qed.

(** The token of a row is found under its key, wherever it stands. *)
Lemma find_token : forall (l : list MirroredEffect) (f : nat -> MirroredEffect -> option bytes) i e,
  (forall i e t, l !! i = Some e -> f i e = Some t -> token_key t = key e) -> NoDup (map key l) -> l !! i = Some e ->
  List.find (fun t => bool_decide (token_key t = key e)) (omap id (imap f l)) = f i e.
Proof.
  induction l as [|x l IH]; intros f i e Hf Hn Hi; [done|]. cbn in Hn. apply list.NoDup_cons in Hn as [Hx Hn].
  cbn [imap]. assert (forall i e t, l !! i = Some e -> (f ∘ S) i e = Some t -> token_key t = key e) as Hf'
    by (intros i' e' t E; apply (Hf (S i') e' t E)).
  destruct i as [|i]; cbn in Hi.
  - simplify_eq. cbn [omap list_omap id]. destruct (f 0 e) as [t|] eqn:E.
    + cbn. by rewrite bool_decide_true by (by apply (Hf 0 e t)).
    + destruct (List.find _ _) as [t|] eqn:Ef; [|done]. apply List.find_some in Ef as [Ht Hb].
      apply bool_decide_eq_true in Hb. apply list_elem_of_In, list_elem_of_omap in Ht as (o & Ho & Eo). cbn in Eo. subst o.
      apply elem_of_lookup_imap in Ho as (j & y & Ey & Hy). rewrite (Hf' j y t Hy (eq_sym Ey)) in Hb.
      destruct Hx. rewrite <- Hb. apply list_elem_of_In, in_map, list_elem_of_In. by eapply list_elem_of_lookup_2.
  - cbn [omap list_omap id]. destruct (f 0 x) as [t|] eqn:E; [|by apply (IH (f ∘ S))].
    cbn [List.find]. rewrite bool_decide_false; [by apply (IH (f ∘ S))|].
    rewrite (Hf 0 x t) by done. intros Ek. apply Hx. rewrite Ek.
    apply list_elem_of_In, in_map, list_elem_of_In. by eapply list_elem_of_lookup_2.
Qed.

(** * No escape *)

Definition plain_text (u : bytes) : Prop := Forall (fun c => Ascii.eqb c cQuote || Ascii.eqb c cBackslash = false) u.

Lemma plain_escape u : plain_text u -> json_escape u = u.
Proof. unfold json_escape. induction 1 as [|c u Hc _ IH]; [done|]. cbn. rewrite Hc. cbn. by rewrite IH. Qed.

Lemma keys_plain : Forall (fun e => plain_text (key e)) MIRRORED_EFFECTS.
Proof. repeat constructor. Qed.

Lemma digits_plain ds : digits ds -> plain_text ds.
Proof.
  intros Hd. eapply Forall_impl; [|exact Hd]. intros c Hc. apply orb_false_iff. split; apply Ascii.eqb_neq; by intros ->.
Qed.

Lemma join_plain ts : Forall plain_text ts -> plain_text (join_keys ts).
Proof.
  induction 1 as [|t ts Ht Hts IH]; [constructor|]. destruct ts as [|t' ts]; [done|].
  change (join_keys (t :: t' :: ts)) with (t ++ ","%char :: join_keys (t' :: ts)). apply Forall_app_2; [done|]. by constructor.
Qed.

Lemma row_token_plain active starts i e t :
  plain_text (key e) -> (0 <= default 0%Z (starts !! i))%Z -> row_token active starts i e = Some t -> plain_text t.
Proof.
  intros Hk Hn. unfold row_token. destruct (world_spawned e); [|destruct (bool_decide _); [|done]]; intros [= <-]; [|done].
  apply Forall_app_2; [done|]. constructor; [done|]. destruct (default 0%Z (starts !! i)) as [|p|p]; [by repeat constructor| |lia].
  apply digits_plain, (pretty_digits (Npos p)).
Qed.

(** What holds of every row's token holds of every token told. *)
Lemma tokens_forall (P : bytes -> Prop) active starts :
  (forall i e t, MIRRORED_EFFECTS !! i = Some e -> row_token active starts i e = Some t -> P t) ->
  Forall P (omap id (imap (row_token active starts) MIRRORED_EFFECTS)).
Proof.
  intros H. apply list.Forall_forall. intros t (o & Ho & Eo)%list_elem_of_omap. cbn in Eo. subst o.
  apply elem_of_lookup_imap in Ho as (i & e & E & He). by eapply H.
Qed.

(** There is always a token: a one-shot row is always told. *)
Lemma tokens_told active starts : omap id (imap (row_token active starts) MIRRORED_EFFECTS) <> [].
Proof.
  intros E. eapply (list.elem_of_nil (str "hw:" ++ str (pretty (default 0%Z (starts !! 2))))). rewrite <- E.
  apply list_elem_of_omap. eexists. split; [apply elem_of_lookup_imap; exists 2; by eexists|done].
Qed.

(** * Properties *)

(** C13: what a player shows is what its peers look up.  Of the string it sends, the walk a
    peer's plugin makes finds a sustained row exactly when the player had it active, and a
    one-shot row always, with the count of the bursts it has had; no row hides another,
    and the string stands in the line without an escape. *)
Theorem vfx_keys_looked_up (active : list nat) (starts : gmap nat Z) (Hstarts : forall i, (0 <= default 0%Z (starts !! i) < 10 ^ 10)%Z) :
  json_escape (vfx_keys active starts) = vfx_keys active starts /\
  forall i e, MIRRORED_EFFECTS !! i = Some e ->
    vfx_lookup (vfx_keys active starts) (key e) =
      if world_spawned e then (true, Some (of_Z (default 0%Z (starts !! i))))
      else (bool_decide (i ∈ active), None).
Proof.
  pose proof (fun i e => proj1 (list.Forall_lookup _ _) keys_free i e) as Hfree.
  split.
  - apply plain_escape, join_plain, tokens_forall. intros i e t He. apply row_token_plain; [|apply Hstarts].
    by apply (proj1 (list.Forall_lookup _ _) keys_plain i e).
  - intros i e He. etrans; [exact (vfx_lookup_from (key e) (vfx_keys active starts) [])|]. unfold vfx_spec, vfx_keys.
    rewrite split_tokens; [|apply tokens_told|].
    2:{ apply tokens_forall. intros j y t Hy. apply row_token_free; [by eapply Hfree|apply Hstarts]. }
    rewrite (find_token _ (row_token active starts) i e) by
      first [exact He | apply row_keys_distinct | intros j y t Hy; apply row_token_key; by eapply Hfree].
    destruct (Hfree i e He) as [_ Hc]. unfold row_token. destruct (world_spawned e).
    + by rewrite token_count_counted, wire_number_count.
    + destruct (bool_decide _); [|done]. by rewrite token_count_plain.
Qed.

(** The charge is on, the healing is not; the dust has burst seven times. *)
Example vfx_keys_looked_up_witness :
  vfx_keys [1] {[5 := 7%Z]} = str "chg,hw:0,hew:0,dl:7,bb:0,sl:0,wk:0" /\
  json_escape (vfx_keys [1] {[5 := 7%Z]}) = vfx_keys [1] {[5 := 7%Z]} /\
  forall i e, MIRRORED_EFFECTS !! i = Some e ->
    vfx_lookup (vfx_keys [1] {[5 := 7%Z]}) (key e) =
      if world_spawned e then (true, Some (of_Z (default 0%Z (({[5 := 7%Z]} : gmap nat Z) !! i))))
      else (bool_decide (i ∈ [1]), None).
Proof.
  split; [by vm_compute|]. apply (vfx_keys_looked_up [1] {[5 := 7%Z]}).
  intros i. destruct (decide (i = 5)) as [->|]; [rewrite lookup_singleton_eq; cbn; lia|].
  rewrite lookup_singleton_ne by done. cbn. lia.
Defined.
