(* ===== verification/AfterimageOutline.v ===== *)
(** Plugin.cpp: a ghost's afterimages are never outlined.  The guard on
    [SetRenderCustomDepth] refuses an enable on a ghost's image at the call itself; the
    sweep, on a cadence, attributes every image, strips the ghosts' ones the guard missed
    and gives the player's back what was refused before it could be attributed.

    Both run on the game thread and share the attribution; the sweep's own calls pass
    through the guard.  The engine's flag on each component is part of the state. *)
From S2P Require Import Prelude Float64 JsonString RemoteGhost ObjectRegistry Chaser TrailCapture.
From Stdlib Require Import ZArith.

Definition AFTERIMAGE_SWEEP_INTERVAL_TICKS : Z := 5.

(** What is read of the engine. *)
Record image_view := ImageView {
  outers : Z -> list Z;               (* GetOuterPrivate, followed to its end *)
  is_afterimage : Z -> bool;          (* its class is named BP_AfterImage_C *)
  copy_actor : Z -> option Z;         (* copyActor, where it resolves and is set *)
  placed : Z -> bool;                 (* RootComponent resolves *)
  image_place : Z -> vec3;            (* K2_GetActorLocation *)
  held : Z -> list Z;                 (* the objects of the class's object properties *)
  depth_byte : Z -> option bool;      (* bRenderCustomDepth resolves; the other bits of its byte *)
  can_set : Z -> bool;                (* SetRenderCustomDepth is reflected *)
  guarded : bool;                     (* the guard found the function and its bValue *)
  v_objects : objects
}.

(** Who an image was copied from, the player if no ghost, and where it was then. *)
Record AfterimageOwner := { owner_ghost : option Z; owner_at : vec3 }.

Record outline := Outline {
  afterimage_owners : gmap Z AfterimageOwner;
  afterimage_pending_reenable : gmap Z (gset Z);
  afterimage_feed : feed;             (* g_afterimage_registry, and its staging *)
  custom_depth : gset Z               (* the engine's: the components whose flag is on *)
}.
#[export] Instance outline_eta : Eta outline := fun r =>
  Outline (afterimage_owners r) (afterimage_pending_reenable r) (afterimage_feed r) (custom_depth r).

(** * The guard *)

(** The afterimage a component belongs to, up its chain of outers. *)
Definition image_of (v : image_view) (c : Z) : option Z := List.find (is_afterimage v) (outers v c).

Definition component_is_owned_by (v : image_view) (c actor : Z) : bool := existsb (Z.eqb actor) (outers v c).

(** Whose an image is as far as the guard can tell: its copyActor, else what the sweep
    decided. *)
Definition attribution (v : image_view) (ghosts : list Z) (s : outline) (image : Z) : option bool :=
  match copy_actor v image with
  | Some actor => Some (existsb (Z.eqb actor) ghosts)
  | None => (fun o => bool_decide (is_Some (owner_ghost o))) <$> afterimage_owners s !! image
  end.

Definition pending_of (s : outline) (image : Z) : gset Z := default ∅ (afterimage_pending_reenable s !! image).

(** The pre-hook: the value the engine's function is given instead of [value].  Turning
    off is never refused; an enable that cannot be attributed yet is refused and
    remembered. *)
Definition outline_guard (v : image_view) (ghosts : list Z) (c : Z) (value : bool) (s : outline) : outline * bool :=
  if negb value then (s, value)
  else match image_of v c with
  | None => (s, value)
  | Some image =>
      let s := s <| afterimage_feed := upd_registry "BP_AfterImage_C" (add (v_objects v) image) (afterimage_feed s) |> in
      if bool_decide (ghosts = []) then (s, value)
      else match attribution v ghosts s image with
      | Some false => (s, value)
      | Some true => (s, false)
      | None =>
          (s <| afterimage_pending_reenable := <[image := {[c]} ∪ pending_of s image]> (afterimage_pending_reenable s) |>, false)
      end
  end.

(** [SetRenderCustomDepth], by the game or by the plugin. *)
Definition set_render_custom_depth (v : image_view) (ghosts : list Z) (c : Z) (value : bool) (s : outline) : outline :=
  let (s, value) := if guarded v then outline_guard v ghosts c value s else (s, value) in
  s <| custom_depth := if value then {[c]} ∪ custom_depth s else custom_depth s ∖ {[c]} |>.

Definition call_set_render_custom_depth (v : image_view) (ghosts : list Z) (value : bool) (s : outline) (c : Z) : outline :=
  if can_set v c then set_render_custom_depth v ghosts c value s else s.

(** * The sweep *)

(** The flag, read as its whole byte. *)
Definition reads_on (v : image_view) (s : outline) (c : Z) : bool :=
  match depth_byte v c with Some other => other || bool_decide (c ∈ custom_depth s) | None => false end.

(** Birth proximity, where copyActor is not set yet: the nearest of the player and the
    ghosts. *)
Definition nearer (v : image_view) (loc : vec3) (st : double * option Z) (ghost : Z) : double * option Z :=
  let to_ghost := dist_sq loc (image_place v ghost) in
  if (st.1 <? dzero)%double || (to_ghost <? st.1)%double then (to_ghost, Some ghost) else st.

Definition decide_owner (v : image_view) (ghosts : list Z) (player : option vec3) (image : Z) : option Z :=
  match copy_actor v image with
  | Some actor => List.find (Z.eqb actor) ghosts
  | None =>
      let loc := image_place v image in
      let best := match player with Some p => dist_sq loc p | None => of_Z (-1) end in
      (foldl (nearer v loc) (best, None) ghosts).2
  end.

(** Never seen, or moved: the pool has used the actor again. *)
Definition decide_now (v : image_view) (s : outline) (image : Z) : bool :=
  match afterimage_owners s !! image with
  | Some known => (dist_sq (image_place v image) (owner_at known) >? REUSE_MOVE_THRESHOLD * REUSE_MOVE_THRESHOLD)%double
  | None => true
  end.

Definition attribute (v : image_view) (ghosts : list Z) (player : option vec3) (image : Z) (s : outline) : outline :=
  if decide_now v s image then
    s <| afterimage_owners := <[image := {| owner_ghost := decide_owner v ghosts player image; owner_at := image_place v image |}]>
                                (afterimage_owners s) |>
  else s.

Definition strip (v : image_view) (ghosts : list Z) (image : Z) (s : outline) (c : Z) : outline :=
  if reads_on v s c && component_is_owned_by v c image then call_set_render_custom_depth v ghosts false s c else s.

(** The player's own get back what was refused; a ghost's stay off, and lose what is on. *)
Definition settle (v : image_view) (ghosts : list Z) (image : Z) (s : outline) : outline :=
  let forget s := s <| afterimage_pending_reenable := delete image (afterimage_pending_reenable s) |> in
  match afterimage_owners s !! image ≫= owner_ghost with
  | None => forget (foldl (call_set_render_custom_depth v ghosts true) s (elements (pending_of s image)))
  | Some _ => foldl (strip v ghosts image) (forget s) (held v image)
  end.

Definition sweep_image (v : image_view) (ghosts : list Z) (player : option vec3) (s : outline) (image : Z) : outline :=
  if placed v image then settle v ghosts image (attribute v ghosts player image s) else s.

(** Without ghosts: what the guard refused is restored on the images the sweep knows and
    the registry still has, and all is forgotten. *)
Definition restore_known (v : image_view) (alive : list Z) (s : outline) (entry : Z * gset Z) : outline :=
  if bool_decide (is_Some (afterimage_owners s !! entry.1)) && bool_decide (entry.1 ∈ alive)
  then foldl (call_set_render_custom_depth v [] true) s (elements entry.2) else s.

Definition live_images (v : image_view) (tick : Z) (s : outline) : outline * list Z :=
  let (fd, images) := registry_live (v_objects v) tick "BP_AfterImage_C" (afterimage_feed s) in
  (s <| afterimage_feed := fd |>, images).

(** Entries of images this pass did not see are dropped. *)
Definition prune {A} (seen : list Z) (m : gmap Z A) : gmap Z A := filter (fun p : Z * A => p.1 ∈ seen) m.

Definition sweep_afterimage_outlines (v : image_view) (tick : Z) (ghosts : list Z) (player : option vec3) (s : outline) : outline :=
  let (s, images) := live_images v tick s in
  if bool_decide (ghosts = []) then
    foldl (restore_known v images) s (map_to_list (afterimage_pending_reenable s))
      <| afterimage_pending_reenable := ∅ |> <| afterimage_owners := ∅ |>
  else
    let s := foldl (sweep_image v ghosts player) s images in
    let seen := List.filter (placed v) images in
    s <| afterimage_pending_reenable := prune seen (afterimage_pending_reenable s) |>
      <| afterimage_owners := prune seen (afterimage_owners s) |>.

(** On its cadence in the tick. *)
Definition tick_outlines (v : image_view) (tick : Z) (ghosts : list Z) (player : option vec3) (s : outline) : outline :=
  if (tick mod AFTERIMAGE_SWEEP_INTERVAL_TICKS =? 0)%Z then sweep_afterimage_outlines v tick ghosts player s else s.

(** A level's end. *)
Definition forget_outlines (s : outline) : outline :=
  s <| afterimage_pending_reenable := ∅ |> <| afterimage_owners := ∅ |>.
