(* ===== verification/AfterimageProps.v ===== *)
(** The afterimages' outlines: what a sweep settles, and what the guard may forget. *)
From S2P Require Import Prelude Float64 JsonString RemoteGhost ObjectRegistry Chaser TrailCapture AfterimageOutline.
From Stdlib Require Import ZArith.

Section Sweep.
Context (v : image_view) (ghosts : list Z) (player : option vec3).
Hypothesis Hghosts : ghosts <> [].
Hypothesis Hcan : forall c, can_set v c = true.

(** The image's copyActor is a ghost there is. *)
Definition copied_from_ghost (v : image_view) (ghosts : list Z) (image : Z) : bool :=
  match copy_actor v image with Some actor => bool_decide (actor ∈ ghosts) | None => false end.

Lemma existsb_decide (x : Z) l : existsb (Z.eqb x) l = bool_decide (x ∈ l).
Proof.
  apply Bool.eq_iff_eq_true. rewrite existsb_exists, bool_decide_eq_true. split.
  - intros (y & Hy & ->%Z.eqb_eq). by apply list_elem_of_In.
  - intros Hx. exists x. by rewrite list_elem_of_In in Hx; rewrite Z.eqb_refl.
Qed.

Lemma image_owned c image : image_of v c = Some image -> component_is_owned_by v c image = true.
Proof.
  intros [H _]%find_some. unfold component_is_owned_by. rewrite existsb_decide. by apply bool_decide_eq_true, list_elem_of_In.
Qed.

(** An enable of a component whose image is known to be the player's. *)
Lemma enable_player c image o s :
  image_of v c = Some image -> afterimage_owners s !! image = Some o -> owner_ghost o = None ->
  let s' := call_set_render_custom_depth v ghosts true s c in
  let on := negb (guarded v && copied_from_ghost v ghosts image) in
  afterimage_owners s' = afterimage_owners s /\ afterimage_pending_reenable s' = afterimage_pending_reenable s /\
  custom_depth s' = if on then {[c]} ∪ custom_depth s else custom_depth s ∖ {[c]}.
Proof.
  intros Hi Ho Hnone. cbv zeta. unfold call_set_render_custom_depth, set_render_custom_depth, outline_guard, attribution.
  rewrite Hcan, Hi. destruct (guarded v); [|by destruct s]. cbn [negb andb]. rewrite bool_decide_false by done.
  destruct s as [owners pend fd depth]. cbn [afterimage_owners] in *. unfold copied_from_ghost.
  destruct (copy_actor v image) as [a|]; cbn; [|by rewrite Ho; cbn; rewrite Hnone].
  rewrite existsb_decide. by case_bool_decide.
Qed.

Lemma enable_players image o l : forall s,
  (forall c, c ∈ l -> image_of v c = Some image) -> afterimage_owners s !! image = Some o -> owner_ghost o = None ->
  let s' := foldl (call_set_render_custom_depth v ghosts true) s l in
  let on := negb (guarded v && copied_from_ghost v ghosts image) in
  afterimage_owners s' = afterimage_owners s /\ afterimage_pending_reenable s' = afterimage_pending_reenable s /\
  forall c, c ∈ custom_depth s' <-> if bool_decide (c ∈ l) then on = true else c ∈ custom_depth s.
Proof.
  cbv zeta. induction l as [|c l IH]; intros s Hl Ho Hnone; [done|].
  cbn [foldl]. destruct (enable_player c image o s (Hl c ltac:(set_solver)) Ho Hnone) as (E1 & E2 & E3).
  set (s1 := call_set_render_custom_depth v ghosts true s c) in *. set (on := negb _) in *.
  destruct (IH s1) as (I1 & I2 & I3); [set_solver|by rewrite E1|done|]. rewrite I1, I2, E1, E2. do 2 (split; [done|]).
  intros d. rewrite I3, E3. clear. destruct on; repeat case_bool_decide; set_solver.
Qed.

(** Turning off passes the guard. *)
Lemma disable c s :
  call_set_render_custom_depth v ghosts false s c = s <| custom_depth := custom_depth s ∖ {[c]} |>.
Proof.
  unfold call_set_render_custom_depth, set_render_custom_depth, outline_guard. rewrite Hcan. cbn [negb].
  by destruct (guarded v), s.
Qed.

Lemma strip_spec image c s :
  let s' := strip v ghosts image s c in
  afterimage_owners s' = afterimage_owners s /\ afterimage_pending_reenable s' = afterimage_pending_reenable s /\
  custom_depth s' ⊆ custom_depth s /\
  (forall d, component_is_owned_by v d image = false -> d ∈ custom_depth s -> d ∈ custom_depth s') /\
  (component_is_owned_by v c image = true -> is_Some (depth_byte v c) -> c ∉ custom_depth s').
Proof.
  cbv zeta. unfold strip. destruct (reads_on v s c && component_is_owned_by v c image) eqn:E.
  - rewrite disable. apply andb_true_iff in E as [_ E]. destruct s; cbn. repeat split; [set_solver| |set_solver].
    intros d Hd ?. assert (d <> c) by congruence. set_solver.
  - repeat split; [done|done|]. intros Ho [other Hb]. rewrite Ho, andb_true_r in E. unfold reads_on in E. rewrite Hb in E.
    apply orb_false_iff in E as [_ E]. by apply bool_decide_eq_false in E.
Qed.

Lemma strips_spec image l : forall s,
  let s' := foldl (strip v ghosts image) s l in
  afterimage_owners s' = afterimage_owners s /\ afterimage_pending_reenable s' = afterimage_pending_reenable s /\
  custom_depth s' ⊆ custom_depth s /\
  (forall d, component_is_owned_by v d image = false -> d ∈ custom_depth s -> d ∈ custom_depth s') /\
  (forall c, c ∈ l -> component_is_owned_by v c image = true -> is_Some (depth_byte v c) -> c ∉ custom_depth s').
Proof.
  cbv zeta. induction l as [|c l IH]; intros s; [by repeat split; set_solver|]. cbn [foldl].
  destruct (strip_spec image c s) as (E1 & E2 & E3 & E4 & E5). set (s1 := strip v ghosts image s c) in *.
  destruct (IH s1) as (I1 & I2 & I3 & I4 & I5). rewrite I1, I2, E1, E2. do 2 (split; [done|]).
  split; [set_solver|]. split; [by auto|]. intros d [->|Hd]%elem_of_cons Ho Hb; [|by apply I5]. intros H%I3. by apply E5.
Qed.

(** * One image *)

(** What a pass leaves of the flags of an image attributed to [o]. *)
Definition image_settled (v : image_view) (ghosts : list Z) (s s' : outline) (image : Z) (o : option Z) : Prop :=
  match o with
  | None =>
      forall c, component_is_owned_by v c image = true ->
        (c ∈ custom_depth s' <-> if bool_decide (c ∈ pending_of s image) then guarded v && copied_from_ghost v ghosts image = false
                                 else c ∈ custom_depth s)
  | Some _ =>
      forall c, c ∈ held v image -> component_is_owned_by v c image = true -> is_Some (depth_byte v c) -> c ∉ custom_depth s'
  end.

Definition pending_own (v : image_view) (s : outline) : Prop := forall image c, c ∈ pending_of s image -> image_of v c = Some image.

Lemma settle_spec image o s :
  afterimage_owners s !! image = Some o -> pending_own v s ->
  let s' := settle v ghosts image s in
  afterimage_owners s' = afterimage_owners s /\
  afterimage_pending_reenable s' = delete image (afterimage_pending_reenable s) /\
  (forall c, component_is_owned_by v c image = false -> (c ∈ custom_depth s' <-> c ∈ custom_depth s)) /\
  image_settled v ghosts s s' image (owner_ghost o).
Proof.
  intros Ho Hp. cbv zeta. unfold settle. rewrite Ho. cbn [mbind option_bind]. unfold image_settled.
  destruct (owner_ghost o) as [g|] eqn:Hg.
  - destruct (strips_spec image (held v image) (s <| afterimage_pending_reenable := delete image (afterimage_pending_reenable s) |>))
      as (E1 & E2 & E3 & E4 & E5).
    set (s' := foldl _ _ _) in *. rewrite E1, E2. split; [by destruct s|]. split; [by destruct s|].
    split; [|exact E5]. intros c Hc. split; [intros H%E3; by destruct s|]. intros H. apply E4; [done|by destruct s].
  - destruct (enable_players image o (elements (pending_of s image)) s) as (E1 & E2 & E3);
      [by intros c Hc%elem_of_elements; apply Hp|done|done|].
    set (s1 := foldl _ _ _) in *. assert (forall c, c ∈ elements (pending_of s image) -> component_is_owned_by v c image = true) as Hin.
    { intros c Hc%elem_of_elements. by apply image_owned, Hp. }
    split; [by destruct s1|]. split; [rewrite <- E2; by destruct s1|].
    assert (forall m, custom_depth (s1 <| afterimage_pending_reenable := m |>) = custom_depth s1) as Hd by (by destruct s1).
    split; intros c Hc; rewrite Hd, E3.
    + rewrite bool_decide_false; [done|]. intros H%Hin. congruence.
    + rewrite (bool_decide_ext _ (c ∈ pending_of s image)) by apply elem_of_elements.
      case_bool_decide; [|done]. by rewrite negb_true_iff.
Qed.

(** The attribution a pass leaves: the standing one while the image stays in place. *)
Definition settled_owner (v : image_view) (ghosts : list Z) (player : option vec3) (s : outline) (image : Z) : AfterimageOwner :=
  match afterimage_owners s !! image with
  | Some known => if decide_now v s image then {| owner_ghost := decide_owner v ghosts player image; owner_at := image_place v image |}
                  else known
  | None => {| owner_ghost := decide_owner v ghosts player image; owner_at := image_place v image |}
  end.

Lemma sweep_image_spec image s :
  placed v image = true -> pending_own v s ->
  let s' := sweep_image v ghosts player s image in
  afterimage_owners s' = <[image := settled_owner v ghosts player s image]> (afterimage_owners s) /\
  afterimage_pending_reenable s' = delete image (afterimage_pending_reenable s) /\
  (forall c, component_is_owned_by v c image = false -> (c ∈ custom_depth s' <-> c ∈ custom_depth s)) /\
  image_settled v ghosts s s' image (owner_ghost (settled_owner v ghosts player s image)).
Proof.
  intros Hpl Hp. cbv zeta. unfold sweep_image. rewrite Hpl. set (s1 := attribute v ghosts player image s).
  assert (afterimage_owners s1 = <[image := settled_owner v ghosts player s image]> (afterimage_owners s) /\
          afterimage_pending_reenable s1 = afterimage_pending_reenable s /\ custom_depth s1 = custom_depth s) as (E1 & E2 & E3).
  { unfold s1, attribute, settled_owner. destruct (afterimage_owners s !! image) as [known|] eqn:E.
    - destruct (decide_now v s image); [by destruct s|]. by rewrite insert_id.
    - unfold decide_now. rewrite E. by destruct s. }
  destruct (settle_spec image (settled_owner v ghosts player s image) s1) as (H1 & H2 & H3 & H4);
    [by rewrite E1, lookup_insert_eq|by unfold pending_own, pending_of; rewrite E2|].
  rewrite H1, H2, E1, E2. do 2 (split; [done|]). rewrite E3 in H3. split; [done|].
  revert H4. unfold image_settled, pending_of. by rewrite E2, E3.
Qed.

(** * A pass *)

(** No component hangs below two of the images. *)
Definition apart (v : image_view) (images : list Z) : Prop :=
  forall c i j, i ∈ images -> j ∈ images -> component_is_owned_by v c i = true -> component_is_owned_by v c j = true -> i = j.

Definition seen (v : image_view) (images : list Z) (image : Z) : bool := bool_decide (image ∈ images) && placed v image.

Lemma image_settled_frame s0 s1 s2 s3 image o :
  pending_of s0 image = pending_of s1 image ->
  (forall c, component_is_owned_by v c image = true -> (c ∈ custom_depth s0 <-> c ∈ custom_depth s1)) ->
  (forall c, component_is_owned_by v c image = true -> (c ∈ custom_depth s2 <-> c ∈ custom_depth s3)) ->
  image_settled v ghosts s0 s2 image o -> image_settled v ghosts s1 s3 image o.
Proof.
  unfold image_settled. intros E H1 H2. destruct o as [g|].
  - intros H c Hc Ho Hb. rewrite <- (H2 c Ho). by apply H.
  - intros H c Ho. rewrite <- (H2 c Ho), (H c Ho), E. case_bool_decide; [done|]. by apply H1.
Qed.

Lemma sweep_images_spec images : forall s, NoDup images -> apart v images -> pending_own v s ->
  let s' := foldl (sweep_image v ghosts player) s images in
  (forall i, afterimage_owners s' !! i = if seen v images i then Some (settled_owner v ghosts player s i) else afterimage_owners s !! i) /\
  (forall i, afterimage_pending_reenable s' !! i = if seen v images i then None else afterimage_pending_reenable s !! i) /\
  (forall c, (forall i, seen v images i = true -> component_is_owned_by v c i = false) -> (c ∈ custom_depth s' <-> c ∈ custom_depth s)) /\
  (forall i, seen v images i = true -> image_settled v ghosts s s' i (owner_ghost (settled_owner v ghosts player s i))).
Proof.
  cbv zeta. unfold seen. induction images as [|image images IH]; intros s Hnd Hap Hp; [done|]. cbn [foldl].
  apply list.NoDup_cons in Hnd as [Hni Hnd]. set (s1 := sweep_image v ghosts player s image).
  assert (apart v images) as Hap' by (unfold apart in *; set_solver).
  destruct (placed v image) eqn:Hpl.
  2: { assert (s1 = s) as -> by (unfold s1, sweep_image; by rewrite Hpl). destruct (IH s Hnd Hap' Hp) as (I1 & I2 & I3 & I4).
       assert (forall i, bool_decide (i ∈ image :: images) && placed v i = bool_decide (i ∈ images) && placed v i) as E.
       { intros i. destruct (decide (i = image)) as [->|]; [by rewrite Hpl, !andb_false_r|]. f_equal. apply bool_decide_ext. set_solver. }
       repeat split; try (intros i; rewrite E; by auto).
       - intros Hc. apply I3; [|done]. intros i. rewrite <- E. by apply H.
       - intros Hc. apply I3; [|done]. intros i. rewrite <- E. by apply H. }
  destruct (sweep_image_spec image s Hpl Hp) as (E1 & E2 & E3 & E4). fold s1 in E1, E2, E3, E4.
  assert (pending_own v s1) as Hp1.
  { intros i c. unfold pending_of. rewrite E2. destruct (decide (i = image)) as [->|Hi]; [by rewrite lookup_delete_eq|].
    rewrite lookup_delete_ne by done. apply Hp. }
  destruct (IH s1 Hnd Hap' Hp1) as (I1 & I2 & I3 & I4).
  assert (forall i, i <> image -> bool_decide (i ∈ image :: images) = bool_decide (i ∈ images)) as Htl
    by (intros i Hi; apply bool_decide_ext; set_solver).
  assert (forall i, i <> image -> settled_owner v ghosts player s1 i = settled_owner v ghosts player s i) as Hso.
  { intros i Hi. unfold settled_owner, decide_now. by rewrite E1, lookup_insert_ne. }
  assert (bool_decide (image ∈ images) = false) as Hno by by apply bool_decide_eq_false.
  assert (bool_decide (image ∈ image :: images) = true) as Hyes by (apply bool_decide_eq_true; set_solver).
  split; [|split; [|split]].
  - intros i. rewrite I1. destruct (decide (i = image)) as [->|Hi].
    + by rewrite Hno, Hyes, Hpl, E1, lookup_insert_eq.
    + rewrite Htl, Hso by done. by rewrite E1, lookup_insert_ne.
  - intros i. rewrite I2. destruct (decide (i = image)) as [->|Hi].
    + by rewrite Hno, Hyes, Hpl, E2, lookup_delete_eq.
    + rewrite Htl by done. by rewrite E2, lookup_delete_ne.
  - intros c Hc. rewrite I3, E3; [done|apply Hc; by rewrite Hyes, Hpl|].
    intros i Hi. apply Hc. apply andb_true_iff in Hi as [Hi ->]. rewrite andb_true_r. apply bool_decide_eq_true in Hi. apply bool_decide_eq_true. set_solver.
  - intros i Hi. apply andb_true_iff in Hi as [Hi Hpi]. apply bool_decide_eq_true in Hi. destruct (decide (i = image)) as [->|Hne].
    + apply (image_settled_frame s s s1); [done|done| |done]. intros c Ho. symmetry. apply I3.
      intros j Hj. apply andb_true_iff in Hj as [Hj _]. apply bool_decide_eq_true in Hj.
      destruct (component_is_owned_by v c j) eqn:E; [|done]. destruct Hni. replace image with j; [done|].
      apply (Hap c j image); [set_solver|set_solver|done|done].
    + apply elem_of_cons in Hi as [?|Hi]; [done|]. rewrite <- Hso by done.
      assert (forall c, component_is_owned_by v c i = true -> component_is_owned_by v c image = false) as Hother.
      { intros c Ho. destruct (component_is_owned_by v c image) eqn:E; [|done]. destruct Hne.
        apply (Hap c i image); [set_solver|set_solver|done|done]. }
      apply (image_settled_frame s1 s (foldl (sweep_image v ghosts player) s1 images)); [| |done|].
      * unfold pending_of. by rewrite E2, lookup_delete_ne.
      * intros c Ho. apply E3. by apply Hother.
      * apply I4. by rewrite (bool_decide_eq_true_2 _ Hi), Hpi.
Qed.
End Sweep.

Lemma live_images_parts v tick s :
  let (s0, images) := live_images v tick s in
  afterimage_owners s0 = afterimage_owners s /\ afterimage_pending_reenable s0 = afterimage_pending_reenable s /\
  custom_depth s0 = custom_depth s /\ NoDup images.
Proof.
  unfold live_images. destruct (registry_live _ _ _ _) as [fd images] eqn:E. do 3 (split; [by destruct s|]).
  unfold registry_live, live in E. injection E as _ <-. apply NoDup_fst_map_to_list.
Qed.

Lemma prune_lookup {A} (l : list Z) (m : gmap Z A) i : prune l m !! i = if bool_decide (i ∈ l) then m !! i else None.
Proof.
  unfold prune. case_bool_decide as H.
  - destruct (m !! i) as [x|] eqn:E; [by apply map_lookup_filter_Some_2|]. apply map_lookup_filter_None. by left.
  - apply map_lookup_filter_None. right. intros x _. exact H.
Qed.

(** * The guard *)

(** A call of the game: what could be read at it, the ghosts there were, its component and
    its value. *)
Definition game_call : Type := image_view * list Z * Z * bool.
Definition do_call (s : outline) (x : game_call) : outline :=
  let '(v, ghosts, c, value) := x in set_render_custom_depth v ghosts c value s.

(** An enable refused although nobody could say whose the image is. *)
Definition refused_blind (s : outline) (x : game_call) (image : Z) : Prop :=
  let '(v, ghosts, c, value) := x in
  value = true /\ guarded v = true /\ ghosts <> [] /\ image_of v c = Some image /\ attribution v ghosts s image = None.

Lemma do_call_pending s x image : pending_of s image ⊆ pending_of (do_call s x) image.
Proof.
  destruct x as [[[v ghosts] c] value], s as [owners pend fd depth]. unfold do_call, set_render_custom_depth, outline_guard.
  destruct (guarded v), value; cbn [negb]; try done. destruct (image_of v c) as [i|]; [|done]. case_bool_decide; [done|].
  destruct (attribution _ _ _ _) as [[]|]; [done..|]. unfold pending_of. cbn.
  destruct (decide (i = image)) as [->|Hi]; [rewrite lookup_insert_eq; set_solver|by rewrite lookup_insert_ne].
Qed.

Lemma do_calls_pending l image : forall s, pending_of s image ⊆ pending_of (foldl do_call s l) image.
Proof. induction l as [|x l IH]; intros s; [done|]. cbn [foldl]. pose proof (do_call_pending s x image). specialize (IH (do_call s x)). set_solver. Qed.

Lemma refused_blind_held s x image :
  refused_blind s x image -> x.1.2 ∈ pending_of (do_call s x) image /\ x.1.2 ∉ custom_depth (do_call s x).
Proof.
  destruct x as [[[v ghosts] c] value], s as [owners pend fd depth]. intros (-> & Hg & Hne & Hi & Ha).
  unfold do_call, set_render_custom_depth, outline_guard. rewrite Hg, Hi. cbn [negb]. rewrite bool_decide_false by done.
  cbn in *. change (attribution v ghosts _ image) with (attribution v ghosts (Outline owners pend fd depth) image). rewrite Ha.
  unfold pending_of. cbn. rewrite lookup_insert_eq. set_solver.
Qed.

(** An enable refused because the image is a ghost's, as far as can be told. *)
Definition refused_known (s : outline) (x : game_call) (image : Z) : Prop :=
  let '(v, ghosts, c, value) := x in
  value = true /\ guarded v = true /\ ghosts <> [] /\ image_of v c = Some image /\ attribution v ghosts s image = Some true.

Lemma refused_known_dropped s x image :
  refused_known s x image ->
  afterimage_pending_reenable (do_call s x) = afterimage_pending_reenable s /\ x.1.2 ∉ custom_depth (do_call s x).
Proof.
  destruct x as [[[v ghosts] c] value], s as [owners pend fd depth]. intros (-> & Hg & Hne & Hi & Ha).
  unfold do_call, set_render_custom_depth, outline_guard. rewrite Hg, Hi. cbn [negb]. rewrite bool_decide_false by done.
  cbn in *. change (attribution v ghosts _ image) with (attribution v ghosts (Outline owners pend fd depth) image). rewrite Ha.
  cbn. set_solver.
Qed.

(** What is withheld belongs to the image it is filed under, as long as components keep
    their outers. *)
Lemma do_call_own v s x :
  (forall c, image_of x.1.1.1 c = image_of v c) -> pending_own v s -> pending_own v (do_call s x).
Proof.
  destruct x as [[[v' ghosts] c] value], s as [owners pend fd depth]. cbn. intros Hv Hs image d.
  unfold do_call, set_render_custom_depth, outline_guard.
  destruct (guarded v'), value; cbn [negb]; try apply Hs. rewrite Hv. destruct (image_of v c) as [i|] eqn:Ei; [|apply Hs].
  case_bool_decide; [apply Hs|]. destruct (attribution _ _ _ _) as [[]|]; [apply Hs..|]. unfold pending_of. cbn.
  destruct (decide (image = i)) as [->|Hne]; [|rewrite lookup_insert_ne by done; apply Hs].
  rewrite lookup_insert_eq. cbn. intros [->%elem_of_singleton|Hd]%elem_of_union; [done|]. by apply (Hs i d).
Qed.

Lemma do_calls_own v calls : Forall (fun x : game_call => forall c, image_of x.1.1.1 c = image_of v c) calls ->
  forall s, pending_own v s -> pending_own v (foldl do_call s calls).
Proof. induction 1 as [|x calls Hx _ IH]; intros s Hs; [done|]. cbn [foldl]. by apply IH, do_call_own. Qed.

(** C10: the guard and the sweep together settle every afterimage.  From a state in which
    nothing is withheld, whatever calls the game makes: an enable refused before anyone can
    say whose the image is was not drawn and is remembered; one refused because the image is
    known for a ghost's was not drawn and is not remembered (so an image the pool hands
    from a ghost to the player, judged by its last use, keeps that outline off, against the
    code's comment: [reused_image_stays_off]).  The next pass with ghosts to look for leaves
    nothing withheld: the images attributed are exactly those alive and placed; an image
    keeps its owner while it stays in place and is attributed afresh when the pool has moved
    it; of the player's images what was remembered is on again (unless their copyActor has
    turned out to be a ghost) and the rest is as the game left it; of a ghost's none of
    their own components that can be read is left outlined; and nothing outside the images
    is touched.  Assumed: the function is there to call, components keep their outers, and
    none hangs below two images. *)
Theorem outlines_settled (calls : list game_call) (s0 : outline) (v : image_view) (tick : Z) (ghosts : list Z) (player : option vec3)
    (Hghosts : ghosts <> []) (Hcan : forall c, can_set v c = true) (H0 : afterimage_pending_reenable s0 = ∅)
    (Houters : Forall (fun x : game_call => forall c, image_of x.1.1.1 c = image_of v c) calls)
    (Hapart : apart v (live_images v tick (foldl do_call s0 calls)).2) :
  let s := foldl do_call s0 calls in
  let images := (live_images v tick s).2 in
  let s' := sweep_afterimage_outlines v tick ghosts player s in
  (forall before x after image, calls = before ++ x :: after -> refused_blind (foldl do_call s0 before) x image ->
     x.1.2 ∈ pending_of s image /\ x.1.2 ∉ custom_depth (foldl do_call s0 (before ++ [x]))) /\
  (forall before x after image, calls = before ++ x :: after -> refused_known (foldl do_call s0 before) x image ->
     afterimage_pending_reenable (foldl do_call s0 (before ++ [x])) = afterimage_pending_reenable (foldl do_call s0 before)
     /\ x.1.2 ∉ custom_depth (foldl do_call s0 (before ++ [x]))) /\
  afterimage_pending_reenable s' = ∅ /\
  (forall i, afterimage_owners s' !! i = if seen v images i then Some (settled_owner v ghosts player s i) else None) /\
  (forall i, seen v images i = true -> image_settled v ghosts s s' i (owner_ghost (settled_owner v ghosts player s i))) /\
  (forall c, (forall i, seen v images i = true -> component_is_owned_by v c i = false) -> (c ∈ custom_depth s' <-> c ∈ custom_depth s)).
Proof.
  cbv zeta. split.
  { intros before x after image -> Hr%refused_blind_held. rewrite !foldl_app. cbn [foldl].
    destruct Hr as [H1 H2]. split; [|done]. by eapply do_calls_pending. }
  split.
  { intros before x after image _ Hr. rewrite foldl_app. by apply (refused_known_dropped _ _ image). }
  assert (pending_own v (foldl do_call s0 calls)) as Hown.
  { apply do_calls_own; [done|]. intros i c. unfold pending_of. rewrite H0, lookup_empty. cbn. set_solver. }
  clear - Hghosts Hcan Hown Hapart. generalize dependent (foldl do_call s0 calls). clear s0 calls. intros s Hapart Hown.
  unfold sweep_afterimage_outlines. pose proof (live_images_parts v tick s) as Hl.
  destruct (live_images v tick s) as [s0 images]. cbn [snd] in *. destruct Hl as (L1 & L2 & L3 & Hnd).
  rewrite bool_decide_false by done.
  destruct (sweep_images_spec v ghosts player Hghosts Hcan images s0 Hnd Hapart) as (H1 & H2 & H3 & H4).
  { unfold pending_own, pending_of. by rewrite L2. }
  set (s1 := foldl _ _ _) in *. assert (forall i, settled_owner v ghosts player s0 i = settled_owner v ghosts player s i) as Hso.
  { intros i. unfold settled_owner, decide_now. by rewrite L1. }
  assert (forall i, bool_decide (i ∈ List.filter (placed v) images) = seen v images i) as Hseen.
  { intros i. unfold seen. apply Bool.eq_iff_eq_true. rewrite andb_true_iff, !bool_decide_eq_true, !list_elem_of_In. apply filter_In. }
  split; [|split; [|split]].
  - destruct s1; cbn in *. apply map_eq. intros i. rewrite prune_lookup, lookup_empty, Hseen, H2. by destruct (seen v images i).
  - intros i. destruct s1; cbn in *. rewrite prune_lookup, Hseen, H1. by destruct (seen v images i); [rewrite Hso|].
  - intros i Hi. rewrite <- Hso. specialize (H4 i Hi).
    eapply image_settled_frame; [| | |exact H4].
    + unfold pending_of. by rewrite L2.
    + intros c _. by rewrite L3.
    + intros c _. by destruct s1.
  - intros c Hc. rewrite <- L3, <- (H3 c Hc). by destruct s1.
Qed.

(** * A sample

    The player, actor 60, and a ghost, actor 50, each with an image of one component. *)

Definition sample_images (copied : Z -> option Z) (at_ : Z -> vec3) : image_view :=
  {| outers := fun c => if decide (c = 101) then [100; 1] else if decide (c = 201) then [200; 1] else [1];
     is_afterimage := fun o => bool_decide (o ∈ [100; 200]); copy_actor := copied; placed := fun _ => true; image_place := at_;
     held := fun i => [i + 1; 70]; depth_byte := fun _ => Some false; can_set := fun _ => true; guarded := true;
     v_objects := {[100 := UObject 1 ["BP_AfterImage_C"%string] true; 200 := UObject 2 ["BP_AfterImage_C"%string] true]} |}%Z.
Definition copied_yet (image : Z) : option Z := if decide (image = 100)%Z then Some 60%Z else if decide (image = 200)%Z then Some 50%Z else None.
Definition outline0 : outline := Outline ∅ ∅ feed0 ∅.
Definition born : list game_call :=
  let v := sample_images (fun _ => None) (fun _ => vzero) in [(v, [50], 101, true); (v, [50], 201, true)]%Z.

Lemma sample_apart : apart (sample_images copied_yet (fun _ => vzero)) [100; 200]%Z.
Proof.
  intros c i j Hi Hj. unfold component_is_owned_by, sample_images. cbn.
  assert (i = 100 \/ i = 200)%Z as [-> | ->] by set_solver; assert (j = 100 \/ j = 200)%Z as [-> | ->] by set_solver;
    try done; repeat case_decide; cbn; done.
Qed.

Example outlines_settled_witness :
  let v := sample_images copied_yet (fun _ => vzero) in
  let s' := sweep_afterimage_outlines v 5 [50%Z] (Some vzero) (foldl do_call outline0 born) in
  afterimage_pending_reenable s' = ∅ /\ (101 ∈ custom_depth s')%Z /\ (201 ∉ custom_depth s')%Z.
Proof.
  cbv zeta. set (v := sample_images copied_yet (fun _ => vzero)).
  assert ((live_images v 5 (foldl do_call outline0 born)).2 = [100; 200]%Z) as Himages by (by vm_compute).
  destruct (outlines_settled born outline0 v 5 [50%Z] (Some vzero) ltac:(done) ltac:(done) eq_refl ltac:(by repeat constructor) ltac:(rewrite Himages; exact sample_apart))
    as (_ & _ & H1 & _ & H2 & _).
  rewrite Himages in H2. split; [exact H1|]. split.
  - pose proof (H2 100%Z ltac:(by vm_compute)) as H.
    assert (owner_ghost (settled_owner v [50%Z] (Some vzero) (foldl do_call outline0 born) 100) = None) as E by (by vm_compute).
    rewrite E in H. apply (H 101%Z); by vm_compute.
  - pose proof (H2 200%Z ltac:(by vm_compute)) as H.
    assert (owner_ghost (settled_owner v [50%Z] (Some vzero) (foldl do_call outline0 born) 200) = Some 50%Z) as E by (by vm_compute).
    rewrite E in H. apply (H 201%Z); [change (201 ∈ [201; 70])%Z; left|by vm_compute|by exists false].
Defined.

(** * What the guard may forget *)

(** The pool hands a ghost's image to the player: until copyActor is set the guard goes by
    the sweep's standing decision, refuses and does not remember; the next pass finds the
    image moved and attributes it to the player, with nothing to give back. *)
Example reused_image_stays_off :
  let v := sample_images (fun _ => None) (fun o => if decide (o = 50)%Z then vzero else (of_Z 1000, dzero, dzero)) in
  let s := Outline {[200%Z := {| owner_ghost := Some 50%Z; owner_at := vzero |}]} ∅ feed0 ∅ in
  let s' := sweep_afterimage_outlines v 5 [50%Z] (Some (of_Z 1000, dzero, dzero)) (do_call s (v, [50], 201, true)%Z) in
  (owner_ghost <$> afterimage_owners s' !! 200%Z) = Some None /\ bool_decide (201 ∈ custom_depth s')%Z = false.
Proof. by vm_compute. Qed.

(** Refused, then turned off by the game before the pass: the pass turns it on. *)
Example refused_then_disabled :
  let v := sample_images (fun _ => None) (fun _ => vzero) in
  let s := foldl do_call outline0 [(v, [50], 101, true); (v, [50], 101, false)]%Z in
  let s' := sweep_afterimage_outlines (sample_images copied_yet (fun _ => vzero)) 5 [50%Z] (Some vzero) s in
  bool_decide (101 ∈ custom_depth s')%Z = true.
Proof. by vm_compute. Qed.
