(* ===== verification/LocalState.v ===== *)
(** Plugin.cpp, [game_thread_tick]: the line that tells the core what the local player
    does.

    One frame is what a tick knows of the player, [frame]; [local_state] is the format
    string that writes it, for any text [format_double] of the doubles it writes in
    full. *)
From S2P Require Import Prelude Float64 JsonString NumberText RemoteGhost Lifecycle.
From S2P Require Import ObjectRegistry VfxMirror PoseMirror LocalCapture TrailCapture VfxCapture.
From Stdlib Require Import ZArith.

(** * The line *)

Definition bit (b : bool) : bytes := str (if b then "1" else "0").
Definition fixed3 (p : nat) (v : vec3) : bytes :=
  let '(x, y, z) := v in fixed p x ++ ","%char :: fixed p y ++ ","%char :: fixed p z.

(** * One frame *)

Record frame := Frame {
  f_area_id : bytes; f_position : vec3; f_orientation : vec3;
  f_move_state : Z; f_action_state : Z; f_h_speed : double; f_v_speed : double;
  f_anim_jump_type : Z; f_movement_mode : Z; f_land_count : Z; f_jump_count : Z;
  f_weapon_equipped : bool; f_outfit_mesh : bytes; f_weapon_mesh : bytes; f_afterimage_count : Z;
  f_montage : bytes; f_montage_count : Z; f_montage_stop_count : Z; f_afterimage_n : Z;
  f_capsule_half : double; f_slide_t : double; f_bubble_charged : bool; f_afterimage_color : vec3;
  f_weapon : thrown; f_recall_glow : bool; f_weapon_bounce : Z; f_shadow_on : bool; f_vfx : bytes;
  f_shot : shot; f_blink_count : Z; f_death_count : Z; f_hurt_count : Z
}.

Section Line.
Context (format_double : double -> bytes).

Definition free3 (v : vec3) : bytes :=
  let '(x, y, z) := v in format_double x ++ ","%char :: format_double y ++ ","%char :: format_double z.

Definition local_extras (f : frame) : bytes :=
  js "{'move_state':" ++ int_text (f_move_state f) ++ js ",'action_state':" ++ int_text (f_action_state f)
  ++ js ",'h_speed':" ++ format_double (f_h_speed f) ++ js ",'v_speed':" ++ format_double (f_v_speed f)
  ++ js ",'anim_jump_type':" ++ int_text (f_anim_jump_type f) ++ js ",'movement_mode':" ++ int_text (f_movement_mode f)
  ++ js ",'land_count':" ++ int_text (f_land_count f) ++ js ",'jump_count':" ++ int_text (f_jump_count f)
  ++ js ",'weapon_equipped':" ++ bit (f_weapon_equipped f)
  ++ js ",'outfit_mesh':'" ++ json_escape (f_outfit_mesh f)
  ++ js "','weapon_mesh':'" ++ json_escape (f_weapon_mesh f)
  ++ js "','afterimage_count':" ++ int_text (f_afterimage_count f)
  ++ js ",'montage':'" ++ json_escape (f_montage f) ++ js "','montage_count':" ++ int_text (f_montage_count f)
  ++ js ",'montage_stop_count':" ++ int_text (f_montage_stop_count f)
  ++ js ",'afterimage_n':" ++ int_text (f_afterimage_n f) ++ js ",'capsule_half':" ++ fixed 1 (f_capsule_half f)
  ++ js ",'slide_t':" ++ fixed 2 (f_slide_t f) ++ js ",'bubble_charged':" ++ bit (f_bubble_charged f)
  ++ js ",'afterimage_color':[" ++ fixed3 4 (f_afterimage_color f)
  ++ js "],'weapon_thrown':" ++ bit (weapon_thrown (f_weapon f))
  ++ js ",'weapon_class':'" ++ json_escape (weapon_class (f_weapon f))
  ++ js "','weapon_state':" ++ int_text (weapon_state (f_weapon f))
  ++ js ",'weapon_glow':'" ++ json_escape (weapon_glow (f_weapon f))
  ++ js "','recall_glow':" ++ bit (f_recall_glow f)
  ++ js ",'weapon_pos':[" ++ fixed3 1 (weapon_loc (f_weapon f))
  ++ js "],'weapon_rot':[" ++ fixed3 1 (weapon_rot (f_weapon f))
  ++ js "],'weapon_bounce':" ++ int_text (f_weapon_bounce f) ++ js ",'shadow_on':" ++ bit (f_shadow_on f)
  ++ js ",'vfx':'" ++ f_vfx f
  ++ js "','prj':" ++ bit (shot_active (f_shot f)) ++ js ",'prj_vfx':'" ++ json_escape (shot_vfx (f_shot f))
  ++ js "','prj_pos':[" ++ fixed3 1 (shot_loc (f_shot f)) ++ js "],'prj_rot':[" ++ fixed3 1 (shot_rot (f_shot f))
  ++ js "],'blink_count':" ++ int_text (f_blink_count f) ++ js ",'death_count':" ++ int_text (f_death_count f)
  ++ js ",'hurt_count':" ++ int_text (f_hurt_count f) ++ js "}".

Definition local_state (f : frame) : bytes :=
  js "{'type':'local_state','payload':{'state':{'area_id':'" ++ json_escape (f_area_id f)
  ++ js "','position':[" ++ free3 (f_position f) ++ js "],'orientation':[" ++ free3 (f_orientation f)
  ++ js "],'anim':'idle','extras':" ++ local_extras f ++ js "}}}".

End Line.

Definition NO_STATE : bytes := js "{'type':'local_state','payload':{'state':null}}".

(** * Sampling a frame *)

Record capture := Capture {
  c_vitals : vitals; c_shot : list weak * shot; c_bounces : bounces; c_recall : recall; c_montages : montages;
  c_pulses : pulses; c_bubble : bubble; c_trail : trail; c_vfx : vfx_capture; c_feed : feed;
  c_ticks_since_pawn_valid : Z; g_disp_ghost_grace : Z
}.
#[export] Instance capture_eta : Eta capture := fun r =>
  Capture (c_vitals r) (c_shot r) (c_bounces r) (c_recall r) (c_montages r) (c_pulses r) (c_bubble r) (c_trail r)
    (c_vfx r) (c_feed r) (c_ticks_since_pawn_valid r) (g_disp_ghost_grace r).
Definition capture0 : capture :=
  Capture vitals0 ([], shot0) bounces0 recall0 montages0 pulses0 bubble0 trail0 vfx_capture0 feed0 0 0.

Definition SLIDE_TIMELINE_TRACK : string := "Timeline_1_NewTrack_0_0AEDA7BA4192BCE0E33EF9B34BF1FB91".
Definition RECALL_GLOW_SCAN_INTERVAL_TICKS : Z := 15.

(** The game's own pawn, by its class's name. *)
Definition pawn_of (v : local_view) (a : Z) : pawn := Pawn (place v a) (world_of v a) (long_name v <$> class_of v a).

(** The level the player is in, by its full name. *)
Definition area_of (v : local_view) (a : Z) : bytes :=
  match world_of v a ≫= (fun w => obj (refl v) w "PersistentLevel") with Some level => long_name v level | None => [] end.

(** The asset a mesh component shows.  The hand's may be dying: then it reads as none. *)
Definition outfit_of (v : local_view) (a : Z) : bytes :=
  match obj (refl v) a "VisualMesh" ≫= (fun m => obj (refl v) m "SkeletalMesh") with
  | Some mesh => asset_path v mesh
  | None => []
  end.

Definition still (v : local_view) (o : Z) : option Z := if is_gone v o then None else Some o.
Definition hand_mesh_of (v : local_view) (a : Z) : bytes :=
  match ((obj (refl v) a "WeaponMesh" ≫= still v) ≫= (fun m => obj (refl v) m "SkeletalMesh")) ≫= still v with
  | Some mesh => asset_path v mesh
  | None => []
  end.

Definition byte_or_0 (v : local_view) (a : Z) (prop : string) : Z := default 0%Z (integer v a prop).

Definition movement_mode_of (v : local_view) (a : Z) : Z :=
  default 0%Z (obj (refl v) a "CharacterMovement" ≫= (fun m => integer v m "MovementMode")).

Definition capsule_half_of (v : local_view) (a : Z) : double :=
  default dzero (obj (refl v) a "CapsuleComponent" ≫= (fun c => num (refl v) c "CapsuleHalfHeight")).

Definition shadow_on_of (v : local_view) (a : Z) : bool :=
  match obj (refl v) a "BlobShadow" with Some s => default true (flag (refl v) s "bVisible") | None => true end.

(** The Niagara components, enumerated at the tick's first request. *)
Definition niagara_components_now (w : objects) (tick : Z) (st : feed * option (list Z)) : feed * option (list Z) * list Z :=
  match st with
  | (fd, Some l) => (fd, Some l, l)
  | (fd, None) => let (fd, l) := registry_live w tick "NiagaraComponent" fd in (fd, Some l, l)
  end.

(** The counters and flags of one tick, in the order of the code. *)
Definition sample_counts (v : local_view) (pawn : Z) (send : option (bytes -> bool)) (c : capture) : capture * list bytes :=
  let hp := read_shared_current_hp v pawn in
  let (vit, lines) := reset_chasers send (note_death hp (note_hurt hp (c_vitals c))) in
  (c <| c_vitals := vit |> <| c_montages := note_montage (montage_path v pawn) (c_montages c) |>
     <| c_pulses := note_pulses (read_animbp_bool v pawn "landed?") (read_animbp_bool v pawn "jumped?") (c_pulses c) |>
     <| c_bubble := search_bubble v pawn (class_looks_like_player (pawn_of v pawn)) (c_bubble c) |>, lines).

(** The effects of one tick: the shot, the sword, the glow, the trail and the mirrored rows. *)
Definition sample_effects (v : local_view) (tick pawn : Z) (ours : list Z) (c : capture) : capture * (thrown * vec3) :=
  let in_hand := match raw_flag (refl v) pawn "weaponEquipped?" with Some b => b | None => false end in
  let c := c <| c_shot := sample_shot v tick pawn (c_shot c) |> in
  let (b, sword) := sample_weapon v pawn in_hand (c_bounces c) in
  let '(fd, now, rec) :=
    if (tick mod RECALL_GLOW_SCAN_INTERVAL_TICKS =? 0)%Z then
      let '(fd, now, components) := niagara_components_now (world_objects v) tick (c_feed c, None) in
      (fd, now, sample_recall v pawn components (c_recall c))
    else (c_feed c, None, c_recall c) in
  let (fd, images) :=
    if scan_due tick (c_trail c) then registry_live (world_objects v) tick "BP_AfterImage_C" fd else (fd, []) in
  let (trl, color) := sample_trail v pawn tick images (c_trail c) in
  let '(fd, fx) :=
    if vfx_due tick then
      let '(fd, _, components) := niagara_components_now (world_objects v) tick (fd, now) in
      (fd, sample_vfx v pawn (if weapon_thrown sword then Some (weapon_loc sword) else None) ours components (c_vfx c))
    else (fd, c_vfx c) in
  (c <| c_bounces := b |> <| c_recall := rec |> <| c_trail := trl |> <| c_vfx := fx |> <| c_feed := fd |>, (sword, color)).

Definition sample_frame (v : local_view) (tick pawn : Z) (send : option (bytes -> bool)) (ours : list Z) (c : capture)
    : capture * frame * list bytes :=
  let r := refl v in
  let charged := bubble_charged v pawn (c_bubble c) in
  let (c, lines) := sample_counts v pawn send c in
  let '(c, (sword, color)) := sample_effects v tick pawn ours c in
  (c, {| f_area_id := area_of v pawn; f_position := place v pawn; f_orientation := heading v pawn;
         f_move_state := byte_or_0 v pawn "moveState"; f_action_state := byte_or_0 v pawn "actionState";
         f_h_speed := default dzero (num r pawn "horizontalSpeed"); f_v_speed := default dzero (num r pawn "verticalSpeed");
         f_anim_jump_type := byte_or_0 v pawn "animJumpType"; f_movement_mode := movement_mode_of v pawn;
         f_land_count := landed_count (c_pulses c); f_jump_count := jumped_count (c_pulses c);
         f_weapon_equipped := match raw_flag r pawn "weaponEquipped?" with Some b => b | None => false end;
         f_outfit_mesh := outfit_of v pawn; f_weapon_mesh := hand_mesh_of v pawn;
         f_afterimage_count := afterimage_count (c_trail c);
         f_montage := prev_local_montage (c_montages c); f_montage_count := montage_count (c_montages c);
         f_montage_stop_count := montage_stop_count (c_montages c);
         f_afterimage_n := afterimage_spawn_n (c_trail c); f_capsule_half := capsule_half_of v pawn;
         f_slide_t := default (of_Z 1) (num r pawn SLIDE_TIMELINE_TRACK); f_bubble_charged := charged;
         f_afterimage_color := color; f_weapon := sword; f_recall_glow := local_recall_glow (c_recall c);
         f_weapon_bounce := local_weapon_bounce_count (c_bounces c); f_shadow_on := shadow_on_of v pawn;
         f_vfx := mirrored_vfx_keys (c_vfx c); f_shot := (c_shot c).2;
         f_blink_count := 0;     (* MIRROR_PLAYER_BLINK is off *)
         f_death_count := local_death_count (c_vitals c); f_hurt_count := local_hurt_count (c_vitals c) |}, lines).

(** What a level's end forgets of it ([release_all_ghosts]). *)
Definition forget_capture (c : capture) : capture :=
  c <| c_vitals := forget_vitals (c_vitals c) |> <| c_trail := forget_trail (c_trail c) |>
    <| c_shot := ([], (c_shot c).2) |> <| c_recall := Recall (local_recall_glow (c_recall c)) ∅ None |>
    <| c_feed := registry_clear_all (c_feed c) |>.
