(* ===== verification/LocalWire.v ===== *)
(** The wire, from one player's tick to another's screen: the line [local_state] writes,
    the relay between, and the sample [render_sample] reads.

    The core and the relay decode the state and encode it again, so what reaches a peer is
    not the sender's text: members may come in another order and a value in another
    spelling.  What is relied on is that each member still denotes the same value,
    [says]; the sender's own text does. *)
From S2P Require Import Prelude Float64 CScan JsonString JsonScoped JsonSpec JsonReaders JsonTop ScanFacts.
From S2P Require Import NumberText JsonBounds.
From S2P Require Import RemoteGhost BridgeLine LocalCapture VfxCapture LocalState.
From Stdlib Require Import ZArith.

(** * What a value's text denotes *)

Inductive meaning :=
  | MNum (d : double)
  | MStr (u : bytes)
  | MVec (v : vec3).

Definition denotes (t : bytes) (m : meaning) : Prop :=
  match m with
  | MNum d => num_denotes t d
  | MStr u => exists w, t = quoted w /\ str_body w /\ forall r, decode (w ++ cQuote :: r) 0 [] = u
  | MVec (x, y, z) => exists tx ty tz, t = "["%char :: (tx ++ ","%char :: ty ++ ","%char :: tz) ++ ["]"%char] /\
                        num_denotes tx x /\ num_denotes ty y /\ num_denotes tz z
  end.

Lemma num_denotes_balanced t d u : num_denotes t d -> balanced u -> balanced (t ++ u).
Proof. intros [_ Hv _]. by apply value_balanced. Qed.

Lemma denotes_value t m : denotes t m -> value_text t.
Proof.
  destruct m as [d|u|[[x y] z]]; cbn.
  - by intros [].
  - intros (w & -> & Hw & _). by apply v_str.
  - intros (tx & ty & tz & -> & Hx & Hy & Hz). apply v_arr.
    eapply num_denotes_balanced; [done|]. constructor; [done|]. eapply num_denotes_balanced; [done|].
    constructor; [done|]. rewrite <- (app_nil_r tz). eapply num_denotes_balanced; [done|]. constructor.
Qed.

Lemma escaped_denotes u : denotes (quoted (json_escape u)) (MStr u).
Proof.
  exists (json_escape u). repeat split; [apply str_body_escape|]. intros r. by rewrite decode_escaped, decode_quote.
Qed.

(** * Reading a member that denotes a value *)

Section Readers.
Context (s : bytes) (b e : nat) (ms : list member) (key t : bytes).
Context (Hobj : object_at s b e ms) (Hf : field key ms = Some t).

Lemma read_num d old : denotes t (MNum d) -> json_number_member s b e key old = (true, d).
Proof.
  intros [(x & u & -> & Hstart) _ Hscan]. unfold json_number_member.
  destruct (field_at _ _ _ _ _ _ Hobj Hf) as (q & c & r & E & -> & _ & He & _ & Hc & Hl).
  assert (starts_number s (length s) (length q) = true) as ->.
  { unfold starts_number. rewrite (char_here s q x (u ++ c :: r)) by (rewrite ?E; apps || done).
    destruct Hstart as [Hx|[-> (x' & u' & -> & Hx)]].
    - rewrite (proj1 (proj2 (digit_facts x Hx))). rewrite (char_here s q x (u ++ c :: r)) by (rewrite ?E; apps || done).
      rewrite Hx, andb_true_r. apply Nat.ltb_lt. rewrite E. len.
    - rewrite ascii_eqb_refl, (length_snoc q "-"%char).
      rewrite (char_here s (q ++ ["-"%char]) x' (u' ++ c :: r)) by (rewrite ?E; apps || done).
      rewrite Hx, andb_true_r. apply Nat.ltb_lt. rewrite E. len. }
  unfold scan_number, sscanf_lf. rewrite E, drop_app_length, Hscan by (by apply ends_value_number). done.
Qed.

Lemma read_str u : denotes t (MStr u) -> json_string_member s b e key = u.
Proof.
  intros (w & -> & Hw & Hd). unfold json_string_member.
  destruct (field_at _ _ _ _ _ _ Hobj Hf) as (q & c & r & E & -> & _).
  assert (s = (q ++ [cQuote]) ++ w ++ cQuote :: c :: r) as Es by (rewrite E; unfold quoted; apps).
  rewrite (char_here s q cQuote (w ++ cQuote :: c :: r)) by (rewrite ?E; unfold quoted; apps || done).
  rewrite ascii_eqb_refl, (length_snoc q cQuote), Es.
  change (decode ((q ++ [cQuote]) ++ w ++ cQuote :: c :: r) (length (q ++ [cQuote])) [] = u).
  by rewrite decode_at, Hd.
Qed.

Lemma read_vec v old : denotes t (MVec v) -> json_vec3_member s b e key old = (true, v).
Proof.
  destruct v as [[x y] z]. intros (tx & ty & tz & -> & [_ _ Hx] & [_ _ Hy] & [_ _ Hz]). unfold json_vec3_member.
  destruct (field_at _ _ _ _ _ _ Hobj Hf) as (q & c & r & E & -> & _).
  assert (s = (q ++ ["["%char]) ++ tx ++ ","%char :: ty ++ ","%char :: tz ++ "]"%char :: c :: r) as Es by (rewrite E; apps).
  rewrite (char_here s q "["%char (tx ++ ","%char :: ty ++ ","%char :: tz ++ "]"%char :: c :: r)) by (rewrite ?E; apps || done).
  rewrite ascii_eqb_refl. unfold scan_vec3, sscanf_lf3. rewrite (length_snoc q "["%char), Es, drop_app_length.
  rewrite Hx by done. cbv beta iota. rewrite ascii_eqb_refl, Hy by done. cbv beta iota.
  rewrite ascii_eqb_refl, Hz by done. by destruct old as [[??]?].
Qed.
End Readers.

(** * The members of the extras *)

(** A member: its name, the text the sender writes, what it means. *)
Record entry := Entry { en_name : string; en_text : bytes; en_means : meaning }.
Definition entry_member (x : entry) : member := Member (str (en_name x)) (en_text x) [] [] [] [].

Definition fixed_value3 (p : nat) (v : vec3) : vec3 :=
  let '(x, y, z) := v in (fixed_value p x, fixed_value p y, fixed_value p z).

Definition e_int (k : string) (z : Z) : entry := Entry k (int_text z) (MNum (of_Z z)).
Definition e_bit (k : string) (b : bool) : entry := Entry k (bit b) (MNum (of_Z (Z.b2z b))).
Definition e_str (k : string) (u : bytes) : entry := Entry k (quoted (json_escape u)) (MStr u).
Definition e_fixed (k : string) (p : nat) (d : double) : entry := Entry k (fixed p d) (MNum (fixed_value p d)).
Definition e_fixed3 (k : string) (p : nat) (v : vec3) : entry :=
  Entry k ("["%char :: fixed3 p v ++ ["]"%char]) (MVec (fixed_value3 p v)).

Section Sender.
Context (format_double : double -> bytes).

Definition e_free (k : string) (d : double) : entry := Entry k (format_double d) (MNum d).

Definition extras_entries (f : frame) : list entry := [
  e_int "move_state" (f_move_state f); e_int "action_state" (f_action_state f);
  e_free "h_speed" (f_h_speed f); e_free "v_speed" (f_v_speed f);
  e_int "anim_jump_type" (f_anim_jump_type f); e_int "movement_mode" (f_movement_mode f);
  e_int "land_count" (f_land_count f); e_int "jump_count" (f_jump_count f);
  e_bit "weapon_equipped" (f_weapon_equipped f);
  e_str "outfit_mesh" (f_outfit_mesh f); e_str "weapon_mesh" (f_weapon_mesh f);
  e_int "afterimage_count" (f_afterimage_count f);
  e_str "montage" (f_montage f); e_int "montage_count" (f_montage_count f);
  e_int "montage_stop_count" (f_montage_stop_count f); e_int "afterimage_n" (f_afterimage_n f);
  e_fixed "capsule_half" 1 (f_capsule_half f); e_fixed "slide_t" 2 (f_slide_t f);
  e_bit "bubble_charged" (f_bubble_charged f); e_fixed3 "afterimage_color" 4 (f_afterimage_color f);
  e_bit "weapon_thrown" (weapon_thrown (f_weapon f)); e_str "weapon_class" (weapon_class (f_weapon f));
  e_int "weapon_state" (weapon_state (f_weapon f)); e_str "weapon_glow" (weapon_glow (f_weapon f));
  e_bit "recall_glow" (f_recall_glow f); e_fixed3 "weapon_pos" 1 (weapon_loc (f_weapon f));
  e_fixed3 "weapon_rot" 1 (weapon_rot (f_weapon f)); e_int "weapon_bounce" (f_weapon_bounce f);
  e_bit "shadow_on" (f_shadow_on f); Entry "vfx" (quoted (f_vfx f)) (MStr (f_vfx f));
  e_bit "prj" (shot_active (f_shot f)); e_str "prj_vfx" (shot_vfx (f_shot f));
  e_fixed3 "prj_pos" 1 (shot_loc (f_shot f)); e_fixed3 "prj_rot" 1 (shot_rot (f_shot f));
  e_int "blink_count" (f_blink_count f); e_int "death_count" (f_death_count f); e_int "hurt_count" (f_hurt_count f)
].

(** The text is that object. *)
Lemma local_extras_object f : local_extras format_double f = object_text (map entry_member (extras_entries f)).
Proof.
  destruct f. unfold local_extras, object_text, extras_entries, js, str. cbn.
  unfold member_text, member_head, quoted, bit, str. cbn.
  repeat first [progress rewrite <- !app_assoc | progress cbn [app]]. by rewrite ?app_nil_r.
Qed.
End Sender.

(** What an object says of a frame: every member of the extras, by name, with a text that
    denotes its value. *)
Definition meanings (f : frame) : list (string * meaning) :=
  map (fun x => (en_name x, en_means x)) (extras_entries exact_format f).
Definition says (ms : list member) (f : frame) : Prop :=
  Forall (fun x : string * meaning => exists t, field (str x.1) ms = Some t /\ denotes t x.2) (meanings f).

(** What a frame needs to be JSON: no infinity and no NaN; effect keys need no escape. *)
Record frame_ok (f : frame) : Prop := FrameOk {
  fo_speed : isfinite (f_h_speed f) = true /\ wf_double (f_h_speed f) = true;
  fo_v_speed : isfinite (f_v_speed f) = true /\ wf_double (f_v_speed f) = true;
  fo_capsule : isfinite (f_capsule_half f) = true;
  fo_slide : isfinite (f_slide_t f) = true;
  fo_vectors : Forall (fun v => finite3 v = true) [f_afterimage_color f; weapon_loc (f_weapon f); weapon_rot (f_weapon f);
                                                   shot_loc (f_shot f); shot_rot (f_shot f)];
  fo_place : finite3 (f_position f) = true /\ wf3 (f_position f);
  fo_heading : finite3 (f_orientation f) = true /\ wf3 (f_orientation f);
  fo_vfx : json_escape (f_vfx f) = f_vfx f
}.

Lemma bit_denotes b : num_denotes (bit b) (of_Z (Z.b2z b)).
Proof. destruct b; [apply (int_text_denotes 1)|apply (int_text_denotes 0)]. Qed.

Lemma fixed3_denotes p v : 0 < p -> finite3 v = true -> denotes ("["%char :: fixed3 p v ++ ["]"%char]) (MVec (fixed_value3 p v)).
Proof.
  destruct v as [[x y] z]. intros Hp [[Hx Hy]%andb_true_iff Hz]%andb_true_iff.
  exists (fixed p x), (fixed p y), (fixed p z). repeat split; by apply fixed_denotes.
Qed.

Ltac denote :=
  match goal with
  | |- num_denotes (int_text _) _ => apply int_text_denotes
  | |- num_denotes (bit _) _ => apply bit_denotes
  | |- num_denotes (fixed _ _) _ => apply fixed_denotes; [done|clear; lia]
  | |- num_denotes _ _ => by apply format_denotes
  | |- exists w, quoted (json_escape ?u) = quoted w /\ _ => apply (escaped_denotes u)
  | E : json_escape ?u = ?u |- exists w, quoted ?u = quoted w /\ _ => pose proof (escaped_denotes u) as Hu; by rewrite E in Hu
  | |- _ => apply fixed3_denotes; [clear; lia|done]
  end.

Lemma entries_denote fmt `{DoubleFormat fmt} f :
  frame_ok f -> Forall (fun x => denotes (en_text x) (en_means x)) (extras_entries fmt f).
Proof.
  intros [[H1 H1'] [H2 H2'] H3 H4 Hv _ _ Hx]. repeat (apply Forall_cons_1 in Hv as [? Hv]).
  unfold extras_entries. repeat (apply Forall_cons_2; [cbn [en_text en_means e_int e_bit e_str e_fixed e_fixed3 e_free denotes]; denote|]).
  constructor.
Qed.

Lemma str_inj s t : str s = str t -> s = t.
Proof.
  intros E. rewrite <- (string_of_list_ascii_of_string s), <- (string_of_list_ascii_of_string t). by f_equal.
Qed.

Lemma field_entry l x :
  NoDup (map en_name l) -> x ∈ l -> field (str (en_name x)) (map entry_member l) = Some (en_text x).
Proof.
  unfold field. induction l as [|y l IH]; intros Hn Hx; [by apply elem_of_nil in Hx|].
  cbn in *. apply list.NoDup_cons in Hn as [Hy Hn]. apply elem_of_cons in Hx as [->|Hx].
  - by rewrite bool_decide_true.
  - rewrite bool_decide_false.
    + specialize (IH Hn Hx). destruct (first _ _) as [[i v]|]; [|done]. cbn in *. done.
    + intros E%str_inj. apply Hy. rewrite E. apply list_elem_of_In, in_map, list_elem_of_In, Hx.
Qed.

Lemma names_distinct fmt f : NoDup (map en_name (extras_entries fmt f)).
Proof. cbn. apply (bool_decide_unpack _). by vm_compute. Qed.

Lemma names_plain fmt f : Forall (fun x => json_escape (str (en_name x)) = str (en_name x)) (extras_entries fmt f).
Proof. by repeat constructor. Qed.

(** The sender's own text says the frame. *)
Lemma sender_says fmt `{DoubleFormat fmt} f :
  frame_ok f -> Forall member_ok (map entry_member (extras_entries fmt f)) /\ says (map entry_member (extras_entries fmt f)) f.
Proof.
  intros Hok. pose proof (entries_denote fmt f Hok) as Hd. split.
  - apply Forall_map, list.Forall_forall. intros x Hx. split; cbn.
    + rewrite <- (proj1 (list.Forall_forall _ _) (names_plain fmt f) x Hx). apply str_body_escape.
    + by eapply denotes_value, (proj1 (list.Forall_forall _ _) Hd).
    + constructor.
    + constructor.
    + constructor.
    + constructor.
  - unfold says. change (meanings f) with (map (fun x => (en_name x, en_means x)) (extras_entries fmt f)).
    apply Forall_map. apply list.Forall_forall. intros x Hx. exists (en_text x).
    split; [apply (field_entry (extras_entries fmt f) x (names_distinct fmt f) Hx)|]. by apply (proj1 (list.Forall_forall _ _) Hd).
Qed.

(** * The sample a peer reads *)

Definition finite_or_none (v : vec3) : option vec3 := if finite3 v then Some v else None.

(** A frame, as the peers' side has it: the place, the facing and the time come with the
    state, the rest with its extras. *)
Definition frame_sample (f : frame) (pos rot : vec3) (ts : option double) : sample := {|
  s_pos := pos; s_rot := rot; s_ts := ts;
  s_move_state := of_Z (f_move_state f); s_action_state := of_Z (f_action_state f);
  s_h_speed := bound_speed (f_h_speed f); s_v_speed := bound_speed (f_v_speed f);
  s_anim_jump_type := of_Z (f_anim_jump_type f); s_movement_mode := of_Z (f_movement_mode f);
  s_land_count := of_Z (f_land_count f); s_jump_count := of_Z (f_jump_count f);
  s_afterimage_count := of_Z (f_afterimage_count f); s_afterimage_n := of_Z (f_afterimage_n f);
  s_capsule_half := fixed_value 1 (f_capsule_half f); s_slide_t := fixed_value 2 (f_slide_t f);
  s_afterimage_color := Some (fixed_value3 4 (f_afterimage_color f));
  s_weapon_equipped := f_weapon_equipped f; s_bubble_charged := f_bubble_charged f;
  s_outfit_mesh := f_outfit_mesh f; s_weapon_mesh := f_weapon_mesh f; s_montage := f_montage f; s_vfx := f_vfx f;
  s_montage_count := of_Z (f_montage_count f); s_montage_stop_count := of_Z (f_montage_stop_count f);
  s_weapon_thrown := weapon_thrown (f_weapon f); s_weapon_bounce := of_Z (f_weapon_bounce f);
  s_shadow_on := of_Z (Z.b2z (f_shadow_on f)); s_weapon_class := weapon_class (f_weapon f);
  s_weapon_state := of_Z (weapon_state (f_weapon f)); s_weapon_glow := weapon_glow (f_weapon f);
  s_recall_glow := f_recall_glow f; s_weapon_pos := finite_or_none (fixed_value3 1 (weapon_loc (f_weapon f)));
  s_weapon_rot := finite_or_none (fixed_value3 1 (weapon_rot (f_weapon f)));
  s_projectile_active := shot_active (f_shot f); s_projectile_vfx := shot_vfx (f_shot f);
  s_prj_pos := finite_or_none (fixed_value3 1 (shot_loc (f_shot f)));
  s_prj_rot := finite_or_none (fixed_value3 1 (shot_rot (f_shot f)));
  s_blink_count := of_Z (f_blink_count f); s_death_count := of_Z (f_death_count f); s_hurt_count := of_Z (f_hurt_count f)
|}.

Section Receiver.
Context (line : bytes) (ex : span) (ms : list member) (f : frame).
Context (Hobj : object_at line ex.1 ex.2 ms) (Hsays : says ms f).

Lemma says_member k m : (k, m) ∈ meanings f -> exists t, field (str k) ms = Some t /\ denotes t m.
Proof. intros Hin. apply (proj1 (list.Forall_forall _ _) Hsays (k, m) Hin). Qed.

Lemma said_number k d dflt : (k, MNum d) ∈ meanings f -> read_number line ex k dflt = d.
Proof. intros (t & Hf & Hd)%says_member. unfold read_number. by erewrite read_num. Qed.

Lemma said_string k u : (k, MStr u) ∈ meanings f -> read_string line ex k = u.
Proof. intros (t & Hf & Hd)%says_member. unfold read_string. by erewrite read_str. Qed.

Lemma said_vec3 k v : (k, MVec v) ∈ meanings f -> read_vec3 line ex k = Some v.
Proof. intros (t & Hf & Hd)%says_member. unfold read_vec3. by erewrite read_vec. Qed.

Lemma said_finite3 k v : (k, MVec v) ∈ meanings f -> read_finite3 line ex k = finite_or_none v.
Proof. intros H. unfold read_finite3. by rewrite (said_vec3 k v H). Qed.

Lemma nonzero_bit b : nonzero (of_Z (Z.b2z b)) = b.
Proof. by destruct b. Qed.

Lemma read_frame_sample payload st pos :
  let r := read_sample line payload st ex pos in r = frame_sample f pos (s_rot r) (s_ts r).
Proof.
  cbv zeta. unfold read_sample, frame_sample. cbn [s_rot s_ts].
  repeat (erewrite said_number by (repeat first [apply list_elem_of_here | apply list_elem_of_further])).
  f_equal.
  all: first [reflexivity | apply nonzero_bit | eapply said_string | eapply said_vec3 | eapply said_finite3].
  all: repeat first [apply list_elem_of_here | apply list_elem_of_further].
Qed.
End Receiver.

(** * From a tick to a peer's screen *)

(** A line with the frame in its payload's state, whatever else is in it. *)
Definition carries (line : bytes) (payload : list member) (f : frame) : Prop :=
  exists p t root st ex, line = p ++ object_text root ++ t /\ find_char p "{" 0 = None /\
    Forall member_ok root /\ Forall member_ok payload /\ Forall member_ok st /\ Forall member_ok ex /\
    field (str "payload") root = Some (object_text payload) /\
    field (str "state") payload = Some (object_text st) /\
    field (str "extras") st = Some (object_text ex) /\ says ex f /\
    (exists t, field (str "position") st = Some t /\ denotes t (MVec (f_position f))) /\
    (exists t, field (str "orientation") st = Some t /\ denotes t (MVec (f_orientation f))).

Section Line.
Context (format_double : double -> bytes).

Definition e_free3 (k : string) (v : vec3) : entry :=
  Entry k ("["%char :: free3 format_double v ++ ["]"%char]) (MVec v).

Definition state_entries (f : frame) : list entry := [
  e_str "area_id" (f_area_id f); e_free3 "position" (f_position f); e_free3 "orientation" (f_orientation f);
  e_str "anim" (str "idle"); Entry "extras" (local_extras format_double f) (MStr [])
].
Definition nest (k : string) (ms : list member) : member := Member (str k) (object_text ms) [] [] [] [].
Definition payload_members (f : frame) : list member := [nest "state" (map entry_member (state_entries f))].
Definition line_members (f : frame) : list member :=
  [entry_member (e_str "type" (str "local_state")); nest "payload" (payload_members f)].

Lemma local_state_object f : local_state format_double f = object_text (line_members f).
Proof.
  unfold local_state, line_members, payload_members, state_entries, e_str, e_free3, nest, js, str. cbn [map].
  generalize (local_extras format_double f) (free3 format_double (f_position f)) (free3 format_double (f_orientation f))
    (json_escape (f_area_id f)). intros ex pos rot area. unfold object_text. cbn.
  unfold member_text, member_head, quoted, str. cbn. unfold member_text, member_head, quoted, str, object_text. cbn.
  repeat first [progress rewrite <- !app_assoc | progress cbn [app] | rewrite app_nil_r]. done.
Qed.
End Line.

(** The nested objects of a line, each read by name. *)
Lemma carries_spans line payload f :
  carries line payload f ->
  exists pl st ex exm, render_spans line = Some (pl, st, ex) /\ object_at line pl.1 pl.2 payload /\
    object_at line ex.1 ex.2 exm /\ says exm f /\
    read_vec3 line st "position" = Some (f_position f) /\
    (json_vec3_member line st.1 st.2 (str "orientation") vzero).2 = f_orientation f.
Proof.
  intros (p & t & root & stm & exm & -> & Hp & Hr & Hpm & Hsm & Hem & Fp & Fs & Fe & Hs & (tp & Fpos & Dp) & (to & Frot & Dr)).
  destruct (json_root_body_members p t root Hp Hr) as (b & e & Eb & Ho).
  destruct (json_object_member_nested _ _ _ _ payload _ Ho Fp Hpm) as (b1 & e1 & E1 & O1 & _).
  destruct (json_object_member_nested _ _ _ _ stm _ O1 Fs Hsm) as (b2 & e2 & E2 & O2 & _).
  destruct (json_object_member_nested _ _ _ _ exm _ O2 Fe Hem) as (b3 & e3 & E3 & O3 & _).
  exists (b1, e1), (b2, e2), (b3, e3), exm. unfold render_spans. rewrite Eb. cbn [fst snd]. rewrite E1. cbn [fst snd]. rewrite E2. cbn [fst snd].
  rewrite E3.
  repeat split; [done|done|done| |].
  - unfold read_vec3. by erewrite read_vec.
  - by erewrite read_vec.
Qed.

Lemma free3_denotes fmt `{DoubleFormat fmt} v :
  finite3 v = true -> wf3 v -> denotes ("["%char :: free3 fmt v ++ ["]"%char]) (MVec v).
Proof.
  destruct v as [[x y] z]. intros [[Hx Hy]%andb_true_iff Hz]%andb_true_iff (Wx & Wy & Wz).
  exists (fmt x), (fmt y), (fmt z). repeat split; by apply format_denotes.
Qed.

Lemma entry_ok k t m : denotes t m -> json_escape (str k) = str k -> member_ok (entry_member (Entry k t m)).
Proof.
  intros Hd Hk. split; [cbn [m_key entry_member en_name]; rewrite <- Hk; apply str_body_escape|by eapply denotes_value|constructor..].
Qed.

Lemma nest_ok k ms : Forall member_ok ms -> json_escape (str k) = str k -> member_ok (nest k ms).
Proof.
  intros Hd Hk. split; [cbn [m_key nest]; rewrite <- Hk; apply str_body_escape|by apply object_value|constructor..].
Qed.

Lemma field_skip key front ms : field key front = None -> field key (front ++ ms) = field key ms.
Proof.
  unfold field. induction front as [|m front IH]; [done|]. cbn. case_bool_decide; [done|].
  destruct (first key front) as [[i v]|]; [done|]. intros _. specialize (IH eq_refl).
  destruct (first key (front ++ ms)) as [[i v]|]; cbn in *; [|done]. by rewrite IH.
Qed.

(** A line of type [ty] whose payload has the members [front] before the sender's state. *)
Definition line_of (fmt : double -> bytes) (ty : bytes) (front : list member) (f : frame) : list member :=
  [entry_member (e_str "type" ty); nest "payload" (front ++ payload_members fmt f)].

Lemma line_carries fmt `{DoubleFormat fmt} ty front f :
  frame_ok f -> Forall member_ok front -> field (str "state") front = None ->
  carries (object_text (line_of fmt ty front f)) (front ++ payload_members fmt f) f.
Proof.
  intros Hok Hfront Hskip. destruct (sender_says fmt f Hok) as [Hex Hsays]. destruct Hok as [_ _ _ _ _ [P1 P2] [R1 R2] _].
  assert (Forall member_ok (map entry_member (state_entries fmt f))) as Hst.
  { unfold state_entries. cbn [map]. repeat apply Forall_cons_2; [..|constructor].
    - apply entry_ok; [apply escaped_denotes|done].
    - apply entry_ok; [by apply free3_denotes|done].
    - apply entry_ok; [by apply free3_denotes|done].
    - apply entry_ok; [apply escaped_denotes|done].
    - unfold entry_member. cbn [en_name en_text]. rewrite local_extras_object. by apply nest_ok. }
  assert (Forall member_ok (front ++ payload_members fmt f)) as Hpl.
  { apply Forall_app_2; [done|]. constructor; [by apply nest_ok|constructor]. }
  exists [], [], (line_of fmt ty front f), (map entry_member (state_entries fmt f)), (map entry_member (extras_entries fmt f)).
  rewrite app_nil_r. do 2 (split; [done|]).
  split; [constructor; [by apply entry_ok; [apply escaped_denotes|]|constructor; [by apply nest_ok|constructor]]|].
  do 3 (split; [done|]). split; [done|]. split; [by rewrite field_skip|]. split.
  { rewrite <- local_extras_object. done. }
  split; [done|]. split; eexists; (split; [reflexivity|]); by apply free3_denotes.
Qed.

(** The facing [rot] a peer reads of a player whose own facing is [raw], from the bracket
    the payload carries for this adapter's [interpolate_orientation]: the player's own
    when a part of the bracket is missing or is not finite, and otherwise, component by
    component, the shortest arc between the two ends at the fraction. *)
Definition arc (a b : vec3) (t : double) : vec3 :=
  let '(ap, ay, ar) := a in
  let '(bp, by_, br) := b in
  (lerp_angle_deg ap bp t, lerp_angle_deg ay by_ t, lerp_angle_deg ar br t).

Definition member_means (ms : list member) (key : string) (m : meaning) : Prop :=
  exists t, field (str key) ms = Some t /\ denotes t m.

Inductive facing (payload : list member) (raw : vec3) : vec3 -> Prop :=
  | NoBracket :
      field (str "orientation_from") payload = None \/ field (str "orientation_to") payload = None \/
      field (str "interp_t") payload = None -> facing payload raw raw
  | Bracket a b t :
      member_means payload "orientation_from" (MVec a) -> member_means payload "orientation_to" (MVec b) ->
      member_means payload "interp_t" (MNum t) ->
      facing payload raw (if finite3 a && finite3 b && isfinite t then arc a b (clamp_interp t) else raw).

Lemma facing_read line pl payload raw rot :
  object_at line pl.1 pl.2 payload -> facing payload raw rot -> interpolated_rotation line pl raw = rot.
Proof.
  intros Hpl Hf. unfold interpolated_rotation, read_vec3. cbn [negb GHOST_ROTATION_SLERP].
  destruct Hf as [Hnone|[[a1 a2] a3] [[b1 b2] b3] t (ta & Fa & Da) (tb & Fb & Db) (tt & Ft & Dt)].
  - assert (forall key, field (str key) payload = None ->
      (forall old, json_vec3_member line pl.1 pl.2 (str key) old = (false, old)) /\
      (forall old, json_number_member line pl.1 pl.2 (str key) old = (false, old))) as H.
    { intros key Hk. split; intros old; [unfold json_vec3_member|unfold json_number_member]; by rewrite (field_none _ _ _ _ _ Hpl Hk). }
    destruct Hnone as [Hk|[Hk|Hk]]; apply H in Hk as [Hv Hn]; rewrite ?Hv, ?Hn; repeat case_match; congruence.
  - rewrite (read_vec _ _ _ _ _ _ Hpl Fa _ vzero Da), (read_vec _ _ _ _ _ _ Hpl Fb _ vzero Db), (read_num _ _ _ _ _ _ Hpl Ft _ dzero Dt).
    done.
Qed.

(** * Properties *)

(** C12: what a peer's plugin reads of a player is what the player's own tick sampled.  The
    line a tick writes is well-formed and carries the frame; and whatever line then
    carries it (members in another order, values spelled another way, other members
    beside them, as a relay that decodes and encodes again may leave them) is read as
    that player and that frame: every counter and flag as it was, every path and effect
    key byte for byte, the place to the last bit, the speeds too (one beyond a million
    reads as 0), and the other vectors, the capsule and the slide to the decimals the
    sender kept.  The facing is the player's own to the last bit when the core sends no
    whole bracket of orientations for it, and otherwise the shortest arc between the
    bracket's two ends at its fraction.  This is of a frame whose numbers are finite and
    whose effect keys need no escaping, and of a number formatter that prints a finite
    double as a number that reads back as it. *)
Theorem frame_reaches_peer (format_double : double -> bytes) `{DoubleFormat format_double} (f : frame) (Hok : frame_ok f) :
  carries (local_state format_double f) (payload_members format_double f) f /\
  forall line payload id rot,
    carries line payload f -> member_means payload "player_id" (MStr id) -> id <> [] ->
    facing payload (f_orientation f) rot ->
    exists ts, render_sample line = Some (id, frame_sample f (f_position f) rot ts).
Proof.
  split.
  { rewrite local_state_object. by apply (line_carries format_double (str "local_state") []). }
  intros line payload id rot Hc (t & Hid & Hd) Hne Hface.
  destruct (carries_spans line payload f Hc) as (pl & st & ex & exm & Espan & Hpl & Hex & Hsays & Hpos & Hrot).
  destruct Hok as [_ _ _ _ _ [Hfp _] [Hfr _] _].
  set (r := read_sample line pl st ex (f_position f)). exists (s_ts r).
  assert (s_rot r = rot) as <-.
  { cbn [s_rot r read_sample]. unfold read_orientation. rewrite Hrot, Hfr. by apply (facing_read line pl payload). }
  unfold render_sample. rewrite Espan. unfold read_string. rewrite (read_str line pl.1 pl.2 payload _ t Hpl Hid id Hd).
  rewrite bool_decide_false by done. unfold read_finite3. rewrite Hpos, Hfp.
  do 2 f_equal. apply (read_frame_sample line ex exm f Hex Hsays pl st (f_position f)).
Qed.

(** A frame with a sword away, two running effects and a path with a quote in it. *)
Definition sample_frame0 : frame := {|
  f_area_id := str "Level /Game/Maps/Zone_Dungeon"; f_position := (of_Z 12, of_Z (-3), lit 5 2);
  f_orientation := (dzero, of_Z 90, dzero);
  f_move_state := 4; f_action_state := 2; f_h_speed := lit 1201 4; f_v_speed := of_Z (-7);
  f_anim_jump_type := 0; f_movement_mode := 1; f_land_count := 3; f_jump_count := 4294967295;
  f_weapon_equipped := false; f_outfit_mesh := js "/Game/Mesh 'A'"; f_weapon_mesh := []; f_afterimage_count := 9;
  f_montage := []; f_montage_count := 0; f_montage_stop_count := 0; f_afterimage_n := 4;
  f_capsule_half := of_Z 22; f_slide_t := lit 1 3; f_bubble_charged := true;
  f_afterimage_color := (dzero, lit 1 3, of_Z 1);
  f_weapon := Thrown true (str "/Game/W.W_C") 3 [] (of_Z 1, of_Z 2, of_Z 3) vzero; f_recall_glow := false;
  f_weapon_bounce := 2; f_shadow_on := true; f_vfx := str "chg,dl:7"; f_shot := shot0; f_blink_count := 0;
  f_death_count := 1; f_hurt_count := 5
|}.

Lemma sample_frame0_ok : frame_ok sample_frame0.
Proof. split; vm_compute; repeat split; repeat constructor. Qed.

(** What the core adds before the state: the player's id, and a bracket from 350 to 10
    degrees, at its end. *)
Definition bracket0 : list entry := [
  Entry "orientation_from" (str "[0,350,0]") (MVec (dzero, of_Z 350, dzero));
  Entry "orientation_to" (str "[0,10,0]") (MVec (dzero, of_Z 10, dzero));
  Entry "interp_t" (str "1") (MNum (of_Z 1))
].
Definition relayed0 : list member := map entry_member (e_str "player_id" (str "p1") :: bracket0).

Lemma bracket0_denotes : Forall (fun x => denotes (en_text x) (en_means x)) bracket0.
Proof.
  assert (forall n, num_denotes (int_text n) (of_Z n)) as Hi by (intros; apply int_text_denotes).
  repeat apply Forall_cons_2; [| | |constructor].
  - exists (str "0"), (str "350"), (str "0"). split; [done|]. split; [apply (Hi 0%Z)|split; [apply (Hi 350%Z)|apply (Hi 0%Z)]].
  - exists (str "0"), (str "10"), (str "0"). split; [done|]. split; [apply (Hi 0%Z)|split; [apply (Hi 10%Z)|apply (Hi 0%Z)]].
  - apply (Hi 1%Z).
Qed.

Lemma relayed0_ok : Forall member_ok relayed0.
Proof.
  apply Forall_cons_2; [apply entry_ok; [apply escaped_denotes|done]|].
  pose proof bracket0_denotes as H. repeat (apply Forall_cons_1 in H as [? H]).
  repeat apply Forall_cons_2; [apply entry_ok; done..|constructor].
Qed.

(** The relay puts the player's id and the bracket before the state: the ghost faces the
    bracket's far end. *)
Example frame_reaches_peer_witness :
  frame_ok sample_frame0 /\ f_jump_count sample_frame0 = 4294967295%Z /\
  f_orientation sample_frame0 = (dzero, of_Z 90, dzero) /\
  exists ts, render_sample (object_text (line_of exact_format (str "render_remote") relayed0 sample_frame0))
               = Some (str "p1", frame_sample sample_frame0 (f_position sample_frame0) (dzero, of_Z 370, dzero) ts).
Proof.
  split; [apply sample_frame0_ok|do 2 (split; [done|])].
  eapply (frame_reaches_peer exact_format sample_frame0 sample_frame0_ok).
  - apply (line_carries exact_format (str "render_remote")); [apply sample_frame0_ok|apply relayed0_ok|done].
  - eexists. split; [reflexivity|apply escaped_denotes].
  - done.
  - pose proof bracket0_denotes as H. repeat (apply Forall_cons_1 in H as [? H]).
    change (dzero, of_Z 370, dzero) with (if finite3 (dzero, of_Z 350, dzero) && finite3 (dzero, of_Z 10, dzero) && isfinite (of_Z 1)
      then arc (dzero, of_Z 350, dzero) (dzero, of_Z 10, dzero) (clamp_interp (of_Z 1)) else f_orientation sample_frame0).
    apply Bracket; eexists; (split; [reflexivity|done]).
Defined.
