(* ===== verification/GhostGuards.v ===== *)
(** Plugin.cpp: what keeps a ghost from acting on the local player's own engine state.

    The pre-hooks rewrite an argument before the engine's function runs: the audio
    listener, the [PlayerLocation] shading parameter, the camera's target, the camera's
    fade.  The sweeps of the tick hold the ghosts' camera rigs out of the view and destroy
    the orphaned ones.  The light repair is asked for by every spawn and served once.

    The damage guard is compiled out ([GHOST_DAMAGE_GUARD]). *)
From S2P Require Import Prelude Float64 JsonString RemoteGhost Lifecycle ObjectRegistry Chaser PeerProps PoseMirror LocalCapture LocalState.
From Stdlib Require Import ZArith.

(** * The audio listener *)

(** The component [SetAudioListenerAttenuationOverride] is given: the root of the pawn
    the controller drives, where that resolves. *)
Definition audio_listener_guard (r : reflection) (controller attach : option Z) : option Z :=
  match controller with
  | None => attach
  | Some controller =>
      let driven := match obj r controller "AcknowledgedPawn" with Some d => Some d | None => obj r controller "Pawn" end in
      match driven ≫= (fun d => obj r d "RootComponent") with
      | Some root => Some root
      | None => attach
      end
  end.

(** * The shading parameter *)

(** What the tick caches of the player's place for the guard. *)
Definition guard_local : Type := option vec3.
Definition cache_local (location : vec3) : guard_local := Some location.

(** A write to a material collection's vector: its collection, its name, its three
    numbers.  [found] is what the engine finds under the collection's path. *)
Record vector_write := { collection : option Z; parameter : bytes; rgb : vec3 }.
#[export] Instance vector_write_eta : Eta vector_write := fun r =>
  {| collection := collection r; parameter := parameter r; rgb := rgb r |}.

Definition playerlocation_guard (guarded : bool) (local : guard_local) (found : option Z) (mpc_player_related : option Z)
    (w : vector_write) : option Z * vector_write :=
  match local with
  | Some (x, y, z) =>
      if negb guarded then (mpc_player_related, w)
      else match collection w with
      | None => (mpc_player_related, w)
      | Some c =>
          let mpc := match mpc_player_related with Some m => Some m | None => found end in
          (mpc, if negb (bool_decide (mpc = Some c)) then w
                else if negb (bool_decide (parameter w = str "PlayerLocation")) then w
                else w <| rgb := (to_float x, to_float y, to_float z) |>)
      end
  | None => (mpc_player_related, w)
  end.

(** * The camera's target *)

Definition GHOST_SPAWN_CAMERA_GUARD_TICKS : Z := 10.

(** The pawn a rig serves: its Blueprint's OwningActor, else the engine's Owner. *)
Definition rig_owner (r : reflection) (target : Z) : option Z :=
  match obj r target "OwningActor" with Some o => Some o | None => obj r target "Owner" end.

Definition inside_ghost_spawn_window (tick ghost_spawn_camera_guard_tick : Z) : bool :=
  negb (ghost_spawn_camera_guard_tick =? 0)%Z && (ghost_spawn_camera_guard_tick <=? tick)%Z
  && (tick <=? u64 (ghost_spawn_camera_guard_tick + GHOST_SPAWN_CAMERA_GUARD_TICKS))%Z.

(** One call of [SetViewTargetWithBlend]. *)
Record switch := { sw_reads : reflection; sw_ghosts : list Z; sw_tick : Z; sw_spawn_tick : Z; sw_gone : Z -> bool; sw_target : option Z }.

Definition reject_switch (s : switch) (target : Z) : bool :=
  match rig_owner (sw_reads s) target with
  | Some owner => bool_decide (owner ∈ sw_ghosts s)
  | None => inside_ghost_spawn_window (sw_tick s) (sw_spawn_tick s)
  end.

(** The fallback after the call, and the target the engine gets: never null for a rig
    that is refused. *)
Definition camera_guard (last_non_ghost_view_target : option Z) (s : switch) : option Z * option Z :=
  match sw_target s with
  | None => (last_non_ghost_view_target, None)
  | Some target =>
      if negb (reject_switch s target) then (Some target, Some target)
      else match last_non_ghost_view_target with
      | Some last => (Some last, Some (if sw_gone s last then target else last))
      | None => (None, Some target)
      end
  end.

(** * The camera's fade *)

Definition GHOST_SPAWN_FADE_GUARD_TICKS : Z := 10.

(** The parameters found by name. *)
Record fade := { from_alpha : option double; to_alpha : option double; duration : option double }.

Definition fade_guard (tick last_ghost_spawn_tick : Z) (f : fade) : fade :=
  if (last_ghost_spawn_tick =? 0)%Z || (u64 (tick - last_ghost_spawn_tick) >? GHOST_SPAWN_FADE_GUARD_TICKS)%Z then f
  else {| from_alpha := (fun _ => dzero) <$> from_alpha f; to_alpha := (fun _ => dzero) <$> to_alpha f;
          duration := (fun _ => dzero) <$> duration f |}.

(** * The camera rigs *)

Definition CAMERA_RIG_SWEEP_INTERVAL_TICKS : Z := 30.
Definition CAMERA_RIG_ORPHAN_SWEEPS_BEFORE_DESTROY : Z := 3.

Record rig_view := RigView {
  rv_local : local_view;
  owning_slot : Z -> option (option Z)   (* OwningActor resolves, and what it holds *)
}.

(** Whom a camera serves: the pawn its rig names, or the pawn that carries it. *)
Definition serves (rv : rig_view) (rig : Z) (is_player_rig : bool) : option Z :=
  if is_player_rig then default None (owning_slot rv rig) else Some rig.

(** A camera whose weight is put to 0: a player rig's or a pawn's, blending, and not
    serving the local pawn. *)
Definition neutralised (rv : rig_view) (pawn camera : Z) : bool :=
  let v := rv_local rv in
  match num (refl v) camera "PostProcessBlendWeight" with
  | None => false
  | Some weight =>
      if (weight <=? dzero)%double && (weight >=? dzero)%double then false
      else match outer v camera with
      | None => false
      | Some rig =>
          let rig_class := default [] (short_name v <$> class_of v rig) in
          let is_player_rig := contains rig_class (str "BP_PlayerCam_C") in
          if negb is_player_rig && negb (class_looks_like_player (pawn_of v rig)) then false
          else negb (bool_decide (serves rv rig is_player_rig = Some pawn))
      end
  end.

Definition neutralise_rigs (rv : rig_view) (tick pawn : Z) (fd : feed) : feed * list Z :=
  if (tick mod CAMERA_RIG_SWEEP_INTERVAL_TICKS =? 0)%Z then
    let (fd, cameras) := registry_live (world_objects (rv_local rv)) tick "CameraComponent" fd in
    (fd, List.filter (neutralised rv pawn) cameras)
  else (fd, []).

(** The rigs without an owner, each with the sweeps in a row it has been seen so; those
    seen often enough are destroyed, those not seen so this time start over. *)
Definition orphaned (rv : rig_view) (rig : Z) : bool := bool_decide (owning_slot rv rig = Some None).

Definition orphan_step (st : gmap Z Z * list Z) (rig : Z) : gmap Z Z * list Z :=
  let (orphan_sightings, destroyed) := st in
  let sightings := (default 0 (orphan_sightings !! rig) + 1)%Z in
  (<[rig := sightings]> orphan_sightings,
   if (sightings <? CAMERA_RIG_ORPHAN_SWEEPS_BEFORE_DESTROY)%Z then destroyed else destroyed ++ [rig]).

Definition orphan_pass (seen_orphaned : list Z) (orphan_sightings : gmap Z Z) : gmap Z Z * list Z :=
  let (m, destroyed) := foldl orphan_step (orphan_sightings, []) seen_orphaned in
  (filter (fun p : Z * Z => p.1 ∈ seen_orphaned) m, destroyed).

Definition sweep_orphan_rigs (rv : rig_view) (tick : Z) (pawn : pawn) (st : feed * gmap Z Z) : feed * gmap Z Z * list Z :=
  let (fd, orphan_sightings) := st in
  if (tick mod CAMERA_RIG_SWEEP_INTERVAL_TICKS =? 0)%Z && class_looks_like_player pawn then
    let (fd, rigs) := registry_live (world_objects (rv_local rv)) tick "BP_PlayerCam_C" fd in
    let (m, destroyed) := orphan_pass (List.filter (orphaned rv) rigs) orphan_sightings in
    (fd, m, destroyed)
  else (fd, orphan_sightings, []).

(** * The light repair *)

Definition FIX_LIGHTS_SPACING_TICKS : Z := 30.

Record fix_lights := FixLights { g_fix_lights_due : bool; g_fix_lights_spawns_pending : Z; g_fix_lights_last_tick : Z }.
#[export] Instance fix_lights_eta : Eta fix_lights := fun r =>
  FixLights (g_fix_lights_due r) (g_fix_lights_spawns_pending r) (g_fix_lights_last_tick r).
Definition fix_lights0 : fix_lights := FixLights false 0 0.

Definition ask_fix_lights (s : fix_lights) : fix_lights :=
  s <| g_fix_lights_due := true |> <| g_fix_lights_spawns_pending := (g_fix_lights_spawns_pending s + 1)%Z |>.

(** At the top of a tick: the spawns served, when it is time.  The call itself is made
    only with a dev file present. *)
Definition serve_fix_lights (tick : Z) (s : fix_lights) : fix_lights * option Z :=
  if g_fix_lights_due s && (u64 (tick - g_fix_lights_last_tick s) >=? FIX_LIGHTS_SPACING_TICKS)%Z
  then (FixLights false 0 tick, Some (g_fix_lights_spawns_pending s))
  else (s, None).
