(* ===== verification/GuardProps.v ===== *)
(** Properties of the guards and of the camera rigs' sweep. *)
From S2P Require Import Prelude Float64 JsonString RemoteGhost Lifecycle ObjectRegistry Chaser PoseMirror LocalCapture GhostGuards.
From Stdlib Require Import ZArith.

(** * The camera *)

(** The targets a run of switches has had accepted, in order. *)
Definition accepted (ss : list switch) : list Z :=
  omap (fun s => t ← sw_target s; if reject_switch s t then None else Some t) ss.

Definition fallback (last0 : option Z) (ss : list switch) : option Z :=
  foldl (fun last s => (camera_guard last s).1) last0 ss.

Lemma fallback_accepted ss : forall last0,
  fallback last0 ss = match list.last (accepted ss) with Some t => Some t | None => last0 end.
Proof.
  unfold fallback. induction ss as [|s ss IH] using rev_ind; intros last0; [done|].
  rewrite foldl_app. cbn [foldl]. rewrite IH. unfold accepted. rewrite omap_app. cbn [omap list_omap]. unfold camera_guard.
  destruct (sw_target s) as [t|]; cbn [mbind option_bind]; [|by rewrite app_nil_r].
  destruct (reject_switch s t); cbn [negb fst]; [|by rewrite list.last_snoc].
  rewrite app_nil_r. by destruct (list.last _) as [?|]; [|destruct last0].
Qed.

(** Over any run of camera switches since the level began, a switch that is not
    refused reaches the engine untouched; a switch to a rig that serves a ghost, or that
    serves nobody within the ticks of a ghost's spawn, leaves the view on the last target
    that was not refused, and goes through only if there is none still alive; and no
    switch is ever turned into no target. *)
Theorem camera_stays_the_players (ss : list switch) (s : switch) (target : Z) (Ht : sw_target s = Some target) :
  (camera_guard (fallback None ss) s).2 =
    Some (if reject_switch s target then
            match list.last (accepted ss) with
            | Some kept => if sw_gone s kept then target else kept
            | None => target
            end
          else target) /\
  (reject_switch s target = true <->
     match rig_owner (sw_reads s) target with
     | Some owner => owner ∈ sw_ghosts s
     | None => inside_ghost_spawn_window (sw_tick s) (sw_spawn_tick s) = true
     end).
Proof.
  split.
  - unfold camera_guard. rewrite Ht, fallback_accepted. destruct (reject_switch s target); [|done]. cbn [negb].
    by destruct (list.last (accepted ss)).
  - unfold reject_switch. destruct (rig_owner _ _); [|done]. apply bool_decide_eq_true.
Qed.

(** A switch of the game's, then one to the rig of ghost 50. *)
Definition rig_reads : reflection :=
  {| obj := fun o p => if decide (o = 7 /\ p = "OwningActor"%string) then Some 50 else None; num := fun _ _ => None;
     flag := fun _ _ => None; raw_flag := fun _ _ => None; objs := fun _ _ => None; has := fun _ _ => true; has_fn := fun _ _ => true |}%Z.
Definition sample_switch (target : Z) : switch :=
  {| sw_reads := rig_reads; sw_ghosts := [50]; sw_tick := 100; sw_spawn_tick := 0; sw_gone := fun _ => false; sw_target := Some target |}%Z.

Example camera_stays_the_players_witness :
  reject_switch (sample_switch 7) 7 = true /\ (camera_guard (fallback None [sample_switch 3]) (sample_switch 7)).2 = Some 3%Z.
Proof.
  destruct (camera_stays_the_players [sample_switch 3] (sample_switch 7) 7 eq_refl) as [-> _]. split; by vm_compute.
Defined.

(** * The orphaned rigs *)

Lemma orphan_steps l : forall m d, NoDup l ->
  let r := foldl orphan_step (m, d) l in
  (forall rig, r.1 !! rig = if bool_decide (rig ∈ l) then Some (default 0 (m !! rig) + 1)%Z else m !! rig) /\
  (forall rig, rig ∈ r.2 <-> rig ∈ d \/ rig ∈ l /\ (CAMERA_RIG_ORPHAN_SWEEPS_BEFORE_DESTROY <= default 0 (m !! rig) + 1)%Z).
Proof.
  induction l as [|a l IH]; intros m d Hnd; cbv zeta; [by split; [|set_solver]|].
  apply list.NoDup_cons in Hnd as [Ha Hnd]. cbn [foldl]. unfold orphan_step at 2 4.
  set (n := (default 0 (m !! a) + 1)%Z). destruct (IH (<[a := n]> m) (if (n <? CAMERA_RIG_ORPHAN_SWEEPS_BEFORE_DESTROY)%Z then d else d ++ [a]) Hnd) as [H1 H2].
  split; intros rig.
  - rewrite H1. destruct (decide (rig = a)) as [->|Hne].
    + rewrite bool_decide_false, bool_decide_true, lookup_insert_eq by set_solver. done.
    + rewrite lookup_insert_ne by done. by rewrite (bool_decide_ext (rig ∈ a :: l) (rig ∈ l)) by set_solver.
  - rewrite H2. destruct (decide (rig = a)) as [->|Hne].
    + fold n. assert (a ∈ a :: l) by set_solver. destruct (Z.ltb_spec n CAMERA_RIG_ORPHAN_SWEEPS_BEFORE_DESTROY).
      * split; [set_solver|]. intros [?|[_ ?]]; [by left|lia].
      * split; [set_solver by lia|]. intros _. left. set_solver.
    + rewrite lookup_insert_ne by done. destruct (n <? _)%Z; set_solver.
Qed.

Lemma orphan_pass_spec l m : NoDup l ->
  let r := orphan_pass l m in
  (forall rig, r.1 !! rig = if bool_decide (rig ∈ l) then Some (default 0 (m !! rig) + 1)%Z else None) /\
  (forall rig, rig ∈ r.2 <-> rig ∈ l /\ (CAMERA_RIG_ORPHAN_SWEEPS_BEFORE_DESTROY <= default 0 (m !! rig) + 1)%Z).
Proof.
  intros Hnd. cbv zeta. unfold orphan_pass. destruct (orphan_steps l m [] Hnd) as [H1 H2].
  destruct (foldl orphan_step (m, []) l) as [m' d]. cbn [fst snd] in *. split; intros rig.
  - case_bool_decide as H.
    + assert (m' !! rig = Some (default 0 (m !! rig) + 1)%Z) as E by (rewrite H1; by rewrite bool_decide_true).
      by apply map_lookup_filter_Some_2.
    + apply map_lookup_filter_None. right. intros x _. exact H.
  - rewrite H2. set_solver.
Qed.

(** A tick's pass: what it reads, its tick, the local pawn, the registries then. *)
Definition rig_round : Type := rig_view * Z * pawn * feed.

Definition round_runs (x : rig_round) : bool :=
  let '(_, tick, pawn, _) := x in (tick mod CAMERA_RIG_SWEEP_INTERVAL_TICKS =? 0)%Z && class_looks_like_player pawn.
Definition round_orphans (x : rig_round) : list Z :=
  let '(rv, tick, _, fd) := x in
  List.filter (orphaned rv) (registry_live (world_objects (rv_local rv)) tick "BP_PlayerCam_C" fd).2.
Definition run_round (m : gmap Z Z) (x : rig_round) : gmap Z Z * list Z :=
  let '(rv, tick, pawn, fd) := x in let '(_, m, destroyed) := sweep_orphan_rigs rv tick pawn (fd, m) in (m, destroyed).

Lemma run_round_pass m x : run_round m x = if round_runs x then orphan_pass (round_orphans x) m else (m, []).
Proof.
  destruct x as [[[rv tick] pawn] fd]. unfold run_round, round_runs, round_orphans, sweep_orphan_rigs.
  destruct (_ && _); [|done]. destruct (registry_live _ _ _ _) as [fd' rigs]. cbn [snd]. by destruct (orphan_pass _ m).
Qed.

Lemma round_orphans_nodup x : NoDup (round_orphans x).
Proof.
  destruct x as [[[rv tick] pawn] fd]. unfold round_orphans.
  assert (NoDup (registry_live (world_objects (rv_local rv)) tick "BP_PlayerCam_C" fd).2) as H.
  { unfold registry_live, live. cbn [snd]. apply NoDup_fst_map_to_list. }
  revert H. generalize (registry_live (world_objects (rv_local rv)) tick "BP_PlayerCam_C" fd).2. intros l H.
  apply NoDup_ListNoDup. apply NoDup_ListNoDup in H. by apply NoDup_filter.
Qed.

(** The passes made, each with the orphans it saw. *)
Definition passes (rounds : list rig_round) : list (list Z) := map round_orphans (List.filter round_runs rounds).

(** How often in a row a rig was seen, up to the last pass. *)
Fixpoint streak (rig : Z) (back : list (list Z)) : Z :=
  match back with [] => 0 | l :: back => if bool_decide (rig ∈ l) then streak rig back + 1 else 0 end%Z.

Lemma sightings_streak rounds rig :
  default 0%Z (foldl (fun m x => (run_round m x).1) ∅ rounds !! rig) = streak rig (rev (passes rounds)).
Proof.
  induction rounds as [|x rounds IH] using rev_ind; [done|]. rewrite foldl_app. cbn [foldl].
  unfold passes. rewrite List.filter_app, map_app, rev_app_distr, run_round_pass. cbn [List.filter].
  destruct (round_runs x); [|exact IH]. cbn [map rev app streak].
  destruct (orphan_pass_spec (round_orphans x) (foldl (fun m x => (run_round m x).1) ∅ rounds) (round_orphans_nodup x)) as [-> _].
  case_bool_decide; [|done]. cbn [default]. by rewrite IH.
Qed.

Lemma streak_pos rig l : (0 <= streak rig l)%Z.
Proof. induction l as [|a l IH]; cbn; [lia|]. case_bool_decide; lia. Qed.

Lemma streak_two rig back : (2 <= streak rig back)%Z <-> exists b a rest, back = b :: a :: rest /\ rig ∈ a /\ rig ∈ b.
Proof.
  destruct back as [|b [|a rest]]; cbn [streak].
  - split; [lia|]. by intros (? & ? & ? & ? & _).
  - split; [case_bool_decide; lia|]. by intros (? & ? & ? & ? & _).
  - pose proof (streak_pos rig rest). split.
    + intros H2. exists b, a, rest. repeat case_bool_decide; try lia. done.
    + intros (b' & a' & rest' & [= <- <- <-] & Ha & Hb). rewrite !bool_decide_true by done. lia.
Qed.

(** C11: the sweep goes by addresses.  Over any passes, in one level or in several, the
    object at an address is destroyed as an orphan exactly when three passes in a row have
    found a camera rig alive at that address and without an owner, this one the last; a pass
    that finds it owned, or finds none there, starts the address over, and the ticks on which
    no pass is due, or no player's pawn is up, do not count.  So a rig that keeps its address
    is seen ownerless three times before it is destroyed; but nothing starts an address over
    when its rig is freed and another takes it between two passes, at a level's end or not,
    and that one inherits the count ([recycled_rig_destroyed]), although the code's comment
    says no freed address stays. *)
Theorem orphan_rigs_destroyed (rounds : list rig_round) (x : rig_round) (rig : Z) :
  let m := foldl (fun m x => (run_round m x).1) ∅ rounds in
  rig ∈ (run_round m x).2 <->
    round_runs x = true /\ rig ∈ round_orphans x /\
    exists earlier a b, passes rounds = earlier ++ [a; b] /\ rig ∈ a /\ rig ∈ b.
Proof.
  cbv zeta. rewrite run_round_pass. destruct (round_runs x); [|cbn; set_solver].
  destruct (orphan_pass_spec (round_orphans x) (foldl (fun m x => (run_round m x).1) ∅ rounds) (round_orphans_nodup x)) as [_ ->].
  rewrite sightings_streak. unfold CAMERA_RIG_ORPHAN_SWEEPS_BEFORE_DESTROY.
  assert ((2 <= streak rig (rev (passes rounds)))%Z <-> exists earlier a b, passes rounds = earlier ++ [a; b] /\ rig ∈ a /\ rig ∈ b) as <-.
  { rewrite streak_two. split.
    - intros (b & a & rest & E & Ha & Hb). exists (rev rest), a, b. split; [|done].
      rewrite <- (rev_involutive (passes rounds)), E. cbn. by rewrite <- app_assoc.
    - intros (earlier & a & b & -> & Ha & Hb). exists b, a, (rev earlier). by rewrite rev_app_distr. }
  split; [intros [? ?]; split; [done|split; [done|lia]]|intros (_ & ? & ?); split; [done|lia]].
Qed.

(** * The light repair *)

(** A spawn, or the top of a tick. *)
Inductive light_event := Spawned | Topped (tick : Z).
Definition light_step (st : fix_lights * list Z) (e : light_event) : fix_lights * list Z :=
  match e with
  | Spawned => (ask_fix_lights st.1, st.2)
  | Topped tick => let (s, served) := serve_fix_lights tick st.1 in (s, st.2 ++ option_list served)
  end.

(** Every spawn is answered by one repair, or waits for it. *)
Lemma repairs_account es : forall s served,
  let st := foldl light_step (s, served) es in
  (foldr Z.add 0 st.2 + g_fix_lights_spawns_pending st.1
     = foldr Z.add 0 served + g_fix_lights_spawns_pending s + Z.of_nat (length (List.filter (fun e => match e with Spawned => true | Topped _ => false end) es)))%Z.
Proof.
  assert (forall l n, foldr Z.add 0%Z (l ++ [n]) = (foldr Z.add 0 l + n)%Z) as Hsum
    by (intros l n; induction l as [|a l IH]; cbn; [lia|rewrite IH; lia]).
  cbv zeta. induction es as [|e es IH]; intros s served; [cbn; lia|]. cbn [foldl].
  destruct e as [|tick]; cbn [light_step fst snd List.filter].
  - rewrite IH. destruct s; cbn. lia.
  - unfold serve_fix_lights. destruct (_ && _); rewrite IH; cbn [option_list].
    + change (option_list (Some (g_fix_lights_spawns_pending s))) with [g_fix_lights_spawns_pending s]. rewrite Hsum. cbn. lia.
    + change (option_list None) with (@nil Z). rewrite app_nil_r. lia.
Qed.

(** The sightings outlive the level: the third pass in a row is the first of the next
    level, and destroys the new rig that has the address of the old one. *)
Definition rig_world (serial : Z) : rig_view :=
  {| rv_local := {| refl := rig_reads; integer := fun _ _ => None; vector := fun _ _ => None; colour := fun _ _ => None;
       short_name := fun _ => []; long_name := fun _ => []; class_of := fun _ => None; world_of := fun _ => None;
       outer := fun _ => None; place := fun _ => vzero; heading := fun _ => vzero; is_active := fun _ => false;
       is_gone := fun _ => false; montage_name := fun _ => None; one_byte := fun _ _ => false; held_objects := fun _ => [];
       bool_properties := fun _ => []; instances := fun _ => [];
       world_objects := {[9%Z := UObject serial ["BP_PlayerCam_C"%string] true]} |};
     owning_slot := fun _ => Some None |}.

Example recycled_rig_destroyed :
  let pawn := Pawn vzero (Some 2%Z) (Some (str "BP_PlayerGoatMain_C")) in
  let '(fd1, m1, d1) := sweep_orphan_rigs (rig_world 1) 30 pawn (feed0, ∅) in
  let '(fd2, m2, d2) := sweep_orphan_rigs (rig_world 1) 60 pawn (fd1, m1) in
  let '(_, _, d3) := sweep_orphan_rigs (rig_world 2) 90 pawn (registry_clear_all fd2, m2) in
  d1 = [] /\ d2 = [] /\ d3 = [9%Z].
Proof. by vm_compute. Qed.
