(* ===== verification/IndicatorConfig.v ===== *)
(** Plugin.cpp, [poll_recording_indicator_config] and [poll_recording_indicator_tuning]: the
    player's settings of what is drawn, re-read from config.json, and the numbers of
    rec_indicator.txt, one [key=value] to a line.

    The texts of the two files are arguments.  The tunable numbers are kept by their keys,
    each a global of the source.  [g_rec_tuning_dirty] is only ever set here: the drawing of
    the world-space indicator, which clears it, is not modelled. *)
From S2P Require Import Prelude Float64 CScan JsonString CoreLauncher RemoteGhost DistanceTier VfxMirror PoseMirror LocalCapture InputDisplay Nametag.
From Stdlib Require Import NArith ZArith.

(** * The state *)

Record input_display := InputDisplayConfig {
  drawn : display;                       (* rows, unit, count_left, fps_note, ghost *)
  g_disp_player : bool; g_disp_background : bool; g_disp_size : double;
  g_disp_player_left : bool; g_disp_ghost_left : bool;
  g_disp_tuning_gen : Z
}.
#[export] Instance input_display_eta : Eta input_display := fun r =>
  InputDisplayConfig (drawn r) (g_disp_player r) (g_disp_background r) (g_disp_size r) (g_disp_player_left r)
    (g_disp_ghost_left r) (g_disp_tuning_gen r).

Record indicator := Indicator {
  g_rec_indicator_enabled : bool; g_rec_dot_color : bytes; g_rec_timer_color : bytes; g_rec_glyph : Z;
  tuned : gmap bytes double;             (* the numbers of rec_indicator.txt *)
  g_rec_tuning_dirty : bool; g_hud_tuning_gen : Z; g_nametag_tuning_gen : Z;
  g_input_track_enabled : bool;
  disp : input_display;
  tuning_text : bytes                      (* the tuning file, as last read *)
}.
#[export] Instance indicator_eta : Eta indicator := fun r =>
  Indicator (g_rec_indicator_enabled r) (g_rec_dot_color r) (g_rec_timer_color r) (g_rec_glyph r) (tuned r)
    (g_rec_tuning_dirty r) (g_hud_tuning_gen r) (g_nametag_tuning_gen r) (g_input_track_enabled r) (disp r) (tuning_text r).

(** [std::clamp] *)
Definition clamp (v lo hi : double) : double := if (v <? lo)%double then lo else if (hi <? v)%double then hi else v.

(** * config.json *)

Definition is_unit (token : bytes) : bool :=
  bool_decide (token = str "cs") || bool_decide (token = str "ms") || bool_decide (token = str "frames").
Definition is_unit_break (c : ascii) : bool := Ascii.eqb c "," || Ascii.eqb c " " || Ascii.eqb c "+" || Ascii.eqb c "/".

(** The token read so far ends: kept if it is a unit and new. *)
Definition flush (cleaned token : bytes) : bytes :=
  if is_unit token then
    match find_str token cleaned with
    | None => match cleaned with [] => token | _ => cleaned ++ str "," ++ token end
    | Some _ => cleaned
    end
  else cleaned.

Fixpoint clean_unit (unit cleaned token : bytes) : bytes :=
  match unit with
  | [] => flush cleaned token
  | c :: unit =>
      if is_unit_break c then clean_unit unit (flush cleaned token) []
      else clean_unit unit cleaned (token ++ [lower c])
  end.

Definition unit_setting (unit : bytes) : bytes :=
  match clean_unit unit [] [] with [] => str "cs" | cleaned => cleaned end.

(** [rows] as an [int32_t]: a NaN is kept by the clamp, and its cast is undefined
    behaviour, [undefined] here. *)
Definition rows_setting (undefined : Z) (rows : double) : Z := default undefined (dtrunc (clamp rows (of_Z 1) (of_Z 40))).

Definition not_right (side : bytes) : bool := negb (bool_decide (side = str "right")).

(** What the file asks of the display; a setting it does not have keeps its value, a
    switch its default. *)
Definition display_asked (undefined : Z) (text : option bytes) (d : input_display) : input_display :=
  let string key := config_string_value text (str key) in
  let number key := config_number_value text (str key) in
  let switch key missing := config_bool_value text (str key) missing in
  InputDisplayConfig
    (Display (match number "rows" with Some rows => rows_setting undefined rows | None => g_disp_rows (drawn d) end)
       (match string "unit" with Some unit => unit_setting unit | None => g_disp_unit (drawn d) end)
       (match string "count_side" with Some side => not_right side | None => g_disp_count_left (drawn d) end)
       (switch "fps_note" false) (switch "ghost" false))
    (switch "player" false) (switch "background" true)
    (match number "size" with Some size => clamp size (of_Z 6) (of_Z 96) | None => g_disp_size d end)
    (match string "player_side" with Some side => not_right side | None => g_disp_player_left d end)
    (match string "ghost_side" with Some side => not_right side | None => g_disp_ghost_left d end)
    (g_disp_tuning_gen d).

Definition display_differs (a b : input_display) : bool :=
  let x := drawn a in
  let y := drawn b in
  xorb (g_disp_player a) (g_disp_player b) || xorb (g_disp_background a) (g_disp_background b)
  || negb (g_disp_rows x =? g_disp_rows y)%Z || dne (g_disp_size a) (g_disp_size b)
  || xorb (g_disp_player_left a) (g_disp_player_left b) || negb (bool_decide (g_disp_unit x = g_disp_unit y))
  || xorb (g_disp_count_left x) (g_disp_count_left y) || xorb (g_disp_fps_note x) (g_disp_fps_note y)
  || xorb (g_disp_ghost x) (g_disp_ghost y) || xorb (g_disp_ghost_left a) (g_disp_ghost_left b).

(** The settings, and whether both panels are redrawn. *)
Definition poll_display (undefined : Z) (text : option bytes) (d : input_display) : input_display * bool :=
  let asked := display_asked undefined text d in
  if display_differs asked d then (asked <| g_disp_tuning_gen := u32 (g_disp_tuning_gen d + 1) |>, true) else (d, false).

(** A colour that differs is taken as it is. *)
Definition poll_color (value : option bytes) (old : bytes) : option bytes :=
  match value with Some c => if bool_decide (c = old) then None else Some c | None => None end.

Definition poll_recording_indicator_config (undefined : Z) (text : option bytes) (s : indicator) : indicator * bool :=
  let enabled := config_bool_value text (str "indicator") true in
  let s := if xorb enabled (g_rec_indicator_enabled s)
           then s <| g_rec_indicator_enabled := enabled |> <| g_rec_tuning_dirty := true |> else s in
  let (d, redraw) := poll_display undefined text (disp s) in
  let s := s <| disp := d |> <| g_input_track_enabled := config_bool_value text (str "inputs") false |> in
  let recolored s := s <| g_rec_tuning_dirty := true |> <| g_hud_tuning_gen := u32 (g_hud_tuning_gen s + 1) |> in
  let s := match poll_color (config_string_value text (str "indicator_color")) (g_rec_dot_color s) with
           | Some c => recolored (s <| g_rec_dot_color := c |>)
           | None => s
           end in
  let s := match poll_color (config_string_value text (str "indicator_timer_color")) (g_rec_timer_color s) with
           | Some c => recolored (s <| g_rec_timer_color := c |>)
           | None => s
           end in
  (s, redraw).

(** * rec_indicator.txt *)

(** A number's key, its range, and whether it is one of the screen's, which are counted
    apart; [whole] is cast to an integer. *)
Record tunable := Tunable { t_key : bytes; t_range : double * double; t_hud : bool; t_whole : bool }.

Definition WIDEST : double * double := (of_Z (-10000), of_Z 10000).
Definition number_key (key : string) (range : double * double) : tunable := Tunable (str key) range false false.
Definition hud_key (key : string) (range : double * double) : tunable := Tunable (str key) range true false.

Definition TUNABLES : list tunable := [
  number_key "forward" (of_Z 10, of_Z 2000); number_key "right" WIDEST; number_key "up" WIDEST; number_key "gap" WIDEST;
  number_key "dot" (lit 1 10, of_Z 500); number_key "text" (lit 1 10, of_Z 500); number_key "plate_margin" (of_Z 0, of_Z 4);
  number_key "plate_h" (lit 3 10, of_Z 3); number_key "dot_w" (lit 5 100, of_Z 10); number_key "dot_h" (lit 5 100, of_Z 10);
  number_key "dot_up" WIDEST; number_key "plate_up" WIDEST;
  hud_key "hud_x" WIDEST; hud_key "hud_y" WIDEST; hud_key "hud_size" (of_Z 1, of_Z 500); hud_key "hud_gap" WIDEST;
  hud_key "hud_text" (of_Z 1, of_Z 200); hud_key "hud_pad" (of_Z 0, of_Z 100);
  Tunable (str "hud_z") (of_Z 0, of_Z 100000) true true;
  number_key "name_up" (of_Z (-500), of_Z 500); number_key "name_size" (of_Z 0, of_Z 500); number_key "name_behind" (of_Z 0, of_Z 100)].

(** The shipped numbers. *)
Definition tuned0 : gmap bytes double := list_to_map [
  (str "forward", of_Z 140); (str "right", of_Z 112); (str "up", of_Z 72); (str "gap", lit 135 10);
  (str "dot", of_Z 9); (str "text", of_Z 9); (str "plate_margin", lit 35 100); (str "plate_h", lit 78 100);
  (str "dot_w", lit 85 100); (str "dot_h", lit 78 100); (str "dot_up", lit 4 10); (str "plate_up", lit 7 10);
  (str "hud_x", of_Z 26); (str "hud_y", of_Z 22); (str "hud_size", of_Z 44); (str "hud_gap", of_Z 10);
  (str "hud_text", of_Z 30); (str "hud_pad", of_Z 4); (str "hud_z", of_Z 0);
  (str "name_up", of_Z 110); (str "name_size", of_Z 0); (str "name_behind", of_Z 4)].

Definition indicator0 : indicator :=
  Indicator true (str "#EE4B2B") (str "#FFFFFF") 72 tuned0 false 1 1 false
    (InputDisplayConfig (Display 10 (str "cs") true false false) false true (of_Z 22) true false 1) [].

(** What a C function reads of a string. *)
Fixpoint c_str (s : bytes) : bytes :=
  match s with [] => [] | c :: s => if Ascii.eqb c Ascii.zero then [] else c :: c_str s end.

(** [std::strtoul(s, &stop, 16)]: the value, and what is left at [stop]. *)
Definition strtoul16 (s : bytes) : N * bytes :=
  let (neg, s1) := scan_sign (skip_space s) in
  let s2 := match s1 with
            | z :: x :: h :: rest => if Ascii.eqb z "0" && Ascii.eqb (CScan.lower x) "x" && is_hex h then h :: rest else s1
            | _ => s1
            end in
  let (ds, rest) := span is_hex s2 in
  match ds with
  | [] => (0%N, s)
  | _ => let v := digits_value 16 ds in
         (if (ULONG_MAX <? v)%N then ULONG_MAX
          else if neg then ((ULONG_MAX + 1 - v) mod (ULONG_MAX + 1))%N else v, rest)
  end.

Definition glyph_of (value : bytes) : Z :=
  let (code, stop) := strtoul16 (c_str value) in
  if bool_decide (stop = []) && (0 <? code)%N && (code <=? 65535)%N && (1 <? length value) then Z.of_N code
  else Z.of_N (N_of_ascii (hd Ascii.zero value)).

Definition is_trimmed (c : ascii) : bool := Ascii.eqb c " " || Ascii.eqb c cTab || Ascii.eqb c cCR.
Fixpoint trim_front (s : bytes) : bytes :=
  match s with c :: s' => if is_trimmed c then trim_front s' else s | [] => [] end.
Definition trim (s : bytes) : bytes := rev (trim_front (rev (trim_front s))).

(** A line without its comment, cut at its first [=]; [None] for a line that sets nothing. *)
Definition cut_line (line : bytes) : option (bytes * bytes) :=
  let line := match find_char line "#" 0 with Some hash => take hash line | None => line end in
  match find_char line "=" 0 with
  | None => None
  | Some eq =>
      let value := trim (drop (S eq) line) in
      if bool_decide (value = []) then None else Some (trim (take eq line), value)
  end.

Definition set_number (key : bytes) (number : double) (s : indicator) : indicator :=
  match List.find (fun t => bool_decide (t_key t = key)) TUNABLES with
  | None => s
  | Some t =>
      let v := clamp (clamp number WIDEST.1 WIDEST.2) (t_range t).1 (t_range t).2 in
      let v := if t_whole t then of_Z (default 0%Z (dtrunc v)) else v in
      s <| tuned := <[key := v]> (tuned s) |>
        <| g_hud_tuning_gen := if t_hud t then u32 (g_hud_tuning_gen s + 1) else g_hud_tuning_gen s |>
        <| g_rec_tuning_dirty := true |>
  end.

Definition apply_line (s : indicator) (line : bytes) : indicator :=
  match cut_line line with
  | None => s
  | Some (key, value) =>
      if bool_decide (key = str "color") then
        let hex := if Ascii.eqb (hd Ascii.zero value) "#" then value else "#"%char :: value in
        if (length hex =? 7)%nat then s <| g_rec_dot_color := hex |> <| g_rec_tuning_dirty := true |> else s
      else if bool_decide (key = str "glyph") then s <| g_rec_glyph := glyph_of value |> <| g_rec_tuning_dirty := true |>
      else
        let number := match strtod (c_str value) with Some (v, _) => v | None => dzero end in
        if isfinite number then set_number key number s else s
  end.

(** The lines of a text; nothing follows the last line's end. *)
Fixpoint split_lines (text line : bytes) : list bytes :=
  match text with
  | [] => if bool_decide (line = []) then [] else [line]
  | c :: text => if Ascii.eqb c cLF then line :: split_lines text [] else split_lines text (line ++ [c])
  end.

(** [file] is the tuning file's text, [None] where it cannot be read. *)
Definition read_tuning (file : option bytes) (s : indicator) : indicator :=
  match file with
  | None => s
  | Some text =>
      if bool_decide (text = tuning_text s) then s
      else
        let s := foldl apply_line (s <| tuning_text := text |>) (split_lines text []) in
        if g_rec_tuning_dirty s then s <| g_nametag_tuning_gen := u32 (g_nametag_tuning_gen s + 1) |> else s
  end.

(** The settings, whether the panels are redrawn, and the distance tiers' ranges. *)
Definition poll_recording_indicator_tuning (undefined : Z) (config file : option bytes) (s : indicator) (r : ranges) :
    indicator * bool * ranges :=
  let (s, redraw) := poll_recording_indicator_config undefined config s in
  (read_tuning file s, redraw, poll_ghost_range_config (config_number_value config) r).

(** * What the settings are to the rest *)

(** Both panels draw their text again. *)
Definition redraw_panels (p : plugin) : plugin :=
  p <| g_disp_player_panel := g_disp_player_panel p <| last_text := [] |> |>
    <| g_disp_ghost_panel := g_disp_ghost_panel p <| last_text := [] |> |>.

(** A number of the tuning file. *)
Definition tuned_number (s : indicator) (key : string) : double := default dzero (tuned s !! str key).

(** The numbers a name tag is drawn by. *)
Definition tag_tuning_of (s : indicator) : tag_tuning :=
  TagTuning (tuned_number s "name_up") (tuned_number s "name_size") (tuned_number s "name_behind")
    (tuned_number s "plate_margin") (tuned_number s "plate_h") (g_nametag_tuning_gen s).
