(* ===== verification/IndicatorProps.v ===== *)
(** The settings of what is drawn: their ranges over any polls, and the units' cleaning. *)
From S2P Require Import Prelude Float64 FloatFacts CScan JsonString JsonBounds CoreLauncher DistanceTier InputDisplay IndicatorConfig.
From Stdlib Require Import NArith ZArith.

(** * The units *)

(** A decidable statement, by evaluation. *)
Ltac by_deciding := match goal with |- ?P => apply (bool_decide_eq_true_1 P); by vm_compute end.

Definition UNITS : list bytes := [str "cs"; str "ms"; str "frames"].

Fixpoint join (us : list bytes) : bytes :=
  match us with [] => [] | [u] => u | u :: us => u ++ str "," ++ join us end.

(** The tokens of a setting, in lower case. *)
Fixpoint tokens (unit token : bytes) : list bytes :=
  match unit with
  | [] => [token]
  | c :: unit => if is_unit_break c then token :: tokens unit [] else tokens unit (token ++ [lower c])
  end.

(** The units among them, each once, where it first comes. *)
Definition add_unit (us : list bytes) (token : bytes) : list bytes :=
  if bool_decide (token ∈ UNITS) && bool_decide (token ∉ us) then us ++ [token] else us.

(** Every list of units without a repetition. *)
Definition orders : list (list bytes) :=
  [] :: concat (map (fun a => [a] :: concat (map (fun b => if bool_decide (a = b) then [] else
    [a; b] :: concat (map (fun c => if bool_decide (c = a) || bool_decide (c = b) then [] else [[a; b; c]]) UNITS)) UNITS)) UNITS).

Lemma flush_orders : Forall (fun us => Forall (fun t => flush (join us) t = join (add_unit us t) /\ add_unit us t ∈ orders) UNITS) orders.
Proof. by_deciding. Qed.

Lemma is_unit_elem token : is_unit token = bool_decide (token ∈ UNITS).
Proof.
  unfold is_unit, UNITS. apply Bool.eq_iff_eq_true. rewrite !orb_true_iff, !bool_decide_eq_true, !elem_of_cons, elem_of_nil. tauto.
Qed.

Lemma flush_add us token : us ∈ orders -> flush (join us) token = join (add_unit us token) /\ add_unit us token ∈ orders.
Proof.
  intros Hus. pose proof flush_orders as H. rewrite list.Forall_forall in H. specialize (H us Hus). rewrite list.Forall_forall in H.
  destruct (decide (token ∈ UNITS)) as [Ht|Ht]; [by apply H|]. unfold flush, add_unit.
  rewrite is_unit_elem, bool_decide_false by done. done.
Qed.

Lemma clean_unit_spec unit : forall us token, us ∈ orders ->
  clean_unit unit (join us) token = join (foldl add_unit us (tokens unit token)) /\ foldl add_unit us (tokens unit token) ∈ orders.
Proof.
  induction unit as [|c unit IH]; intros us token Hus; cbn [clean_unit tokens foldl]; [by apply flush_add|].
  destruct (is_unit_break c); [|by apply IH]. cbn [foldl]. destruct (flush_add us token Hus) as [-> H]. by apply IH.
Qed.

(** A setting is the units it names, in its order and each once, or the default. *)
Lemma unit_setting_spec unit :
  let us := foldl add_unit [] (tokens unit []) in
  us ∈ orders /\ unit_setting unit = match us with [] => str "cs" | _ => join us end.
Proof.
  cbv zeta. destruct (clean_unit_spec unit [] []) as [E H]; [left|]. split; [done|]. unfold unit_setting.
  change (clean_unit unit [] []) with (clean_unit unit (join []) []). rewrite E. revert H.
  generalize (foldl add_unit [] (tokens unit [])). intros us Hus.
  assert (Forall (fun us => match join us with [] => str "cs" | _ => join us end = match us with [] => str "cs" | _ => join us end) orders) as Ho
    by (by_deciding).
  rewrite list.Forall_forall in Ho. rewrite <- (Ho us Hus). by destruct (join us).
Qed.

(** * The ranges *)

Definition in_range_of (range : double * double) (v : double) : Prop := dle range.1 v = true /\ dle v range.2 = true.

Lemma clamp_between v lo hi : isnan v = false -> dle lo hi = true -> in_range_of (lo, hi) (clamp v lo hi).
Proof.
  intros Hv Hle. destruct (dle_notnan _ _ Hle) as [Nlo Nhi]. unfold clamp, in_range_of. cbn [fst snd].
  destruct (v <? lo)%double eqn:E1; [by auto using dle_refl_notnan|]. destruct (hi <? v)%double eqn:E2; [by auto using dle_refl_notnan|].
  auto using dlt_false_dle.
Qed.

Lemma range_finite lo hi v : isfinite lo = true -> isfinite hi = true -> in_range_of (lo, hi) v -> isfinite v = true.
Proof. intros H1 H2 [H3 H4]. by destruct v as [|[]|], lo as [|[]|], hi as [|[]|]. Qed.

Lemma finite_notnan v : isfinite v = true -> isnan v = false.
Proof. by destruct v. Qed.

Definition tunable_ok (t : tunable) : bool :=
  dle (t_range t).1 (t_range t).2 && isfinite (t_range t).1 && isfinite (t_range t).2
  && implb (t_whole t) (bool_decide (t_range t = (of_Z 0, of_Z 100000))).

Lemma tunables_ok : Forall (fun t => tunable_ok t = true) TUNABLES /\ NoDup (map t_key TUNABLES).
Proof. split; [by_deciding|]. by_deciding. Qed.

(** Every number of the tuning file is there, finite and in its range. *)
Definition tuned_ok (m : gmap bytes double) : Prop :=
  forall t, t ∈ TUNABLES -> exists v, m !! t_key t = Some v /\ isfinite v = true /\ in_range_of (t_range t) v.

Lemma tunable_key t t' : t ∈ TUNABLES -> t' ∈ TUNABLES -> t_key t = t_key t' -> t = t'.
Proof.
  destruct tunables_ok as [_ Hnd]. intros Ht Ht' E.
  apply list_elem_of_lookup in Ht as [i Hi]. apply list_elem_of_lookup in Ht' as [j Hj].
  assert (i = j) as ->; [|congruence]. eapply NoDup_lookup; [exact Hnd| |]; rewrite list_lookup_fmap.
  - by rewrite Hi.
  - rewrite Hj. cbn. by rewrite E.
Qed.

Lemma set_number_tuned key number s : isfinite number = true -> tuned_ok (tuned s) -> tuned_ok (tuned (set_number key number s)).
Proof.
  intros Hn Hs. unfold set_number. destruct (List.find _ TUNABLES) as [t|] eqn:Ef; [|done].
  apply find_some in Ef as [Ht Hk]. apply list_elem_of_In in Ht. apply bool_decide_eq_true in Hk. cbv zeta.
  set (v := if t_whole t then _ else _). intros t' Ht'.
  assert (tuned (s <| tuned := <[key := v]> (tuned s) |> <| g_hud_tuning_gen := if t_hud t then LocalCapture.u32 (g_hud_tuning_gen s + 1) else g_hud_tuning_gen s |>
    <| g_rec_tuning_dirty := true |>) = <[key := v]> (tuned s)) as -> by (by destruct s).
  destruct (decide (t_key t' = key)) as [E|Hne]; [|rewrite lookup_insert_ne by done; by apply Hs].
  assert (t' = t) as -> by (apply tunable_key; congruence). rewrite E, lookup_insert_eq. exists v. split; [done|].
  destruct tunables_ok as [Hok _]. rewrite list.Forall_forall in Hok. specialize (Hok t Ht). unfold tunable_ok in Hok.
  apply andb_true_iff in Hok as [[[H1 H2]%andb_true_iff H3]%andb_true_iff H4].
  assert (in_range_of (t_range t) (clamp (clamp number WIDEST.1 WIDEST.2) (t_range t).1 (t_range t).2)) as Hc.
  { rewrite (surjective_pairing (t_range t)) at 1. apply clamp_between; [|done].
    apply finite_notnan, (range_finite WIDEST.1 WIDEST.2); [done|done|]. apply clamp_between; [by apply finite_notnan|by vm_compute]. }
  subst v. revert Hc. generalize (clamp (clamp number WIDEST.1 WIDEST.2) (t_range t).1 (t_range t).2). intros u Hu.
  assert (in_range_of (t_range t) (if t_whole t then of_Z (default 0%Z (dtrunc u)) else u)) as Hv.
  { destruct (t_whole t); [|done]. apply bool_decide_eq_true in H4. rewrite H4 in Hu |- *. destruct Hu as [U1 U2].
    destruct (dtrunc_between u 0 100000) as (k & -> & Hk'); [done|done|lia|lia|]. cbn [default].
    split; cbn [fst snd]; [rewrite (is_int_le _ _ 0 k)|rewrite (is_int_le _ _ k 100000)]; try apply Z.leb_le;
      try apply of_Z_int; lia. }
  split; [|exact Hv]. rewrite (surjective_pairing (t_range t)) in Hv. by apply (range_finite (t_range t).1 (t_range t).2).
Qed.

(** * A run of polls *)

(** A poll's file gives a display number that is none. *)
Definition gives_nan (key : string) (config : option bytes) : Prop :=
  exists v, config_number_value config (str key) = Some v /\ isnan v = true.

Section Polls.
(** Whether a file has given the rows, or the size, as no number. *)
Context (odd_rows odd_size : Prop).

(** The display's settings in their ranges. *)
Definition drawn_ok (d : input_display) : Prop :=
  ((1 <= g_disp_rows (drawn d) <= 40)%Z \/ odd_rows) /\
  (in_range_of (of_Z 6, of_Z 96) (g_disp_size d) \/ isnan (g_disp_size d) = true /\ odd_size) /\
  exists us, us <> [] /\ us ∈ orders /\ g_disp_unit (drawn d) = join us.

Definition settings_ok (s : indicator) : Prop := tuned_ok (tuned s) /\ drawn_ok (disp s).

Definition numbers_given (config : option bytes) : Prop :=
  (gives_nan "rows" config -> odd_rows) /\ (gives_nan "size" config -> odd_size).

Lemma rows_between undefined v : isnan v = false -> (1 <= rows_setting undefined v <= 40)%Z.
Proof.
  intros Hv. unfold rows_setting. destruct (clamp_between v (of_Z 1) (of_Z 40) Hv ltac:(by vm_compute)) as [H1 H2].
  destruct (dtrunc_between _ 1 40 H1 H2) as (k & -> & Hk); [lia..|]. exact Hk.
Qed.

Lemma clamp_nan v lo hi : isnan v = true -> clamp v lo hi = v.
Proof. destruct v; try done. intros _. by destruct lo as [|[]|], hi as [|[]|]. Qed.

Lemma asked_ok undefined config d : numbers_given config -> drawn_ok d -> drawn_ok (display_asked undefined config d).
Proof.
  intros [Nr Ns] (H1 & H2 & H3). unfold display_asked, drawn_ok. cbn [drawn g_disp_rows g_disp_unit g_disp_size]. split; [|split].
  - destruct (config_number_value config (str "rows")) as [v|] eqn:E; [|done]. destruct (isnan v) eqn:Hv; [|left; by apply rows_between].
    right. apply Nr. by exists v.
  - destruct (config_number_value config (str "size")) as [v|] eqn:E; [|done].
    destruct (isnan v) eqn:Hv; [right|left; apply clamp_between; [done|by vm_compute]].
    rewrite clamp_nan by done. split; [done|]. apply Ns. by exists v.
  - destruct (config_string_value config (str "unit")) as [unit|]; [|done].
    destruct (unit_setting_spec unit) as [Hin ->]. revert Hin. generalize (foldl add_unit [] (tokens unit [])). intros us Hus.
    destruct us as [|u us]; [|by exists (u :: us)]. exists [str "cs"]. split; [done|]. split; [by_deciding|done].
Qed.

Lemma config_poll_ok undefined config s :
  numbers_given config -> settings_ok s -> settings_ok (poll_recording_indicator_config undefined config s).1.
Proof.
  intros Hn [H1 H2]. unfold poll_recording_indicator_config, poll_display. cbv zeta.
  set (s0 := if xorb _ _ then _ else _). assert (tuned s0 = tuned s /\ disp s0 = disp s) as [E1 E2] by (unfold s0; by destruct (xorb _ _), s).
  assert (drawn_ok (if display_differs (display_asked undefined config (disp s0)) (disp s0)
      then display_asked undefined config (disp s0) <| g_disp_tuning_gen := LocalCapture.u32 (g_disp_tuning_gen (disp s0) + 1) |>
      else disp s0)) as Hd.
  { rewrite E2. pose proof (asked_ok undefined config (disp s) Hn H2) as Ha. by destruct (display_differs _ _). }
  destruct (display_differs _ _); cbn [fst]; split;
    repeat match goal with |- context [match poll_color ?a ?b with _ => _ end] => destruct (poll_color a b) end;
    destruct s0; cbn in *; rewrite ?E1; done.
Qed.

Lemma line_ok s line : settings_ok s -> settings_ok (apply_line s line).
Proof.
  intros [H1 H2]. unfold apply_line. destruct (cut_line line) as [[key value]|]; [|done].
  case_bool_decide; [destruct (_ =? 7); [|done]; by destruct s|]. case_bool_decide; [by destruct s|].
  set (number := match strtod _ with Some (v, _) => v | None => dzero end). destruct (isfinite number) eqn:Hf; [|done].
  split; [by apply set_number_tuned|]. unfold set_number. destruct (List.find _ _); [|done]. by destruct s.
Qed.

Lemma tuning_ok file s : settings_ok s -> settings_ok (read_tuning file s).
Proof.
  intros Hs. unfold read_tuning. destruct file as [text|]; [|done]. case_bool_decide; [done|]. cbv zeta.
  assert (forall lines s, settings_ok s -> settings_ok (foldl apply_line s lines)) as Hl.
  { induction lines as [|l lines IH]; intros s0 H0; [done|]. cbn. by apply IH, line_ok. }
  specialize (Hl (split_lines text []) (s <| tuning_text := text |>) ltac:(by destruct s)). revert Hl.
  generalize (foldl apply_line (s <| tuning_text := text |>) (split_lines text [])). intros s' Hs'.
  destruct (g_rec_tuning_dirty s'); [by destruct s'|done].
Qed.

Lemma indicator0_ok : settings_ok indicator0.
Proof.
  split; [|split; [by left|split; [left; split; by vm_compute|exists [str "cs"]; split; [done|split; [by_deciding|done]]]]].
  assert (Forall (fun t => match tuned0 !! t_key t with
                           | Some v => isfinite v && dle (t_range t).1 v && dle v (t_range t).2 | None => false end = true) TUNABLES) as H by by_deciding.
  rewrite list.Forall_forall in H. intros t Ht. specialize (H t Ht). change (tuned indicator0) with tuned0.
  destruct (tuned0 !! t_key t) as [v|]; [|done]. apply andb_true_iff in H as [[H1 H2]%andb_true_iff H3]. by exists v.
Qed.

(** One poll of the two files, over the settings and the distance tiers' ranges. *)
Definition polled (undefined : Z) (st : indicator * ranges) (files : option bytes * option bytes) : indicator * ranges :=
  let '(s, _, r) := poll_recording_indicator_tuning undefined files.1 files.2 st.1 st.2 in (s, r).

Definition ranges_ok (r : ranges) : Prop :=
  (g_ghost_range_throttle r >=? dzero)%double = true /\ (g_ghost_range_far r >=? dzero)%double = true /\
  (g_ghost_range r >=? dzero)%double = true.

Lemma ranges_polled config r : ranges_ok r -> ranges_ok (poll_ghost_range_config config r).
Proof.
  assert (forall value old, (old >=? dzero)%double = true -> (poll_key value old >=? dzero)%double = true) as Hk.
  { intros [v|] old Ho; [|done]. unfold poll_key. destruct (v >=? dzero)%double eqn:E; [|done]. by destruct (dne _ _). }
  intros (H1 & H2 & H3). split; [|split]; by apply Hk.
Qed.

Lemma polls_ok undefined polls : Forall (fun p => numbers_given p.1) polls ->
  forall st, settings_ok st.1 -> ranges_ok st.2 ->
  settings_ok (foldl (polled undefined) st polls).1 /\ ranges_ok (foldl (polled undefined) st polls).2.
Proof.
  induction 1 as [|p polls Hp Hps IH]; intros [s r] Hs Hr; [done|]. cbn [foldl].
  apply IH; unfold polled, poll_recording_indicator_tuning; cbn [fst snd] in *;
    pose proof (config_poll_ok undefined p.1 s Hp Hs) as Hc; destruct (poll_recording_indicator_config _ _ s) as [s' redraw];
    cbn [fst snd] in *; [by apply tuning_ok|by apply ranges_polled].
Qed.

End Polls.

(** C37: whatever the two files hold, at whatever polls, what is drawn stays drawable, but
    for a display number given as a NaN: each of the tuning file's numbers is set, finite
    and within its own range (a typo moves a mark, it never launches it), the units are a
    selection of cs, ms and frames, never empty and none twice, joined by commas, and no
    distance tier's range is negative or not a number; the rows shown are between 1 and 40
    unless some poll's config.json gave rows as a NaN (whose cast to an integer is
    undefined), and their size is between 6 and 96, or is itself a NaN that some poll's
    config.json gave. *)
Theorem settings_bounded (undefined : Z) (polls : list (option bytes * option bytes)) :
  let '(s, r) := foldl (polled undefined) (indicator0, ranges0) polls in
  (forall t, t ∈ TUNABLES -> exists v, tuned s !! t_key t = Some v /\ isfinite v = true /\
     dle (t_range t).1 v = true /\ dle v (t_range t).2 = true) /\
  ((1 <= g_disp_rows (drawn (disp s)) <= 40)%Z \/ Exists (fun p => gives_nan "rows" p.1) polls) /\
  (dle (of_Z 6) (g_disp_size (disp s)) = true /\ dle (g_disp_size (disp s)) (of_Z 96) = true \/
   isnan (g_disp_size (disp s)) = true /\ Exists (fun p => gives_nan "size" p.1) polls) /\
  (exists us, us <> [] /\ NoDup us /\ us ⊆ UNITS /\ g_disp_unit (drawn (disp s)) = join us) /\
  (g_ghost_range_throttle r >=? dzero)%double = true /\ (g_ghost_range_far r >=? dzero)%double = true /\
  (g_ghost_range r >=? dzero)%double = true.
Proof.
  assert (ranges_ok ranges0) as H0 by (split; [|split]; by vm_compute).
  set (Wr := Exists (fun p => gives_nan "rows" p.1) polls). set (Ws := Exists (fun p => gives_nan "size" p.1) polls).
  assert (Forall (fun p => numbers_given Wr Ws p.1) polls) as Hpolls.
  { apply list.Forall_forall. intros p Hp. split; intros Hg; apply list.Exists_exists; by exists p. }
  destruct (polls_ok Wr Ws undefined polls Hpolls (indicator0, ranges0) (indicator0_ok Wr Ws) H0) as [[H1 (H2 & H3 & us & H5 & H6 & H7)] H8].
  destruct (foldl _ _ _) as [s r]. cbn [fst snd] in *. split; [exact H1|]. split; [done|]. split; [exact H3|]. split; [|exact H8].
  exists us. split; [done|].
  assert (Forall (fun us => NoDup us /\ Forall (fun u => u ∈ UNITS) us) orders) as Ho by by_deciding.
  rewrite list.Forall_forall in Ho. destruct (Ho us H6) as [Hnd Hin]. rewrite list.Forall_forall in Hin. by split.
Qed.

(** Two polls of a config.json and of a tuning file with a typo. *)
Definition sample_config : bytes := js "{'input_display':{'player':true,'rows':400,'size':2,'unit':'Frames/ms, frames'}}".
Definition sample_tuning : bytes := str "hud_size = 1e6 # too large" ++ [cLF] ++ str "name_up=x" ++ [cCR; cLF] ++ str "color=00FF00".

Example sample_polls :
  let (s, _) := foldl (polled 0) (indicator0, ranges0) [(Some sample_config, None); (Some sample_config, Some sample_tuning)] in
  g_disp_rows (drawn (disp s)) = 40%Z /\ g_disp_unit (drawn (disp s)) = str "frames,ms" /\
  tuned s !! str "hud_size" = Some (of_Z 500) /\ tuned s !! str "name_up" = Some dzero.
Proof. by vm_compute. Qed.

(** * What the polls do not settle *)

(** A colour of the tuning file lasts until the next poll where config.json has one. *)
Example tuned_color_reverts :
  let config := Some (js "{'indicator_color':'#EE4B2B'}") in
  let file := Some (str "color=00FF00") in
  let s := (poll_recording_indicator_tuning 0 config file indicator0 ranges0).1.1 in
  g_rec_dot_color s = str "#00FF00" /\ g_rec_dot_color (poll_recording_indicator_tuning 0 config file s ranges0).1.1 = str "#EE4B2B".
Proof. by vm_compute. Qed.

(** A size that is no number is kept, differs from itself, and redraws at every poll. *)
Example nan_size_redraws :
  let config := Some (js "{'size':-nan}") in
  let s := (poll_recording_indicator_tuning 0 config None indicator0 ranges0).1.1 in
  isnan (g_disp_size (disp s)) = true /\ (poll_recording_indicator_tuning 0 config None s ranges0).1.2 = true.
Proof. by vm_compute. Qed.

(** A number taken out of the tuning file, or the file taken away, keeps its last value. *)
Example tuned_number_stays :
  let s := (poll_recording_indicator_tuning 0 None (Some (str "forward=200")) indicator0 ranges0).1.1 in
  tuned (poll_recording_indicator_tuning 0 None None s ranges0).1.1 !! str "forward" = Some (of_Z 200).
Proof. by vm_compute. Qed.

(** A colour written with the mark the code means to accept is taken for a comment: the line is left with no value. *)
Example hash_color_ignored :
  let s := (poll_recording_indicator_tuning 0 None (Some (str "color=#00FF00")) indicator0 ranges0).1.1 in
  g_rec_dot_color s = g_rec_dot_color indicator0 /\ cut_line (str "color=#00FF00") = None.
Proof. by vm_compute. Qed.
