(* ===== verification/GhostDrive.v ===== *)
(** Plugin.cpp, the ghost drive rig: one replay ghost driven through its own input events
    instead of mirrored, for as long as ghost_drive.txt arms it.

    [ghost_drive_select] picks the ghost and prepares its pawn; [ghost_drive_tick] fires
    input events on a timer; in track mode [ghost_drive_edge] replays the recorded buttons
    and [ghost_drive_track_tick] the recorded stick, and corrects the drift.  What the code
    reads of the engine is an argument; what it asks of it is returned, in order.  A signed
    counter is an integer: [drive_fired] is never near its bound.

    First [poll_ghost_drive_toggle]: ghost_drive.txt, the file that arms the rig, one
    [key=value] to a line.  The text of the file is an argument, [None] where there is
    none.  What [std::atoi] returns of a number that is no [int] is [undefined]. *)
From S2P Require Import Prelude Float64 CScan JsonString JsonBounds RemoteGhost Lifecycle BridgeLine VfxMirror.
From S2P Require Import PeerProps PoseMirror InputDisplay Nametag IndicatorConfig.
From Stdlib Require Import NArith ZArith.

(** * The configuration *)

Record GhostDriveCfg := MkDriveCfg {
  armed : bool;
  mode : bytes;
  gap_s : double;
  block : Z;
  tail_until : Z;
  snap : double;
  private_gi : bool;
  power_press : Z; power_release : Z;          (* a node 0..2, -1 for none *)
  mirror_dx : double; mirror_dy : double;
  stand_fn : bytes;
  stand_stop_blend : double;
  move_gate : gset Z; action_gate : gset Z;    (* state bytes *)
  snap_stop : bool; bound_stick : bool;
  text : bytes                                 (* the file as last read *)
}.
#[export] Instance GhostDriveCfg_eta : Eta GhostDriveCfg := fun r =>
  MkDriveCfg (armed r) (mode r) (gap_s r) (block r) (tail_until r) (snap r) (private_gi r) (power_press r)
    (power_release r) (mirror_dx r) (mirror_dy r) (stand_fn r) (stand_stop_blend r) (move_gate r) (action_gate r)
    (snap_stop r) (bound_stick r) (text r).
Definition drive_cfg0 : GhostDriveCfg :=
  MkDriveCfg false (str "attack_loop") (lit 15 10) 5 6 (of_Z 150) true 1 (-1) dzero dzero (str "change Move State:0")
    (lit 2 10) {[3; 4]}%Z {[18]}%Z false true [].

(** The rig: the configuration, the ghost driven (empty until one is seen while armed), and
    the recorded stick.  [g_drive_ghost], its pawn, is among the plugin's fields. *)
Record rig := Rig { g_drive : GhostDriveCfg; g_drive_id : bytes; g_drive_stick : double * double }.
#[export] Instance rig_eta : Eta rig := fun r => Rig (g_drive r) (g_drive_id r) (g_drive_stick r).
Definition rig0 : rig := Rig drive_cfg0 [] (dzero, dzero).

(** * Numbers *)

Definition atof (s : bytes) : double := match strtod s with Some (v, _) => v | None => dzero end.

Section Parser.
Context (undefined : Z).

Definition atoi (s : bytes) : Z :=
  let (neg, s1) := scan_sign (skip_space s) in
  let v := Z.of_N (digits_value 10 (CScan.span is_digit s1).1) in
  let v := (if neg then - v else v)%Z in
  if ((- 2 ^ 31 <=? v) && (v <? 2 ^ 31))%Z then v else undefined.

Definition clamp_int (v lo hi : Z) : Z := if (v <? lo)%Z then lo else if (hi <? v)%Z then hi else v.

(** The state bytes of a comma-separated list; [item] holds the digits since the last
    comma, and any other character is passed over. *)
Definition flush_state (item : bytes) (parsed : gset Z) : gset Z :=
  match item with [] => parsed | _ => {[clamp_int (atoi item) 0 255]} ∪ parsed end.
Fixpoint state_bytes (value item : bytes) (parsed : gset Z) : gset Z :=
  match value with
  | [] => flush_state item parsed
  | c :: value =>
      if Ascii.eqb c "," then state_bytes value [] (flush_state item parsed)
      else state_bytes value (if is_digit c then item ++ [c] else item) parsed
  end.

(** * Lines *)

Definition is_blank (c : ascii) : bool := Ascii.eqb c " " || Ascii.eqb c cTab.
Definition is_blank_end (c : ascii) : bool := Ascii.eqb c " " || Ascii.eqb c cCR || Ascii.eqb c cTab.
Fixpoint drop_front (p : ascii -> bool) (s : bytes) : bytes :=
  match s with c :: s' => if p c then drop_front p s' else s | [] => [] end.
Definition trim (s : bytes) : bytes := drop_front is_blank (rev (drop_front is_blank_end (rev s))).

(** A line without its comment, cut at its first [=]; the value may be empty. *)
Definition cut_line (line : bytes) : option (bytes * bytes) :=
  let line := match find_char line "#" 0 with Some hash => take hash line | None => line end in
  match find_char line "=" 0 with
  | None => None
  | Some eq => Some (trim (take eq line), trim (drop (S eq) line))
  end.

Definition number (value : bytes) (lo hi : double) : double := IndicatorConfig.clamp (atof (c_str value)) lo hi.
Definition whole (value : bytes) (lo hi : Z) : Z := clamp_int (atoi (c_str value)) lo hi.
Definition switch (value : bytes) : bool := negb (atoi (c_str value) =? 0)%Z.

Definition set_key (cfg : GhostDriveCfg) (key value : bytes) : GhostDriveCfg :=
  let named k := bool_decide (key = str k) in
  if named "mode"%string then cfg <| mode := value |>
  else if named "gap"%string then cfg <| gap_s := number value (lit 1 10) (of_Z 30) |>
  else if named "block"%string then cfg <| block := whole value 1 100 |>
  else if named "stand_stop_blend"%string then cfg <| stand_stop_blend := number value (of_Z (-1)) (of_Z 5) |>
  else if named "snap_stop"%string then cfg <| snap_stop := switch value |>
  else if named "bound_stick"%string then cfg <| bound_stick := switch value |>
  else if named "move_gate"%string then cfg <| move_gate := state_bytes value [] ∅ |>
  else if named "action_gate"%string then cfg <| action_gate := state_bytes value [] ∅ |>
  else if named "tail_until"%string then cfg <| tail_until := whole value 0 6 |>
  else if named "snap"%string then cfg <| snap := number value (of_Z 10) (of_Z 10000000) |>
  else if named "private_gi"%string then cfg <| private_gi := switch value |>
  else if named "power_press"%string then cfg <| power_press := whole value (-1) 99 |>
  else if named "power_release"%string then cfg <| power_release := whole value (-1) 99 |>
  else if named "stand_fn"%string then cfg <| stand_fn := value |>
  else if named "mirror_offset"%string then
    cfg <| mirror_dx := number value (of_Z (-1000000)) (of_Z 1000000) |>
        <| mirror_dy := match find_char value "," 0 with
                        | None => dzero
                        | Some comma => number (drop (S comma) value) (of_Z (-1000000)) (of_Z 1000000)
                        end |>
  else cfg.

Definition set_line (cfg : GhostDriveCfg) (line : bytes) : GhostDriveCfg :=
  match cut_line line with Some (key, value) => set_key cfg key value | None => cfg end.

(** The configuration of a text: the defaults, then its lines in order. *)
Definition read_drive (t : bytes) : GhostDriveCfg :=
  foldl set_line (drive_cfg0 <| armed := true |> <| text := t |>) (split_lines t []).

(** No file disarms: what the rig holds is dropped with it. *)
Definition poll_ghost_drive_toggle (file : option bytes) (s : rig) (p : plugin) : rig * plugin :=
  match file with
  | None =>
      if armed (g_drive s) then (s <| g_drive := drive_cfg0 |> <| g_drive_id := [] |>, p <| g_drive_ghost := None |>)
      else (s, p)
  | Some t =>
      if armed (g_drive s) && bool_decide (t = text (g_drive s)) then (s, p) else (s <| g_drive := read_drive t |>, p)
  end.
End Parser.

(** * The engine *)

(** The parameters of a pawn's function, as reflection lays them out. *)
Inductive layout := NoFunction | NoRoom | NoValue | WrongSize | Fits.

Inductive drive_call :=
  | Ask (c : pose_call)
  | EnableCollision (o : Z)
  | CollisionResponse (o channel response : Z)
  | CollisionObjectType (o type : Z)
  | CopyNumber (o : Z) (prop : string) (from : Z)        (* the bytes of a field *)
  | CopyBool (o : Z) (prop : string) (from : Z)
  | InputAction (o : Z) (fn : bytes) (x y : double) (value_type : Z)
  | InputZero (o : Z) (fn : bytes)                       (* the event without a value *)
  | SetControlRotation (o : Z) (pitch yaw : double)
  | AddMovementInput (o : Z) (direction : vec3) (scale : double)
  | WriteVector (o : Z) (prop : string) (v : vec3)
  | CallNamed (o : Z) (fn : bytes)
  | CallByte (o : Z) (fn : bytes) (b : Z)
  | CallFloat (o : Z) (fn : string) (x : double).

(** [call_input_action_event]: whether the function was called, and the call.  The value's
    type is given, or else told by the second axis. *)
Definition call_input_action_event (lay : Z -> bytes -> layout) (o : Z) (fn : bytes) (x y : double) (value_type : option Z)
    : bool * list drive_call :=
  match lay o fn with
  | NoFunction | NoRoom => (false, [])
  | NoValue | WrongSize => (true, [InputZero o fn])
  | Fits => (true, [InputAction o fn x y (match value_type with Some t => t | None => if dne y dzero then 2%Z else 0%Z end)])
  end.

(** * Selection *)

(** A field of the game instance's Blueprint classes, by how it is copied. *)
Inductive field_kind := FBool | FPlain (size : Z) | FOther.

Record prepare_view := PrepareView {
  sees : reflection;
  bool_names : list string;                         (* the ghost's class's BoolProperty names, in order *)
  collision_response_fn : Z -> bool;                (* SetCollisionResponseToChannel is in the class's chain *)
  constructed : option Z;                           (* StaticConstructObject *)
  gi_chain : list (bytes * list (string * field_kind))   (* the instance's class and its supers, outwards *)
}.

Definition is_replay (id : bytes) : bool := starts_with (str "replay:") id.

Definition GI : string := "As MV Game Instance Ref".
Definition ability (name : string) : bool :=
  starts_with (str "obtained") (str name) || starts_with (str "has") (str name) || starts_with (str "can") (str name).
Definition UPGRADES : list string :=
  ["healUpgrades"; "damageUpgrades"; "powerBuildUpgrades"; "powerMeterUpgrades"; "bonusAirKicks"; "healAmountPerDing"]%string.

(** Pawn, Camera. *)
Definition prepare_capsule (v : prepare_view) (a : Z) : list drive_call :=
  match obj (sees v) a "CapsuleComponent" with
  | None => []
  | Some cap =>
      (if collision_response_fn v cap then [CollisionResponse cap 2 0; CollisionResponse cap 4 0] else [])
      ++ CollisionObjectType cap 1 :: map Ask (mg_write_bool (sees v) cap "bGenerateOverlapEvents" false)
  end.

(** The player's abilities and upgrades. *)
Definition copy_abilities (v : prepare_view) (a : Z) (player : option Z) : list drive_call :=
  match player with
  | None => []
  | Some pl =>
      map Ask (concat (map (fun n => mg_write_bool (sees v) a n (mg_read_bool (sees v) pl n false)) (filter (fun n => ability n) (bool_names v))))
      ++ omap (fun n => if has (sees v) pl n && has (sees v) a n then Some (CopyNumber a n pl) else None) UPGRADES
  end.

(** The Blueprint classes only. *)
Definition is_blueprint (name : bytes) : bool := (2 <=? length name)%nat && bool_decide (drop (length name - 2) name = str "_C").
Definition copy_field (priv real : Z) (f : string * field_kind) : list drive_call :=
  match f.2 with
  | FBool => [CopyBool priv f.1 real]
  | FPlain size => if (size >? 0)%Z then [CopyNumber priv f.1 real] else []
  | FOther => []
  end.
Fixpoint copy_chain (priv real : Z) (chain : list (bytes * list (string * field_kind))) : list drive_call :=
  match chain with
  | (name, fields) :: chain =>
      if is_blueprint name then concat (map (copy_field priv real) fields) ++ copy_chain priv real chain else []
  | [] => []
  end.

(** The private game instance: the object held by the ghost, and the calls. *)
Definition private_instance (v : prepare_view) (cfg : GhostDriveCfg) (a : Z) (player : option Z) : option Z * list drive_call :=
  match player with
  | Some pl =>
      if private_gi cfg then
        match obj (sees v) pl GI, has (sees v) a GI, constructed v with
        | Some real, true, Some priv => (Some priv, copy_chain priv real (gi_chain v) ++ [Ask (WriteObject a GI priv)])
        | _, _, _ => (None, [])
        end
      else (None, [])
  | None => (None, [])
  end.

Definition restore_hitable (v : prepare_view) (a : Z) (own : option Z) : list drive_call :=
  match own with
  | Some h => if has (sees v) a "BP_HpHitable" then [Ask (WriteObject a "BP_HpHitable" h)] else []
  | None => []
  end.

(** A driven pawn needs a floor, the facing of its movement, the player's abilities, a game
    instance and a health of its own. *)
Definition prepare (v : prepare_view) (cfg : GhostDriveCfg) (a : Z) (player : option Z) (g : RemoteGhost) : RemoteGhost * list drive_call :=
  let (gi, instance) := private_instance v cfg a player in
  (g <| latches := latches g <| drive_prepared := true |> |>
     <| engine_objects := engine_objects g <| drive_private_gi := gi |> |>,
   EnableCollision a :: prepare_capsule v a
   ++ map Ask (with_obj (sees v) a "CharacterMovement" (fun mv => mg_write_bool (sees v) mv "bOrientRotationToMovement" true))
   ++ copy_abilities v a player ++ instance ++ restore_hitable v a (drive_own_hitable (engine_objects g))).

Definition upd_drive (f : drive_ghost -> drive_ghost) (g : RemoteGhost) : RemoteGhost := g <| drive := f (drive g) |>.

(** The first replay ghost seen while armed, and no other until the rig is disarmed.  [drive]
    is [g_drive_ghost]. *)
Definition ghost_drive_select (v : prepare_view) (id : bytes) (player : option Z) (s : rig) (drive : option Z) (g : RemoteGhost)
    : rig * option Z * RemoteGhost * list drive_call :=
  if negb (armed (g_drive s)) then (s, drive, upd_drive (fun d => d <| driven := false |>) g, [])
  else
    let s := if bool_decide (g_drive_id s = []) && is_replay id then s <| g_drive_id := id |> else s in
    let on := is_replay id && bool_decide (g_drive_id s = id) in
    let g := upd_drive (fun d => d <| driven := on |>) g in
    let drive := if on then ghost (engine_objects g) else drive in
    match ghost (engine_objects g) with
    | Some a =>
        if on && negb (drive_prepared (latches g))
        then let (g, calls) := prepare v (g_drive s) a player g in (s, drive, g, calls)
        else (s, drive, g, [])
    | None => (s, drive, g, [])
    end.

(** * Button edges *)

Record DriveNode := MkNode { n_bit : Z; n_press : bytes; n_release : option bytes }.

Definition node_name (action : string) (node : Z) : bytes :=
  str "InpActEvt_IA_" ++ str action ++ str "_K2Node_EnhancedInputActionEvent_" ++ str (pretty node).
Definition node (bit : Z) (action : string) (press : Z) (release : option Z) : DriveNode :=
  MkNode bit (node_name action press) (node_name action <$> release).

Definition DRIVE_NODES : list DriveNode := [
  node 0 "Jump" 20 (Some 21%Z); node 1 "Attack" 4 None; node 2 "Crouch" 16 (Some 15%Z); node 3 "WallRide" 13 (Some 14%Z);
  node 4 "Throw" 7 None; node 5 "Guard" 9 None; node 6 "Interact" 10 None; node 7 "LockOn" 11 (Some 12%Z)].

Definition POWER_BIT : Z := 8.

(** A press is 1 on the first axis, a release 0. *)
Definition fire (lay : Z -> bytes -> layout) (a : Z) (down : bool) (fn : bytes) : list drive_call :=
  (call_input_action_event lay a fn (if down then of_Z 1 else dzero) dzero (Some 0%Z)).2.

Definition ghost_drive_edge (lay : Z -> bytes -> layout) (cfg : GhostDriveCfg) (a prev_mask mask : Z) : list drive_call :=
  if (prev_mask =? mask)%Z then []
  else
    let changed bit := Z.testbit (Z.lxor prev_mask mask) bit in
    concat (map (fun n =>
      if changed (n_bit n) then
        let down := Z.testbit mask (n_bit n) in
        match (if down then Some (n_press n) else n_release n) with Some fn => fire lay a down fn | None => [] end
      else []) DRIVE_NODES)
    ++ (if changed POWER_BIT then
          let down := Z.testbit mask POWER_BIT in
          let chosen := if down then power_press cfg else power_release cfg in
          if (0 <=? chosen)%Z then fire lay a down (node_name "Power" chosen) else []
        else []).

(** The due edges, each told against the state before it. *)
Fixpoint edge_calls (lay : Z -> bytes -> layout) (cfg : GhostDriveCfg) (a : Z) (target_ts : double) (es : list GhostInputEdge)
    (track : GhostInputTrack) : list drive_call :=
  match es with
  | e :: rest =>
      if (e_at e <=? target_ts)%double
      then ghost_drive_edge lay cfg a (if have_state track then mask track else 0%Z) (e_m e)
           ++ edge_calls lay cfg a target_ts rest (apply_edge e track)
      else []
  | [] => []
  end.

(** * The stick *)

Record track_view := TrackView {
  reads : reflection;
  gate_byte : string -> option Z;       (* the pawn's state bytes, before the stick is passed on *)
  seat_byte : string -> option Z;       (* and after *)
  sets_rotation : Z -> bool;            (* SetControlRotation has its parameter *)
  adds_movement : bool;                 (* AddMovementInput has both of its *)
  fn_size : bytes -> option Z;          (* a function of the pawn, and its parameters' size *)
  stop_size : option Z;                 (* customStopMontage's *)
  actual : vec3;                        (* K2_GetActorLocation, after the calls *)
  event_layout : Z -> bytes -> layout;
  maths : libm
}.

Definition MOVE_EVENT : bytes := node_name "Move" 19.
Definition SEATED : Z := 8.
Definition PI_LITERAL : double := lit 314159265358979323846 100000000000000000000.

Definition dmin (a b : double) : double := if (b <? a)%double then b else a.

(** [stand_fn] as a function's name and the byte it is given; [None] where [std::stoi] throws. *)
Definition stand_target (fn : bytes) : option (bytes * option Z) :=
  match rfind_char fn ":" with
  | None => Some (fn, None)
  | Some colon =>
      let digits := drop (S colon) fn in
      if negb (bool_decide (digits = [])) && forallb is_digit digits then
        let v := Z.of_N (digits_value 10 digits) in
        if (v <? 2 ^ 31)%Z then Some (take colon fn, Some (Z.land v 255)) else None
      else Some (fn, None)
  end.

Definition stop_montage (v : track_view) (cfg : GhostDriveCfg) (a : Z) : list drive_call :=
  if (stand_stop_blend cfg >=? dzero)%double && bool_decide (stop_size v = Some 4%Z)
  then [CallFloat a "customStopMontage" (to_float (stand_stop_blend cfg))] else [].

(** The stick rises while the pawn sits: a function without an argument, or of one byte;
    [None] where [std::stoi] throws. *)
Definition stand_up (v : track_view) (cfg : GhostDriveCfg) (a : Z) : option (list drive_call) :=
  if negb (bool_decide (seat_byte v "moveState" = Some SEATED)) then Some []
  else
    '(fn, byte) ← stand_target (stand_fn cfg);
    Some match fn_size v fn, byte with
         | Some 0%Z, None => [CallNamed a fn]
         | Some 1%Z, Some b => CallByte a fn b :: stop_montage v cfg a
         | _, _ => []
         end.

(** The camera, the frame the stick is read in. *)
Definition aim (v : track_view) (a : Z) (t : GhostInputTrack) : list drive_call :=
  if (6 <=? ax_n t)%Z then
    match obj (reads v) a "Controller" with
    | Some ctl => if sets_rotation v ctl then [SetControlRotation ctl (axis 5 t) (axis 4 t)] else []
    | None => []
    end
  else [].

(** The stick turned by the recorded camera's yaw. *)
Definition world_stick (m : libm) (t : GhostInputTrack) : double * double :=
  let mx := axis 0 t in
  let my := axis 1 t in
  let yaw_rad := ((if (6 <=? ax_n t)%Z then axis 4 t else dzero) * PI_LITERAL / of_Z 180)%double in
  let fx := cos m yaw_rad in
  let fy := sin m yaw_rad in
  ((fx * my + dneg fy * mx)%double, (fy * my + fx * mx)%double).

(** In some states the player's own Blueprint does not pass the stick on. *)
Definition gated (v : track_view) (cfg : GhostDriveCfg) : bool :=
  let held p (states : gset Z) := match gate_byte v p with Some b => bool_decide (b ∈ states) | None => false end in
  held "moveState"%string (move_gate cfg) || held "actionState"%string (action_gate cfg).

Definition push (v : track_view) (cfg : GhostDriveCfg) (a : Z) (w : double * double) (len : double) : list drive_call :=
  if (len >? lit 1 1000000)%double && negb (gated v cfg) && negb (bound_stick cfg) && adds_movement v
  then [AddMovementInput a ((w.1 / len)%double, (w.2 / len)%double, dzero) (to_float (dmin len (of_Z 1)))] else [].

(** The fields the stick's handler writes, where the Blueprint does not read the stick itself. *)
Definition input_fields (v : track_view) (cfg : GhostDriveCfg) (a : Z) (w : vec3) (amount : double) (moving : bool) : list drive_call :=
  if bound_stick cfg then []
  else (if has (reads v) a "inputVectorWorld" then [WriteVector a "inputVectorWorld" w] else [])
       ++ map Ask (write_number (reads v) a "moveInputAmount" amount ++ mg_write_bool (reads v) a "hasMovementInput?" moving).

Definition move_event (v : track_view) (a : Z) (x y : double) : list drive_call :=
  (call_input_action_event (event_layout v) a MOVE_EVENT x y (Some 2%Z)).2.

(** The stick of a track that has a state: the stick answered, whether one is live, the
    calls, and whether the tick is cut short by an exception. *)
Record stick_out := StickOut { so_stick : double * double; so_live : bool; so_calls : list drive_call; so_thrown : bool }.

Definition feed_stick (v : track_view) (cfg : GhostDriveCfg) (a : Z) (t : GhostInputTrack) (held : double * double) (live : bool) : stick_out :=
  let mx := axis 0 t in
  let my := axis 1 t in
  if dne mx dzero || dne my dzero then
    let w := world_stick (maths v) t in
    let len := dsqrt (w.1 * w.1 + w.2 * w.2)%double in
    let calls := push v cfg a w len ++ move_event v a mx my
                 ++ input_fields v cfg a (w.1, w.2, dzero) (dmin len (of_Z 1)) true in
    match (if live || bool_decide (stand_fn cfg = []) then Some [] else stand_up v cfg a) with
    | Some stand => StickOut (mx, my) true (calls ++ stand) false
    | None => StickOut (mx, my) live calls true
    end
  else if live then StickOut (dzero, dzero) false (move_event v a dzero dzero ++ input_fields v cfg a vzero dzero false) false
  else StickOut held live [] false.

(** * The correction *)

Definition drift_of (at_ target : vec3) : double :=
  let '(x, y, z) := at_ in
  let '(tx, ty, tz) := target in
  let dx := (x - tx)%double in
  let dy := (y - ty)%double in
  let dz := (z - tz)%double in
  dsqrt (dx * dx + dy * dy + dz * dz)%double.

(** The recording has speeds and no direction: it is that of the target's own last step. *)
Definition clip_velocity (prev : option (double * double)) (w : wire) : vec3 :=
  let '(x, y, _) := target_pos w in
  let '(tdx, tdy) := match prev with Some (px, py) => ((x - px)%double, (y - py)%double) | None => (dzero, dzero) end in
  let tlen := dsqrt (tdx * tdx + tdy * tdy)%double in
  let unit d := if (tlen >? lit 1 1000)%double then (d / tlen)%double else dzero in
  ((unit tdx * target_h_speed w)%double, (unit tdy * target_h_speed w)%double, target_v_speed w).

Definition correct (v : track_view) (cfg : GhostDriveCfg) (a : Z) (g : RemoteGhost) : RemoteGhost * list drive_call :=
  let w := wire_state g in
  let '(x, y, _) := target_pos w in
  (upd_drive (fun d => d <| drive_prev_target := Some (x, y) |>) g,
   if (drift_of (actual v) (target_pos w) >? snap cfg)%double then
     Ask (Teleport a (target_pos w) (target_rot w))
     :: match obj (reads v) a "CharacterMovement" with
        | Some mv =>
            if snap_stop cfg then (if has_fn (reads v) mv "StopMovementImmediately" then [Ask (Call mv "StopMovementImmediately")] else [])
            else if has (reads v) mv "Velocity" then [WriteVector mv "Velocity" (clip_velocity (drive_prev_target (drive g)) w)] else []
        | None => []
        end
   else []).

(** Track mode, once the due edges are applied; the last component tells an exception. *)
Definition ghost_drive_track_tick (v : track_view) (a : Z) (t : GhostInputTrack) (s : rig) (g : RemoteGhost)
    : rig * RemoteGhost * list drive_call * bool :=
  let cfg := g_drive s in
  if have_state t then
    let o := feed_stick v cfg a t (g_drive_stick s) (drive_move_live (latches g)) in
    let s := s <| g_drive_stick := so_stick o |> in
    let g := g <| latches := latches g <| drive_move_live := so_live o |> |> in
    let calls := aim v a t ++ so_calls o in
    if so_thrown o then (s, g, calls, true)
    else let (g, corrected) := correct v cfg a g in (s, g, calls ++ corrected, false)
  else let (g, corrected) := correct v cfg a g in (s, g, corrected, false).

(** * The timer *)

Definition ATTACK_NODES : list Z := [3; 4; 5]%Z.

(** The attack's node a mode fires. *)
Definition attack_node (m : bytes) (node_i : Z) : option Z :=
  if bool_decide (m = str "attack_loop") then ATTACK_NODES !! Z.to_nat (Z.rem node_i 3)
  else if bool_decide (m = str "attack3") || bool_decide (m = str "attack4") || bool_decide (m = str "attack5")
  then Some (Z.of_N (N_of_ascii (List.last m cNul)) - 48)%Z
  else None.

(** The state after one fire of an attack: a block of them on a node, then the next node. *)
Definition count_attack (blk : Z) (d : drive_ghost) : drive_ghost :=
  let fired := (drive_fired d + 1)%Z in
  if (blk <=? fired)%Z then d <| drive_fired := 0%Z |> <| drive_node_i := Z.rem (drive_node_i d + 1) 3 |>
  else d <| drive_fired := fired |>.

(** [named] tells the functions of the pawn. *)
Definition ghost_drive_tick (lay : Z -> bytes -> layout) (named : bytes -> bool) (cfg : GhostDriveCfg) (now_s : double) (a : Z) (g : RemoteGhost)
    : RemoteGhost * list drive_call :=
  let d := drive g in
  let m := mode cfg in
  let next gap d := d <| drive_next_s := (now_s + gap)%double |> in
  if (now_s <? drive_next_s d)%double || bool_decide (m = str "track") then (g, [])
  else if bool_decide (m = str "jump") then
    let press := (Z.rem (drive_fired d) 2 =? 0)%Z in
    (upd_drive (fun d => next (if press then lit 3 10 else gap_s cfg) (d <| drive_fired := (drive_fired d + 1)%Z |>)) g,
     (call_input_action_event lay a (node_name "Jump" (if press then 20 else 21)) (if press then of_Z 1 else dzero) dzero None).2)
  else if starts_with (str "fn:") m then
    (upd_drive (fun d => next (gap_s cfg) (d <| drive_fired := (drive_fired d + 1)%Z |>)) g,
     if named (drop 3 m) then [CallNamed a (drop 3 m)] else [])
  else
    match attack_node m (drive_node_i d) with
    | None => (upd_drive (fun d => next (of_Z 5) (d <| drive_fired := if (drive_fired d =? 0)%Z then 1%Z else drive_fired d |>)) g, [])
    | Some n =>
        (upd_drive (fun d => next (gap_s cfg) (count_attack (block cfg) d)) g,
         (call_input_action_event lay a (node_name "Attack" n) (of_Z 1) dzero None).2)
    end.

(** * Where a ghost is drawn *)

(** While the rig is armed every other replay ghost is drawn aside. *)
Definition drawn_at (cfg : GhostDriveCfg) (id : bytes) (w : wire) : vec3 :=
  if armed cfg && (dne (mirror_dx cfg) dzero || dne (mirror_dy cfg) dzero) && is_replay id
  then let '(x, y, z) := target_pos w in ((x + mirror_dx cfg)%double, (y + mirror_dy cfg)%double, z)
  else target_pos w.

(** * The bound stick *)

(** An [FInputActionValue]: three axes and the value's type. *)
Record action_value := ActionValue { av_x : double; av_y : double; av_z : double; av_type : Z }.

(** The post-hook on GetBoundActionValue: what the call answers. *)
Definition bound_stick_hook (s : rig) (drive : option Z) (ia_move actor action : option Z) (answer : action_value) : action_value :=
  match drive with
  | Some a =>
      if armed (g_drive s) && bound_stick (g_drive s) && bool_decide (actor = Some a)
         && bool_decide (is_Some ia_move) && bool_decide (action = ia_move)
      then ActionValue (g_drive_stick s).1 (g_drive_stick s).2 dzero 2
      else answer
  | None => answer
  end.
