(* ===== verification/DrivenTurn.v ===== *)
(** Plugin.cpp, the loop over the remotes with the ghost drive rig: the turn of a driven
    ghost, which gets none of the mirrors and no teleport, and the turn of every other
    ghost, which is [RemoteTick]'s but for the place it is drawn at. *)
From S2P Require Import Prelude Float64 JsonString RemoteGhost Lifecycle VfxMirror PeerProps.
From S2P Require Import DistanceTier PoseMirror MontageMirror GhostSweeps Chaser InputDisplay Nametag RemoteTick GhostDrive.
From Stdlib Require Import ZArith.

Inductive turn_call := Ghost (c : ghost_call) | Driven (c : drive_call).

(** What the rig asks of the engine in a turn. *)
Record rig_env := RigEnv {
  prepared_on : prepare_view;
  timer_layout : Z -> bytes -> layout; timer_named : bytes -> bool; timer_now : double;
  edge_layout : Z -> bytes -> layout;
  stick_view : track_view
}.

Section Turn.
Context (env : remote_env) (renv : rig_env) (id : bytes) (a : Z).
Local Abbreviation rd := (RemoteTick.reads env).
Local Abbreviation tick := (PeerProps.tick (props env)).

(** * A mirrored ghost *)

Definition tick_placed_at (place : wire -> vec3) : RemoteGhost -> RemoteGhost * list ghost_call :=
  calling Pose (emit (fun g => [Teleport a (place (wire_state g)) (target_rot (wire_state g))]))
  ;> calling Fx (tick_remote_weapon (props env)) ;> calling Fx (tick_remote_projectile (props env)).

(** [RemoteTick.tick_awake], after its first step and with the place it is drawn at. *)
Definition tick_mirrored (place : wire -> vec3) (p : plugin) (g : RemoteGhost) : plugin * RemoteGhost * list ghost_call :=
  let (g, c1) := tick_head env a g in
  let (p, text) := tick_ghost_inputs (panel env) id (target_ts (wire_state g)) p in
  let (g, c2) := tick_placed_at place g in
  let (s, c3) := tick_sweeps (fun i => rd (6 + i)) (view env) (toggles env) tick a g (statics p) in
  let '(s, g, c4) := hurt_reaction (hurt env) id a (s, g) in
  let (g, c5) := chaser_contact (contact env) (local_player env) (g_chaser_contact_mode p) id a g in
  let (g, c6) := tick_tail env a g in
  (p <| statics := s |>, g,
   c1 ++ (match text with Some t => [PanelText t] | None => [] end) ++ c2 ++ map Pose (c3 ++ c4 ++ c5) ++ c6).

(** * The tail of a driven ghost *)

Local Abbreviation segment := (loop_statics * RemoteGhost -> (loop_statics * RemoteGhost) * list ghost_call).

Definition on_entry (f : RemoteGhost -> RemoteGhost * list ghost_call) : segment :=
  fun '(s, g) => let (g, c) := f g in ((s, g), c).
Definition on_statics (f : RemoteGhost -> loop_statics -> loop_statics * list pose_call) : segment :=
  fun '(s, g) => let (s, c) := f g s in ((s, g), map Pose c).

(** The counters of a driven ghost are consumed, so nothing replays later. *)
Definition consume_montage (g : RemoteGhost) : RemoteGhost :=
  g <| counters_seen := counters_seen g <| last_seen_montage_count := target_montage_count (wire_state g) |>
                          <| last_seen_montage_stop_count := target_montage_stop_count (wire_state g) |> |>.
Definition consume_pulses (g : RemoteGhost) : RemoteGhost :=
  g <| counters_seen := counters_seen g <| last_seen_land_count := target_land_count (wire_state g) |>
                          <| last_seen_jump_count := target_jump_count (wire_state g) |> |>.

Definition driven_events (mode : bytes) : segment :=
  calling Pose (hurt_reaction (hurt env) id a)
  ;> on_entry (calling Pose (chaser_contact (contact env) (local_player env) mode id a) ;> tick_effects env
               ;> calling Pose (bubble_flash a ;> equip_edge (rd 14) (toggles env) a)).

Definition driven_rest (g : RemoteGhost) : RemoteGhost * list ghost_call :=
  calling Pose
    (emit (fun g => write_equipped (rd 18) a (wire_state g)) ;> mirror_outfit (rd 19) (assets env) a tick
     ;> mirror_weapon_mesh (rd 20) (assets env) a tick ;> (fun g => tick_pulses (rd 21) a (consume_pulses g))
     ;> afterimages (rd 22) a ;> wall_run (rd 23) a ;> emit (fun _ => nudge_hidden (rd 25) a tick)) (consume_montage g).

(** The six parts of the tail, each behind its marker. *)
Definition driven_tail (mode : bytes) : list segment := [
  on_entry (calling Fx (tick_remote_weapon (props env)) ;> calling Fx (tick_remote_projectile (props env)));
  on_statics (sweep_owned (fun i => rd (6 + i)) (view env) (toggles env) tick a);
  on_statics (fun _ => sweep_lit (fun i => rd (6 + i)) (view env) (toggles env) tick a);
  driven_events mode;
  on_entry (calling Pose (emit (show_weapon_mesh (rd 15) (toggles env) a) ;> shadow_edge (rd 16) a));
  on_entry driven_rest].

(** Up to the first marker past [tail_until]. *)
Fixpoint run_tail (tail_until marker : Z) (segments : list segment) : segment :=
  fun st =>
    match segments with
    | f :: segments => if (tail_until <? marker)%Z then (st, []) else (f ;> run_tail tail_until (marker + 1) segments) st
    | [] => (st, [])
    end.

(** * A driven ghost *)

(** In track mode, the due edges replayed, then the stick and the correction. *)
Definition replay_inputs (ts : double) (s : rig) (p : plugin) (g : RemoteGhost) : rig * RemoteGhost * list drive_call * bool :=
  match ghost_inputs p !! id with
  | Some track =>
      if bool_decide (mode (g_drive s) = str "track") then
        let edges := edge_calls (edge_layout renv) (g_drive s) a ts (RemoteGhost.edges track) track in
        let '(s, g, calls, thrown) := ghost_drive_track_tick (stick_view renv) a (apply_due ts track) s g in
        (s, g, edges ++ calls, thrown)
      else (s, g, [], false)
  | None => (s, g, [], false)
  end.

(** Its inputs, then the panel. *)
Definition driven_inputs (s : rig) (p : plugin) (g : RemoteGhost) : rig * plugin * RemoteGhost * list turn_call * bool :=
  let ts := target_ts (wire_state g) in
  let '(s, g, calls, thrown) := replay_inputs ts s p g in
  if thrown then
    (s, p <| ghost_inputs := alter (apply_due ts) id (ghost_inputs p) |>, g, map Driven calls, true)
  else
    let (p, text) := tick_ghost_inputs (panel env) id ts p in
    (s, p, g, map Driven calls ++ (match text with Some t => [Ghost (PanelText t)] | None => [] end), false).

(** [prepared] are the calls of the selection. *)
Definition tick_driven (prepared : list drive_call) (s : rig) (p : plugin) (g : RemoteGhost)
    : rig * plugin * RemoteGhost * list turn_call * bool :=
  let (g, fired) := ghost_drive_tick (timer_layout renv) (timer_named renv) (g_drive s) (timer_now renv) a g in
  let head := map (fun c => Ghost (Pose c)) (prehit_player (rd 0) a (local_player env)) ++ map Driven prepared
              ++ map (fun c => Ghost (Pose c)) (drive_blob_shadow (rd 1) a (local_player env)) ++ map Driven fired in
  let '(s, p, g, inputs, thrown) := driven_inputs s p g in
  if thrown then (s, p, g, head ++ inputs, true)
  else
    let '(st, g, rest) := run_tail (tail_until (g_drive s)) 1 (driven_tail (g_chaser_contact_mode p)) (statics p, g) in
    (s, p <| statics := st |>, g, head ++ inputs ++ map Ghost rest, false).
End Turn.

(** * One remote *)

(** [RemoteTick.tick_remote], armed or not; the last component tells an exception. *)
Definition tick_remote_rig (env : remote_env) (renv : rig_env) (id : bytes) (s : rig) (p : plugin)
    : rig * plugin * list tier_call * list turn_call * bool :=
  match remotes p !! id with
  | None => (s, p, [], [], false)
  | Some g =>
      match ghost (engine_objects g) with
      | None => (s, p, [], [], false)
      | Some actor =>
          if negb (alive env) then (s, drop_stale id actor g p, [], [], false)
          else
            let '(g, tiers, dormant) :=
              tick_distance_tier (tier_ranges env) (tier_mesh env) (tier_movement env) (local_loc env) g in
            let (g, tags) := tick_tag env id p g in
            let tags := map Ghost tags in
            if dormant then
              (s, set_remote id g p, tiers, map (fun c => Ghost (Pose c)) (teleport actor (wire_state g)) ++ tags, false)
            else if other_world (current_world (props env)) (owning_world (engine_objects g))
            then (s, drop_stale id actor g p, tiers, tags, false)
            else
              let g := retry_ambient (PeerProps.tick (props env)) (ambient_stripped env) g in
              let '(s, drive, g, prepared) :=
                ghost_drive_select (prepared_on renv) id (local_player env) s (g_drive_ghost p) g in
              let p := p <| g_drive_ghost := drive |> in
              if driven (RemoteGhost.drive g) then
                let '(s, p, g, calls, thrown) := tick_driven env renv id actor prepared s p g in
                (s, set_remote id g p, tiers, tags ++ calls, thrown)
              else
                let '(p, g, calls) := tick_mirrored env id actor (drawn_at (g_drive s) id) p g in
                (s, set_remote id g p, tiers, tags ++ map Ghost calls, false)
      end
  end.

(** The loop: an exception leaves it, and the tick. *)
Fixpoint tick_remotes_rig (envs : list (bytes * (remote_env * rig_env))) (s : rig) (p : plugin) : rig * plugin * bool :=
  match envs with
  | [] => (s, p, false)
  | (id, (env, renv)) :: envs =>
      let '(s, p, _, _, thrown) := tick_remote_rig env renv id s p in
      if thrown then (s, p, true) else tick_remotes_rig envs s p
  end.
