(* ===== verification/DriveProps.v ===== *)
(** The ghost drive rig: what its configuration bounds, when it fires, and that the buttons a
    driven pawn is told are the changes of the recorded mask. *)
From S2P Require Import Prelude Float64 FloatFacts CScan JsonString RemoteGhost Lifecycle BridgeLine VfxMirror PeerProps PoseMirror.
From S2P Require Import DistanceTier InputDisplay Nametag IndicatorConfig IndicatorProps GhostDrive.
From Stdlib Require Import NArith ZArith.

(** * Buttons *)

(** What an action is told by a call: its press, its release. *)
Definition told (n : DriveNode) (c : drive_call) : option bool :=
  match c with
  | InputAction _ fn _ _ _ =>
      if bool_decide (fn = n_press n) then Some true
      else if bool_decide (Some fn = n_release n) then Some false else None
  | _ => None
  end.
Definition tellings (n : DriveNode) (calls : list drive_call) : list bool := omap (told n) calls.

(** The changes of a bit along masks. *)
Fixpoint changes (bit held : Z) (masks : list Z) : list bool :=
  match masks with
  | m :: masks => (if Bool.eqb (Z.testbit held bit) (Z.testbit m bit) then [] else [Z.testbit m bit]) ++ changes bit m masks
  | [] => []
  end.

(** An action without a release is told its presses only. *)
Definition heard (n : DriveNode) (edges : list bool) : list bool :=
  match n_release n with Some _ => edges | None => List.filter (fun down => down) edges end.

(** The ticks of a track: the calls, and the track they leave. *)
Fixpoint replay (lay : Z -> bytes -> layout) (cfg : GhostDriveCfg) (a : Z) (ticks : list double) (track : GhostInputTrack)
    : list drive_call * GhostInputTrack :=
  match ticks with
  | [] => ([], track)
  | ts :: ticks =>
      let (calls, last) := replay lay cfg a ticks (apply_due ts track) in
      (edge_calls lay cfg a ts (edges track) track ++ calls, last)
  end.

(** The mask a pawn has been told. *)
Definition told_mask (track : GhostInputTrack) : Z := if have_state track then mask track else 0.

(** ** The table *)

(** Each action's names are its own, the chosen ones of Power included. *)
Definition names (n : DriveNode) : list bytes := n_press n :: match n_release n with Some r => [r] | None => [] end.
Lemma nodes_apart : NoDup (concat (map names DRIVE_NODES)) /\ NoDup (map n_bit DRIVE_NODES).
Proof. split; apply (bool_decide_eq_true_1 _); by vm_compute. Qed.

Lemma table_told :
  forallb (fun n => forallb (fun k =>
    bool_decide (told n (InputAction 0 (n_press k) dzero dzero 0) = if bool_decide (n_bit n = n_bit k) then Some true else None)
    && match n_release k with
       | Some r => bool_decide (told n (InputAction 0 r dzero dzero 0) = if bool_decide (n_bit n = n_bit k) then Some false else None)
       | None => true
       end) DRIVE_NODES) DRIVE_NODES = true.
Proof. by vm_compute. Qed.

Lemma told_name n o fn x y t : told n (InputAction o fn x y t) = told n (InputAction 0 fn dzero dzero 0).
Proof. done. Qed.

Lemma told_entry n k : n ∈ DRIVE_NODES -> k ∈ DRIVE_NODES ->
  told n (InputAction 0 (n_press k) dzero dzero 0) = (if bool_decide (n_bit n = n_bit k) then Some true else None) /\
  forall r, n_release k = Some r ->
  told n (InputAction 0 r dzero dzero 0) = if bool_decide (n_bit n = n_bit k) then Some false else None.
Proof.
  intros Hn Hk. pose proof table_told as H. rewrite forallb_forall in H. specialize (H n ltac:(by apply list_elem_of_In)).
  rewrite forallb_forall in H. specialize (H k ltac:(by apply list_elem_of_In)). apply andb_true_iff in H as [H1 H2].
  split; [by apply bool_decide_eq_true in H1|]. intros r Er. rewrite Er in H2. by apply bool_decide_eq_true in H2.
Qed.

Lemma not_power n k : n ∈ DRIVE_NODES -> told n (InputAction 0 (node_name "Power" k) dzero dzero 0) = None.
Proof.
  intros Hn.
  assert (forall s, starts_with (str "InpActEvt_IA_Power") s = false -> s <> node_name "Power" k) as Hs by (intros s Hs ->; done).
  assert (Forall (fun n => Forall (fun s => starts_with (str "InpActEvt_IA_Power") s = false) (names n)) DRIVE_NODES) as Ht.
  { apply (bool_decide_eq_true_1 _). by vm_compute. }
  rewrite list.Forall_forall in Ht. specialize (Ht n Hn). unfold names in Ht. apply list.Forall_cons in Ht as [H1 H2]. unfold told.
  rewrite bool_decide_false by (intros E; by apply (Hs (n_press n))).
  destruct (n_release n) as [r|]; [|by rewrite bool_decide_false].
  apply list.Forall_cons in H2 as [H2 _]. rewrite bool_decide_false; [done|]. intros [= E]. by apply (Hs r).
Qed.

(** ** One edge *)

#[export] Instance DriveNode_eq_dec : EqDecision DriveNode.
Proof. solve_decision. Defined.

Section Edges.
Context (lay : Z -> bytes -> layout) (cfg : GhostDriveCfg) (a : Z).
Context (all_fit : forall fn, lay a fn = Fits).

Lemma tellings_app n c1 c2 : tellings n (c1 ++ c2) = tellings n c1 ++ tellings n c2.
Proof. apply omap_app. Qed.

Lemma fire_told n down fn :
  tellings n (fire lay a down fn) = match told n (InputAction 0 fn dzero dzero 0) with Some b => [b] | None => [] end.
Proof. unfold fire, call_input_action_event. by rewrite all_fit. Qed.

Lemma same_bit n k : n ∈ DRIVE_NODES -> k ∈ DRIVE_NODES -> n_bit n = n_bit k -> n = k.
Proof.
  intros Hn Hk E. destruct nodes_apart as [_ H].
  apply list_elem_of_lookup in Hn as [i Hi]. apply list_elem_of_lookup in Hk as [j Hj].
  assert (i = j) as ->; [|congruence]. apply (NoDup_lookup _ i j (n_bit n) H); rewrite list_lookup_fmap.
  - by rewrite Hi.
  - by rewrite Hj, E.
Qed.

(** What one entry of the table is asked to fire. *)
Definition entry_calls (prev m : Z) (k : DriveNode) : list drive_call :=
  if Z.testbit (Z.lxor prev m) (n_bit k) then
    match (if Z.testbit m (n_bit k) then Some (n_press k) else n_release k) with
    | Some fn => fire lay a (Z.testbit m (n_bit k)) fn
    | None => []
    end
  else [].

Definition change (bit prev m : Z) : list bool := if Bool.eqb (Z.testbit prev bit) (Z.testbit m bit) then [] else [Z.testbit m bit].

Lemma entry_told n k prev m : n ∈ DRIVE_NODES -> k ∈ DRIVE_NODES ->
  tellings n (entry_calls prev m k) = if bool_decide (n = k) then heard n (change (n_bit n) prev m) else [].
Proof.
  intros Hn Hk. unfold entry_calls, change. rewrite Z.lxor_spec.
  assert (bool_decide (n = k) = bool_decide (n_bit n = n_bit k)) as ->.
  { apply bool_decide_ext. split; [by intros ->|by apply same_bit]. }
  destruct (told_entry n k Hn Hk) as [Hp Hr].
  case_bool_decide as E.
  - apply same_bit in E; [|done..]. subst k. unfold heard. destruct (n_release n) as [r|] eqn:Er.
    + specialize (Hr r eq_refl).
      destruct (Z.testbit prev (n_bit n)), (Z.testbit m (n_bit n)); cbn [xorb Bool.eqb]; try done; rewrite fire_told, ?Hp, ?Hr; done.
    + destruct (Z.testbit prev (n_bit n)), (Z.testbit m (n_bit n)); cbn [xorb Bool.eqb]; try done. rewrite fire_told, Hp. done.
  - destruct (xorb _ _); [|done]. destruct (Z.testbit m (n_bit k)); [by rewrite fire_told, Hp|].
    destruct (n_release k) as [r|]; [|done]. by rewrite fire_told, (Hr r eq_refl).
Qed.

Lemma table_calls n prev m ks : n ∈ DRIVE_NODES -> ks ⊆ DRIVE_NODES -> NoDup ks ->
  tellings n (concat (map (entry_calls prev m) ks)) = if bool_decide (n ∈ ks) then heard n (change (n_bit n) prev m) else [].
Proof.
  intros Hn Hks Hnd. induction ks as [|k ks IH]; [done|]. cbn [map concat]. rewrite tellings_app.
  apply list.NoDup_cons in Hnd as [Hk Hnd]. rewrite IH; [|set_solver|done]. rewrite entry_told by (set_solver).
  destruct (decide (n = k)) as [->|E].
  - rewrite (bool_decide_true (k = k)), (bool_decide_false (k ∈ ks)), (bool_decide_true (k ∈ k :: ks)) by set_solver. apply app_nil_r.
  - rewrite (bool_decide_false (n = k)) by done. by rewrite (bool_decide_ext (n ∈ k :: ks) (n ∈ ks)) by set_solver.
Qed.

Lemma nodes_nodup : NoDup DRIVE_NODES.
Proof. apply (NoDup_fmap_1 n_bit), nodes_apart. Qed.

Lemma heard_nil n : heard n [] = [].
Proof. unfold heard. by destruct (n_release n). Qed.

Lemma heard_app n b1 b2 : heard n (b1 ++ b2) = heard n b1 ++ heard n b2.
Proof. unfold heard. destruct (n_release n); [done|apply List.filter_app]. Qed.

Lemma edge_told n prev m : n ∈ DRIVE_NODES -> tellings n (ghost_drive_edge lay cfg a prev m) = heard n (change (n_bit n) prev m).
Proof.
  intros Hn. unfold ghost_drive_edge. destruct (prev =? m)%Z eqn:E.
  { apply Z.eqb_eq in E as ->. unfold change. by rewrite Bool.eqb_reflx, heard_nil. }
  rewrite tellings_app. change (concat _) with (concat (map (entry_calls prev m) DRIVE_NODES)).
  rewrite (table_calls n prev m DRIVE_NODES Hn), bool_decide_true by (done || apply nodes_nodup).
  match goal with |- _ ++ tellings n ?p = _ => assert (tellings n p = []) as -> end; [|apply app_nil_r].
  destruct (Z.testbit _ POWER_BIT); [|done]. destruct (0 <=? _)%Z; [|done]. by rewrite fire_told, not_power.
Qed.

(** ** Ticks *)

Lemma last_cons_default {A} (x : A) l d : List.last (x :: l) d = List.last l x.
Proof.
  revert x d. induction l as [|y l IH]; intros x d; [done|].
  change (List.last (x :: y :: l) d) with (List.last (y :: l) d). by rewrite !IH.
Qed.
Lemma last_app_default {A} (l1 l2 : list A) d : List.last (l1 ++ l2) d = List.last l2 (List.last l1 d).
Proof. revert d. induction l1 as [|x l1 IH]; intros d; [done|]. cbn [app]. by rewrite !last_cons_default. Qed.

Lemma changes_app bit held ms ms' : changes bit held (ms ++ ms') = changes bit held ms ++ changes bit (List.last ms held) ms'.
Proof.
  revert held. induction ms as [|m ms IH]; intros held; [done|]. cbn [changes app]. by rewrite IH, app_assoc, last_cons_default.
Qed.
Lemma changes_last bit ms : forall held, List.last (changes bit held ms) (Z.testbit held bit) = Z.testbit (List.last ms held) bit.
Proof.
  induction ms as [|m ms IH]; intros held; [done|]. cbn [changes]. rewrite last_cons_default.
  destruct (Bool.eqb _ _) eqn:E; cbn [app].
  - apply Bool.eqb_prop in E. by rewrite E.
  - by rewrite last_cons_default.
Qed.

Lemma tick_told n ts es : forall track, n ∈ DRIVE_NODES ->
  exists gone, es = gone ++ edges (apply_from ts es track) /\
    tellings n (edge_calls lay cfg a ts es track) = heard n (changes (n_bit n) (told_mask track) (map e_m gone)) /\
    told_mask (apply_from ts es track) = List.last (map e_m gone) (told_mask track).
Proof.
  induction es as [|e es IH]; intros track Hn; cbn [apply_from edge_calls].
  { exists []. by rewrite heard_nil. }
  destruct (e_at e <=? ts)%double; [|exists []; by rewrite heard_nil].
  destruct (IH (apply_edge e track) Hn) as (gone & E1 & E2 & E3). exists (e :: gone). cbn [app map changes].
  rewrite last_cons_default, tellings_app, heard_app, edge_told, E2, E3 by done. split; [by rewrite <- E1|done].
Qed.

(** The recorded buttons reach the pawn as they were: over any ticks of a track, an action is told exactly the changes of
    its bit along the masks of the edges applied (its presses, where it has no release). *)
Theorem buttons_follow_mask n ticks : forall track, n ∈ DRIVE_NODES ->
  let (calls, last) := replay lay cfg a ticks track in
  exists gone, edges track = gone ++ edges last /\
    tellings n calls = heard n (changes (n_bit n) (told_mask track) (map e_m gone)) /\
    told_mask last = List.last (map e_m gone) (told_mask track) /\
    (n_release n <> None -> List.last (tellings n calls) (Z.testbit (told_mask track) (n_bit n)) = Z.testbit (told_mask last) (n_bit n)).
Proof.
  intros track Hn. destruct (replay lay cfg a ticks track) as [calls last] eqn:E.
  assert (exists gone, edges track = gone ++ edges last /\
    tellings n calls = heard n (changes (n_bit n) (told_mask track) (map e_m gone)) /\
    told_mask last = List.last (map e_m gone) (told_mask track)) as (gone & E1 & E2 & E3).
  { revert track calls last E. induction ticks as [|ts ticks IH]; intros track calls last E; cbn [replay] in E.
    { simplify_eq. exists []. by rewrite heard_nil. }
    destruct (replay lay cfg a ticks (apply_due ts track)) as [calls' last'] eqn:E'. simplify_eq.
    destruct (IH _ _ _ E') as (g2 & A1 & A2 & A3). destruct (tick_told n ts (edges track) track Hn) as (g1 & B1 & B2 & B3).
    fold (apply_due ts track) in B1, B3. exists (g1 ++ g2).
    rewrite tellings_app, map_app, changes_app, heard_app, last_app_default, A2, B2, A3, B3. split_and!; [|done..].
    by rewrite <- app_assoc, <- A1. }
  exists gone. split_and!; [done..|]. intros Hr. rewrite E2, E3. unfold heard. destruct (n_release n); [|done]. apply changes_last.
Qed.
End Edges.

(** * The timer *)

Section Timer.
Context (lay : Z -> bytes -> layout) (named : bytes -> bool) (cfg : GhostDriveCfg) (a : Z).

(** The entry after ticks at given times, and what was fired at which. *)
Definition timed (st : RemoteGhost * list (double * drive_call)) (now : double) : RemoteGhost * list (double * drive_call) :=
  let (g, calls) := ghost_drive_tick lay named cfg now a st.1 in (g, st.2 ++ map (pair now) calls).
Definition timeline (nows : list double) (g : RemoteGhost) : RemoteGhost * list (double * drive_call) := foldl timed (g, []) nows.

Lemma timeline_snoc nows now g : timeline (nows ++ [now]) g = timed (timeline nows g) now.
Proof. unfold timeline. by rewrite foldl_app. Qed.

(** The node of the n-th attack from a state: blocks of attacks, a node to each, in turn. *)
Definition scheduled (d : drive_ghost) (n : nat) : Z := (3 + (drive_node_i d + (drive_fired d + Z.of_nat n) / block cfg) mod 3)%Z.
Definition attack (node : Z) : drive_call := InputAction a (node_name "Attack" node) (of_Z 1) dzero 0.

Definition due_at (g : RemoteGhost) (fired : list (double * drive_call)) : double :=
  match list.last fired with Some (t, _) => (t + gap_s cfg)%double | None => drive_next_s (drive g) end.

(** A block begun. *)
Definition in_block (d : drive_ghost) : Prop := (0 <= drive_node_i d < 3)%Z /\ (0 <= drive_fired d < block cfg)%Z.

Definition timer_at (g : RemoteGhost) (st : RemoteGhost * list (double * drive_call)) : Prop :=
  let n := (drive_fired (drive g) + Z.of_nat (length st.2))%Z in
  drive_node_i (drive st.1) = ((drive_node_i (drive g) + n / block cfg) mod 3)%Z /\
  drive_fired (drive st.1) = (n mod block cfg)%Z /\ drive_next_s (drive st.1) = due_at g st.2.

Lemma next_div n b : (0 < b)%Z ->
  ((b <=? n mod b + 1) = true /\ (n + 1) / b = n / b + 1 /\ (n + 1) mod b = 0)%Z \/
  ((b <=? n mod b + 1) = false /\ (n + 1) / b = n / b /\ (n + 1) mod b = n mod b + 1)%Z.
Proof.
  intros Hb. pose proof (Z.mod_pos_bound n b Hb) as H. pose proof (Z.div_mod n b ltac:(lia)) as E.
  destruct (b <=? n mod b + 1)%Z eqn:L; [left|right]; (split; [done|]).
  - assert (n + 1 = b * (n / b + 1) + 0)%Z as E' by nia. split; [symmetry; eapply Z.div_unique|symmetry; eapply Z.mod_unique]; [|exact E'| |exact E']; lia.
  - assert (n + 1 = b * (n / b) + (n mod b + 1))%Z as E' by lia.
    split; [symmetry; eapply Z.div_unique|symmetry; eapply Z.mod_unique]; [|exact E'| |exact E']; lia.
Qed.

Lemma attack_loop_node i : (0 <= i < 3)%Z -> attack_node (str "attack_loop") i = Some (3 + i)%Z.
Proof. intros H. assert (i = 0 \/ i = 1 \/ i = 2)%Z as [-> | [-> | ->]] by lia; done. Qed.

Context (loop_mode : mode cfg = str "attack_loop") (attacks_fit : forall node, lay a (node_name "Attack" node) = Fits).

(** One tick in the loop: nothing before its time, or the attack of the node. *)
Lemma attack_tick now g : in_block (drive g) ->
  ghost_drive_tick lay named cfg now a g =
  if (now <? drive_next_s (drive g))%double then (g, [])
  else (upd_drive (fun d => count_attack (block cfg) d <| drive_next_s := (now + gap_s cfg)%double |>) g, [attack (3 + drive_node_i (drive g))]).
Proof.
  intros [Hi Hf]. unfold ghost_drive_tick. rewrite loop_mode. destruct (now <? _)%double; [done|]. cbn [orb].
  rewrite (attack_loop_node _ Hi). unfold call_input_action_event. by rewrite attacks_fit.
Qed.

Lemma count_attack_step d n : in_block d -> (0 < block cfg)%Z ->
  drive_fired d = (n mod block cfg)%Z ->
  let d' := count_attack (block cfg) d in
  drive_node_i d' = ((drive_node_i d + ((n + 1) / block cfg - n / block cfg)) mod 3)%Z /\ drive_fired d' = ((n + 1) mod block cfg)%Z.
Proof.
  intros [Hi Hf] Hb E. cbv zeta. unfold count_attack. rewrite E.
  destruct (next_div n (block cfg) Hb) as [(L & E1 & E2)|(L & E1 & E2)]; rewrite L, E1, E2; destruct d; cbn in *.
  - split; [|done]. rewrite Z.rem_mod_nonneg by lia. f_equal. lia.
  - split; [|done]. rewrite Z.sub_diag, Z.add_0_r. symmetry. by apply Z.mod_small.
Qed.

Lemma timer_invariant g nows : in_block (drive g) -> timer_at g (timeline nows g) /\ in_block (drive (timeline nows g).1).
Proof.
  intros Hg. assert (0 < block cfg)%Z as Hb by (destruct Hg; lia). revert nows. apply rev_ind.
  { split; [|done]. destruct Hg as [Hi Hf]. unfold timer_at. cbn [timeline foldl fst snd length].
    rewrite Z.add_0_r. split_and!; [|by rewrite Z.mod_small|done]. by rewrite Z.div_small, Z.add_0_r, Z.mod_small by done. }
  intros now nows [IH Hin]. rewrite timeline_snoc. unfold timed. rewrite attack_tick by done.
  destruct (now <? _)%double eqn:L; cbn [fst snd map].
  { rewrite app_nil_r. by destruct (timeline nows g). }
  destruct IH as (I1 & I2 & I3). set (st := timeline nows g) in *.
  destruct (count_attack_step _ _ Hin Hb I2) as [C1 C2].
  assert (timer_at g (upd_drive (fun d => count_attack (block cfg) d <| drive_next_s := (now + gap_s cfg)%double |>) st.1,
     st.2 ++ [(now, attack (3 + drive_node_i (drive st.1)))])) as Ht.
  { unfold timer_at. cbn [fst snd]. rewrite length_app, Nat2Z.inj_add. change (Z.of_nat (length [_])) with 1%Z. rewrite Z.add_assoc.
    revert C1 C2. unfold upd_drive. destruct st.1 as [? ? ? ? ? ? ? ? d]. cbn in *. destruct (count_attack (block cfg) d) as [? ? ? ni fi]. cbn.
    intros -> ->. rewrite I1, Zplus_mod_idemp_l. split_and!; [f_equal; lia|done|]. unfold due_at. by rewrite last_snoc. }
  split; [done|]. destruct Ht as (T1 & T2 & _). cbn [fst snd] in *. split; rewrite ?T1, ?T2; by apply Z.mod_pos_bound.
Qed.

(** The schedule of the attack loop. From the middle of any block, after ticks at any times: a tick before the last
    attack's time plus the gap fires nothing, and any other fires the next of the schedule, which goes round the three nodes
    a block of attacks at a time. *)
Theorem attack_schedule g nows now : in_block (drive g) ->
  let fired := (timeline nows g).2 in
  (timeline (nows ++ [now]) g).2 =
  fired ++ if (now <? due_at g fired)%double then [] else [(now, attack (scheduled (drive g) (length fired)))].
Proof.
  intros Hg. cbv zeta. destruct (timer_invariant g nows Hg) as [(I1 & I2 & I3) Hin]. rewrite timeline_snoc. unfold timed.
  rewrite attack_tick, I3 by done. destruct (now <? _)%double; [done|]. cbn [snd map]. by rewrite I1.
Qed.
End Timer.

(** * The configuration *)

(** [std::clamp] passes a NaN through. *)
Definition clamped (lo hi x : double) : Prop := x = DNaN \/ (lo <=? x)%double = true /\ (x <=? hi)%double = true.

Record drive_cfg_ok (cfg : GhostDriveCfg) : Prop := DriveCfgOk {
  dc_gap : clamped (lit 1 10) (of_Z 30) (gap_s cfg);
  dc_snap : clamped (of_Z 10) (of_Z 10000000) (snap cfg);
  dc_blend : clamped (of_Z (-1)) (of_Z 5) (stand_stop_blend cfg);
  dc_offset : clamped (of_Z (-1000000)) (of_Z 1000000) (mirror_dx cfg) /\ clamped (of_Z (-1000000)) (of_Z 1000000) (mirror_dy cfg);
  dc_block : (1 <= block cfg <= 100)%Z; dc_tail : (0 <= tail_until cfg <= 6)%Z;
  dc_power : (-1 <= power_press cfg <= 99)%Z /\ (-1 <= power_release cfg <= 99)%Z;
  dc_gates : forall b, b ∈ move_gate cfg ∪ action_gate cfg -> (0 <= b <= 255)%Z
}.

Lemma clamp_clamped lo hi x : dle lo hi = true -> clamped lo hi (IndicatorConfig.clamp x lo hi).
Proof.
  intros H. destruct (isnan x) eqn:E; [left|right; by apply clamp_between]. destruct x; try done.
  unfold IndicatorConfig.clamp, dlt. destruct lo, hi; repeat match goal with b : bool |- _ => destruct b end; done.
Qed.

Lemma clamp_int_between v lo hi : (lo <= hi)%Z -> (lo <= clamp_int v lo hi <= hi)%Z.
Proof. intros H. unfold clamp_int. repeat case_match; lia. Qed.

Section Configuration.
Context (undefined : Z).

Lemma state_bytes_range value : forall item parsed,
  (forall b, b ∈ parsed -> (0 <= b <= 255)%Z) -> forall b, b ∈ state_bytes undefined value item parsed -> (0 <= b <= 255)%Z.
Proof.
  assert (forall item parsed, (forall b, b ∈ parsed -> (0 <= b <= 255)%Z) ->
    forall b, b ∈ flush_state undefined item parsed -> (0 <= b <= 255)%Z) as Hf.
  { intros [|c item] parsed Hp b Hb; [by apply Hp|]. unfold flush_state in Hb. apply elem_of_union in Hb as [Hb|Hb]; [|by apply Hp].
    apply elem_of_singleton in Hb as ->. by apply clamp_int_between. }
  induction value as [|c value IH]; intros item parsed Hp b Hb; cbn [state_bytes] in Hb; [by eapply Hf|].
  destruct (Ascii.eqb c ","); [|by eapply IH]. eapply IH; [|done]. by apply Hf.
Qed.

Lemma drive_cfg0_ok : drive_cfg_ok drive_cfg0.
Proof.
  split; try (right; by vm_compute); try done.
  - split; right; by vm_compute.
  - intros b Hb. cbn [move_gate action_gate drive_cfg0] in Hb. rewrite !elem_of_union, !elem_of_singleton in Hb. lia.
Qed.

Lemma set_key_ok cfg key value : drive_cfg_ok cfg -> drive_cfg_ok (set_key undefined cfg key value).
Proof.
  intros [H1 H2 H3 [H4 H5] H6 H7 [H8 H9] H10]. unfold set_key. cbv zeta.
  repeat (case_bool_decide as E; [clear E; destruct cfg; split; cbn in *; try done|clear E]); [..|done].
  all: try (apply clamp_clamped; by vm_compute). all: try (by apply clamp_int_between).
  all: try (split; [|done]; by apply clamp_int_between). all: try (split; [done|]; by apply clamp_int_between).
  - intros b [Hb|Hb]%elem_of_union; [|set_solver]. by eapply state_bytes_range in Hb; [|set_solver].
  - intros b [Hb|Hb]%elem_of_union; [set_solver|]. by eapply state_bytes_range in Hb; [|set_solver].
  - split; [apply clamp_clamped; by vm_compute|]. case_match; [apply clamp_clamped; by vm_compute|right; by vm_compute].
Qed.

Lemma read_drive_ok t : drive_cfg_ok (read_drive undefined t).
Proof.
  unfold read_drive. generalize (split_lines t []). intros lines.
  assert (drive_cfg_ok (drive_cfg0 <| armed := true |> <| text := t |>)) as H by (by destruct drive_cfg0_ok).
  revert H. generalize (drive_cfg0 <| armed := true |> <| text := t |>). induction lines as [|line lines IH]; intros cfg H; [done|].
  cbn [foldl]. apply IH. unfold set_line. destruct (cut_line line) as [[key value]|]; [by apply set_key_ok|done].
Qed.

(** Over any polls. *)
Lemma drive_polls_ok files p : drive_cfg_ok (g_drive (foldl (fun st file => poll_ghost_drive_toggle undefined file st.1 st.2) (rig0, p) files).1).
Proof.
  revert files. apply rev_ind; [apply drive_cfg0_ok|]. intros file files IH. rewrite foldl_app. cbn [foldl].
  destruct (foldl _ _ files) as [s q]. cbn [fst snd] in *. unfold poll_ghost_drive_toggle. destruct file as [t|].
  - destruct (_ && _); [done|]. destruct s. apply read_drive_ok.
  - destruct (armed _); [|done]. destruct s. apply drive_cfg0_ok.
Qed.
End Configuration.

(** A number that is written [nan] is no bound: with such a gap the timer fires every tick, and with such a threshold no
    drift is ever corrected. *)
Lemma nan_unclamped :
  gap_s (read_drive 0 (str "gap=nan")) = DNaN /\ snap (read_drive 0 (str "snap=nan")) = DNaN /\
  (forall now d, (now <? now + DNaN)%double = false /\ (d >? DNaN)%double = false).
Proof. split_and!; [by vm_compute..|]. intros now d. by destruct now as [|[]|[]], d as [|[]|[]]. Qed.

(** A number too long for an [int] after the colon of [stand_fn] throws out of the tick. *)
Lemma stand_number_throws : stand_target (str "change Move State:9999999999") = None.
Proof. by vm_compute. Qed.

(** * Witnesses *)

Definition edge_to (at_ m : Z) : GhostInputEdge := MkEdge 0 0 m [] (of_Z at_).
Definition crouch_track : GhostInputTrack := GhostInputTrack0 <| edges := [edge_to 10 4; edge_to 20 5; edge_to 30 1; edge_to 40 6] |>.
Definition CROUCH : DriveNode := node 2 "Crouch" 16 (Some 15%Z).

(** A crouch held over two edges, released by the third; the fourth is not reached. *)
Example buttons_follow_mask_witness :
  let r := replay (fun _ _ => Fits) drive_cfg0 77 [of_Z 15; of_Z 35] crouch_track in
  tellings CROUCH r.1 = [true; false] /\
  exists gone, edges crouch_track = gone ++ edges r.2 /\ tellings CROUCH r.1 = changes 2 0 (map e_m gone).
Proof.
  split; [by vm_compute|].
  pose proof (buttons_follow_mask (fun _ _ => Fits) drive_cfg0 77 (fun _ => eq_refl) CROUCH [of_Z 15; of_Z 35] crouch_track) as H.
  assert (CROUCH ∈ DRIVE_NODES) as Hn by (right; right; left). specialize (H Hn).
  revert H. destruct (replay _ _ _ _ crouch_track) as [calls last]. intros (gone & H1 & H2 & _). exists gone. split; [exact H1|exact H2].
Defined.

Definition every_second : list double := map of_Z [0; 1; 2; 3; 4; 5; 6; 7; 8; 9; 10; 11]%Z.
Definition two_to_a_block : GhostDriveCfg := drive_cfg0 <| block := 2%Z |>.

(** Every second tick, a gap of a second and a half: every other tick fires, two attacks to a node. *)
Example attack_schedule_witness :
  let tl nows := (timeline (fun _ _ => Fits) (fun _ => true) two_to_a_block 77 nows RemoteGhost0).2 in
  map (fun x => x.2) (tl every_second) = map (attack 77) [3; 3; 4; 4; 5; 5]%Z /\
  tl (every_second ++ [of_Z 12]) = tl every_second ++ [(of_Z 12, attack 77 3)].
Proof.
  split; [by vm_compute|].
  refine (eq_trans (attack_schedule (fun _ _ => Fits) (fun _ => true) two_to_a_block 77 eq_refl (fun _ => eq_refl) RemoteGhost0
    every_second (of_Z 12) _) _); [by split|by vm_compute].
Defined.
