(* ===== verification/Hud.v ===== *)
(** Plugin.cpp, the widgets on the screen: the recording indicator, [tick_hud_indicator],
    and the input panels, [input_display_tick_panel]; their building, placing, adding to
    the viewport and tearing down, over handles that are checked at every use.

    The engine's object array, what the constructions give and what the widgets answer are
    arguments; what is asked of the widgets is returned, in order. *)
From S2P Require Import Prelude Float64 CScan JsonString RemoteGhost Lifecycle VfxMirror PeerProps PoseMirror InputDisplay IndicatorConfig.
From Stdlib Require Import NArith ZArith.

(** * The handles *)

(** The engine's object array: the object in a slot, whether the slot is reachable and
    valid; the slot and the name of an object. *)
Record object_array := ObjectArray {
  in_slot : Z -> option Z; slot_usable : Z -> bool; index_of : Z -> Z; name_of : Z -> Z
}.

Record owned := Owned { o_ptr : option Z; o_index : Z; o_name : Z }.
#[export] Instance owned_eta : Eta owned := fun r => Owned (o_ptr r) (o_index r) (o_name r).
Definition owned0 : owned := Owned None (-1) 0.

Definition handle_set (w : object_array) (object : Z) : owned := Owned (Some object) (index_of w object) (name_of w object).
Definition handle_clear (h : owned) : owned := h <| o_ptr := None |> <| o_index := (-1)%Z |>.

Definition handle_get (w : object_array) (h : owned) : option Z :=
  match o_ptr h with
  | None => None
  | Some ptr =>
      if (o_index h <? 0)%Z then None
      else match in_slot w (o_index h) with
           | Some q => if bool_decide (q = ptr) && slot_usable w (o_index h) && (name_of w ptr =? o_name h)%Z then Some ptr else None
           | None => None
           end
  end.

(** * The widgets *)

Inductive hud_call :=
  | BrushColor (border : Z) (rgb : vec3) (alpha : double)
  | Padding (border : Z) (all : double)
  | Content (border text : Z)
  | FontSize (text : Z) (size : double)
  | Ink (text : Z) (rgb : vec3)
  | HudText (text : Z) (value : wide)
  | PlaceAt (widget : Z) (x y : double)
  | DesiredSize (widget : Z) (w h : double)
  | AddToViewport (widget z : Z)
  | RemoveFromParent (widget : Z).

(** A widget made whole: itself, its border. *)
Record made := Made { m_widget : Z; m_border : Z }.

Record widget_env := WidgetEnv {
  objects_before : object_array;           (* at the top of the tick *)
  objects_after : object_array;            (* once widgets are built *)
  game_instance : bool;                    (* hud_game_instance resolves *)
  viewport_size : option (double * double);
  desired_size : option (double * double); (* of the widget measured *)
  is_in_viewport : bool
}.

Definition hud_remove (w : object_array) (h : owned) : owned * list hud_call :=
  (handle_clear h, match handle_get w h with Some widget => [RemoveFromParent widget] | None => [] end).

(** * The colours *)

(** [sscanf(s, "%2x")] on a string of at most two bytes. *)
Definition scan_hex2 (s : bytes) : option Z :=
  let (neg, s) := scan_sign (skip_space (c_str s)) in
  match s with
  | [] => None
  | [d] => match hex_val d with Some v => Some (if neg then (2 ^ 32 - Z.of_N v) mod 2 ^ 32 else Z.of_N v)%Z | None => None end
  | d :: e :: _ =>
      match hex_val d, hex_val e with
      | Some a, Some b => Some (Z.of_N (a * 16 + b))
      | Some a, None => if Ascii.eqb d "0" && Ascii.eqb (CScan.lower e) "x" then None else Some (Z.of_N a)
      | None, _ => None
      end
  end.

Section Screen.
Context (pow : double -> double -> double).

Definition hud_linear (byte : Z) : double :=
  let x := (of_Z byte / of_Z 255)%double in
  to_float (if (x <=? lit 4045 100000)%double then (x / lit 1292 100)%double
            else pow ((x + lit 55 1000) / lit 1055 1000)%double (lit 24 10)).

(** White for what cannot be read; the channels read before a bad one stay. *)
Definition hud_color (hex : bytes) : vec3 :=
  let h := match hex with c :: rest => if Ascii.eqb c "#" then rest else hex | [] => [] end in
  let one := of_Z 1 in
  if negb (length h =? 6)%nat then (one, one, one)
  else
    match scan_hex2 (take 2 h) with
    | None => (one, one, one)
    | Some r =>
        match scan_hex2 (take 2 (drop 2 h)) with
        | None => (hud_linear r, one, one)
        | Some g => (hud_linear r, hud_linear g, match scan_hex2 (drop 4 h) with Some b => hud_linear b | None => one end)
        end
    end.

(** * The recording indicator *)

Record hud := Hud {
  g_hud_dot : owned; g_hud_clock : owned; g_hud_text_block : owned;
  g_hud_in_viewport : bool; g_hud_vw : double; g_hud_vh : double;
  g_hud_built_gen : Z; g_hud_last_second : Z; g_hud_placed_glyphs : nat;
  g_hud_meas_w : double; g_hud_meas_h : double; g_recording_time_text : wide
}.
#[export] Instance hud_eta : Eta hud := fun r =>
  Hud (g_hud_dot r) (g_hud_clock r) (g_hud_text_block r) (g_hud_in_viewport r) (g_hud_vw r) (g_hud_vh r) (g_hud_built_gen r)
    (g_hud_last_second r) (g_hud_placed_glyphs r) (g_hud_meas_w r) (g_hud_meas_h r) (g_recording_time_text r).
Definition hud0 : hud := Hud owned0 owned0 owned0 false dzero dzero 0 (-1) 0 dzero dzero [].

Definition hud_tear_down (w : object_array) (s : hud) : hud * list hud_call :=
  let (dot, c1) := hud_remove w (g_hud_dot s) in
  let (clock, c2) := hud_remove w (g_hud_clock s) in
  (s <| g_hud_dot := dot |> <| g_hud_clock := clock |> <| g_hud_text_block := handle_clear (g_hud_text_block s) |>
     <| g_hud_in_viewport := false |> <| g_hud_last_second := (-1)%Z |>, c1 ++ c2).

(** [parts] is what the constructions give: the square, the clock's box, its text. *)
Definition hud_build (env : widget_env) (cfg : indicator) (parts : option made * option made * option Z) (s : hud)
    : option (hud * list hud_call) :=
  if negb (game_instance env) then None
  else
    match parts with
    | (Some dot, Some clock, Some text) =>
        let pad := tuned_number cfg "hud_pad" in
        Some
          (s <| g_hud_dot := handle_set (objects_after env) (m_widget dot) |>
             <| g_hud_clock := handle_set (objects_after env) (m_widget clock) |>
             <| g_hud_text_block := handle_set (objects_after env) text |>
             <| g_hud_built_gen := g_hud_tuning_gen cfg |> <| g_hud_in_viewport := false |>
             <| g_hud_vw := dzero |> <| g_hud_vh := dzero |> <| g_hud_meas_w := dzero |> <| g_hud_meas_h := dzero |>,
           [FontSize text (tuned_number cfg "hud_text");
            BrushColor (m_border dot) (hud_color (g_rec_dot_color cfg)) (of_Z 1);
            BrushColor (m_border clock) (hud_color (g_rec_timer_color cfg)) (of_Z 1);
            Padding (m_border clock) pad; Content (m_border clock) text; Ink text (dzero, dzero, dzero);
            HudText text (match g_recording_time_text s with [] => wide_str "0:00" | t => t end)])
    | _ => None
    end.

Definition glyphs_of (text : wide) : nat := Nat.max 4 (length text).

Definition hud_place (w : object_array) (cfg : indicator) (vw vh : double) (s : hud) : hud * list hud_call :=
  match handle_get w (g_hud_dot s), handle_get w (g_hud_clock s) with
  | Some dot, Some clock =>
      let num := tuned_number cfg in
      let glyphs := glyphs_of (g_recording_time_text s) in
      let measured := (dzero <? g_hud_meas_w s)%double && (dzero <? g_hud_meas_h s)%double in
      let clock_w := if measured then g_hud_meas_w s
                     else (num "hud_text" * lit 6 10 * of_Z (Z.of_nat glyphs) + num "hud_pad" * of_Z 2)%double in
      let square := if (dzero <? g_hud_meas_h s)%double then g_hud_meas_h s else num "hud_size" in
      let clock_x := (vw - num "hud_x" - clock_w)%double in
      let dot_x := (clock_x - num "hud_gap" - square)%double in
      (s <| g_hud_vw := vw |> <| g_hud_vh := vh |> <| g_hud_placed_glyphs := glyphs |>,
       [PlaceAt clock clock_x (num "hud_y"); PlaceAt dot dot_x (num "hud_y"); DesiredSize dot square square])
  | _, _ => (s, [])
  end.

(** ["%lld:%02lld"] *)
Definition clock_text (elapsed : Z) : wide :=
  wide_number (elapsed / 60) ++ wide_str ":" ++ (if (elapsed mod 60 <? 10)%Z then wide_str "0" else []) ++ wide_number (elapsed mod 60).

(** Whole seconds since the start, by the system's clock. *)
Definition elapsed_seconds (started now : Z) : Z :=
  if (started >? 0)%Z && (now >? started)%Z then ((now - started) / 1000)%Z else 0%Z.

(** The layout, looked at on every sixtieth tick and until the widgets are added. *)
Definition hud_layout (env : widget_env) (cfg : indicator) (w : object_array) (registry_tick : Z) (dot clock : Z) (s : hud)
    : hud * list hud_call :=
  if g_hud_in_viewport s && negb (registry_tick mod 60 =? 0)%Z then (s, [])
  else
    let '(vw, vh) := default (dzero, dzero) (viewport_size env) in
    let moved := bool_decide (is_Some (viewport_size env)) && (dne vw (g_hud_vw s) || dne vh (g_hud_vh s)) in
    let '(s, resized) :=
      match desired_size env with
      | Some (mw, mh) =>
          if g_hud_in_viewport s && (dne mw (g_hud_meas_w s) || dne mh (g_hud_meas_h s))
          then (s <| g_hud_meas_w := mw |> <| g_hud_meas_h := mh |>, true) else (s, false)
      | None => (s, false)
      end in
    let (s, c1) := if (moved || resized) && (dzero <? vw)%double then hud_place w cfg vw vh s else (s, []) in
    if negb (is_in_viewport env) && (dzero <? g_hud_vw s)%double
    then (s <| g_hud_in_viewport := true |> <| g_hud_last_second := (-1)%Z |>,
          c1 ++ [AddToViewport dot (default 0%Z (dtrunc (tuned_number cfg "hud_z"))); AddToViewport clock (default 0%Z (dtrunc (tuned_number cfg "hud_z")))])
    else (s, c1).

(** The clock, once a second. *)
Definition hud_clock (cfg : indicator) (w : object_array) (elapsed text : Z) (s : hud) : hud * list hud_call :=
  if (elapsed =? g_hud_last_second s)%Z then (s, [])
  else
    let s := s <| g_hud_last_second := elapsed |> <| g_recording_time_text := clock_text elapsed |> in
    let (s, c) := if negb (glyphs_of (g_recording_time_text s) =? g_hud_placed_glyphs s)%nat && (dzero <? g_hud_vw s)%double
                  then hud_place w cfg (g_hud_vw s) (g_hud_vh s) s else (s, []) in
    (s, HudText text (clock_text elapsed) :: c).

Definition resolved (w : object_array) (s : hud) : option (Z * Z * Z) :=
  match handle_get w (g_hud_dot s), handle_get w (g_hud_clock s), handle_get w (g_hud_text_block s) with
  | Some dot, Some clock, Some text => Some (dot, clock, text)
  | _, _, _ => None
  end.

Definition any_widget (w : object_array) (s : hud) : bool :=
  bool_decide (is_Some (handle_get w (g_hud_dot s))) || bool_decide (is_Some (handle_get w (g_hud_clock s))).

(** The widgets, rebuilt after a change of the settings or a loss; [None] where they cannot
    be. *)
Definition hud_widgets (env : widget_env) (cfg : indicator) (parts : option made * option made * option Z) (s : hud)
    : hud * list hud_call * option object_array :=
  let w := objects_before env in
  let (s, c1) := if negb (g_hud_built_gen s =? g_hud_tuning_gen cfg)%Z && any_widget w s then hud_tear_down w s else (s, []) in
  match resolved w s with
  | Some _ => (s, c1, Some w)
  | None =>
      match hud_build env cfg parts s with
      | Some (s, c2) => (s, c1 ++ c2, Some (objects_after env))
      | None => (s, c1, None)
      end
  end.

Definition tick_hud_indicator (env : widget_env) (cfg : indicator) (recording : bool) (started now registry_tick : Z)
    (controller : option Z) (parts : option made * option made * option Z) (s : hud) : hud * list hud_call :=
  if negb recording || negb (g_rec_indicator_enabled cfg) then
    if any_widget (objects_before env) s then hud_tear_down (objects_before env) s else (s, [])
  else
    match controller with
    | None => (s, [])
    | Some _ =>
        let '(s, c1, w) := hud_widgets env cfg parts s in
        match w with
        | None => (s, c1)
        | Some w =>
            match resolved w s with
            | None => (s, c1)
            | Some (dot, clock, text) =>
                let (s, c2) := hud_layout env cfg w registry_tick dot clock s in
                let (s, c3) := hud_clock cfg w (elapsed_seconds started now) text s in
                (s, c1 ++ c2 ++ c3)
            end
        end
    end.
End Screen.

(** * The input panels *)

Definition g_disp_margin_x : double := of_Z 200.
Definition g_disp_margin_y : double := of_Z 300.
Definition g_disp_pad : double := of_Z 6.

(** A panel's widgets, beside its rows and its text. *)
Record panel_widgets := PanelWidgets {
  panel_handle : owned; panel_text_block : owned; built_gen : Z; meas_w : double; on_left : bool; drawn_panel : InputPanel
}.
#[export] Instance panel_widgets_eta : Eta panel_widgets := fun r =>
  PanelWidgets (panel_handle r) (panel_text_block r) (built_gen r) (meas_w r) (on_left r) (drawn_panel r).

Definition input_display_tear_down (w : object_array) (s : panel_widgets) : panel_widgets * list hud_call :=
  let (h, calls) := hud_remove w (panel_handle s) in
  (s <| panel_handle := h |> <| panel_text_block := handle_clear (panel_text_block s) |> <| meas_w := dzero |>
     <| drawn_panel := drawn_panel s <| in_viewport := false |> <| last_text := [] |> |>, calls).

(** [parts] is the panel and its text, where every construction worked. *)
Definition input_display_build (env : widget_env) (cfg : input_display) (parts : option (made * Z)) (s : panel_widgets)
    : option (panel_widgets * list hud_call) :=
  if negb (game_instance env) then None
  else
    match parts with
    | Some (p, text) =>
        Some
          (s <| panel_handle := handle_set (objects_after env) (m_widget p) |> <| panel_text_block := handle_set (objects_after env) text |>
             <| built_gen := g_disp_tuning_gen cfg |> <| meas_w := dzero |>
             <| drawn_panel := drawn_panel s <| in_viewport := false |> <| vw := dzero |> <| last_text := [] |> |>,
           [FontSize text (g_disp_size cfg);
            BrushColor (m_border p) (dzero, dzero, dzero) (if g_disp_background cfg then to_float (lit 55 100) else dzero);
            Padding (m_border p) g_disp_pad; Content (m_border p) text; Ink text (of_Z 1, of_Z 1, of_Z 1); HudText text []])
    | None => None
    end.

Definition input_display_place (w : object_array) (width : double) (s : panel_widgets) : panel_widgets * list hud_call :=
  match handle_get w (panel_handle s) with
  | None => (s, [])
  | Some p =>
      let own := if (dzero <? meas_w s)%double then meas_w s else of_Z 260 in
      let x := if on_left s then g_disp_margin_x else (width - g_disp_margin_x - own)%double in
      (s <| drawn_panel := drawn_panel s <| vw := width |> |>, [PlaceAt p x g_disp_margin_y])
  end.

Definition panel_layout (env : widget_env) (z : Z) (w : object_array) (registry_tick : Z) (p : Z) (s : panel_widgets)
    : panel_widgets * list hud_call :=
  if in_viewport (drawn_panel s) && negb (registry_tick mod 60 =? 0)%Z then (s, [])
  else
    let width := default dzero (fst <$> viewport_size env) in
    let moved := bool_decide (is_Some (viewport_size env)) && dne width (vw (drawn_panel s)) in
    let '(s, resized) :=
      match desired_size env with
      | Some (mw, _) =>
          if in_viewport (drawn_panel s) && negb (on_left s) && dne mw (meas_w s) then (s <| meas_w := mw |>, true) else (s, false)
      | None => (s, false)
      end in
    let (s, c1) := if (moved || resized) && (dzero <? width)%double then input_display_place w width s else (s, []) in
    if negb (is_in_viewport env) && (dzero <? vw (drawn_panel s))%double
    then (s <| drawn_panel := drawn_panel s <| in_viewport := true |> |>, c1 ++ [AddToViewport p z])
    else (s, c1).

Definition panel_here (w : object_array) (s : panel_widgets) : bool := bool_decide (is_Some (handle_get w (panel_handle s))).

Definition input_display_tick_panel (env : widget_env) (cfg : input_display) (z registry_tick : Z) (wanted left : bool)
    (controller : option Z) (parts : option (made * Z)) (s : panel_widgets) : panel_widgets * list hud_call :=
  let w := objects_before env in
  if negb wanted then
    if panel_here w s
    then let (s, calls) := input_display_tear_down w s in (s <| drawn_panel := drawn_panel s <| rows := [] |> |>, calls)
    else (s, [])
  else
    match controller with
    | None => (s, [])
    | Some _ =>
        let s := if xorb left (on_left s) then s <| on_left := left |> <| drawn_panel := drawn_panel s <| vw := dzero |> |> else s in
        let (s, c1) := if negb (built_gen s =? g_disp_tuning_gen cfg)%Z && panel_here w s then input_display_tear_down w s else (s, []) in
        let '(s, c2, w) :=
          match handle_get w (panel_handle s), handle_get w (panel_text_block s) with
          | Some _, Some _ => (s, [], Some w)
          | _, _ => match input_display_build env cfg parts s with
                    | Some (s, calls) => (s, calls, Some (objects_after env))
                    | None => (s, [], None)
                    end
          end in
        match w with
        | None => (s, c1 ++ c2)
        | Some w =>
            match handle_get w (panel_handle s) with
            | None => (s, c1 ++ c2)
            | Some p => let (s, c3) := panel_layout env z w registry_tick p s in (s, c1 ++ c2 ++ c3)
            end
        end
    end.

(** Both panels: the ghost's on its own side while the player's is up, else on the player's. *)
Definition panel_wanted (cfg : input_display) (ghost_has_track : bool) : (bool * bool) * (bool * bool) :=
  let player := g_disp_player cfg in
  ((player, g_disp_player_left cfg),
   (g_disp_ghost (drawn cfg) && ghost_has_track, if player then g_disp_ghost_left cfg else g_disp_player_left cfg)).

(** At a level's end the viewport drops its widgets; the add is forgotten. *)
Definition forget_hud (s : hud) : hud := s <| g_hud_in_viewport := false |> <| g_hud_vw := dzero |> <| g_hud_vh := dzero |>.
