(* ===== verification/HudCalls.v ===== *)
(** Plugin.cpp, the helpers the widgets are driven by: a block filled by the parameters'
    names, a struct's members written by the kind reflection gives each, the sizes read
    back; and each ask of Hud.v as the call it makes.

    Then the asks of a ghost's turn and of the widgets as the calls the helpers make of
    them ([perform_turn], [perform_widgets]): a list of blocks handed to [ProcessEvent].  A
    field written through a pointer is no call. *)
From S2P Require Import Prelude Float64 JsonString FloatFacts Frames Reflect EngineCalls StructCalls.
From S2P Require Import RemoteGhost VfxMirror PeerProps DistanceTier PoseMirror InputDisplay Nametag TextCalls RemoteTick.
From S2P Require Import Hud.
From Stdlib Require Import ZArith.

Section Calls.
Context (e : engine).

(** What a filler answers: [None] undefined behaviour, [Some None] false, else the block. *)
Abbreviation filled := (option (option frame)).
Definition and_fill (m : filled) (k : frame -> filled) : filled :=
  match m with Some (Some b) => k b | other => other end.

(** * A member of a struct *)

(** An integer conversion is undefined where the number does not fit. *)
Definition to_int (lo hi : Z) (v : double) : option Z :=
  match dtrunc v with Some z => if ((lo <=? z) && (z <=? hi))%Z then Some z else None | None => None end.

Definition write_member (p : fproperty) (base : Z) (v : double) (b : frame) : filled :=
  let at_ := (base + poffset p)%Z in
  if of_class "FloatProperty" p then Some <$> store at_ (F32 (to_float v)) b
  else if of_class "DoubleProperty" p then Some <$> store at_ (F64 v) b
  else if of_class "IntProperty" p then z ← to_int (- 2 ^ 31) (2 ^ 31 - 1) v; Some <$> store at_ (I32 z) b
  else if of_class "ByteProperty" p || of_class "EnumProperty" p then z ← to_int 0 255 v; Some <$> store at_ (U8 z) b
  else if of_class "BoolProperty" p then Some <$> set_bool e p base (dne v dzero) b
  else Some None.

(** The first member of that name. *)
Definition hud_write_field (layout : option (list fproperty)) (base : Z) (name : string) (v : double) (b : frame) : filled :=
  match layout ≫= List.find (named name) with
  | Some p => write_member p base v b
  | None => Some None
  end.

Definition hud_nested (layout : option (list fproperty)) (base : Z) (name : string) : option (list fproperty * Z) :=
  match layout ≫= List.find (fun p => named name p && of_class "StructProperty" p) with
  | Some p => match pstruct p with Some sub => Some (sub, base + poffset p)%Z | None => None end
  | None => None
  end.

Fixpoint write_members (layout : option (list fproperty)) (base : Z) (vs : list (string * double)) (b : frame) : filled :=
  match vs with
  | [] => Some (Some b)
  | (n, v) :: vs => and_fill (hud_write_field layout base n v b) (write_members layout base vs)
  end.

(** * Fillers *)

Definition hud_param (f : ufunction) (name : string) : option fproperty := find_property e (params f) name.

Definition hud_fill_struct (param : string) (vs : list (string * double)) (f : ufunction) (b : frame) : filled :=
  match hud_param f param with
  | Some p => if of_class "StructProperty" p then write_members (pstruct p) (poffset p) vs b else Some None
  | None => Some None
  end.

Definition hud_fill_color (param : string) (rgb : vec3) (alpha : double) (f : ufunction) (b : frame) : filled :=
  let '(r, g, bl) := rgb in hud_fill_struct param [("R", r); ("G", g); ("B", bl); ("A", alpha)]%string f b.

Definition hud_fill_bool (param : string) (value : bool) (f : ufunction) (b : frame) : filled :=
  match hud_param f param with
  | Some p => Some <$> (if of_class "BoolProperty" p then set_bool e p 0 value b else store (poffset p) (bool_cell value) b)
  | None => Some None
  end.

Definition hud_fill_int (param : string) (value : Z) (f : ufunction) (b : frame) : filled :=
  match hud_param f param with Some p => Some <$> store (poffset p) (I32 value) b | None => Some None end.

Definition hud_fill_object (param : string) (value : Z) (f : ufunction) (b : frame) : filled :=
  match hud_param f param with Some p => Some <$> store (poffset p) (Ptr value) b | None => Some None end.

(** The colour of a text is a member of the parameter's struct. *)
Definition fill_ink (rgb : vec3) (f : ufunction) (b : frame) : filled :=
  match hud_param f "InColorAndOpacity" with
  | Some p =>
      if of_class "StructProperty" p then
        match hud_nested (pstruct p) (poffset p) "SpecifiedColor" with
        | Some (sub, base) =>
            let '(r, g, bl) := rgb in
            write_members (Some sub) base [("R", r); ("G", g); ("B", bl); ("A", of_Z 1)]%string b
        | None => Some None
        end
      else Some None
  | None => Some None
  end.

(** The parameter by its name, else the first struct; refused when it is smaller than a
    text. *)
Definition fill_text (value : wide) (f : ufunction) (b : frame) : filled :=
  match (match hud_param f "InText" with Some p => Some p | None => List.find (of_class "StructProperty") (params f) end) with
  | Some p =>
      if (psize p <? Z.of_nat (length (ftext e value)))%Z then Some None
      else Some <$> store (poffset p) (Raw (ftext e value)) b
  | None => Some None
  end.

(** * The call *)

(** The block after the call, or [None] in the answer where the call was skipped.  An empty
    block is passed as a null pointer. *)
Definition hud_call_on (obj : option Z) (fname : string) (fill : ufunction -> frame -> filled) : M (option frame) :=
  on_function e obj fname None (fun o f =>
    let b := zeroed (parms_size f) in
    b <- attempt (fill f b) ;;
    match b with
    | None => ret None
    | Some [] => process_bare o f ;; ret (Some [])
    | Some b => b <- process_frame e o f b ;; ret (Some b)
    end).

Definition no_filler (_ : ufunction) (b : frame) : filled := Some (Some b).

(** * Sizes *)

(** Two positive finite numbers the function returned, [X] and [Y] of its struct. *)
Fixpoint read_xy (fields : list fproperty) (base : Z) (b : frame) (x y : option double) : option (option double * option double) :=
  match fields with
  | [] => Some (x, y)
  | p :: fields =>
      if of_class "DoubleProperty" p || of_class "FloatProperty" p then
        v ← (if of_class "DoubleProperty" p then of_bits64 <$> load (base + poffset p) 8 b
             else of_bits32 <$> load (base + poffset p) 4 b);
        if named "X" p then read_xy fields base b (Some v) y
        else if named "Y" p then read_xy fields base b x (Some v)
        else read_xy fields base b x y
      else read_xy fields base b x y
  end.

Definition hud_read_vec2 (obj : Z) (fname : string) (out : frame) : M (option (double * double)) :=
  on_function e (Some obj) fname None (fun _ f =>
    match hud_param f "ReturnValue" with
    | Some p =>
        if of_class "StructProperty" p then
          match pstruct p with
          | None => ret None
          | Some fields =>
              past <- attempt (add32 (poffset p) (psize p)) ;;
              (* compared as size_t, so a negative sum is large *)
              if (past <? 0)%Z || (Z.of_nat (length out) <? past)%Z then ret None
              else
                xy <- attempt (read_xy fields (poffset p) out None None) ;;
                ret (match xy with
                     | (Some x, y) =>
                         let y := default dzero y in
                         if isfinite x && isfinite y && (dzero <? x)%double && (dzero <? y)%double then Some (x, y) else None
                     | _ => None
                     end)
          end
        else ret None
    | None => ret None
    end).

Definition hud_viewport_size (world_context : option Z) : M (option (double * double)) :=
  match static_object e "/Script/UMG.Default__WidgetLayoutLibrary", world_context with
  | Some library, Some context =>
      out <- hud_call_on (Some library) "GetViewportSize" (hud_fill_object "WorldContextObject" context) ;;
      match out with Some out => hud_read_vec2 library "GetViewportSize" out | None => ret None end
  | _, _ => ret None
  end.

Definition hud_desired_size (widget : option Z) : M (option (double * double)) :=
  out <- hud_call_on widget "GetDesiredSize" no_filler ;;
  match widget, out with Some w, Some out => hud_read_vec2 w "GetDesiredSize" out | _, _ => ret None end.

Definition hud_set_text (text : option Z) (value : wide) : M unit := quietly (hud_call_on text "SetText" (fill_text value)).

(** * The asks of Hud.v *)

(** The font's size is a member of the widget's own struct, written before any call. *)
Definition perform_hud (c : hud_call) : M unit :=
  match c with
  | FontSize _ _ => ret tt
  | BrushColor border rgb alpha => quietly (hud_call_on (Some border) "SetBrushColor" (hud_fill_color "InBrushColor" rgb alpha))
  | Padding border all =>
      quietly (hud_call_on (Some border) "SetPadding"
        (hud_fill_struct "InPadding" [("Left", all); ("Top", all); ("Right", all); ("Bottom", all)]%string))
  | Content border text => quietly (hud_call_on (Some border) "SetContent" (hud_fill_object "Content" text))
  | Ink text rgb => quietly (hud_call_on (Some text) "SetColorAndOpacity" (fill_ink rgb))
  | HudText text value => hud_set_text (Some text) value
  | PlaceAt widget x y =>
      quietly (hud_call_on (Some widget) "SetPositionInViewport" (fun f b =>
        and_fill (hud_fill_struct "Position" [("X", x); ("Y", y)]%string f b) (hud_fill_bool "bRemoveDPIScale" true f)))
  | DesiredSize widget w h =>
      quietly (hud_call_on (Some widget) "SetDesiredSizeInViewport" (hud_fill_struct "Size" [("X", w); ("Y", h)]%string))
  | AddToViewport widget z => quietly (hud_call_on (Some widget) "AddToViewport" (hud_fill_int "ZOrder" z))
  | RemoveFromParent widget => quietly (hud_call_on (Some widget) "RemoveFromParent" no_filler)
  end.
End Calls.

Section Perform.
Context (e : engine).
(** A component's fields, where a setter is missing. *)
Context (has_text_slot has_scale : Z -> bool) (own_world_size : Z -> option double).

Definition perform_pose (st : try_statics) (c : pose_call) : M try_statics :=
  let plain {A} (m : M A) := m ;; ret st in
  match c with
  | Call o fn =>
      if bool_decide (fn = "manageBlobShadow"%string) then plain (call_manage_blob_shadow e (Some o))
      else plain (call_named_no_arg e (Some o) fn)
  | CallBool o fn p b => plain (call_bool_ufunction e (Some o) fn p b)
  | CallTwoFloats o fn x y => plain (call_two_float_event e (Some o) fn x y)
  | Teleport o loc rot => plain (call_set_actor_location_and_rotation e (Some o) loc rot)
  | Show o visible propagate => plain (call_set_visibility e (Some o) visible propagate)
  | SetMesh o asset => plain (call_set_skeletal_mesh_asset e (Some o) (Some asset) None)
  | SetCustomDepth o on => plain (call_set_render_custom_depth e (Some o) on)
  | SetLightIntensity o v => plain (call_set_light_intensity e (Some o) v)
  | DestroyActor o => plain (call_destroy_actor e (Some o))
  | MontagePlay anim montage => plain (call_montage_play e (Some anim) (Some montage))
  | MontageStop anim blend_out => plain (call_montage_stop e (Some anim) blend_out)
  | DamageResponse o damage_type => plain (call_perform_damage_response e (Some o) damage_type)
  | TryDamage hitable attacker damage forward query =>
      r <- call_try_damage e st (Some hitable) (Some attacker) damage forward query ;; ret r.1
  | WriteNumber _ _ _ | WriteInt _ _ _ | WriteBool _ _ _ | WriteObject _ _ _ | WriteColor _ _ _ | AddObject _ _ _
  | ResolveAsset _ _ => ret st
  end.

(** On the ghost [a]. *)
Definition perform_fx (a : Z) (c : fx_call) : M unit :=
  match c with
  | SpawnAtLocation asset location yaw auto_destroy =>
      quietly (StructCalls.spawn_niagara_at_location e (Some a) (Some asset) location yaw auto_destroy)
  | SpawnAttached asset parent socket => quietly (StructCalls.spawn_niagara_attached e (Some asset) (Some parent) socket)
  | WriteRelativeLocation _ _ => ret tt
  | SetWorldLocationAndRotation c loc rot => call_set_component_world_location_and_rotation e (Some c) loc rot
  | SetVisibility c visible => call_set_visibility e (Some c) visible true
  | CallByName c fn => on_function e (Some c) fn tt process_bare
  | DieFade out => quietly (call_die_fade e (Some a) out)
  | StartBlink => quietly (call_start_blink e (Some a))
  end.

Definition perform_tag (c : tag_call) : M unit :=
  match c with
  | SetText c text => quietly (set_text_render_string e (has_text_slot c) (Some c) (Some text))
  | CenterText c => quietly (center_text_component e (own_world_size c) (Some c))
  | SetWorldSize c size => quietly (call_float_setter e (Some c) "SetWorldSize" size)
  | SetRelativeScale c scale => quietly (set_component_relative_scale e (has_scale c) (own_world_size c) (Some c) scale)
  | SetColor mid rgb => quietly (call_set_vector_parameter e mid rgb)
  | Place c loc rot => set_text_render_transform e (Some c) loc rot
  | Refresh c => force_render_refresh e (Some c)
  end.

Definition perform_ghost (a : Z) (panel_text : option Z) (st : try_statics) (c : ghost_call) : M try_statics :=
  match c with
  | Pose c => perform_pose st c
  | Fx c => perform_fx a c ;; ret st
  | Tag c => perform_tag c ;; ret st
  | PanelText text => hud_set_text e panel_text text ;; ret st
  end.

(** A change of tier. *)
Definition perform_tier (c : tier_call) : M unit :=
  match c with
  | DistanceTier.WriteBool _ _ _ => ret tt
  | DistanceTier.CallBool o fn b =>
      quietly (call_bool_ufunction e (Some o) fn (if bool_decide (fn = "SetActorHiddenInGame"%string) then "bNewHidden" else "bEnabled") b)
  end.
Fixpoint perform_tiers (cs : list tier_call) : M unit :=
  match cs with [] => ret tt | c :: cs => perform_tier c ;; perform_tiers cs end.

(** A turn's asks, in order. *)
Fixpoint perform_turn (a : Z) (panel_text : option Z) (st : try_statics) (cs : list ghost_call) : M try_statics :=
  match cs with
  | [] => ret st
  | c :: cs => st <- perform_ghost a panel_text st c ;; perform_turn a panel_text st cs
  end.

Fixpoint perform_widgets (cs : list hud_call) : M unit :=
  match cs with
  | [] => ret tt
  | c :: cs => perform_hud e c ;; perform_widgets cs
  end.
End Perform.
