(* ===== verification/SafeCalls.v ===== *)
(** What is relied on of the functions reflected, and the rules by which a helper is shown
    to keep to its block.

    [Reflected] states the layouts of the engine's and the game's functions: parameters
    inside the block, as wide as their kind, and the signatures of the functions the
    helpers name.  [safe m Q] says a helper answers, with an answer in [Q], and that every
    block it hands over has the size of the function it is for. Then each
    helper, of the pawn, the placements, the effects, the damage, the text components and
    the widgets, keeps to its block. *)
From S2P Require Import Prelude Float64 JsonString FloatFacts Frames Reflect EngineCalls StructCalls.
From S2P Require Import RemoteGhost InputDisplay Nametag TextCalls Hud HudCalls.
From Stdlib Require Import ZArith.

(** Induction through the members of structs. *)
Lemma fproperty_deep (P : fproperty -> Prop) :
  (forall n c o s st, (forall fields, st = Some fields -> Forall P fields) -> P (FProperty n c o s st)) -> forall p, P p.
Proof.
  intros H. fix IH 1. intros [n c o s st]. apply H. destruct st as [fs|]; [|done]. intros fields [= <-].
  induction fs as [|q fs IHf]; constructor; [apply IH|exact IHf].
Qed.

(** * Layouts *)

(** The width of a property of a kind that has one. *)
Definition kind_width (cls : string) : option Z :=
  if bool_decide (cls = "ObjectProperty"%string) then Some 8%Z
  else if bool_decide (cls = "NameProperty"%string) then Some 8%Z
  else if bool_decide (cls = "DoubleProperty"%string) then Some 8%Z
  else if bool_decide (cls = "FloatProperty"%string) then Some 4%Z
  else if bool_decide (cls = "IntProperty"%string) then Some 4%Z
  else None.

Definition REALS : list string := ["X"; "Y"; "Z"; "W"; "Pitch"; "Yaw"; "Roll"]%string.
Definition INTEGERS : list string := ["IntProperty"; "ByteProperty"; "EnumProperty"]%string.

Section Layouts.
Context (e : engine).

Definition real_width : Z := if below_5_0 e then 4%Z else 8%Z.

(** A property inside a block or a struct of [room] bytes, and its members inside it. *)
Inductive fits (room : Z) (p : fproperty) : Prop := Fits :
  (0 <= poffset p)%Z -> (0 < psize p)%Z -> (poffset p + psize p <= room)%Z ->
  (forall w, kind_width (pclass p) = Some w -> psize p = w) ->
  (forall fields, pstruct p = Some fields ->
     Forall (fits (psize p)) fields
     /\ forall n q, n ∈ REALS -> find_property e fields n = Some q -> (real_width <= psize q)%Z) ->
  fits room p.

Definition laid_out (f : ufunction) : Prop :=
  (0 <= parms_size f < 2 ^ 16)%Z /\ Forall (fits (parms_size f)) (params f).

(** No member is an integer, however deep. *)
Inductive real_members (p : fproperty) : Prop := RealMembers :
  (forall fields, pstruct p = Some fields -> Forall (fun q => pclass q ∉ INTEGERS /\ real_members q) fields) ->
  real_members p.

(** A parameter of that name, found in either of the two ways, has the room. *)
Definition roomy (f : ufunction) (n : string) (w : Z) : Prop :=
  forall p, (p ∈ params f /\ pname p = n) \/ find_property e (params f) n = Some p -> (w <= psize p)%Z.
End Layouts.

(** * Signatures *)

(** The parameters a helper writes without a test of its own, and their sizes. *)
Definition SIGNATURES : list (string * list (string * Z)) :=
  [("Montage_Stop", [("InBlendOutTime", 4)]); ("Montage_Play", [("MontageToPlay", 8); ("InPlayRate", 4)]);
   ("CustomPlayMontage", [("MontageToPlay", 8)]); ("Spawn After Image", [("Duration", 4)]);
   ("SetText", [("Value", 24)]); ("CreateDynamicMaterialInstance", [("ElementIndex", 4); ("SourceMaterial", 8); ("ReturnValue", 8)]);
   ("SetContent", [("Content", 8)]); ("AddToViewport", [("ZOrder", 4)]); ("GetViewportSize", [("WorldContextObject", 8)]);
   ("/Script/Niagara.NiagaraFunctionLibrary:SpawnSystemAttached",
     [("SystemTemplate", 8); ("AttachToComponent", 8); ("AttachPointName", 8); ("ReturnValue", 8)]);
   ("/Script/Niagara.NiagaraFunctionLibrary:SpawnSystemAtLocation",
     [("SystemTemplate", 8); ("WorldContextObject", 8); ("Location", 24); ("Scale", 24); ("ReturnValue", 8)]);
   ("/Script/Engine.Actor:AddComponentByClass", [("Class", 8); ("ReturnValue", 8)])]%string%Z.

(** The widgets' functions whose structs hold real numbers. *)
Definition HUD_FUNCTIONS : list string :=
  ["SetBrushColor"; "SetPadding"; "SetColorAndOpacity"; "SetPositionInViewport"; "SetDesiredSizeInViewport"]%string.

(** Those that take vectors, which are structs. *)
Definition VECTORS : list string := ["NewLocation"; "NewRotation"; "NewScale3D"]%string.
Definition PLACING : list string :=
  ["/Script/Engine.Actor:K2_SetActorLocationAndRotation"; "/Script/Engine.SceneComponent:K2_SetWorldLocationAndRotation";
   "/Script/Engine.SceneComponent:K2_SetRelativeLocationAndRotation"; "/Script/Engine.SceneComponent:SetRelativeScale3D"]%string.

Class Reflected (e : engine) : Prop := {
  r_laid o n f : function_of e o n = Some f -> laid_out e f;
  r_static n f : static_function e n = Some f -> laid_out e f;
  r_signature o n f sig q w :
    function_of e o n = Some f \/ static_function e n = Some f -> (n, sig) ∈ SIGNATURES -> (q, w) ∈ sig -> roomy e f q w;
  r_vectors n f q p :
    n ∈ PLACING -> static_function e n = Some f -> q ∈ VECTORS -> find_property e (params f) q = Some p ->
    pclass p = "StructProperty"%string;
  r_mesh o f p ps : function_of e o "SetSkeletalMeshAsset" = Some f -> params f = p :: ps -> (8 <= psize p)%Z;
  r_hud o n f : n ∈ HUD_FUNCTIONS -> function_of e o n = Some f -> Forall real_members (params f);
  r_find ps n p : find_property e ps n = Some p -> p ∈ ps;
  r_set_bool p base v b room :
    fits e room p -> (0 <= base)%Z -> (base + room <= Z.of_nat (length b))%Z ->
    exists b', set_bool e p base v b = Some b' /\ length b' = length b;
  r_fvector v : length (fvector e v) = 24;
  r_ftext w : length (ftext e w) = 24;
  r_process o f b : length (process_event e o f b) = length b
}.

(** * Safe helpers *)

(** A block handed over has the size of its function; a call may hand over none. *)
Definition whole (c : process) : Prop :=
  match given c with Some b => Z.of_nat (length b) = parms_size (what c) | None => True end.

Definition safe {A} (m : M A) (Q : A -> Prop) : Prop :=
  exists calls a, m = Some (calls, a) /\ Forall whole calls /\ Q a.

Abbreviation trivially := (fun _ => True).

Lemma safe_ret {A} (a : A) (Q : A -> Prop) : Q a -> safe (ret a) Q.
Proof. intros. by exists [], a. Qed.

Lemma safe_bind {A B} (m : M A) (k : A -> M B) (P : A -> Prop) Q :
  safe m P -> (forall a, P a -> safe (k a) Q) -> safe (bind m k) Q.
Proof.
  intros (c1 & a & -> & H1 & Ha) Hk. destruct (Hk a Ha) as (c2 & b & E & H2 & Hb).
  exists (c1 ++ c2), b. unfold bind. rewrite E. split; [done|]. split; [by apply Forall_app|done].
Qed.

Lemma safe_weaken {A} (m : M A) (P Q : A -> Prop) : safe m P -> (forall a, P a -> Q a) -> safe m Q.
Proof. intros (c & a & E & H & Ha) Hq. exists c, a. auto. Qed.

Lemma safe_attempt {A} (o : option A) (a : A) (Q : A -> Prop) : o = Some a -> Q a -> safe (attempt o) Q.
Proof. intros -> H. by exists [], a. Qed.

Lemma safe_quietly {A} (m : M A) P : safe m P -> safe (quietly m) trivially.
Proof. intros H. eapply safe_bind; [exact H|]. intros. by apply safe_ret. Qed.

Definition sized (f : ufunction) (b : frame) : Prop := Z.of_nat (length b) = parms_size f.

Lemma safe_new_frame n (Q : frame -> Prop) : (0 <= n)%Z -> Q (zeroed n) -> safe (new_frame n) Q.
Proof. intros Hn H. unfold new_frame. destruct (Z.ltb_spec n 0); [lia|]. by apply safe_ret. Qed.

Lemma sized_zeroed f : (0 <= parms_size f)%Z -> sized f (zeroed (parms_size f)).
Proof. intros. unfold sized. rewrite length_zeroed. lia. Qed.

(** Any loop whose steps succeed and keep an invariant. *)
Lemma each_inv {S} (body : fproperty -> S -> option S) (P : S -> Prop) ps s :
  (forall p s, p ∈ ps -> P s -> exists s', body p s = Some s' /\ P s') -> P s ->
  exists s', each body ps s = Some s' /\ P s'.
Proof.
  revert s. induction ps as [|p ps IH]; intros s Hb Hs; [by eexists|]. cbn [each].
  destruct (Hb p s) as (s' & -> & Hs'); [by left|done|]. apply IH; [|done]. intros. apply Hb; [by right|done].
Qed.

(** * Stores inside the block *)

Lemma store_ok o c b : (0 <= o)%Z -> (o + width c <= Z.of_nat (length b))%Z ->
  exists b', store o c b = Some b' /\ length b' = length b.
Proof.
  intros Ho Hw. destruct (store_inside o c b) as [b' E]; [by apply within_iff|].
  exists b'. split; [done|]. by eapply length_store.
Qed.

Section Rules.
Context {e : engine} {R : Reflected e}.

Lemma safe_process o f b (Q : frame -> Prop) :
  sized f b -> (forall b', sized f b' -> Q b') -> safe (process_frame e o f b) Q.
Proof.
  intros Hb Hq. exists [Process o f (Some b)], (process_event e o f b). split; [done|]. split.
  - apply Forall_singleton. exact Hb.
  - apply Hq. unfold sized. by rewrite r_process.
Qed.

Lemma safe_on_function {A} (o : option Z) n (d : A) k Q :
  Q d -> (forall c f, o = Some c -> function_of e c n = Some f -> laid_out e f -> safe (k c f) Q) -> safe (on_function e o n d k) Q.
Proof.
  intros Hd Hk. unfold on_function. destruct o as [c|]; [|by apply safe_ret].
  destruct (function_of e c n) as [f|] eqn:E; [|by apply safe_ret]. eapply Hk; [done|done|]. by eapply r_laid.
Qed.

Lemma param_fits f p : laid_out e f -> p ∈ params f -> fits e (parms_size f) p.
Proof. intros [_ H] Hp. by eapply list.Forall_forall in H. Qed.

Lemma laid_pos f : laid_out e f -> (0 <= parms_size f)%Z.
Proof. intros [H _]. lia. Qed.

(** A parameter with the room takes the value. *)
Lemma store_param f p c b :
  laid_out e f -> p ∈ params f -> (width c <= psize p)%Z -> sized f b ->
  exists b', store (poffset p) c b = Some b' /\ sized f b'.
Proof.
  intros Hf Hp Hw Hb. destruct (param_fits f p Hf Hp). unfold sized in *.
  destruct (store_ok (poffset p) c b) as (b' & E & L); [done|lia|]. exists b'. split; [done|]. lia.
Qed.

Definition picks (f : ufunction) (pick : fproperty -> bool) (w : Z) : Prop :=
  forall p, p ∈ params f -> pick p = true -> (w <= psize p)%Z.

Lemma store_at_ok f pick c b :
  laid_out e f -> picks f pick (width c) -> sized f b ->
  exists r, store_at pick c f b = Some r /\ sized f r.1.
Proof.
  intros Hf Hp Hb. unfold store_at. apply each_inv; [|done].
  intros p [b0 found] Hin Hs. cbn in *. destruct (pick p) eqn:E; [|by eexists].
  destruct (store_param f p c b0) as (b1 & -> & ?); [done|done|by apply Hp|done|]. by eexists.
Qed.

Lemma store_first_ok f pick c b :
  laid_out e f -> (forall p, List.find pick (params f) = Some p -> (width c <= psize p)%Z) -> sized f b ->
  exists r, store_first pick c f b = Some r /\ sized f r.1.
Proof.
  intros Hf Hp Hb. unfold store_first. destruct (List.find pick (params f)) as [p|] eqn:E; [|by eexists].
  destruct (store_param f p c b) as (b1 & -> & ?); [done| |by apply Hp|done|by eexists].
  apply List.find_some in E as [E _]. by apply list_elem_of_In.
Qed.

Lemma safe_call_with fill least o f (Q : bool -> Prop) :
  laid_out e f -> (forall b, sized f b -> exists r, fill f b = Some r /\ sized f r.1) -> (forall b, Q b) ->
  safe (call_with e fill least o f) Q.
Proof.
  intros Hf Hfill HQ. unfold call_with. case_match; [by apply safe_ret|].
  eapply safe_bind; [apply safe_new_frame; [by eapply laid_pos|apply sized_zeroed; by eapply laid_pos]|].
  intros b Hb. destruct (Hfill b Hb) as ([b' found] & E & Hs). cbn in Hs.
  eapply safe_bind; [by eapply (safe_attempt _ _ (fun r => r = (b', found)))|].
  intros ? ->. cbn [fst snd]. destruct found; [|by apply safe_ret].
  eapply safe_bind; [by apply (safe_process _ _ _ trivially)|]. intros. by apply safe_ret.
Qed.

(** Signatures. *)
Lemma named_room o n f sig q w :
  function_of e o n = Some f -> (n, sig) ∈ SIGNATURES -> (q, w) ∈ sig -> picks f (named q) w.
Proof.
  intros E Hs Hq p Hp Hn. unfold named in Hn. apply bool_decide_eq_true in Hn.
  eapply (r_signature o n f sig q w); eauto.
Qed.

Lemma any_room f : laid_out e f -> picks f any 1.
Proof. intros Hf p Hp _. destruct (param_fits f p Hf Hp). lia. Qed.

Lemma byte_room f pick : laid_out e f -> picks f pick 1.
Proof. intros Hf p Hp _. destruct (param_fits f p Hf Hp). lia. Qed.

Lemma found_room f pick w : picks f pick w -> forall p, List.find pick (params f) = Some p -> (w <= psize p)%Z.
Proof. intros H p [Hp E]%List.find_some. apply H; [by apply list_elem_of_In|done]. Qed.
End Rules.

Section Safe.
Context {e : engine} {R : Reflected e}.

(** * The pawn's helpers *)

(** A block, and then a step over a block of the function's size. *)
Lemma safe_block {A} f (k : frame -> M A) Q :
  laid_out e f -> (forall b, sized f b -> safe (k b) Q) -> safe (bind (new_frame (parms_size f)) k) Q.
Proof.
  intros Hf Hk. eapply safe_bind; [|exact Hk]. apply safe_new_frame; [by eapply laid_pos|apply sized_zeroed; by eapply laid_pos].
Qed.

(** A store, and then a step over the block. *)
Lemma safe_store {A} f p c b (k : frame -> M A) Q :
  laid_out e f -> p ∈ params f -> (width c <= psize p)%Z -> sized f b ->
  (forall b, sized f b -> safe (k b) Q) -> safe (bind (attempt (store (poffset p) c b)) k) Q.
Proof.
  intros Hf Hp Hw Hb Hk. destruct (store_param f p c b Hf Hp Hw Hb) as (b' & E & Hs).
  eapply safe_bind; [by eapply (safe_attempt _ _ (sized f))|done].
Qed.

Lemma safe_store_at {A} f (o : Z) c b (k : frame -> M A) Q :
  (0 <= o)%Z -> (o + width c <= parms_size f)%Z -> sized f b ->
  (forall b, sized f b -> safe (k b) Q) -> safe (bind (attempt (store o c b)) k) Q.
Proof.
  intros Ho Hw Hb Hk. destruct (store_ok o c b) as (b' & E & L); [done|unfold sized in Hb; lia|].
  eapply safe_bind; [by eapply (safe_attempt _ _ (fun b => b = b'))|]. intros ? ->. apply Hk. unfold sized in *. lia.
Qed.

(** The call, and then whatever it answers. *)
Lemma safe_processed {A} o f b (k : frame -> M A) Q :
  sized f b -> (forall b, sized f b -> safe (k b) Q) -> safe (bind (process_frame e o f b) k) Q.
Proof. intros Hb Hk. eapply safe_bind; [by apply (safe_process _ _ _ (sized f))|done]. Qed.

Lemma safe_done o f b : sized f b -> safe (quietly (process_frame e o f b)) trivially.
Proof. intros Hb. eapply safe_quietly, (safe_process _ _ _ trivially); done. Qed.

(** A fill, and then a step over the block and whether it was filled. *)
Lemma safe_filled {A} f (r : option (frame * bool)) (k : frame * bool -> M A) Q :
  (exists x, r = Some x /\ sized f x.1) -> (forall x, sized f x.1 -> safe (k x) Q) -> safe (bind (attempt r) k) Q.
Proof.
  intros (x & E & Hs) Hk. eapply safe_bind; [by eapply (safe_attempt _ _ (fun r => r = x))|]. intros ? ->. by apply Hk.
Qed.

Lemma safe_load {A} f p n b (k : Z -> M A) Q :
  laid_out e f -> p ∈ params f -> (0 <= n <= psize p)%Z -> sized f b ->
  (forall v, safe (k v) Q) -> safe (bind (attempt (load (poffset p) n b)) k) Q.
Proof.
  intros Hf Hp Hn Hb Hk. destruct (param_fits f p Hf Hp). unfold sized in Hb.
  assert (within (poffset p) n b = true) as W by (apply within_iff; lia).
  eapply safe_bind; [|exact (fun v _ => Hk v)]. eapply (safe_attempt _ _ trivially); [|done].
  unfold load. by rewrite W.
Qed.

Lemma safe_call_zeroed o f : laid_out e f -> safe (call_zeroed e o f) trivially.
Proof. intros Hf. apply safe_done, sized_zeroed. by eapply laid_pos. Qed.

Lemma safe_named o n f sig q c (Q : bool -> Prop) :
  function_of e o n = Some f -> laid_out e f -> (n, sig) ∈ SIGNATURES -> (q, width c) ∈ sig -> (forall b, Q b) ->
  forall least, safe (call_with e (store_at (named q) c) least o f) Q.
Proof.
  intros E Hf Hs Hq HQ least. apply safe_call_with; [done| |done]. intros b Hb. apply (store_at_ok (e := e)); [done| |done].
  by eapply (named_room (e := e)).
Qed.

Lemma safe_byte o f pick v least (Q : bool -> Prop) :
  laid_out e f -> (forall b, Q b) -> safe (call_with e (store_at pick (U8 v)) least o f) Q.
Proof.
  intros Hf HQ. apply safe_call_with; [done| |done]. intros b Hb. apply (store_at_ok (e := e)); [done| |done].
  by apply (byte_room (e := e)).
Qed.

Lemma safe_first_byte o f pick v least (Q : bool -> Prop) :
  laid_out e f -> (forall b, Q b) -> safe (call_with e (store_first pick (U8 v)) least o f) Q.
Proof.
  intros Hf HQ. apply safe_call_with; [done| |done]. intros b Hb. apply (store_first_ok (e := e)); [done| |done].
  by apply found_room, (byte_room (e := e)).
Qed.

Lemma add32_small a b : (0 <= a)%Z -> (0 <= b)%Z -> (a + b < 2 ^ 31)%Z -> add32 a b = Some (a + b)%Z.
Proof.
  intros. unfold add32. destruct (Z.leb_spec (- 2 ^ 31) (a + b)); [|lia]. destruct (Z.ltb_spec (a + b) (2 ^ 31)); [done|lia].
Qed.

Lemma i32_small a : (0 <= a < 2 ^ 31)%Z -> i32 a = a.
Proof. intros. unfold i32. rewrite Z.mod_small; lia. Qed.

Hint Resolve safe_ret : core.

Lemma safe_montage_stop o blend : safe (call_montage_stop e o blend) trivially.
Proof.
  apply safe_on_function; [done|]. intros c f -> E Hf. eapply safe_quietly, (safe_named _ _ _ _ _ _ trivially E Hf); [|by left|done].
  by left.
Qed.

Lemma safe_set_visibility o visible propagate : safe (call_set_visibility e o visible propagate) trivially.
Proof.
  apply safe_on_function; [done|]. intros c f -> E Hf. case_match; [by apply safe_ret|].
  apply safe_block; [done|]. intros b Hb.
  assert (exists b', visibility_bytes (parms_size f) [visible; propagate] (params f) b = Some b' /\ sized f b') as (b' & Ev & Hs).
  { generalize [visible; propagate]. intros vs. revert b Hb. generalize (params f). intros ps b Hb.
    revert ps b Hb. induction vs as [|v vs IH]; intros ps b Hb; [by eexists|]. destruct ps as [|p ps]; [by eexists|]. cbn.
    destruct (_ && _) eqn:W; [|by apply IH].
    destruct (store_ok (poffset p) (bool_cell v) b) as (b' & -> & L); [lia|cbn; unfold sized in Hb; lia|].
    apply IH. unfold sized in *. lia. }
  eapply safe_bind; [by eapply (safe_attempt _ _ (sized f))|]. intros b2 Hb2. case_match; [by apply safe_ret|]. by apply safe_done.
Qed.

Lemma safe_set_light_intensity o v : safe (call_set_light_intensity e o v) trivially.
Proof.
  apply safe_on_function; [done|]. intros c f -> E Hf. case_match; [by apply safe_ret|].
  apply safe_block; [done|]. intros b Hb. destruct (params f) as [|p ps] eqn:Ep; [by apply safe_ret|].
  assert (p ∈ params f) as Hp by (rewrite Ep; by left). destruct (param_fits f p Hf Hp). destruct Hf as [[? ?] ?].
  destruct (Z.ltb_spec (poffset p) 0); [lia|].
  eapply safe_bind; [eapply (safe_attempt _ _ (fun z => z = (poffset p + 4)%Z)); [apply add32_small; lia|done]|]. intros ? ->.
  rewrite Z.gtb_ltb. destruct (Z.ltb_spec (parms_size f) (poffset p + 4)); [by apply safe_ret|].
  apply (safe_store_at f); [lia|cbn; lia|done|]. intros. by apply safe_done.
Qed.

Lemma safe_montage_play o m : safe (call_montage_play e o m) trivially.
Proof.
  destruct m as [m|]; [|by apply safe_ret]. apply safe_on_function; [done|]. intros c f -> E Hf.
  case_match; [by apply safe_ret|]. apply safe_block; [done|]. intros b Hb.
  assert (picks f (named "MontageToPlay") 8) as P1 by (eapply (named_room (e := e)); [exact E|by right; left|by left]).
  assert (picks f (named "InPlayRate") 4) as P2 by (eapply (named_room (e := e)); [exact E|by right; left|by right; left]).
  edestruct (each_inv (fun p (st : frame * bool * option fproperty) => let '(b, found, ret_p) := st in
    if named "MontageToPlay" p then
      match store (poffset p) (ptr (Some m)) b with Some b => Some (b, true, ret_p) | None => None end
    else if named "InPlayRate" p then
      match store (poffset p) (F32 (of_Z 1)) b with Some b => Some (b, found, ret_p) | None => None end
    else if named "ReturnValue" p then Some (b, found, Some p)
    else Some st)
    (fun st => sized f st.1.1 /\ forall p, st.2 = Some p -> p ∈ params f) (params f) (b, false, None)) as (st & Est & Hst & Hret).
  { intros p [[b0 found] ret_p] Hin [Hs Hr]. cbn in Hs, Hr. destruct (named "MontageToPlay" p) eqn:N1.
    { destruct (store_param f p (ptr (Some m)) b0 Hf Hin (P1 p Hin N1) Hs) as (b1 & -> & ?). by eexists. }
    destruct (named "InPlayRate" p) eqn:N2.
    { destruct (store_param f p (F32 (of_Z 1)) b0 Hf Hin (P2 p Hin N2) Hs) as (b1 & -> & ?). by eexists. }
    destruct (named "ReturnValue" p); eexists; split; try done. split; [done|]. cbn. by intros ? [= <-]. }
  { done. }
  eapply safe_bind; [eapply (safe_attempt _ _ (fun x => x = st)); [exact Est|done]|]. intros ? ->.
  destruct st as [[b' found] ret_p]. cbn in Hst, Hret. destruct found; [|by apply safe_ret].
  apply safe_processed; [done|]. intros b2 Hb2. destruct ret_p as [p|]; [|by apply safe_ret].
  destruct (of_class "FloatProperty" p) eqn:Ec; [|by apply safe_ret].
  specialize (Hret p eq_refl). destruct (param_fits f p Hf Hret) as [? ? ? Hk ?]. pose proof Hf as [[? ?] ?].
  assert (psize p = 4%Z) as S4.
  { apply Hk. unfold of_class in Ec. apply bool_decide_eq_true in Ec. by rewrite Ec. }
  eapply safe_bind; [eapply (safe_attempt _ _ trivially); [apply add32_small; lia|done]|]. intros past _.
  case_match; [|by apply safe_ret]. apply (safe_load f); [done|done|lia|done|]. intros. by apply safe_ret.
Qed.

(** * Vectors *)

Lemma real_cell_width v : width (real_cell e v) = real_width e.
Proof. unfold real_cell, real_width. by destruct (below_5_0 e). Qed.

Lemma triple_ok base room p n1 n2 n3 v b :
  fits e room p -> pclass p = "StructProperty"%string -> (0 <= base)%Z -> (base + room <= Z.of_nat (length b))%Z ->
  n1 ∈ REALS -> n2 ∈ REALS -> n3 ∈ REALS ->
  exists r, write_struct_triple e base p n1 n2 n3 v b = Some r /\ length r.1 = length b.
Proof.
  intros [? ? ? ? Hs] Hc Hb Hr N1 N2 N3. unfold write_struct_triple, resolve_struct_triple, struct_of, of_class.
  rewrite bool_decide_eq_true_2 by done. destruct (pstruct p) as [fields|] eqn:Ef; [|by eexists].
  destruct (Hs fields eq_refl) as [Hall Hreal].
  destruct (find_property e fields n1) as [q1|] eqn:E1; [|by eexists].
  destruct (find_property e fields n2) as [q2|] eqn:E2; [|by eexists].
  destruct (find_property e fields n3) as [q3|] eqn:E3; [|by eexists].
  assert (forall n q, n ∈ REALS -> find_property e fields n = Some q ->
    (0 <= poffset q)%Z /\ (poffset q + real_width e <= psize p)%Z) as Hq.
  { intros n q Hn En. pose proof (Hreal n q Hn En). apply r_find in En. rewrite list.Forall_forall in Hall.
    destruct (Hall q En). lia. }
  destruct (Hq n1 q1 N1 E1), (Hq n2 q2 N2 E2), (Hq n3 q3 N3 E3).
  destruct v as [[x y] z]. unfold write_triple_at.
  destruct (store_ok (base + (poffset p + poffset q1)) (real_cell e x) b) as (b1 & -> & L1);
    [lia|rewrite real_cell_width; lia|]. cbn [mbind option_bind].
  destruct (store_ok (base + (poffset p + poffset q2)) (real_cell e y) b1) as (b2 & -> & L2);
    [lia|rewrite real_cell_width; lia|]. cbn [mbind option_bind].
  destruct (store_ok (base + (poffset p + poffset q3)) (real_cell e z) b2) as (b3 & -> & L3);
    [lia|rewrite real_cell_width; lia|]. eexists. split; [done|]. cbn. lia.
Qed.

Lemma vector_ok base room p v b :
  fits e room p -> pclass p = "StructProperty"%string -> (0 <= base)%Z -> (base + room <= Z.of_nat (length b))%Z ->
  exists r, write_vector_param e base p v b = Some r /\ length r.1 = length b.
Proof. intros. by eapply triple_ok; eauto; repeat constructor. Qed.

Lemma rotator_ok base room p v b :
  fits e room p -> pclass p = "StructProperty"%string -> (0 <= base)%Z -> (base + room <= Z.of_nat (length b))%Z ->
  exists r, write_rotator_param e base p v b = Some r /\ length r.1 = length b.
Proof. intros. by eapply triple_ok; eauto; repeat constructor. Qed.

Lemma place_ok f l r loc rot b :
  laid_out e f -> l ∈ params f -> r ∈ params f -> pclass l = "StructProperty"%string -> pclass r = "StructProperty"%string ->
  sized f b -> exists x, write_place e l r loc rot b = Some x /\ sized f x.1.
Proof.
  intros Hf Hl Hr Cl Cr Hb. unfold write_place, sized in *.
  destruct (vector_ok 0 (parms_size f) l loc b) as ([b1 ok1] & E1 & L1); [by eapply param_fits|done|done|lia|].
  rewrite E1. cbn in L1. destruct ok1; [|eexists; split; [done|cbn; lia]].
  destruct (rotator_ok 0 (parms_size f) r rot b1) as ([b2 ok2] & E2 & L2); [by eapply param_fits|done|done|lia|].
  rewrite E2. eexists. split; [done|]. cbn in *. lia.
Qed.

(** Resolving first changes nothing but when the rotation's members are looked for. *)
Lemma place_static_eq l r loc rot b x :
  write_place e l r loc rot b = Some x -> pclass r = "StructProperty"%string -> write_place_static e l r loc rot b = Some x.
Proof.
  unfold write_place, write_place_static, write_vector_param, write_rotator_param, write_struct_triple. intros H Hr.
  destruct (resolve_struct_triple e r "Pitch" "Yaw" "Roll") as [r3|] eqn:Er.
  2:{ unfold resolve_struct_triple, struct_of, of_class in Er. rewrite bool_decide_eq_true_2 in Er by done.
      destruct (pstruct r); done. }
  destruct (resolve_struct_triple e l "X" "Y" "Z") as [[l3|]|]; [|done..].
  destruct (write_triple_at e 0 l3 loc b) as [b1|]; [|done]. destruct r3 as [r3|]; [|done].
  by destruct (write_triple_at e 0 r3 rot b1).
Qed.

(** * Placement *)

Lemma room_for_ok f p : laid_out e f -> p ∈ params f -> room_for p f = Some (poffset p + psize p <=? parms_size f)%Z.
Proof.
  intros Hf Hp. destruct (param_fits f p Hf Hp). destruct Hf as [[? ?] ?]. unfold room_for. by rewrite add32_small by lia.
Qed.

Lemma safe_room {A} f p (k : bool -> M A) Q :
  laid_out e f -> p ∈ params f -> (forall b, safe (k b) Q) -> safe (bind (attempt (room_for p f)) k) Q.
Proof.
  intros Hf Hp Hk. eapply safe_bind; [eapply (safe_attempt _ _ trivially); [by apply room_for_ok|done]|]. intros. apply Hk.
Qed.

Lemma safe_place_swept n f write o loc rot :
  n ∈ PLACING -> static_function e n = Some f ->
  (forall l r b, l ∈ params f -> r ∈ params f -> pclass l = "StructProperty"%string -> pclass r = "StructProperty"%string -> sized f b ->
     exists x, write l r loc rot b = Some x /\ sized f x.1) ->
  safe (place_swept e write o f loc rot) trivially.
Proof.
  intros Hn Ef Hw. pose proof (r_static n f Ef) as Hf. unfold place_swept, param.
  destruct (find_property e (params f) "NewLocation") as [l|] eqn:El; [|by apply safe_ret].
  destruct (find_property e (params f) "NewRotation") as [r|] eqn:Er; [|by apply safe_ret].
  destruct (find_property e (params f) "bSweep") as [s|] eqn:Es; [|by apply safe_ret].
  destruct (find_property e (params f) "bTeleport") as [t|] eqn:Et; [|by apply safe_ret].
  assert (pclass l = "StructProperty"%string) as Cl by (eapply (r_vectors n); eauto; by repeat constructor).
  assert (pclass r = "StructProperty"%string) as Cr by (eapply (r_vectors n); eauto; by repeat constructor).
  apply r_find in El, Er, Es, Et.
  apply (safe_room f l); [done|done|]. intros []; [|by apply safe_ret]. cbn [negb].
  apply (safe_room f r); [done|done|]. intros []; [|by apply safe_ret]. cbn [negb].
  apply safe_block; [done|]. intros b Hb. eapply (safe_filled f); [by apply Hw|].
  intros [b' ok] Hs. cbn in *. destruct ok; [|by apply safe_ret].
  destruct (param_fits f s Hf Es), (param_fits f t Hf Et).
  apply (safe_store f); [done|done|cbn; lia|done|]. intros b1 Hb1.
  apply (safe_store f); [done|done|cbn; lia|done|]. intros b2 Hb2. by apply safe_done.
Qed.

Lemma safe_on_static {A} (o : option Z) n (d : A) k Q :
  Q d -> (forall c f, static_function e n = Some f -> laid_out e f -> safe (k c f) Q) -> safe (on_static e o n d k) Q.
Proof.
  intros Hd Hk. unfold on_static. destruct o; [|by apply safe_ret].
  destruct (static_function e n) eqn:E; [|by apply safe_ret]. apply Hk; [done|]. by eapply r_static.
Qed.

Lemma safe_set_actor o loc rot : safe (call_set_actor_location_and_rotation e o loc rot) trivially.
Proof.
  apply safe_on_static; [done|]. intros c f E Hf. eapply safe_place_swept; [|exact E|]; [by repeat constructor|].
  intros l r b Hl Hr Cl Cr Hb. destruct (place_ok f l r loc rot b) as (x & Ex & Hx); try done.
  exists x. split; [|done]. by apply place_static_eq.
Qed.

Lemma safe_set_component_world o loc rot : safe (call_set_component_world_location_and_rotation e o loc rot) trivially.
Proof.
  apply safe_on_static; [done|]. intros c f E Hf. eapply safe_place_swept; [|exact E|]; [by repeat constructor|].
  intros. by apply place_ok.
Qed.

Lemma safe_set_text_transform o loc rot : safe (set_text_render_transform e o loc rot) trivially.
Proof.
  apply safe_on_static; [done|]. intros c f E Hf. unfold place_plain, param.
  destruct (find_property e (params f) "NewLocation") as [l|] eqn:El; [|by apply safe_ret].
  destruct (find_property e (params f) "NewRotation") as [r|] eqn:Er; [|by apply safe_ret].
  assert (pclass l = "StructProperty"%string) as Cl by (eapply r_vectors; eauto; by repeat constructor).
  assert (pclass r = "StructProperty"%string) as Cr by (eapply r_vectors; eauto; by repeat constructor).
  apply r_find in El, Er. case_match; [by apply safe_ret|]. apply safe_block; [done|]. intros b Hb.
  eapply (safe_filled f); [by apply place_ok|]. intros [b' ok] Hs. cbn in *. destruct ok; [|by apply safe_ret]. by apply safe_done.
Qed.

(** * Effects *)

(** The return slot noted is a parameter's. *)
Definition good_spawn (f : ufunction) (s : spawn_frame) : Prop :=
  sized f (sf_frame s)
  /\ forall slot, return_slot s = Some slot -> exists p, p ∈ params f /\ slot = poffset p /\ (8 <= psize p)%Z.

Lemma put_ok f p o c s :
  laid_out e f -> p ∈ params f -> (0 <= o)%Z -> (o + width c <= psize p)%Z -> good_spawn f s ->
  exists s', put (poffset p + o) c s = Some s' /\ good_spawn f s'.
Proof.
  intros Hf Hp Ho Hw [Hs Hr]. destruct (param_fits f p Hf Hp). unfold put, sized in *.
  destruct (store_ok (poffset p + o) c (sf_frame s)) as (b & -> & L); [lia|lia|].
  eexists. split; [done|]. split; [unfold sized; cbn; lia|done].
Qed.

Lemma put_at f p c s :
  laid_out e f -> p ∈ params f -> (width c <= psize p)%Z -> good_spawn f s ->
  exists s', put (poffset p) c s = Some s' /\ good_spawn f s'.
Proof. intros Hf Hp Hw Hs. rewrite <- (Z.add_0_r (poffset p)). by apply put_ok. Qed.

Lemma note_return f p s :
  p ∈ params f -> (8 <= psize p)%Z -> good_spawn f s -> good_spawn f (s <| return_slot := Some (poffset p) |>).
Proof. intros Hp H8 [Hs Hr]. split; [done|]. cbn. intros slot [= <-]. by exists p. Qed.

Lemma safe_spawn_with fill n f library :
  static_function e n = Some f ->
  (forall p s, p ∈ params f -> good_spawn f s -> exists s', fill p s = Some s' /\ good_spawn f s') ->
  safe (spawn_with e fill (Some f) library) trivially.
Proof.
  intros E Hfill. pose proof (r_static n f E) as Hf. unfold spawn_with. destruct library as [cdo|]; [|by apply safe_ret].
  case_match; [by apply safe_ret|]. apply safe_block; [done|]. intros b Hb.
  destruct (each_inv fill (good_spawn f) (params f) (SpawnFrame b false false None)) as (s & Es & Hs & Hr); [done|done|].
  eapply safe_bind; [eapply (safe_attempt _ _ (fun x => x = s)); [exact Es|done]|]. intros ? ->.
  case_match; [|by apply safe_ret]. apply safe_processed; [done|]. intros b' Hb'.
  destruct (return_slot s) as [slot|]; [|by apply safe_ret]. destruct (Hr slot eq_refl) as (p & Hp & -> & H8).
  apply (safe_load f); [done|done|lia|done|]. intros. by apply safe_ret.
Qed.

(** A parameter of that name, in a static function with a signature. *)
Lemma static_room n f sig q w p :
  static_function e n = Some f -> (n, sig) ∈ SIGNATURES -> (q, w) ∈ sig -> p ∈ params f -> named q p = true -> (w <= psize p)%Z.
Proof.
  intros E Hs Hq Hp Hn%bool_decide_eq_true. eapply (r_signature 0 n f sig q w); eauto.
Qed.

Ltac sig := repeat (first [by left | right]).

Lemma safe_spawn_attached asset parent socket : safe (spawn_niagara_attached e asset parent socket) trivially.
Proof.
  unfold spawn_niagara_attached. destruct asset as [asset|], parent as [parent|]; [|by apply safe_ret..].
  destruct (static_function e _) as [f|] eqn:E; [|by apply safe_ret]. eapply safe_spawn_with; [exact E|].
  pose proof (r_static _ f E) as Hf.
  intros p s Hp Hs. unfold attached_param.
  destruct (named "SystemTemplate" p) eqn:N1.
  { apply (put_at f); [done|done|eapply (static_room _ f _ "SystemTemplate" 8); [exact E|sig|sig|done|done]|done]. }
  destruct (named "AttachToComponent" p) eqn:N2.
  { apply (put_at f); [done|done|eapply (static_room _ f _ "AttachToComponent" 8); [exact E|sig|sig|done|done]|done]. }
  destruct (named "AttachPointName" p) eqn:N3.
  { destruct socket; [|by eexists]. apply (put_at f); [done|done|eapply (static_room _ f _ "AttachPointName" 8); [exact E|sig|sig|done|done]|done]. }
  pose proof (any_room f Hf p Hp eq_refl).
  destruct (named "bAutoActivate" p); [by apply (put_at f)|].
  destruct (named "bAutoDestroy" p); [by apply (put_at f)|].
  destruct (named "ReturnValue" p) eqn:N4; [|by eexists].
  eexists. split; [done|]. apply note_return; [done|eapply (static_room _ f _ "ReturnValue" 8); [exact E|sig|sig|done|done]|done].
Qed.

Lemma safe_spawn_located context asset loc yaw auto : safe (spawn_niagara_at_location e context asset loc yaw auto) trivially.
Proof.
  unfold spawn_niagara_at_location. destruct asset as [asset|], context as [context|]; [|by apply safe_ret..].
  destruct (static_function e _) as [f|] eqn:E; [|by apply safe_ret]. eapply safe_spawn_with; [exact E|].
  pose proof (r_static _ f E) as Hf.
  intros p s Hp Hs. unfold located_param. pose proof (any_room f Hf p Hp eq_refl).
  destruct (named "SystemTemplate" p) eqn:N1.
  { apply (put_at f); [done|done|eapply (static_room _ f _ "SystemTemplate" 8); [exact E|sig|sig|done|done]|done]. }
  destruct (named "WorldContextObject" p) eqn:N2.
  { apply (put_at f); [done|done|eapply (static_room _ f _ "WorldContextObject" 8); [exact E|sig|sig|done|done]|done]. }
  destruct (named "Location" p) eqn:N3.
  { apply (put_at f); [done|done| |done]. cbn [width]. rewrite r_fvector. eapply (static_room _ f _ "Location" 24); [exact E|sig|sig|done|done]. }
  destruct (named "Scale" p) eqn:N4.
  { apply (put_at f); [done|done| |done]. cbn [width]. rewrite r_fvector. eapply (static_room _ f _ "Scale" 24); [exact E|sig|sig|done|done]. }
  destruct (named "Rotation" p && _).
  { destruct (Z.eqb_spec (psize p) 24); [by apply (put_ok f); cbn; try done; lia|].
    destruct (Z.eqb_spec (psize p) 12); [by apply (put_ok f); cbn; try done; lia|]. by eexists. }
  destruct (named "bAutoActivate" p); [by apply (put_at f)|].
  destruct (named "bAutoDestroy" p); [by apply (put_at f)|].
  destruct (named "ReturnValue" p) eqn:N5; [|by eexists].
  eexists. split; [done|]. apply note_return; [done|eapply (static_room _ f _ "ReturnValue" 8); [exact E|sig|sig|done|done]|done].
Qed.

(** * Damage *)

(** A property of a kind with a width. *)
Definition of_kind (p : fproperty) (cls : string) : Prop := pclass p = cls.

Record good_layout (l : TryDamageLayout) : Prop := GoodLayout {
  gl_laid : laid_out e (l_function l);
  gl_attacker : l_attacker l ∈ params (l_function l) /\ of_kind (l_attacker l) "ObjectProperty";
  gl_hitbox : l_hitbox l ∈ params (l_function l);
  gl_forward : l_forward l ∈ params (l_function l) /\ of_kind (l_forward l) "StructProperty";
  gl_query : l_query l ∈ params (l_function l) /\ of_kind (l_query l) "StructProperty";
  gl_members : exists fields, pstruct (l_hitbox l) = Some fields
    /\ Forall (fun '(p, cls) => p ∈ fields /\ of_kind p cls)
         [(l_damage l, "DoubleProperty"); (l_hit_stop l, "DoubleProperty"); (l_sound l, "ObjectProperty");
          (l_socket l, "NameProperty"); (l_extent l, "StructProperty"); (l_damage_type l, "ByteProperty")]%string
}.

Definition good_statics (st : try_statics) : Prop := forall l, layout st = Some l -> good_layout l.

Lemma last_such_in pick ps p : last_such pick ps = Some p -> p ∈ ps /\ pick p = true.
Proof. intros [Hin H]%List.find_some. split; [|done]. apply list_elem_of_In. by apply in_rev. Qed.

Lemma picked_kind test c ps p : last_such (fun p => test p && of_class c p) ps = Some p -> p ∈ ps /\ of_kind p c.
Proof.
  intros [Hin H]%last_such_in. split; [done|]. apply andb_true_iff in H as [_ H]. by apply bool_decide_eq_true in H.
Qed.

Lemma resolve_good o : exists r, resolve_try_damage_layout e o = Some r /\ forall l, r = Some l -> good_layout l.
Proof.
  unfold resolve_try_damage_layout. destruct (function_of e o _) as [f|] eqn:E; [|by eexists].
  destruct (last_such (fun p => named "HitboxInfo" p && _) _) as [h|] eqn:Eh; [|by eexists].
  apply picked_kind in Eh as [Hh Ch]. unfold struct_of, of_class at 1. rewrite bool_decide_eq_true_2 by done.
  destruct (pstruct h) as [fields|] eqn:Ef; [|by eexists]. eexists. split; [done|]. intros l Hl.
  repeat match type of Hl with
  | mbind _ ?o = Some _ => destruct o as [?|] eqn:?; [cbn [mbind option_bind] in Hl|done]
  end.
  repeat match goal with H : last_such _ _ = Some _ |- _ => apply picked_kind in H end.
  injection Hl as <-. split; cbn; try done; [by eapply r_laid|]. exists fields. split; [done|]. repeat constructor; tauto.
Qed.

Lemma try_frame_ok l attacker cue damage forward query b :
  good_layout l -> sized (l_function l) b ->
  exists r, try_damage_frame e l attacker cue damage forward query b = Some r /\ sized (l_function l) r.1.
Proof.
  intros [Hf [Ha Ka] Hh [Hw Kw] [Hq Kq] (fields & Ef & Hm)] Hb.
  destruct (param_fits _ _ Hf Ha) as [? ? ? Sa _]. specialize (Sa 8%Z). rewrite Ka in Sa. specialize (Sa eq_refl).
  destruct (param_fits _ _ Hf Hh) as [? ? ? _ Sh]. destruct (Sh fields Ef) as [Hall _].
  assert (forall p cls, p ∈ fields -> of_kind p cls -> fits e (psize (l_hitbox l)) p) as Hfit.
  { intros p cls Hp _. rewrite list.Forall_forall in Hall. by apply Hall. }
  rewrite !list.Forall_cons in Hm. destruct Hm as ([D1 K1] & [D2 K2] & [D3 K3] & [D4 K4] & [D5 K5] & [D6 K6] & _).
  assert (forall p cls w c b, p ∈ fields -> of_kind p cls -> kind_width cls = Some w -> width c = w -> sized (l_function l) b ->
    exists b', store (poffset (l_hitbox l) + poffset p) c b = Some b' /\ sized (l_function l) b') as Hst.
  { intros p cls w c b0 Hp K Kw0 Wc Hs. destruct (Hfit p cls Hp K) as [? ? ? Sp _]. unfold of_kind in K. rewrite <- K in Kw0.
    specialize (Sp w Kw0). unfold sized in *.
    destruct (store_ok (poffset (l_hitbox l) + poffset p) c b0) as (b1 & E1 & L1); [lia|lia|]. exists b1. split; [done|lia]. }
  unfold try_damage_frame.
  destruct (store_param _ (l_attacker l) (Ptr attacker) b Hf Ha) as (b1 & -> & S1); [cbn; lia|done|]. cbn [mbind option_bind].
  destruct (Hst _ _ 8%Z (F64 damage) b1 D1 K1) as (b2 & -> & S2); [done..|]. cbn [mbind option_bind].
  destruct (Hst _ _ 8%Z (F64 (lit 1 5)) b2 D2 K2) as (b3 & -> & S3); [done..|]. cbn [mbind option_bind].
  destruct (Hst _ _ 8%Z (ptr cue) b3 D3 K3) as (b4 & -> & S4); [done..|]. cbn [mbind option_bind].
  destruct (Hst _ _ 8%Z (Ptr (fname e "handSlot_RSocket")) b4 D4 K4) as (b5 & -> & S5); [done..|]. cbn [mbind option_bind].
  destruct (Hfit _ _ D6 K6). unfold sized in S5.
  destruct (store_ok (poffset (l_hitbox l) + poffset (l_damage_type l)) (U8 5) b5) as (b6 & -> & L6); [lia|cbn; lia|].
  cbn [mbind option_bind].
  destruct (vector_ok (poffset (l_hitbox l)) (psize (l_hitbox l)) (l_extent l) (of_Z 120, of_Z 80, of_Z 80) b6)
    as ([b7 ok7] & -> & L7); [by eapply Hfit|done|lia|lia|]. cbn in L7.
  destruct ok7; [|eexists; split; [done|unfold sized; cbn; lia]].
  destruct (vector_ok 0 (parms_size (l_function l)) (l_forward l) forward b7) as ([b8 ok8] & -> & L8);
    [by eapply param_fits|done|lia|lia|]. cbn in L8. destruct ok8; [|eexists; split; [done|unfold sized; cbn; lia]].
  destruct (vector_ok 0 (parms_size (l_function l)) (l_query l) query b8) as ([b9 ok9] & E9 & L9);
    [by eapply param_fits|done|lia|lia|]. exists (b9, ok9). split; [done|]. unfold sized. cbn in *. lia.
Qed.

Lemma safe_try_damage st hitable attacker damage forward query :
  good_statics st -> safe (call_try_damage e st hitable attacker damage forward query) (fun r => good_statics r.1).
Proof.
  intros Hst. unfold call_try_damage. destruct hitable as [o|], attacker as [at_|]; [|by apply safe_ret..]. cbv zeta.
  eapply (safe_bind _ _ good_statics).
  { case_match; [by apply safe_ret|]. destruct (resolve_good o) as (r & Er & Hr).
    eapply safe_bind; [eapply (safe_attempt _ _ (fun x => x = r)); [exact Er|done]|]. intros ? ->. by apply safe_ret. }
  clear st Hst. intros st Hst. destruct (layout st) as [l|] eqn:El; [|by apply safe_ret].
  pose proof (Hst l El) as Hl. apply safe_block; [by destruct Hl|]. intros b Hb.
  eapply (safe_filled (l_function l)); [by apply try_frame_ok|]. intros [b' ok] Hs. cbn [fst snd layout] in *.
  assert (good_statics (TryStatics (layout_class st) (Some l) (match contact_cue st with Some c => Some c | None => static_object e CONTACT_CUE end)))
    by (intros l' [= <-]; done).
  destruct ok; [|by apply safe_ret]. apply safe_processed; [done|]. intros. by apply safe_ret.
Qed.
End Safe.

Section Safe.
Context {e : engine} {R : Reflected e}.

(** * Text components *)

(** A parameter looked up by its name, in a function with a signature. *)
Lemma param_room o n f sig q w p :
  function_of e o n = Some f -> (n, sig) ∈ SIGNATURES -> (q, w) ∈ sig -> param e f q = Some p -> (w <= psize p)%Z.
Proof. intros E Hs Hq Hp. eapply (r_signature o n f sig q w); eauto. Qed.

Ltac sig := repeat (first [by left | right]).

Lemma bare_ok o f : safe (process_bare o f) trivially.
Proof. exists [Process o f None], tt. split; [done|]. split; [|done]. by apply Forall_singleton. Qed.

Lemma safe_set_text slot o text : safe (set_text_render_string e slot o text) trivially.
Proof.
  destruct o as [c|], text as [text|]; [|by apply safe_ret..].
  apply (safe_bind _ _ trivially).
  - destruct (function_of e c "SetText") as [f|] eqn:E; [|by apply safe_ret].
    pose proof (r_laid _ _ _ E) as Hf.
    destruct (param e f "Value") as [p|] eqn:Ep; [|by apply safe_ret].
    pose proof (r_find _ _ _ Ep) as Hp. eapply (safe_room f p); [done|done|]. intros []; [|by apply safe_ret].
    eapply safe_block; [done|]. intros b Hb.
    eapply (safe_store f); [done|done| |done|].
    { cbn [width]. rewrite r_ftext. eapply (param_room c "SetText" f _ "Value" 24); [exact E|sig|sig|done]. }
    intros. apply safe_processed; [done|]. intros. by apply safe_ret.
  - intros [] _; [by apply safe_ret|]. destruct slot; [|by apply safe_ret].
    apply (safe_bind _ _ trivially); [|intros; by apply safe_ret].
    apply safe_on_function; [done|]. intros c' f _ _ _. apply bare_ok.
Qed.

(** The members of a parameter's struct, each inside it. *)
Lemma members_fit f p fields :
  laid_out e f -> p ∈ params f -> pstruct p = Some fields -> Forall (fits e (psize p)) fields.
Proof. intros Hf Hp Ef. destruct (param_fits f p Hf Hp) as [? ? ? ? Hs]. by apply (Hs fields Ef). Qed.

Lemma fill_fields_ok f p fields ok vs b :
  laid_out e f -> p ∈ params f -> Forall (fits e (psize p)) fields ->
  Forall (fun nv : string * cell => forall q, q ∈ fields -> ok q = true -> (width nv.2 <= psize q)%Z) vs -> sized f b ->
  exists r, fill_fields e fields ok (poffset p) vs b = Some r /\ forall b', r = Some b' -> sized f b'.
Proof.
  intros Hf Hp Hfit Hvs. destruct (param_fits f p Hf Hp). revert b.
  induction vs as [|[n c] vs IH]; intros b Hb; cbn [fill_fields]; [by eexists; split; [done|]; intros ? [= <-]|].
  apply list.Forall_cons in Hvs as [Hc Hvs].
  destruct (find_property e fields n) as [q|] eqn:Eq; [|by eexists]. apply r_find in Eq.
  destruct (ok q) eqn:Ok; [|by eexists]. rewrite list.Forall_forall in Hfit. destruct (Hfit q Eq).
  specialize (Hc q Eq Ok). cbn in Hc. unfold sized in Hb.
  destruct (store_ok (poffset p + poffset q) c b) as (b1 & -> & L); [lia|lia|]. cbn [mbind option_bind].
  apply IH; [done|]. unfold sized. lia.
Qed.

Lemma safe_fill {A} f (r : option (option frame)) (k : option frame -> M A) Q :
  (exists x, r = Some x /\ forall b', x = Some b' -> sized f b') ->
  (forall x, (forall b', x = Some b' -> sized f b') -> safe (k x) Q) -> safe (bind (attempt r) k) Q.
Proof.
  intros (x & E & Hs) Hk. eapply safe_bind; [by eapply (safe_attempt _ _ (fun r => r = x))|]. intros ? ->. by apply Hk.
Qed.

Lemma cast_struct_some p fields : cast_struct p = Some fields -> pstruct p = Some fields.
Proof. unfold cast_struct. by destruct (of_class _ p). Qed.

Lemma safe_set_vector mid rgb : safe (call_set_vector_parameter e mid rgb) trivially.
Proof.
  apply safe_on_function; [done|]. intros c f _ E Hf.
  destruct (param e f "ParameterName") as [name|] eqn:En; [|by apply safe_ret].
  destruct (param e f "Value") as [value|] eqn:Ev; [|by apply safe_ret]. apply r_find in En, Ev.
  destruct (cast_struct value) as [fields|] eqn:Ef; [|by apply safe_ret]. apply cast_struct_some in Ef.
  eapply (safe_room f value); [done|done|]. intros room.
  destruct (negb room || (psize name <? 0)%Z || (8 <? psize name)%Z) eqn:G; [by apply safe_ret|].
  destruct rgb as [[r g] bl]. eapply safe_block; [done|]. intros b Hb.
  eapply (safe_store f); [done|done| |done|].
  { cbn [width]. rewrite length_take. assert (length (le 8 (fname e "Color")) = 8%nat) by
      (pose proof (length_cell_bytes (Ptr (fname e "Color"))); cbn in *; lia). lia. }
  intros b1 Hb1. eapply (safe_fill f).
  { apply fill_fields_ok; [done|done|by eapply members_fit| |done].
    repeat (apply list.Forall_cons; split; [intros q _ Hq; cbn; apply Z.eqb_eq in Hq; lia|]). by apply list.Forall_nil. }
  intros [b2|] Hb2; [|by apply safe_ret]. apply safe_processed; [by apply Hb2|]. intros. by apply safe_ret.
Qed.

Lemma safe_refresh o : safe (force_render_refresh e o) trivially.
Proof.
  apply safe_on_function; [done|]. intros c f _ E Hf.
  destruct (param e f "bNewVisibility") as [p|] eqn:Ep; [|by apply safe_ret]. apply r_find in Ep.
  pose proof (param_fits f p Hf Ep) as [? ? ? ? ?]. pose proof Hf as [[? ?] ?].
  eapply safe_bind; [eapply (safe_attempt _ _ trivially); [apply add32_small; lia|done]|]. intros past _.
  case_match; [by apply safe_ret|]. cbv zeta.
  assert (forall v, safe (b <- new_frame (parms_size f) ;; b <- attempt (store (poffset p) (U8 v) b) ;;
                          quietly (process_frame e c f b)) trivially) as Hshow.
  { intros v. eapply safe_block; [done|]. intros b Hb.
    eapply (safe_store f); [done|done|cbn; lia|done|]. intros. by apply safe_done. }
  eapply safe_bind; [apply Hshow|]. intros. apply Hshow.
Qed.

Lemma safe_float_setter o n v : safe (call_float_setter e o n v) trivially.
Proof.
  apply safe_on_function; [done|]. intros c f _ E Hf. case_match; [by apply safe_ret|].
  eapply safe_block; [done|]. intros b Hb. eapply (safe_filled f).
  { apply (store_first_ok (e := e)); [done| |done]. intros p [_ H4]%List.find_some. apply Z.eqb_eq in H4. cbn. lia. }
  intros x Hx. apply safe_processed; [done|]. intros. by apply safe_ret.
Qed.

Lemma safe_rebuild size o : safe (TextCalls.force_text_rebuild e size o) trivially.
Proof.
  destruct o; [|by apply safe_ret]. unfold TextCalls.force_text_rebuild. case_match; [by apply safe_ret|].
  eapply safe_quietly, safe_float_setter.
Qed.

Lemma safe_relative_scale slot size o scale : safe (set_component_relative_scale e slot size o scale) trivially.
Proof.
  destruct o as [c|]; [|by apply safe_ret]. apply (safe_bind _ _ trivially).
  - destruct (static_function e _) as [f|] eqn:E; [|by apply safe_ret]. pose proof (r_static _ _ E) as Hf.
    destruct (param e f "NewScale3D") as [p|] eqn:Ep; [|by apply safe_ret]. case_match; [|by apply safe_ret].
    eapply safe_block; [done|]. intros b Hb.
    assert (pclass p = "StructProperty"%string) as Cp by (eapply r_vectors; eauto; by repeat constructor).
    apply r_find in Ep. eapply (safe_filled f).
    { unfold sized in *. destruct (vector_ok 0 (parms_size f) p scale b) as (x & -> & L);
        [by eapply param_fits|done|lia|lia|]. exists x. split; [done|]. lia. }
    intros [b' ok] Hs. cbn [fst snd] in *. destruct ok; [|by apply safe_ret].
    apply safe_processed; [done|]. intros. by apply safe_ret.
  - intros [] _; [by apply safe_ret|]. destruct slot; [|by apply safe_ret].
    eapply safe_bind; [apply safe_rebuild|]. intros. by apply safe_ret.
Qed.

Lemma safe_center size o : safe (center_text_component e size o) trivially.
Proof.
  destruct o as [c|]; [|by apply safe_ret].
  assert (forall n, safe (align e c n) trivially) as Ha.
  { intros n. apply safe_on_function; [done|]. intros c' f _ E Hf. case_match; [|by apply safe_ret].
    eapply safe_block; [done|]. intros b Hb. eapply (safe_store_at f); [lia|cbn; lia|done|].
    intros. apply safe_processed; [done|]. intros. by apply safe_ret. }
  eapply safe_bind; [apply Ha|]. intros h _. eapply safe_bind; [apply Ha|]. intros v _.
  case_match; [by apply safe_ret|]. eapply safe_bind; [apply safe_rebuild|]. intros. by apply safe_ret.
Qed.

(** * Widgets *)

Abbreviation filled := (option (option frame)).
Definition fills (n : nat) (r : filled) : Prop := exists x, r = Some x /\ forall b', x = Some b' -> length b' = n.

Lemma fills_and n m k : fills n m -> (forall b, length b = n -> fills n (k b)) -> fills n (and_fill m k).
Proof. intros ([b|] & -> & H) Hk; cbn; [by apply Hk, H|by exists None]. Qed.

Lemma fills_false n : fills n (Some None).
Proof. by exists None. Qed.

Lemma fills_true n b : length b = n -> fills n (Some (Some b)).
Proof. intros. exists (Some b). split; [done|]. by intros ? [= <-]. Qed.

Lemma fills_store o c b : (0 <= o)%Z -> (o + width c <= Z.of_nat (length b))%Z -> fills (length b) (Some <$> store o c b).
Proof. intros Ho Hw. destruct (store_ok o c b Ho Hw) as (b' & -> & L). by apply fills_true. Qed.

(** A member of a struct laid out in [room] bytes from [base]. *)
Lemma member_ok room p base v b :
  fits e room p -> pclass p ∉ INTEGERS -> (0 <= base)%Z -> (base + room <= Z.of_nat (length b))%Z ->
  fills (length b) (write_member e p base v b).
Proof.
  intros Hp Hi Hb Hr. pose proof Hp as [? ? ? Hk ?]. unfold write_member.
  assert (forall c w, kind_width c = Some w -> of_class c p = true -> psize p = w) as Hc.
  { intros c w Hw Hcl. apply Hk. unfold of_class in Hcl. apply bool_decide_eq_true in Hcl. by rewrite Hcl. }
  destruct (of_class "FloatProperty" p) eqn:C1; [apply fills_store; cbn; [lia|rewrite <- (Hc "FloatProperty"%string 4%Z eq_refl C1); lia]|].
  destruct (of_class "DoubleProperty" p) eqn:C2; [apply fills_store; cbn; [lia|rewrite <- (Hc "DoubleProperty"%string 8%Z eq_refl C2); lia]|].
  assert (forall c, c ∈ INTEGERS -> of_class c p = false) as Hno.
  { intros c Hin. unfold of_class. apply bool_decide_eq_false. by intros <-. }
  rewrite !Hno by (by repeat constructor). cbn [orb].
  destruct (of_class "BoolProperty" p); [|by apply fills_false].
  destruct (r_set_bool p base (dne v dzero) b room) as (b' & -> & L); [done..|]. by apply fills_true.
Qed.

Definition real_struct (room : Z) (layout : option (list fproperty)) : Prop :=
  forall fields, layout = Some fields -> Forall (fun q => fits e room q /\ pclass q ∉ INTEGERS /\ real_members q) fields.

Lemma members_ok room layout base vs b :
  real_struct room layout -> (0 <= base)%Z -> (base + room <= Z.of_nat (length b))%Z ->
  fills (length b) (write_members e layout base vs b).
Proof.
  intros Hl Hb. remember (length b) as n eqn:En. symmetry in En. revert b En.
  induction vs as [|[m v] vs IH]; intros b En Hr; cbn [write_members]; [by apply fills_true|].
  apply fills_and; [|intros; by apply IH].
  unfold hud_write_field. destruct (layout ≫= _) as [p|] eqn:Ep; [|by apply fills_false].
  apply bind_Some in Ep as (fields & -> & [Hin _]%List.find_some). specialize (Hl fields eq_refl).
  rewrite list.Forall_forall in Hl. destruct (Hl p) as (Hf & Hi & _); [by apply list_elem_of_In|].
  rewrite <- En. rewrite <- En in Hr. by apply (member_ok room).
Qed.

Lemma param_struct_real f p : laid_out e f -> p ∈ params f -> real_members p -> real_struct (psize p) (pstruct p).
Proof.
  intros Hf Hp [Hm] fields Ef. pose proof (members_fit f p fields Hf Hp Ef) as H. specialize (Hm fields Ef).
  rewrite list.Forall_forall in *. intros q Hq. specialize (Hm q Hq). split; [by apply H|tauto].
Qed.

Definition real_params (f : ufunction) : Prop := Forall real_members (params f).

Lemma fill_struct_ok f n vs b :
  laid_out e f -> real_params f -> sized f b -> fills (length b) (hud_fill_struct e n vs f b).
Proof.
  intros Hf Hr Hb. unfold hud_fill_struct, hud_param.
  destruct (find_property e (params f) n) as [p|] eqn:Ep; [|by apply fills_false]. apply r_find in Ep.
  case_match; [|by apply fills_false]. destruct (param_fits f p Hf Ep). unfold sized in Hb.
  apply (members_ok (psize p)); [|lia|lia]. apply (param_struct_real f); [done|done|].
  unfold real_params in Hr. rewrite list.Forall_forall in Hr. by apply Hr.
Qed.

Lemma fill_bool_ok f n v b : laid_out e f -> sized f b -> fills (length b) (hud_fill_bool e n v f b).
Proof.
  intros Hf Hb. unfold hud_fill_bool, hud_param.
  destruct (find_property e (params f) n) as [p|] eqn:Ep; [|by apply fills_false]. apply r_find in Ep.
  pose proof (param_fits f p Hf Ep) as Hp. pose proof Hp as [? ? ? ? ?]. unfold sized in Hb. case_match.
  - destruct (r_set_bool p 0 v b (parms_size f)) as (b' & -> & L); [done|lia|lia|]. by apply fills_true.
  - apply fills_store; cbn; lia.
Qed.

Lemma fill_cell_ok o n f sig q c b :
  function_of e o n = Some f -> (n, sig) ∈ SIGNATURES -> (q, width c) ∈ sig -> sized f b ->
  fills (length b) (match hud_param e f q with Some p => Some <$> store (poffset p) c b | None => Some None end).
Proof.
  intros E Hs Hq Hb. unfold hud_param. destruct (find_property e (params f) q) as [p|] eqn:Ep; [|by apply fills_false].
  pose proof (param_room o n f sig q _ p E Hs Hq Ep). pose proof (r_laid _ _ _ E) as Hf. apply r_find in Ep.
  destruct (param_fits f p Hf Ep). unfold sized in Hb. apply fills_store; lia.
Qed.

Lemma fill_ink_ok f rgb b : laid_out e f -> real_params f -> sized f b -> fills (length b) (fill_ink e rgb f b).
Proof.
  intros Hf Hr Hb. unfold fill_ink, hud_param.
  destruct (find_property e (params f) _) as [p|] eqn:Ep; [|by apply fills_false]. apply r_find in Ep.
  case_match; [|by apply fills_false]. destruct (param_fits f p Hf Ep). unfold sized in Hb.
  assert (real_members p) as Hm by (unfold real_params in Hr; rewrite list.Forall_forall in Hr; by apply Hr).
  pose proof (param_struct_real f p Hf Ep Hm) as Hs. unfold hud_nested.
  destruct (pstruct p ≫= _) as [q|] eqn:Eq; [|by apply fills_false].
  apply bind_Some in Eq as (fields & Ef & [Hin _]%List.find_some). specialize (Hs fields Ef).
  rewrite list.Forall_forall in Hs. destruct (Hs q) as (Hfq & _ & [Hmq]); [by apply list_elem_of_In|].
  destruct (pstruct q) as [sub|] eqn:Es; [|by apply fills_false]. destruct rgb as [[r g] bl].
  destruct Hfq as [? ? ? ? Hq]. destruct (Hq sub Es) as [Hall _].
  apply (members_ok (psize q)); [|lia|lia]. intros sub' [= <-]. specialize (Hmq sub eq_refl).
  rewrite list.Forall_forall in *. intros x Hx. specialize (Hmq x Hx). split; [by apply Hall|tauto].
Qed.

Lemma fill_text_ok f v b : laid_out e f -> sized f b -> fills (length b) (fill_text e v f b).
Proof.
  intros Hf Hb. unfold fill_text, hud_param.
  destruct (match find_property e (params f) "InText" with Some p => Some p | None => _ end) as [p|] eqn:Ep; [|by apply fills_false].
  assert (p ∈ params f) as Hp.
  { destruct (find_property e (params f) "InText") eqn:E1; [injection Ep as ->; by eapply r_find|].
    apply List.find_some in Ep as [Hin _]. by apply list_elem_of_In. }
  destruct (param_fits f p Hf Hp). unfold sized in Hb.
  destruct (Z.ltb_spec (psize p) (Z.of_nat (length (ftext e v)))); [by apply fills_false|]. apply fills_store; cbn; lia.
Qed.

Lemma safe_hud_call o n fill :
  (forall c f b, function_of e c n = Some f -> laid_out e f -> sized f b -> fills (length b) (fill f b)) ->
  safe (hud_call_on e o n fill) trivially.
Proof.
  intros Hfill. apply safe_on_function; [done|]. intros c f _ E Hf. cbv zeta.
  pose proof (sized_zeroed f (laid_pos (e := e) f Hf)) as Hb.
  destruct (Hfill c f _ E Hf Hb) as (x & -> & Hx).
  eapply safe_bind; [by eapply (safe_attempt _ _ (fun r => r = x))|]. intros ? ->.
  destruct x as [b|]; [|by apply safe_ret]. specialize (Hx b eq_refl).
  assert (sized f b) as Hs by (unfold sized in *; lia). destruct b as [|z b].
  - exists [Process c f None], (Some []). split; [done|]. split; [|done]. apply Forall_singleton. unfold sized in Hs. cbn in *. lia.
  - apply safe_processed; [done|]. intros. by apply safe_ret.
Qed.

Lemma no_filler_ok f b : fills (length b) (no_filler f b).
Proof. by apply fills_true. Qed.

Lemma safe_set_hud_text o v : safe (hud_set_text e o v) trivially.
Proof. eapply safe_quietly, safe_hud_call. intros. by apply fill_text_ok. Qed.

Lemma safe_perform_hud c : safe (perform_hud e c) trivially.
Proof.
  assert (forall n o f, n ∈ HUD_FUNCTIONS -> function_of e o n = Some f -> real_params f) as Hreal by (intros; by eapply r_hud).
  destruct c as [border rgb alpha|border all|border text|text size|text rgb|text value|widget x y|widget w h|w z|widget];
    cbn [perform_hud].
  - destruct rgb as [[r g] bl]. eapply safe_quietly, safe_hud_call. intros o f b E Hf Hb. apply fill_struct_ok; [done| |done].
    eapply Hreal; [|exact E]. by repeat constructor.
  - eapply safe_quietly, safe_hud_call. intros o f b E Hf Hb. apply fill_struct_ok; [done| |done].
    eapply Hreal; [|exact E]. by repeat constructor.
  - eapply safe_quietly, safe_hud_call. intros o f b E Hf Hb. unfold hud_fill_object.
    eapply (fill_cell_ok o "SetContent" f _ "Content" (Ptr text)); [exact E|sig|sig|done].
  - by apply safe_ret.
  - eapply safe_quietly, safe_hud_call. intros o f b E Hf Hb. apply fill_ink_ok; [done| |done].
    eapply Hreal; [|exact E]. by repeat constructor.
  - apply safe_set_hud_text.
  - eapply safe_quietly, safe_hud_call. intros o f b E Hf Hb. apply fills_and.
    + apply fill_struct_ok; [done| |done]. eapply Hreal; [|exact E]. by repeat constructor.
    + intros b' Hb'. rewrite <- Hb'. apply fill_bool_ok; [done|]. unfold sized in *. lia.
  - eapply safe_quietly, safe_hud_call. intros o f b E Hf Hb. apply fill_struct_ok; [done| |done].
    eapply Hreal; [|exact E]. by repeat constructor.
  - eapply safe_quietly, safe_hud_call. intros o f b E Hf Hb. unfold hud_fill_int.
    eapply (fill_cell_ok o "AddToViewport" f _ "ZOrder" (I32 z)); [exact E|sig|sig|done].
  - eapply safe_quietly, safe_hud_call. intros. apply no_filler_ok.
Qed.
End Safe.
