(* ===== verification/HudProps.v ===== *)
(** The widgets on the screen over any run of ticks, levels and losses: what is on the
    screen is held, nothing is left on it, and the clock shows the time. *)
From S2P Require Import Prelude Float64 FloatFacts CScan JsonString RemoteGhost Lifecycle VfxMirror PeerProps PoseMirror InputDisplay IndicatorConfig Hud.
From Stdlib Require Import NArith ZArith.

(** * The screen *)

Record shown := Shown { on_screen : gset Z; hud_texts : gmap Z wide }.
#[export] Instance shown_eta : Eta shown := fun r => Shown (on_screen r) (hud_texts r).
Definition shown0 : shown := Shown ∅ ∅.

Definition hshow (v : shown) (c : hud_call) : shown :=
  match c with
  | AddToViewport w _ => v <| on_screen := {[w]} ∪ on_screen v |>
  | RemoveFromParent w => v <| on_screen := on_screen v ∖ {[w]} |>
  | HudText t value => v <| hud_texts := <[t := value]> (hud_texts v) |>
  | _ => v
  end.

(** The widgets a handle names. *)
Definition names (h : owned) : gset Z := match o_ptr h with Some w => {[w]} | None => ∅ end.
Definition held (s : hud) : gset Z := names (g_hud_dot s) ∪ names (g_hud_clock s).

(** A widget the engine has collected is off the screen. *)
Definition collected (w : object_array) (h : owned) : gset Z := match handle_get w h with Some _ => ∅ | None => names h end.
Definition lose (w : object_array) (s : hud) (v : shown) : shown :=
  v <| on_screen := on_screen v ∖ (collected w (g_hud_dot s) ∪ collected w (g_hud_clock s)) |>.

(** What the engine promises of a tick: the three widgets are collected together, and a
    handle to a widget just made resolves. *)
Record tick_ok (env : widget_env) (parts : option made * option made * option Z) (s : hud) : Prop := TickOk {
  together : (forall x, handle_get (objects_before env) (g_hud_dot s) = Some x -> is_Some (resolved (objects_before env) s)) /\
             (forall x, handle_get (objects_before env) (g_hud_clock s) = Some x -> is_Some (resolved (objects_before env) s));
  fresh : forall d c t, parts = (Some d, Some c, Some t) ->
    forall x, x ∈ [m_widget d; m_widget c; t] -> handle_get (objects_after env) (handle_set (objects_after env) x) = Some x
}.

Section Screen.
Context (pow : double -> double -> double).

Inductive hud_step : hud * shown -> hud * shown -> Prop :=
  | HudTicked env cfg recording started now rt controller parts s v :
      tick_ok env parts s ->
      hud_step (s, v) ((tick_hud_indicator pow env cfg recording started now rt controller parts s).1,
                       foldl hshow (lose (objects_before env) s v) (tick_hud_indicator pow env cfg recording started now rt controller parts s).2)
  | HudLevel s v : hud_step (s, v) (forget_hud s, v).

Definition time_shown (s : hud) : wide := match g_recording_time_text s with [] => wide_str "0:00" | t => t end.

Record hud_ok (s : hud) (v : shown) : Prop := HudOk {
  ok_held : on_screen v ⊆ held s;
  ok_text : forall t, o_ptr (g_hud_text_block s) = Some t -> hud_texts v !! t = Some (time_shown s);
  ok_second : g_hud_last_second s = (-1)%Z \/ g_recording_time_text s = clock_text (g_hud_last_second s)
}.

Lemma get_names w h x : handle_get w h = Some x -> o_ptr h = Some x /\ names h = {[x]} /\ collected w h = ∅.
Proof.
  intros H. assert (o_ptr h = Some x) as E.
  { revert H. unfold handle_get. destruct (o_ptr h) as [p|]; [|done]. destruct (_ <? 0)%Z; [done|]. destruct (in_slot _ _); [|done].
    by destruct (_ && _). }
  unfold names, collected. by rewrite H, E.
Qed.

Lemma clock_text_some elapsed : clock_text elapsed <> [].
Proof. unfold clock_text. intros H. apply (f_equal length) in H. rewrite !length_app in H. cbn in H. lia. Qed.

Lemma same_positive a b : (dzero <? a)%double = true -> dne a b = false -> (dzero <? b)%double = true.
Proof.
  unfold dne. intros Ha E%negb_false_iff. unfold dlt, deq in *. destruct a as [|[]|na ma], b as [|[]|nb mb]; try done.
  cbn in *. destruct (signed na ma ?= signed nb mb)%Z eqn:Ec; try done. apply Z.compare_eq in Ec. by rewrite <- Ec.
Qed.

(** Placing draws nothing and forgets nothing. *)
Definition kept_hud (s s' : hud) : Prop :=
  g_hud_dot s' = g_hud_dot s /\ g_hud_clock s' = g_hud_clock s /\ g_hud_text_block s' = g_hud_text_block s.

Definition quiet (c : hud_call) : bool := match c with AddToViewport _ _ | RemoveFromParent _ | HudText _ _ => false | _ => true end.
Lemma show_quiet calls v : forallb quiet calls = true -> foldl hshow v calls = v.
Proof. induction calls as [|c calls IH]; [done|]. cbn. intros [Hc H]%andb_true_iff. destruct c; try done; by apply IH. Qed.

Lemma place_fields w cfg vw vh s :
  let (s', calls) := hud_place w cfg vw vh s in
  forallb quiet calls = true /\ kept_hud s s' /\ g_recording_time_text s' = g_recording_time_text s /\
  g_hud_last_second s' = g_hud_last_second s /\ g_hud_in_viewport s' = g_hud_in_viewport s /\
  (forall d c, handle_get w (g_hud_dot s) = Some d -> handle_get w (g_hud_clock s) = Some c -> g_hud_vw s' = vw).
Proof.
  unfold hud_place, kept_hud. destruct (handle_get w (g_hud_dot s)) as [d|]; [|by split_and!].
  destruct (handle_get w (g_hud_clock s)) as [c|]; [|by split_and!]. cbv zeta. destruct s. by split_and!.
Qed.

Lemma layout_shown env cfg w rt d c s v :
  handle_get w (g_hud_dot s) = Some d -> handle_get w (g_hud_clock s) = Some c ->
  let (s', calls) := hud_layout env cfg w rt d c s in
  let v' := foldl hshow v calls in
  kept_hud s s' /\ g_recording_time_text s' = g_recording_time_text s /\ hud_texts v' = hud_texts v /\
  (g_hud_last_second s' = g_hud_last_second s \/ g_hud_last_second s' = (-1)%Z) /\
  (on_screen v' = on_screen v \/ on_screen v' = {[c]} ∪ ({[d]} ∪ on_screen v)) /\
  (g_hud_in_viewport s = false \/ (rt mod 60 = 0)%Z -> is_in_viewport env = false ->
   forall vw vh, viewport_size env = Some (vw, vh) -> (dzero <? vw)%double = true -> on_screen v' = {[c]} ∪ ({[d]} ∪ on_screen v)).
Proof.
  intros Hd Hc. unfold hud_layout.
  destruct (g_hud_in_viewport s && negb (rt mod 60 =? 0)%Z) eqn:Eskip.
  { unfold kept_hud. split_and!; auto. intros [H|H]; exfalso; rewrite H in Eskip; [done|]. by rewrite andb_comm in Eskip. }
  destruct (default (dzero, dzero) (viewport_size env)) as [vw vh] eqn:Evw.
  set (moved := bool_decide _ && _).
  assert (exists s1 resized, (match desired_size env with
      | Some (mw, mh) => if g_hud_in_viewport s && (dne mw (g_hud_meas_w s) || dne mh (g_hud_meas_h s))
                         then (s <| g_hud_meas_w := mw |> <| g_hud_meas_h := mh |>, true) else (s, false)
      | None => (s, false) end) = (s1, resized) /\ kept_hud s s1 /\ g_recording_time_text s1 = g_recording_time_text s /\
      g_hud_last_second s1 = g_hud_last_second s /\ g_hud_vw s1 = g_hud_vw s) as (s1 & resized & -> & K1 & K2 & K3 & K4).
  { unfold kept_hud. destruct (desired_size env) as [[mw mh]|]; [|do 2 eexists; by split_and!].
    destruct (g_hud_in_viewport s && (dne mw _ || dne mh _)); do 2 eexists; (split; [reflexivity|]); by split_and!. }
  destruct K1 as (D1 & D2 & D3). rewrite <- D1 in Hd. rewrite <- D2 in Hc.
  assert (exists s2 c1, (if (moved || resized) && (dzero <? vw)%double then hud_place w cfg vw vh s1 else (s1, [])) = (s2, c1) /\
      forallb quiet c1 = true /\ kept_hud s1 s2 /\ g_recording_time_text s2 = g_recording_time_text s1 /\
      g_hud_last_second s2 = g_hud_last_second s1 /\
      ((moved || resized) && (dzero <? vw)%double = true -> g_hud_vw s2 = vw) /\
      ((moved || resized) && (dzero <? vw)%double = false -> g_hud_vw s2 = g_hud_vw s1)) as (s2 & c1 & -> & Q & (P1 & P2 & P3) & P4 & P5 & P6 & P7).
  { destruct ((moved || resized) && (dzero <? vw)%double) eqn:E; [|unfold kept_hud; do 2 eexists; split; [reflexivity|]; by split_and!].
    pose proof (place_fields w cfg vw vh s1) as H. destruct (hud_place w cfg vw vh s1) as [s2 c1].
    destruct H as (H1 & H2 & H3 & H4 & _ & H5). exists s2, c1. split_and!; try done. intros _. by eapply H5. }
  destruct (negb (is_in_viewport env) && (dzero <? g_hud_vw s2)%double) eqn:Eadd; cbv zeta.
  - rewrite foldl_app, (show_quiet _ _ Q). cbn [foldl hshow]. unfold kept_hud. destruct s2, v. cbn in *. split_and!; auto; congruence.
  - rewrite (show_quiet _ _ Q). unfold kept_hud. split_and!; try congruence; auto; [left; congruence|].
    intros _ Hin vw' vh' Ev Hpos. exfalso. rewrite Ev in Evw. injection Evw as -> ->. rewrite Hin in Eadd. cbn in Eadd.
    destruct ((moved || resized) && (dzero <? vw)%double) eqn:Em.
    + rewrite P6 in Eadd by done. congruence.
    + rewrite P7, K4 in Eadd by done. rewrite Hpos, andb_true_r in Em. apply orb_false_iff in Em as [Em _]. unfold moved in Em.
      rewrite Ev, bool_decide_true in Em by (by eexists). cbn in Em. apply orb_false_iff in Em as [Em _].
      by rewrite (same_positive _ _ Hpos Em) in Eadd.
Qed.

(** The clock's text, after it is looked at, is the time. *)
Lemma clock_shown cfg w elapsed text s v :
  (0 <= elapsed)%Z -> hud_texts v !! text = Some (time_shown s) ->
  (g_hud_last_second s = (-1)%Z \/ g_recording_time_text s = clock_text (g_hud_last_second s)) ->
  let (s', calls) := hud_clock cfg w elapsed text s in
  let v' := foldl hshow v calls in
  kept_hud s s' /\ hud_texts v' !! text = Some (clock_text elapsed) /\ time_shown s' = clock_text elapsed /\
  g_hud_last_second s' = elapsed /\ g_recording_time_text s' = clock_text elapsed /\ on_screen v' = on_screen v /\
  (forall t, t <> text -> hud_texts v' !! t = hud_texts v !! t).
Proof.
  intros He Ht Hs. unfold hud_clock. destruct (Z.eqb_spec elapsed (g_hud_last_second s)) as [E|Hne].
  - destruct Hs as [Hs|Hs]; [lia|]. rewrite <- E in Hs. unfold time_shown in *. rewrite Hs in *. pose proof (clock_text_some elapsed).
    destruct (clock_text elapsed) eqn:Ec; [done|]. unfold kept_hud. by split_and!.
  - set (s1 := s <| g_hud_last_second := elapsed |> <| g_recording_time_text := clock_text elapsed |>).
    assert (exists s2 c, (if negb (glyphs_of (g_recording_time_text s1) =? g_hud_placed_glyphs s1)%nat && (dzero <? g_hud_vw s1)%double
        then hud_place w cfg (g_hud_vw s1) (g_hud_vh s1) s1 else (s1, [])) = (s2, c) /\ forallb quiet c = true /\ kept_hud s1 s2 /\
        g_recording_time_text s2 = g_recording_time_text s1 /\ g_hud_last_second s2 = g_hud_last_second s1)
      as (s2 & c & -> & Q & K & K1 & K2).
    { destruct (negb _ && _); [|unfold kept_hud; do 2 eexists; split; [reflexivity|]; by split_and!].
      pose proof (place_fields w cfg (g_hud_vw s1) (g_hud_vh s1) s1) as H. destruct (hud_place _ _ _ _ s1) as [s2 c].
      destruct H as (H1 & H2 & H3 & H4 & _). by exists s2, c. }
    cbv zeta. cbn [foldl hshow]. rewrite (show_quiet _ _ Q). unfold kept_hud, time_shown in *. rewrite K1, K2.
    assert (g_recording_time_text s1 = clock_text elapsed) as -> by (by destruct s).
    assert (g_hud_last_second s1 = elapsed) as -> by (by destruct s). pose proof (clock_text_some elapsed).
    destruct (clock_text elapsed) as [|u us] eqn:Ec; [done|].
    assert (kept_hud s s1) as (F1 & F2 & F3) by (unfold kept_hud; by destruct s). destruct K as (G1 & G2 & G3).
    destruct v. cbn. rewrite lookup_insert_eq. split_and!; try congruence. intros t Hne'. by rewrite lookup_insert_ne.
Qed.

(** A teardown of widgets that are all there takes both off the screen. *)
Lemma torn_down w s v :
  is_Some (resolved w s) -> on_screen v ⊆ held s ->
  let (s', calls) := hud_tear_down w s in
  let v' := foldl hshow v calls in
  on_screen v' = ∅ /\ hud_texts v' = hud_texts v /\ held s' = ∅ /\ o_ptr (g_hud_text_block s') = None /\
  g_hud_last_second s' = (-1)%Z /\ g_recording_time_text s' = g_recording_time_text s /\ g_hud_in_viewport s' = false.
Proof.
  unfold resolved, hud_tear_down, hud_remove. intros Hr Hv.
  destruct (handle_get w (g_hud_dot s)) as [d|] eqn:Ed; [|by destruct Hr]. destruct (handle_get w (g_hud_clock s)) as [c|] eqn:Ec; [|by destruct Hr].
  apply get_names in Ed as (_ & E1 & _). apply get_names in Ec as (_ & E2 & _). unfold held in *. rewrite E1, E2 in Hv.
  destruct v as [sc tx], s. cbn in *. split_and!; try done; set_solver.
Qed.
(** What is left of the screen once the collected widgets are off it. *)
Lemma lose_ok env parts s v :
  tick_ok env parts s -> hud_ok s v ->
  let v0 := lose (objects_before env) s v in
  hud_ok s v0 /\ (is_Some (resolved (objects_before env) s) \/ any_widget (objects_before env) s = false /\ on_screen v0 = ∅).
Proof.
  intros [[Hd Hc] _] [H1 H2 H3]. cbv zeta. split; [split; [|done..]; destruct v; cbn in *; set_solver|].
  unfold any_widget. destruct (handle_get _ (g_hud_dot s)) as [d|] eqn:Ed; [left; by eapply Hd|].
  destruct (handle_get _ (g_hud_clock s)) as [c|] eqn:Ec; [left; by eapply Hc|]. right. split; [done|].
  unfold lose, collected. rewrite Ed, Ec. destruct v. unfold held in H1. cbn in *. set_solver.
Qed.

Lemma resolved_any w s : is_Some (resolved w s) -> any_widget w s = true.
Proof. unfold resolved, any_widget. destruct (handle_get w (g_hud_dot s)); [done|]. by intros []. Qed.

Lemma unresolved w s : o_ptr (g_hud_text_block s) = None -> resolved w s = None.
Proof. intros H. unfold resolved, handle_get. rewrite H. by repeat case_match. Qed.

(** Widgets just built, on a screen that has none. *)
Lemma built_shown env cfg d c t s v :
  game_instance env = true -> on_screen v = ∅ ->
  (forall x, x ∈ [m_widget d; m_widget c; t] -> handle_get (objects_after env) (handle_set (objects_after env) x) = Some x) ->
  (g_hud_last_second s = (-1)%Z \/ g_recording_time_text s = clock_text (g_hud_last_second s)) ->
  exists s' calls, hud_build pow env cfg (Some d, Some c, Some t) s = Some (s', calls) /\
    hud_ok s' (foldl hshow v calls) /\ resolved (objects_after env) s' = Some (m_widget d, m_widget c, t) /\
    on_screen (foldl hshow v calls) = ∅ /\ g_hud_in_viewport s' = false.
Proof.
  intros Hg Hv Hf Hs. unfold hud_build. rewrite Hg. cbn [negb]. do 2 eexists. split; [reflexivity|].
  split; [split|]; cbn [foldl hshow].
  - destruct v. cbn in *. set_solver.
  - destruct v, s. cbn. intros t' [= <-]. by rewrite lookup_insert_eq.
  - by destruct s.
  - unfold resolved. destruct s. cbn -[handle_get handle_set]. rewrite !Hf by set_solver. split; [done|]. by destruct v.
Qed.

Lemma widgets_shown env cfg parts s v :
  tick_ok env parts s -> hud_ok s v ->
  (is_Some (resolved (objects_before env) s) \/ any_widget (objects_before env) s = false /\ on_screen v = ∅) ->
  let '(s1, c1, w) := hud_widgets pow env cfg parts s in
  let v1 := foldl hshow v c1 in
  hud_ok s1 v1 /\
  (forall w', w = Some w' -> is_Some (resolved w' s1)) /\
  (forall d c t, game_instance env = true -> parts = (Some d, Some c, Some t) -> w <> None).
Proof.
  intros Hok Hs Hb. unfold hud_widgets.
  assert (exists s1 c1, (if negb (g_hud_built_gen s =? g_hud_tuning_gen cfg)%Z && any_widget (objects_before env) s
            then hud_tear_down (objects_before env) s else (s, [])) = (s1, c1) /\ hud_ok s1 (foldl hshow v c1) /\
          (is_Some (resolved (objects_before env) s1) \/ on_screen (foldl hshow v c1) = ∅)) as (s1 & c1 & -> & Hs1 & Hb1).
  { destruct (negb _ && _) eqn:E.
    - apply andb_true_iff in E as [_ E]. destruct Hb as [Hb|[Hb _]]; [|congruence].
      pose proof (torn_down (objects_before env) s v Hb (ok_held _ _ Hs)) as H. destruct (hud_tear_down _ s) as [s1 c1].
      destruct H as (E1 & E2 & E3 & E4 & E5 & E6 & _). exists s1, c1. split; [done|]. split; [|by right].
      split; [rewrite E1; set_solver|by rewrite E4|by left].
    - exists s, []. split; [done|]. split; [done|]. destruct Hb as [Hb|[_ Hb]]; auto. }
  destruct (resolved (objects_before env) s1) as [x|] eqn:Er.
  { split; [done|]. split; [|done]. intros w' [= <-]. by rewrite Er. }
  destruct Hb1 as [Hb1|Hb1]; [by destruct Hb1|].
  destruct (hud_build pow env cfg parts s1) as [[s2 c2]|] eqn:Eb.
  - assert (exists d c t, parts = (Some d, Some c, Some t) /\ game_instance env = true) as (d & c & t & -> & Hg).
    { unfold hud_build in Eb. destruct (game_instance env); [|done]. destruct parts as [[[d|] [c|]] [t|]]; try done. by exists d, c, t. }
    destruct (built_shown env cfg d c t s1 (foldl hshow v c1) Hg Hb1 (fresh _ _ _ Hok d c t eq_refl) (ok_second _ _ Hs1))
      as (s2' & c2' & E & H1 & H2 & _). rewrite E in Eb. injection Eb as <- <-. rewrite foldl_app. split; [done|]. split; [|done].
    intros w' [= <-]. by rewrite H2.
  - split; [done|]. split; [done|]. intros d c t Hg ->. exfalso. revert Eb. unfold hud_build. by rewrite Hg.
Qed.

Lemma both_shown (X : gset Z) a b : X ⊆ {[a]} ∪ {[b]} -> {[b]} ∪ ({[a]} ∪ X) = {[b]} ∪ {[a]}.
Proof. set_solver. Qed.

(** One tick. *)
Lemma tick_shown env cfg recording started now rt controller parts s v :
  tick_ok env parts s -> hud_ok s v ->
  let (s', calls) := tick_hud_indicator pow env cfg recording started now rt controller parts s in
  let v' := foldl hshow (lose (objects_before env) s v) calls in
  hud_ok s' v' /\
  (recording = false \/ g_rec_indicator_enabled cfg = false -> on_screen v' = ∅) /\
  (recording = true -> g_rec_indicator_enabled cfg = true -> controller <> None -> game_instance env = true ->
   forall d c t, parts = (Some d, Some c, Some t) ->
   exists dot clock text, o_ptr (g_hud_dot s') = Some dot /\ o_ptr (g_hud_clock s') = Some clock /\
     o_ptr (g_hud_text_block s') = Some text /\ hud_texts v' !! text = Some (clock_text (elapsed_seconds started now)) /\
     forall vw vh, viewport_size env = Some (vw, vh) -> (dzero <? vw)%double = true -> is_in_viewport env = false ->
       (rt mod 60 = 0)%Z -> on_screen v' = {[clock]} ∪ {[dot]}).
Proof.
  intros Hok Hs. destruct (lose_ok env parts s v Hok Hs) as [Hs0 Hb]. revert Hs0 Hb. generalize (lose (objects_before env) s v).
  clear v Hs. intros v Hs Hb. unfold tick_hud_indicator.
  destruct (negb recording || negb (g_rec_indicator_enabled cfg)) eqn:Eoff.
  { assert (recording = true -> g_rec_indicator_enabled cfg = true -> False) as Hno.
    { intros H1 H2. by rewrite H1, H2 in Eoff. }
    destruct Hb as [Hb|[Hb Hv]].
    - rewrite (resolved_any _ _ Hb). pose proof (torn_down (objects_before env) s v Hb (ok_held _ _ Hs)) as H.
      destruct (hud_tear_down _ s) as [s1 c1]. destruct H as (E1 & E2 & E3 & E4 & E5 & E6 & _). cbv zeta. split_and!.
      + split; [rewrite E1; set_solver|by rewrite E4|by left].
      + done.
      + intros H1 H2. by destruct (Hno H1 H2).
    - rewrite Hb. cbv zeta. cbn [foldl]. split_and!; [done|done|]. intros H1 H2. by destruct (Hno H1 H2). }
  apply orb_false_iff in Eoff as [->%negb_false_iff Hen%negb_false_iff].
  destruct controller as [ct|]; [|cbv zeta; split_and!; [done|intros [|]; congruence|done]].
  pose proof (widgets_shown env cfg parts s v Hok Hs Hb) as H. destruct (hud_widgets pow env cfg parts s) as [[s1 c1] w].
  destruct H as (Hs1 & Hr & Hw). destruct w as [w|].
  2:{ cbv zeta. split_and!; [done|intros [|]; congruence|]. intros _ _ _ Hg d c t Hp. by destruct (Hw d c t Hg Hp). }
  specialize (Hr w eq_refl). destruct (resolved w s1) as [[[dot clock] text]|] eqn:Er; [|by destruct Hr]. clear Hr Hw.
  unfold resolved in Er. destruct (handle_get w (g_hud_dot s1)) as [d0|] eqn:Ed; [|done].
  destruct (handle_get w (g_hud_clock s1)) as [c0|] eqn:Ec; [|done].
  destruct (handle_get w (g_hud_text_block s1)) as [t0|] eqn:Et; [|done]. injection Er as -> -> ->.
  pose proof (get_names _ _ _ Ed) as (Pd & Nd & _). pose proof (get_names _ _ _ Ec) as (Pc & Nc & _). pose proof (get_names _ _ _ Et) as (Pt & _).
  destruct Hs1 as [Hh1 Ht1 Hsec1].
  pose proof (layout_shown env cfg w rt dot clock s1 (foldl hshow v c1) Ed Ec) as HL.
  destruct (hud_layout env cfg w rt dot clock s1) as [s2 c2]. destruct HL as ((F1 & F2 & F3) & L1 & L2 & L3 & L4 & L5).
  assert (0 <= elapsed_seconds started now)%Z as He.
  { unfold elapsed_seconds. destruct (started >? 0)%Z, (Z.gtb_spec now started); cbn; try done. apply Z.div_pos; lia. }
  pose proof (clock_shown cfg w (elapsed_seconds started now) text s2 (foldl hshow (foldl hshow v c1) c2) He) as HC.
  rewrite L2 in HC. specialize (HC ltac:(rewrite (Ht1 _ Pt); unfold time_shown; by rewrite L1)).
  specialize (HC ltac:(destruct L3 as [-> | ->]; [rewrite L1; exact Hsec1|by left])).
  destruct (hud_clock cfg w (elapsed_seconds started now) text s2) as [s3 c3]. cbv zeta in *. rewrite !foldl_app.
  destruct HC as ((G1 & G2 & G3) & C1 & C2 & C3 & C4 & C5 & C6).
  assert (held s3 = held s1) as Eh by (unfold held; congruence). unfold held in Hh1. rewrite Nd, Nc in Hh1. split_and!.
  - split.
    + rewrite C5, Eh. unfold held. rewrite Nd, Nc. destruct L4 as [-> | ->]; set_solver.
    + rewrite G3, F3, Pt. intros t [= <-]. by rewrite C1, C2.
    + right. by rewrite C4, C3.
  - intros [|]; congruence.
  - intros _ _ _ _ d c t _. exists dot, clock, text. rewrite G1, F1, G2, F2, G3, F3. split_and!; [done..|].
    intros vw vh Ev Hpos Hin Hrt. rewrite C5, (L5 (or_intror Hrt) Hin vw vh Ev Hpos). by apply both_shown.
Qed.

Lemma hud_reached st : rtc hud_step (hud0, shown0) st -> hud_ok st.1 st.2.
Proof.
  intros H. assert (hud_ok (hud0, shown0).1 (hud0, shown0).2) as H0 by (split; [set_solver|done|by left]).
  revert H H0. generalize (hud0, shown0). induction 1 as [|st1 st2 st3 Hstep _ IH]; [done|]. intros H0. apply IH.
  destruct Hstep as [env cfg recording started now rt controller parts s v Hok|s v]; cbn [fst snd] in *.
  - pose proof (tick_shown env cfg recording started now rt controller parts s v Hok H0) as H.
    destruct (tick_hud_indicator _ _ _ _ _ _ _ _ _ s) as [s' calls]. apply H.
  - destruct H0 as [H1 H2 H3]. by destruct s.
Qed.

(** C19: over any run of ticks, with the settings, the recording and the engine's answers as
    they may be, and of level ends: what is on the screen is a widget still held; a tick
    that finds no recording, or the indicator switched off, leaves nothing on the screen;
    and a tick that finds a recording, where the engine can build widgets, has a clock
    whose text is the time recorded so far, minutes and seconds, and both widgets on the
    screen at the ticks (one in sixty) that look and find the engine not showing them in a
    viewport whose size is known.  Assumed of the engine's garbage collector, at every
    tick: it may take the widgets, but not the dot or the clock's frame and leave the
    other or lose their text block (if it does, the one left stays on the screen,
    [half_collected_stays]), and a handle to a widget just made resolves. *)
Theorem hud_follows_recording (s : hud) (v : shown) (Hrun : rtc hud_step (hud0, shown0) (s, v))
    (env : widget_env) (cfg : indicator) (recording : bool) (started now rt : Z) (controller : option Z)
    (parts : option made * option made * option Z) (Hok : tick_ok env parts s) :
  let (s', calls) := tick_hud_indicator pow env cfg recording started now rt controller parts s in
  let v' := foldl hshow (lose (objects_before env) s v) calls in
  on_screen v' ⊆ held s' /\
  (recording = false \/ g_rec_indicator_enabled cfg = false -> on_screen v' = ∅) /\
  (recording = true -> g_rec_indicator_enabled cfg = true -> controller <> None -> game_instance env = true ->
   forall d c t, parts = (Some d, Some c, Some t) ->
   exists dot clock text, o_ptr (g_hud_dot s') = Some dot /\ o_ptr (g_hud_clock s') = Some clock /\
     o_ptr (g_hud_text_block s') = Some text /\ hud_texts v' !! text = Some (clock_text (elapsed_seconds started now)) /\
     forall vw vh, viewport_size env = Some (vw, vh) -> (dzero <? vw)%double = true -> is_in_viewport env = false ->
       (rt mod 60 = 0)%Z -> on_screen v' = {[clock]} ∪ {[dot]}).
Proof.
  pose proof (tick_shown env cfg recording started now rt controller parts s v Hok (hud_reached _ Hrun)) as H.
  destruct (tick_hud_indicator _ _ _ _ _ _ _ _ _ s) as [s' calls]. cbv zeta in *. destruct H as ([H _ _] & H1 & H2). by split.
Qed.

End Screen.

(** * A panel *)

Definition lose_panel (w : object_array) (s : panel_widgets) (v : shown) : shown :=
  v <| on_screen := on_screen v ∖ collected w (panel_handle s) |>.

(** A panel is not collected without its text, and a handle to one just made resolves. *)
Record panel_tick_ok (env : widget_env) (parts : option (made * Z)) (s : panel_widgets) : Prop := PanelTickOk {
  panel_together : forall x, handle_get (objects_before env) (panel_handle s) = Some x ->
                     is_Some (handle_get (objects_before env) (panel_text_block s));
  panel_fresh : forall p t, parts = Some (p, t) ->
    forall x, x ∈ [m_widget p; t] -> handle_get (objects_after env) (handle_set (objects_after env) x) = Some x
}.

(** A tick; or anything that leaves the widgets alone: its rows observed, its text drawn, a
    level's end, the settings polled. *)
Inductive panel_step : panel_widgets * shown -> panel_widgets * shown -> Prop :=
  | PanelTicked env cfg z rt wanted left controller parts s v :
      panel_tick_ok env parts s ->
      panel_step (s, v) ((input_display_tick_panel env cfg z rt wanted left controller parts s).1,
                         foldl hshow (lose_panel (objects_before env) s v) (input_display_tick_panel env cfg z rt wanted left controller parts s).2)
  | PanelOther d s v : panel_step (s, v) (s <| drawn_panel := d |>, v).

Lemma panel_torn_down w s v p :
  handle_get w (panel_handle s) = Some p -> on_screen v ⊆ names (panel_handle s) ->
  let (s', calls) := input_display_tear_down w s in
  on_screen (foldl hshow v calls) = ∅ /\ o_ptr (panel_handle s') = None /\ on_left s' = on_left s.
Proof.
  intros Hp Hv. unfold input_display_tear_down, hud_remove. rewrite Hp. apply get_names in Hp as (_ & E & _). rewrite E in Hv.
  destruct v, s. cbn in *. split_and!; try done. set_solver.
Qed.

Lemma get_none w h : o_ptr h = None -> handle_get w h = None.
Proof. intros H. unfold handle_get. by rewrite H. Qed.

Lemma panel_layout_shown env z w rt p s v :
  handle_get w (panel_handle s) = Some p -> on_screen v ⊆ {[p]} ->
  let (s', calls) := panel_layout env z w rt p s in
  let v' := foldl hshow v calls in
  panel_handle s' = panel_handle s /\ on_left s' = on_left s /\ on_screen v' ⊆ {[p]} /\
  (in_viewport (drawn_panel s) = false \/ (rt mod 60 = 0)%Z -> is_in_viewport env = false ->
   forall vw vh, viewport_size env = Some (vw, vh) -> (dzero <? vw)%double = true -> on_screen v' = {[p]}).
Proof.
  intros Hp Hv. unfold panel_layout.
  destruct (in_viewport (drawn_panel s) && negb (rt mod 60 =? 0)%Z) eqn:Eskip.
  { split_and!; auto. intros [H|H]; exfalso; rewrite H in Eskip; [done|]. by rewrite andb_comm in Eskip. }
  set (width := default dzero _). set (moved := bool_decide _ && _).
  assert (exists s1 resized, (match desired_size env with
      | Some (mw, _) => if in_viewport (drawn_panel s) && negb (on_left s) && dne mw (meas_w s)
                        then (s <| meas_w := mw |>, true) else (s, false)
      | None => (s, false) end) = (s1, resized) /\ panel_handle s1 = panel_handle s /\ on_left s1 = on_left s /\
      vw (drawn_panel s1) = vw (drawn_panel s)) as (s1 & resized & -> & K1 & K2 & K3).
  { destruct (desired_size env) as [[mw mh]|]; [|by do 2 eexists].
    destruct (in_viewport _ && negb _ && dne mw _); by do 2 eexists. }
  rewrite <- K1 in Hp.
  assert (exists s2 c1, (if (moved || resized) && (dzero <? width)%double then input_display_place w width s1 else (s1, [])) = (s2, c1) /\
      forallb quiet c1 = true /\ panel_handle s2 = panel_handle s1 /\ on_left s2 = on_left s1 /\
      vw (drawn_panel s2) = if (moved || resized) && (dzero <? width)%double then width else vw (drawn_panel s1)) as (s2 & c1 & -> & Q & P1 & P2 & P3).
  { destruct ((moved || resized) && (dzero <? width)%double); [|by do 2 eexists]. unfold input_display_place. rewrite Hp. do 2 eexists.
    split; [reflexivity|]. by destruct s1. }
  destruct (negb (is_in_viewport env) && (dzero <? vw (drawn_panel s2))%double) eqn:Eadd; cbv zeta.
  - rewrite foldl_app, (show_quiet _ _ Q). cbn [foldl hshow]. destruct s2, v. cbn in *. split_and!; try congruence; set_solver.
  - rewrite (show_quiet _ _ Q). split_and!; try congruence; [done|].
    intros _ Hin vw' vh' Ev Hpos. exfalso.
    assert (width = vw') as Ew by (unfold width; by rewrite Ev).
    assert (moved = dne vw' (vw (drawn_panel s))) as Em by (unfold moved, width; by rewrite Ev).
    rewrite Hin, P3, K3, Em, Ew, Hpos, andb_true_r in Eadd. cbn [negb andb] in Eadd.
    destruct (dne vw' (vw (drawn_panel s))) eqn:Ed; cbn [orb] in Eadd; [congruence|].
    destruct resized; [congruence|]. by rewrite (same_positive _ _ Hpos Ed) in Eadd.
Qed.

Lemma empty_sub (X : gset Z) a : X = ∅ -> X ⊆ {[a]}.
Proof. set_solver. Qed.

(** One tick of a panel. *)
Lemma panel_tick_shown env cfg z rt wanted left controller parts s v :
  panel_tick_ok env parts s -> on_screen v ⊆ names (panel_handle s) ->
  let (s', calls) := input_display_tick_panel env cfg z rt wanted left controller parts s in
  let v' := foldl hshow (lose_panel (objects_before env) s v) calls in
  on_screen v' ⊆ names (panel_handle s') /\
  (wanted = false -> on_screen v' = ∅) /\
  (wanted = true -> controller <> None -> game_instance env = true -> forall p t, parts = Some (p, t) ->
   on_left s' = left /\
   exists w, o_ptr (panel_handle s') = Some w /\
     forall vw vh, viewport_size env = Some (vw, vh) -> (dzero <? vw)%double = true -> is_in_viewport env = false ->
       (rt mod 60 = 0)%Z -> on_screen v' = {[w]}).
Proof.
  intros [Hto Hfr] Hv. assert (on_screen (lose_panel (objects_before env) s v) ⊆ names (panel_handle s) /\
    (handle_get (objects_before env) (panel_handle s) = None -> on_screen (lose_panel (objects_before env) s v) = ∅)) as [Hv0 Hlost].
  { unfold lose_panel, collected. destruct v. cbn in *. split; [set_solver|]. intros ->. set_solver. }
  revert Hv0 Hlost. generalize (lose_panel (objects_before env) s v). clear v Hv. intros v Hv Hlost. unfold input_display_tick_panel. cbv zeta.
  destruct wanted; cbn [negb].
  2:{ unfold panel_here. destruct (handle_get (objects_before env) (panel_handle s)) as [p|] eqn:Ep.
      - rewrite bool_decide_true by (by eexists). pose proof (panel_torn_down _ s v p Ep Hv) as H. destruct (input_display_tear_down _ s) as [s1 c1]. destruct H as (H1 & H2 & _).
        cbv zeta. rewrite H1. split_and!; try done; set_solver.
      - rewrite bool_decide_false by (by intros []). cbv zeta. cbn [foldl]. rewrite (Hlost eq_refl). split_and!; try done; set_solver. }
  destruct controller as [ct|]; [|by split_and!].
  set (s0 := if xorb left (on_left s) then _ else s).
  assert (panel_handle s0 = panel_handle s /\ panel_text_block s0 = panel_text_block s /\ on_left s0 = left) as (E1 & E2 & E3).
  { unfold s0. by destruct (xorb left (on_left s)) eqn:Ex; destruct left, s as [? ? ? ? [] ?]. }
  clearbody s0. rewrite <- E1 in Hv, Hlost, Hto. rewrite <- E2 in Hto. clear E1 E2 s.
  assert (exists s1 c1, (if negb (built_gen s0 =? g_disp_tuning_gen cfg)%Z && panel_here (objects_before env) s0
            then input_display_tear_down (objects_before env) s0 else (s0, [])) = (s1, c1) /\ on_left s1 = left /\
      on_screen (foldl hshow v c1) ⊆ names (panel_handle s1) /\
      ((exists p t, handle_get (objects_before env) (panel_handle s1) = Some p /\ handle_get (objects_before env) (panel_text_block s1) = Some t) \/
       handle_get (objects_before env) (panel_handle s1) = None /\ on_screen (foldl hshow v c1) = ∅)) as (s1 & c1 & -> & L1 & Hv1 & Hb).
  { unfold panel_here. destruct (handle_get (objects_before env) (panel_handle s0)) as [p|] eqn:Ep.
    - rewrite bool_decide_true by (by eexists). destruct (negb _ && _).
      + pose proof (panel_torn_down _ s0 v p Ep Hv) as H. destruct (input_display_tear_down _ s0) as [s1 c1]. destruct H as (H1 & H2 & H3).
        exists s1, c1. split_and!; [done|congruence|rewrite H1; set_solver|]. right. split; [by apply get_none|done].
      + exists s0, []. split_and!; try done. left. destruct (Hto p eq_refl) as [t Ht]. by exists p, t.
    - rewrite bool_decide_false, andb_comm by (by intros []). exists s0, []. split_and!; try done. right. split; [done|by apply Hlost]. }
  destruct Hb as [(p & t & Ep & Et)|[Ep Hb]].
  - rewrite Ep, Et, Ep. pose proof (get_names _ _ _ Ep) as (Pp & Np & _). rewrite Np in Hv1.
    pose proof (panel_layout_shown env z _ rt p s1 _ Ep Hv1) as H. destruct (panel_layout _ _ _ _ _ s1) as [s2 c2].
    destruct H as (H1 & H2 & H3 & H4). rewrite app_nil_l, foldl_app, H1, Np. split_and!; try done. intros _ _ _ p' t' _.
    split; [congruence|]. exists p. split; [done|]. intros a b Hab Hpos Hin Hrt. by eapply H4; eauto.
  - rewrite Ep. unfold input_display_build. destruct (game_instance env) eqn:Eg; cbn [negb].
    2:{ rewrite app_nil_r. by split_and!. }
    destruct parts as [[p t]|]; [|rewrite app_nil_r; by split_and!]. cbn iota beta.
    match goal with |- context [handle_get (objects_after env) (panel_handle ?x)] => set (s2 := x) end.
    match goal with |- context [c1 ++ ?x] => set (c2 := x) end.
    assert (panel_handle s2 = handle_set (objects_after env) (m_widget p) /\ on_left s2 = left) as [S1 S2] by (by destruct s1).
    assert (handle_get (objects_after env) (panel_handle s2) = Some (m_widget p)) as Eh by (rewrite S1; apply (Hfr p t eq_refl), list_elem_of_here).
    rewrite Eh. pose proof (get_names _ _ _ Eh) as (_ & Np & _).
    assert (on_screen (foldl hshow v (c1 ++ c2)) ⊆ {[m_widget p]}) as Hc2 by (rewrite foldl_app; apply empty_sub; rewrite <- Hb; by destruct (foldl hshow v c1)).
    pose proof (panel_layout_shown env z _ rt _ s2 _ Eh Hc2) as H. destruct (panel_layout _ _ _ _ _ s2) as [s3 c3].
    destruct H as (H1 & H2 & H3 & H4). rewrite app_assoc, foldl_app, H1, Np. split_and!; try done. intros _ _ _ p' t' _.
    split; [congruence|]. exists (m_widget p). split; [by rewrite S1|]. intros a b Hab Hpos Hin Hrt. by eapply H4; eauto.
Qed.

Lemma panel_reached s0 st : rtc panel_step (s0, shown0) st -> on_screen st.2 ⊆ names (panel_handle st.1).
Proof.
  intros H. assert (on_screen (s0, shown0).2 ⊆ names (panel_handle (s0, shown0).1)) as H0 by (cbn; set_solver).
  revert H H0. generalize (s0, shown0). induction 1 as [|st1 st2 st3 Hstep _ IH]; [done|]. intros H0. apply IH.
  destruct Hstep as [env cfg z rt wanted left controller parts s v Hok|d s v]; cbn [fst snd] in *; [|exact H0].
  pose proof (panel_tick_shown env cfg z rt wanted left controller parts s v Hok H0) as H.
  destruct (input_display_tick_panel _ _ _ _ _ _ _ _ s) as [s' calls]. apply H.
Qed.

(** A panel follows its setting.  Over any run of its ticks, with the settings, the
    engine's answers and its collections as they may be, and of whatever else happens to
    its rows and its text: what is on the screen is the widget held; a tick that does not
    want the panel leaves nothing on the screen; and a tick that wants it, where the
    engine can build widgets, has it on the side asked for, on the screen where the engine
    is found not to show it. *)
Theorem panel_follows_setting (s0 s : panel_widgets) (v : shown) (Hrun : rtc panel_step (s0, shown0) (s, v))
    (env : widget_env) (cfg : input_display) (z rt : Z) (wanted left : bool) (controller : option Z) (parts : option (made * Z))
    (Hok : panel_tick_ok env parts s) :
  let (s', calls) := input_display_tick_panel env cfg z rt wanted left controller parts s in
  let v' := foldl hshow (lose_panel (objects_before env) s v) calls in
  on_screen v' ⊆ names (panel_handle s') /\
  (wanted = false -> on_screen v' = ∅) /\
  (wanted = true -> controller <> None -> game_instance env = true -> forall p t, parts = Some (p, t) ->
   on_left s' = left /\
   exists w, o_ptr (panel_handle s') = Some w /\
     forall vw vh, viewport_size env = Some (vw, vh) -> (dzero <? vw)%double = true -> is_in_viewport env = false ->
       (rt mod 60 = 0)%Z -> on_screen v' = {[w]}).
Proof. apply panel_tick_shown; [done|]. exact (panel_reached s0 _ Hrun). Qed.

(** * A sample run

    A recording begins, a level ends, the widgets are collected and built again. *)

(** An array whose objects each sit in the slot of their own number, but the [gone]. *)
Definition sample_array (gone : list Z) : object_array :=
  ObjectArray Some (fun i => bool_decide (i ∉ gone)) (fun o => o) (fun o => o).
Definition sample_widgets (gone : list Z) (inside : bool) : widget_env :=
  WidgetEnv (sample_array gone) (sample_array gone) true (Some (of_Z 1920, of_Z 1080)) (Some (of_Z 80, of_Z 44)) inside.
Definition sample_parts (base : Z) : option made * option made * option Z :=
  (Some (Made base (base + 1)), Some (Made (base + 2) (base + 3)), Some (base + 4)%Z).
Definition sample_pow (x _ : double) : double := x.
Definition sample_tick (gone : list Z) (now : Z) (base : Z) (s : hud) : hud * list hud_call :=
  tick_hud_indicator sample_pow (sample_widgets gone false) indicator0 true 1000 now 60 (Some 3%Z) (sample_parts base) s.
Definition sample_first : hud * list hud_call := sample_tick [] 2500 100 hud0.

Lemma sample_tick_ok gone base s :
  (forall x, x ∈ [base; base + 2; base + 4]%Z -> x ∉ gone /\ (0 <= x)%Z) ->
  bool_decide (is_Some (resolved (sample_array gone) s)) || negb (any_widget (sample_array gone) s) = true ->
  tick_ok (sample_widgets gone false) (sample_parts base) s.
Proof.
  intros Hx Hs. split.
  - split; intros x Hg; apply orb_true_iff in Hs as [Hs%bool_decide_eq_true|Hs]; try done; apply negb_true_iff in Hs;
      unfold any_widget in Hs; cbn [objects_before sample_widgets] in *; rewrite Hg in Hs; cbn in Hs; rewrite ?orb_true_r in Hs; done.
  - intros d c t [= <- <- <-] x H. destruct (Hx x H) as [Hn Hp]. unfold handle_get, handle_set. cbn.
    destruct (Z.ltb_spec x 0); [lia|]. by rewrite !bool_decide_true, Z.eqb_refl.
Qed.

Lemma sample_run :
  rtc (hud_step sample_pow) (hud0, shown0) (forget_hud sample_first.1, foldl hshow (lose (sample_array []) hud0 shown0) sample_first.2).
Proof.
  eapply rtc_l; [|apply rtc_once, HudLevel].
  apply (HudTicked sample_pow (sample_widgets [] false) indicator0 true 1000 2500 60 (Some 3%Z) (sample_parts 100)).
  apply sample_tick_ok; [intros x Hx; set_unfold; lia|by vm_compute].
Qed.

Example hud_follows_recording_witness :
  let u := sample_tick [100; 102; 104]%Z 66200 200 (forget_hud sample_first.1) in
  exists dot clock text, o_ptr (g_hud_text_block u.1) = Some text /\ clock_text (elapsed_seconds 1000 66200) = wide_str "1:05" /\
    hud_texts (foldl hshow (lose (sample_array [100; 102; 104]%Z) (forget_hud sample_first.1)
                (foldl hshow (lose (sample_array []) hud0 shown0) sample_first.2)) u.2) !! text = Some (wide_str "1:05") /\
    on_screen (foldl hshow (lose (sample_array [100; 102; 104]%Z) (forget_hud sample_first.1)
                (foldl hshow (lose (sample_array []) hud0 shown0) sample_first.2)) u.2) = {[clock]} ∪ {[dot]}.
Proof.
  cbv zeta. pose proof (hud_follows_recording sample_pow _ _ sample_run (sample_widgets [100; 102; 104]%Z false) indicator0 true 1000 66200 60
    (Some 3%Z) (sample_parts 200) ltac:(apply sample_tick_ok; [intros x Hx; set_unfold; lia|by vm_compute])) as H.
  unfold sample_tick. destruct (tick_hud_indicator _ _ _ _ _ _ _ _ _ _) as [s' calls]. cbv zeta in H. destruct H as (_ & _ & H).
  destruct (H eq_refl eq_refl ltac:(done) eq_refl _ _ _ eq_refl) as (dot & clock & text & _ & _ & E & Et & Hv).
  assert (clock_text (elapsed_seconds 1000 66200) = wide_str "1:05") as E' by by vm_compute.
  exists dot, clock, text. split; [exact E|]. split; [exact E'|]. split; [rewrite <- E'; exact Et|].
  by apply (Hv (of_Z 1920) (of_Z 1080)); [| |done|].
Defined.

(** A panel put on the right, and no longer wanted. *)
Definition sample_panel : panel_widgets := PanelWidgets owned0 owned0 0 dzero true InputPanel0.
Definition panel_first : panel_widgets * list hud_call :=
  input_display_tick_panel (sample_widgets [] false) (disp indicator0) 0 60 true false (Some 3%Z) (Some (Made 100 101, 104%Z)) sample_panel.

Example panel_follows_setting_witness :
  let v := foldl hshow (lose_panel (sample_array []) sample_panel shown0) panel_first.2 in
  let u := input_display_tick_panel (sample_widgets [] true) (disp indicator0) 0 61 false false (Some 3%Z) None panel_first.1 in
  on_screen v = {[100%Z]} /\ on_screen (foldl hshow (lose_panel (sample_array []) panel_first.1 v) u.2) = ∅.
Proof.
  cbv zeta. split; [by vm_compute|].
  assert (panel_tick_ok (sample_widgets [] false) (Some (Made 100 101, 104%Z)) sample_panel) as H0.
  { split; [by intros x|]. intros p t [= <- <-] x Hx. unfold handle_get, handle_set. cbn.
    assert (x = 100 \/ x = 104)%Z as [-> | ->] by (cbn in Hx; set_unfold; tauto); by vm_compute. }
  assert (panel_tick_ok (sample_widgets [] true) None panel_first.1) as H1.
  { split; [|done]. intros x _. assert (bool_decide (is_Some (handle_get (sample_array []) (panel_text_block panel_first.1))) = true) as H by by vm_compute.
    exact (bool_decide_eq_true_1 _ H). }
  pose proof (panel_follows_setting sample_panel _ _
    (rtc_once _ _ (PanelTicked _ (disp indicator0) 0 60 true false (Some 3%Z) _ _ shown0 H0))
    (sample_widgets [] true) (disp indicator0) 0 61 false false (Some 3%Z) None H1) as H.
  fold panel_first in H. destruct (input_display_tick_panel _ _ _ _ false _ _ _ _) as [s' calls]. by apply H.
Defined.

(** * What a tick does not do *)

(** The square collected without the clock: a new pair is built over the handles, and the
    old clock stays on the screen after the recording. *)
Example half_collected_stays :
  let first := sample_first in
  let again := sample_tick [100]%Z 3500 200 first.1 in
  let last := tick_hud_indicator sample_pow (sample_widgets [100]%Z true) indicator0 false 0 9000 60 (Some 3%Z) (sample_parts 300) again.1 in
  on_screen (foldl hshow shown0 (first.2 ++ again.2 ++ last.2)) ∖ {[100%Z]} = {[102%Z]}.
Proof. by vm_compute. Qed.

(** A colour whose later digits cannot be read is drawn from its first ones. *)
Example half_read_color : hud_color sample_pow (str "#00zzzz") = (dzero, of_Z 1, of_Z 1).
Proof. by vm_compute. Qed.

(** The tuning file's colour is judged by its length alone. *)
Example any_six_bytes : g_rec_dot_color (apply_line indicator0 (str "color=zzzzzz")) = str "#zzzzzz".
Proof. by vm_compute. Qed.
