(* ===== verification/InputTrack.v ===== *)
(** Plugin.cpp, the input track of the local player: the key table
    ([input_track_sample]'s harvest), the mask and the axes of a frame, the bounded queue
    of edges, and [input_track_drain_and_send].

    The engine is an argument: which keys are down, the sticks, the camera, the clock.
    The formatting of a [double] by [std::format] is an argument too. *)
From S2P Require Import Prelude Float64 JsonString RemoteGhost.
From Stdlib Require Import ZArith.

Definition INPUT_TRACK_AXES : bool := true.
Definition INPUT_TRACK_AXIS_MIN_MS : Z := 33.
Definition INPUT_TRACK_QUEUE_CAP : nat := 256.
Definition INPUT_TRACK_BATCH_MAX : nat := 64.
Definition INPUT_CAM_MISS_LIMIT : Z := 600.
Definition MAX_KEYS : nat := 64.
Definition MAX_LOOK_KEYS : nat := 8.
Definition MAX_MAPPINGS : nat := 512.

Record InputEdgeRec := MkEdgeRec { er_f : Z; er_t : Z; er_m : Z; er_ax : list double; button : bool }.

(** The plugin's fields of the track. *)
Record input_state := InputState {
  input_edges : list InputEdgeRec;
  input_drops : Z;
  input_frame : Z;
  input_prev_mask : Z;
  input_prev_ax : list double;
  input_last_axis_ms : Z;
  input_cam_resolved : bool;
  input_cam_refused : bool;
  input_cam_misses : Z;
  input_have_prev : bool;
  input_labels_sent : bool;
  input_edges_sent : Z;
  input_batches_sent : Z;
  input_jump_agree : Z;
  input_jump_disagree : Z
}.
#[export] Instance input_eta : Eta input_state := fun r =>
  InputState (input_edges r) (input_drops r) (input_frame r) (input_prev_mask r) (input_prev_ax r)
    (input_last_axis_ms r) (input_cam_resolved r) (input_cam_refused r) (input_cam_misses r) (input_have_prev r)
    (input_labels_sent r) (input_edges_sent r) (input_batches_sent r) (input_jump_agree r) (input_jump_disagree r).
Definition zero_ax : list double := replicate 6 dzero.
Definition input_state0 : input_state :=
  InputState [] 0 0 0 zero_ax 0 false false 0 false false 0 0 0 0.

Definition u32 (z : Z) : Z := (z mod 2 ^ 32)%Z.
(** * The key table *)

Record KeyEntry := MkKey { key_name : bytes; bits : Z }.

(** The bits of the buttons whose action is this one. *)
Definition action_bits (buttons : list (option Z)) (action : Z) : Z :=
  foldl (fun acc '(b, asset) =>
           if bool_decide (asset = Some action) then Z.lor acc (Z.shiftl 1 (Z.of_nat b)) else acc)
    0%Z (imap pair buttons).

(** A key already in the table gains the bits; the table is bounded. *)
Fixpoint merge_bits (name : bytes) (bs : Z) (fresh : list KeyEntry) : option (list KeyEntry) :=
  match fresh with
  | [] => None
  | k :: fresh =>
      if bool_decide (key_name k = name) then Some (MkKey name (Z.lor (bits k) bs) :: fresh)
      else (k ::.) <$> merge_bits name bs fresh
  end.
Definition add_key (name : bytes) (bs : Z) (fresh : list KeyEntry) : list KeyEntry :=
  match merge_bits name bs fresh with
  | Some fresh => fresh
  | None => if length fresh <? MAX_KEYS then fresh ++ [MkKey name bs] else fresh
  end.
Definition add_look_key (name : bytes) (look : list bytes) : list bytes :=
  if bool_decide (name ∈ look) then look
  else if length look <? MAX_LOOK_KEYS then look ++ [name] else look.

(** The tables under construction: the keys, the look keys, the mappings seen. *)
Record key_tables := KeyTables { keys : list KeyEntry; look_keys : list bytes; mappings_seen : nat }.

(** One applied mapping: its action, when set, and its key's name. *)
Definition harvest_one (buttons : list (option Z)) (look : option Z) (t : key_tables) (m : option Z * bytes) : key_tables :=
  let '(action, name) := m in
  let seen := S (mappings_seen t) in
  match action with
  | None => KeyTables (keys t) (look_keys t) seen
  | Some action =>
      if bool_decide (look = Some action) then KeyTables (keys t) (add_look_key name (look_keys t)) seen
      else
        let bs := action_bits buttons action in
        KeyTables (if (bs =? 0)%Z then keys t else add_key name bs (keys t)) (look_keys t) seen
  end.

Definition harvest (buttons : list (option Z)) (look : option Z) (mappings : list (option Z * bytes)) : key_tables :=
  let t0 := KeyTables [] [] 0 in
  if (length mappings =? 0) || (MAX_MAPPINGS <? length mappings) then t0
  else foldl (harvest_one buttons look) t0 mappings.

(** The mask of the keys that are down. *)
Definition read_mask (key_down : bytes -> bool) (ks : list KeyEntry) : Z :=
  foldl (fun mask k => if key_down (key_name k) then Z.lor mask (bits k) else mask) 0%Z ks.

(** * One frame *)

Record frame_env := FrameEnv {
  track_wants : bool; display_wants : bool; have_objects : bool;   (* a pawn and a controller *)
  key_layout_ok : bool; key_down : bytes -> bool; tables : key_tables;
  move : option (double * double);              (* the move stick, already finite *)
  camera : option (double * double);            (* yaw and pitch *)
  look_layout_ok : bool; look_vector : bytes -> double * double;
  frame_now_ms : Z;
  jump_held : bool                              (* the pawn's own jumpButtonHeld? *)
}.

#[export] Instance frame_env_eta : Eta frame_env := fun r =>
  FrameEnv (track_wants r) (display_wants r) (have_objects r) (key_layout_ok r) (key_down r) (tables r) (move r) (camera r)
    (look_layout_ok r) (look_vector r) (frame_now_ms r) (jump_held r).

(** A value rounded to 1/64. *)
Definition round64 (x : double) : double := (dround (x * of_Z 64) / of_Z 64)%double.

(** The camera's two axes: a miss holds the last value once one has been read, and after
    [INPUT_CAM_MISS_LIMIT] misses without one the camera is refused. *)
Definition read_camera (env : frame_env) (s : input_state) : input_state * (double * double) :=
  match input_cam_refused s, camera env with
  | true, _ => (s, (dzero, dzero))
  | false, Some (yaw, pitch) =>
      (s <| input_cam_resolved := true |>,
       if isfinite yaw && isfinite pitch then (round64 yaw, round64 pitch) else (dzero, dzero))
  | false, None =>
      if input_cam_resolved s then
        (s, (nth 4 (input_prev_ax s) dzero, nth 5 (input_prev_ax s) dzero))
      else
        let misses := u32 (input_cam_misses s + 1) in
        let s := s <| input_cam_misses := misses |> in
        (if (misses >=? INPUT_CAM_MISS_LIMIT)%Z
         then s <| input_cam_refused := true |> <| input_cam_resolved := true |> else s, (dzero, dzero))
  end.

(** The look axes: the vectors of the look keys, summed. *)
Definition read_look (env : frame_env) : double * double :=
  if look_layout_ok env then
    let '(x, y) := foldl (fun '(x, y) k =>
                     let '(vx, vy) := look_vector env k in
                     if isfinite vx && isfinite vy then ((x + vx)%double, (y + vy)%double) else (x, y))
                     (dzero, dzero) (look_keys (tables env)) in
    (round64 x, round64 y)
  else (dzero, dzero).

Definition read_axes (env : frame_env) (s : input_state) : input_state * list double :=
  if negb INPUT_TRACK_AXES then (s, zero_ax)
  else
    let (s, cam) := read_camera env s in
    let mv := match move env with Some (x, y) => (round64 x, round64 y) | None => (dzero, dzero) end in
    let lk := read_look env in
    (s, [mv.1; mv.2; lk.1; lk.2; cam.1; cam.2]).

(** The queue without its newest axis-only edge. *)
Fixpoint drop_newest_axis (q : list InputEdgeRec) : option (list InputEdgeRec) :=
  match q with
  | [] => None
  | e :: q => match drop_newest_axis q with
              | Some q' => Some (e :: q')
              | None => if button e then None else Some q
              end
  end.

(** The queue after an edge, and whether one was refused; [None] when the edge itself
    was.  A full queue makes room with its newest axis-only edge, or, for a button edge,
    with its oldest. *)
Definition queue_edge (e : InputEdgeRec) (q : list InputEdgeRec) : option (list InputEdgeRec) * bool :=
  if INPUT_TRACK_QUEUE_CAP <=? length q then
    match drop_newest_axis q with
    | Some q' => (Some (q' ++ [e]), true)
    | None => if button e then (Some (tail q ++ [e]), true) else (None, true)
    end
  else (Some (q ++ [e]), false).

(** The bits of the two masks differ in the jump button's. *)
Definition jump_moved (a b : Z) : bool := Z.testbit (Z.lxor a b) 0.

Definition jump_check (env : frame_env) (button_edge : bool) (mask : Z) (s : input_state) : input_state :=
  if button_edge && input_have_prev s && jump_moved mask (input_prev_mask s) then
    if Bool.eqb (jump_held env) (Z.testbit mask 0)
    then s <| input_jump_agree := u64 (input_jump_agree s + 1) |>
    else s <| input_jump_disagree := u64 (input_jump_disagree s + 1) |>
  else s.

(** Whether any axis differs, as C++ compares. *)
Fixpoint axes_differ (a b : list double) : bool :=
  match a, b with
  | x :: a, y :: b => dne x y || axes_differ a b
  | _, _ => false
  end.

(** What a frame reads: the state after it, and the edge it makes, with whether its axes
    changed; no edge when nothing changed or nobody records. *)
Definition frame_edge (env : frame_env) (s : input_state) : input_state * option (InputEdgeRec * bool) :=
  let s := s <| input_frame := u64 (input_frame s + 1) |> in
  if (negb (track_wants env) && negb (display_wants env)) || negb (have_objects env)
  then (s <| input_have_prev := false |>, None)
  else
    let mask := if key_layout_ok env then read_mask (key_down env) (keys (tables env)) else 0%Z in
    let (s, ax) := read_axes env s in
    if negb (track_wants env) then (s, None)
    else
      let button_edge := negb (input_have_prev s) || negb (mask =? input_prev_mask s)%Z in
      let axes_changed := negb (input_have_prev s) || axes_differ ax (input_prev_ax s) in
      let axis_edge := INPUT_TRACK_AXES && axes_changed
                       && (frame_now_ms env - input_last_axis_ms s >=? INPUT_TRACK_AXIS_MIN_MS)%Z in
      if negb button_edge && negb axis_edge then (s, None)
      else
        (jump_check env button_edge mask s,
         Some ({| er_f := input_frame s; er_t := frame_now_ms env; er_m := mask; er_ax := ax;
                  button := button_edge |}, axes_changed)).

(** Queued, and remembered as the last edge; neither when the queue refuses it. *)
Definition enqueue (e : InputEdgeRec) (axes_changed : bool) (s : input_state) : input_state :=
  let (q, refused) := queue_edge e (input_edges s) in
  let s := if refused then s <| input_drops := u32 (input_drops s + 1) |> else s in
  match q with
  | None => s
  | Some q =>
      let s := if axes_changed then s <| input_last_axis_ms := er_t e |> else s in
      s <| input_edges := q |> <| input_prev_mask := er_m e |> <| input_prev_ax := er_ax e |>
        <| input_have_prev := true |>
  end.

Definition input_track_sample (env : frame_env) (s : input_state) : input_state :=
  match frame_edge env s with
  | (s, None) => s
  | (s, Some (e, axes_changed)) => enqueue e axes_changed s
  end.

(** * Draining *)

Section Drain.
Context (format_double : double -> bytes).

Definition comma_sep (parts : list bytes) : bytes :=
  match parts with
  | [] => []
  | p :: parts => p ++ concat (map (fun q => str "," ++ q) parts)
  end.

Definition format_Z (z : Z) : bytes := str (pretty z).

Definition edge_json (e : InputEdgeRec) : bytes :=
  js "{'f':" ++ format_Z (er_f e) ++ js ",'t':" ++ format_Z (er_t e) ++ js ",'m':" ++ format_Z (er_m e)
  ++ (if INPUT_TRACK_AXES
      then js ",'ax':[" ++ comma_sep (map format_double (er_ax e)) ++ js "]" else [])
  ++ js "}".

Definition LABELS : bytes :=
  js "'labels':['jump','attack','crouch','wallride','throw','guard','interact','lockon','power','quickmap','perspective'],".
Definition AXES : bytes := js "'axes':['move_x','move_y','look_x','look_y','cam_yaw','cam_pitch'],".

Definition input_sample_line (labels_sent cam_refused : bool) (drops : Z) (batch : list InputEdgeRec) : bytes :=
  js "{'type':'input_sample','payload':{"
  ++ (if labels_sent then []
      else LABELS ++ (if INPUT_TRACK_AXES then AXES else [])
           ++ (if cam_refused then js "'source':'imc_keys+bound_axes'," else js "'source':'imc_keys+bound_axes+camrot',"))
  ++ (if (drops >? 0)%Z then js "'drop':" ++ format_Z drops ++ js "," else [])
  ++ js "'edges':[" ++ comma_sep (map edge_json batch) ++ js "]}}".

(** One drain: the line offered to the bridge, when there is one.  [wants] is a bridge
    that is ready and a track that is enabled; [send] tells whether a line was sent. *)
Definition input_track_drain_and_send (wants : bool) (send : bytes -> bool) (s : input_state)
    : input_state * option bytes :=
  if negb wants then (s, None)
  else
    let batch := take INPUT_TRACK_BATCH_MAX (input_edges s) in
    let drops := input_drops s in
    let s := s <| input_edges := drop INPUT_TRACK_BATCH_MAX (input_edges s) |> <| input_drops := 0%Z |> in
    if bool_decide (batch = []) && input_labels_sent s then (s, None)
    else if negb (input_labels_sent s) && negb (input_cam_resolved s) then (s, None)
    else
      let line := input_sample_line (input_labels_sent s) (input_cam_refused s) drops batch in
      (if send line then
         s <| input_labels_sent := true |> <| input_batches_sent := u64 (input_batches_sent s + 1) |>
           <| input_edges_sent := u64 (input_edges_sent s + Z.of_nat (length batch)) |>
       else s, Some line).
End Drain.
