(* ===== verification/InputTrackProps.v ===== *)
(** The input track: the mask is the buttons held, the queue is bounded, ordered and
    accounts for what it refuses, and a button edge is given up last. *)
From S2P Require Import Prelude Float64 JsonString RemoteGhost InputTrack.
From Stdlib Require Import ZArith.

(** * The mask *)

(** Bit [b] of a key in the table. *)
Definition key_bit (ks : list KeyEntry) (name : bytes) (b : nat) : Prop :=
  exists k, k ∈ ks /\ key_name k = name /\ Z.testbit (bits k) (Z.of_nat b) = true.

Lemma key_bit_cons k ks n b :
  key_bit (k :: ks) n b <-> (key_name k = n /\ Z.testbit (bits k) (Z.of_nat b) = true) \/ key_bit ks n b.
Proof.
  unfold key_bit. split.
  - intros (k' & [->|Hk]%elem_of_cons & ?); [by left|right; eauto].
  - intros [?|(k' & ? & ?)]; [exists k; split; [by left|done]|exists k'; split; [by right|done]].
Qed.
Lemma key_bit_nil n b : ~ key_bit [] n b.
Proof. by intros (? & ?%elem_of_nil & _). Qed.

Lemma merge_bits_None name bs ks : merge_bits name bs ks = None -> forall k, k ∈ ks -> key_name k <> name.
Proof.
  induction ks as [|k ks IH]; [by intros _ ? ?%elem_of_nil|]. simpl. case_bool_decide; [done|].
  destruct (merge_bits name bs ks); [done|]. intros _ k' [->|Hk]%elem_of_cons; [done|]. by apply IH.
Qed.

Lemma merge_bits_Some name bs ks ks' n b :
  merge_bits name bs ks = Some ks' ->
  length ks' = length ks /\
  (key_bit ks' n b <-> key_bit ks n b \/ (n = name /\ Z.testbit bs (Z.of_nat b) = true)).
Proof.
  revert ks'. induction ks as [|k ks IH]; intros ks'; [done|]. simpl. case_bool_decide as Hn.
  - intros [= <-]. split; [done|]. unfold key_bit. split.
    + intros (k' & [->|Hk]%elem_of_cons & Hkn & Hb); cbn [key_name bits] in *.
      * rewrite Z.lor_spec in Hb. apply orb_true_iff in Hb as [Hb|Hb]; [left|right; by subst].
        exists k. split; [by left|]. by subst.
      * left. exists k'. split; [by right|done].
    + intros [(k' & [->|Hk]%elem_of_cons & Hkn & Hb)|[-> Hb]].
      * eexists. split; [by left|]. cbn [key_name bits]. rewrite Z.lor_spec, Hb. by subst.
      * exists k'. split; [by right|done].
      * eexists. split; [by left|]. cbn [key_name bits]. by rewrite Z.lor_spec, Hb, orb_true_r.
  - destruct (merge_bits name bs ks) as [ks1|]; [|done]. intros [= <-].
    destruct (IH ks1 eq_refl) as [Hl Hi]. split; [simpl; by rewrite Hl|]. clear IH.
    rewrite !key_bit_cons, Hi. tauto.
Qed.

Lemma add_key_bit name bs ks n b :
  length (add_key name bs ks) < MAX_KEYS ->
  key_bit (add_key name bs ks) n b <-> key_bit ks n b \/ (n = name /\ Z.testbit bs (Z.of_nat b) = true).
Proof.
  unfold add_key. destruct (merge_bits name bs ks) as [ks'|] eqn:E; [by intros; apply merge_bits_Some|].
  destruct (Nat.ltb_spec (length ks) MAX_KEYS); [|lia]. intros _. unfold key_bit. split.
  - intros (k & [Hk|Hk%list_elem_of_singleton]%elem_of_app & Hn & Hb); [left; eauto|right]. by subst.
  - intros [(k & Hk & ?)|[-> Hb]]; [exists k|exists (MkKey name bs)]; (split; [apply elem_of_app|done]);
      [by left|right; by left].
Qed.

Lemma add_key_length name bs ks : length ks <= length (add_key name bs ks).
Proof.
  unfold add_key. destruct (merge_bits name bs ks) as [ks'|] eqn:E.
  - destruct (merge_bits_Some name bs ks ks' [] 0 E) as [-> _]. done.
  - destruct (_ <? _); [rewrite length_app; simpl; lia|lia].
Qed.

Lemma action_bits_spec buttons action b :
  Z.testbit (action_bits buttons action) (Z.of_nat b) = true <-> buttons !! b = Some (Some action).
Proof.
  unfold action_bits.
  assert (forall l acc off,
    Z.testbit (foldl (fun acc '(b, asset) =>
      if bool_decide (asset = Some action) then Z.lor acc (Z.shiftl 1 (Z.of_nat b)) else acc) acc
      (imap (fun i x => (off + i, x)) l)) (Z.of_nat b) = true <->
    Z.testbit acc (Z.of_nat b) = true \/ exists i, b = off + i /\ l !! i = Some (Some action)) as H.
  { induction l as [|x l IH]; intros acc off; [simpl; split; [by left|by intros [|(? & _ & ?)]]|].
    cbn [imap foldl]. 
    assert (imap ((fun i x0 => (off + i, x0)) ∘ S) l = imap (fun i x0 => (S off + i, x0)) l) as ->
      by (apply imap_ext; intros; simpl; f_equal; lia).
    rewrite IH. rewrite Nat.add_0_r.
    assert (Z.testbit (if bool_decide (x = Some action) then Z.lor acc (Z.shiftl 1 (Z.of_nat off)) else acc) (Z.of_nat b) = true
            <-> Z.testbit acc (Z.of_nat b) = true \/ (b = off /\ x = Some action)) as ->.
    { case_bool_decide as Hx; [|split; [by left|by intros [|[_ ?]]]]. rewrite Z.lor_spec, orb_true_iff.
      rewrite Z.shiftl_spec by lia. split; (intros [?|Hb]; [by left|right]).
      - split; [|done]. destruct (decide (b = off)) as [|Hne]; [done|]. exfalso.
        destruct (Z.lt_ge_cases (Z.of_nat b) (Z.of_nat off)); [by rewrite Z.testbit_neg_r in Hb by lia|].
        rewrite Z.bits_above_log2 in Hb; [done|lia|simpl; lia].
      - destruct Hb as [-> _]. by rewrite Z.sub_diag. }
    split.
    - intros [[Ha|[-> ->]]|(i & -> & Hi)]; [by left|right; exists 0|right; exists (S i)]; (split; [lia|done]).
    - intros [Ha|([|i] & -> & Hi)]; [by left; left| |].
      + left; right. simpl in Hi. simplify_eq. split; [lia|done].
      + right. exists i. split; [lia|done]. }
  rewrite (H buttons 0%Z 0). rewrite Z.bits_0. split; [intros [|(i & -> & ?)]; done|eauto].
Qed.

(** The keys after some mappings. *)
Lemma harvest_bits buttons look ms : forall t n b,
  length (keys (foldl (harvest_one buttons look) t ms)) < MAX_KEYS ->
  key_bit (keys (foldl (harvest_one buttons look) t ms)) n b <->
  key_bit (keys t) n b \/
  exists a, (Some a, n) ∈ ms /\ look <> Some a /\ buttons !! b = Some (Some a).
Proof.
  induction ms as [|[action name] ms IH]; intros t n b Hlen; cbn [foldl] in *.
  { split; [by left|]. intros [|(? & ?%elem_of_nil & _)]; done. }
  assert (forall t', length (keys t') <= length (keys (foldl (harvest_one buttons look) t' ms))) as Hgrow.
  { clear. induction ms as [|m ms IH]; intros t'; [done|]. cbn [foldl]. etrans; [|apply IH].
    destruct m as [[a|] nm]; unfold harvest_one; [|done]. case_bool_decide; [done|]. cbn [keys].
    destruct (_ =? _)%Z; [done|apply add_key_length]. }
  rewrite (IH _ n b Hlen). specialize (Hgrow (harvest_one buttons look t (action, name))).
  assert (key_bit (keys (harvest_one buttons look t (action, name))) n b <->
          key_bit (keys t) n b \/ (n = name /\ exists a, action = Some a /\ look <> Some a /\ buttons !! b = Some (Some a))) as ->.
  { unfold harvest_one in *. destruct action as [a|]; [|split; [by left|by intros [|(_ & ? & ? & _)]]].
    case_bool_decide as Hl.
    { cbn [keys]. split; [by left|]. intros [|(_ & ? & [= <-] & ? & _)]; done. }
    cbn [keys] in *. destruct (Z.eqb_spec (action_bits buttons a) 0) as [E|E].
    - split; [by left|]. intros [|(_ & ? & [= <-] & _ & Hb)]; [done|]. apply action_bits_spec in Hb. by rewrite E, Z.bits_0 in Hb.
    - rewrite add_key_bit by lia. rewrite action_bits_spec. split.
      + intros [|[-> ?]]; eauto 10.
      + intros [|(-> & ? & [= <-] & _ & ?)]; auto. }
  split.
  - intros [[|(-> & a & -> & ?)]|(a & ? & ?)]; [by left|right; exists a; split; [by left|done]|].
    right. exists a. split; [by right|done].
  - intros [|(a & [[= <- <-]|?]%elem_of_cons & ?)]; eauto 10.
Qed.

Lemma read_mask_spec kd ks b :
  Z.testbit (read_mask kd ks) (Z.of_nat b) = true <-> exists name, kd name = true /\ key_bit ks name b.
Proof.
  unfold read_mask.
  assert (forall acc, Z.testbit (foldl (fun mask k => if kd (key_name k) then Z.lor mask (bits k) else mask) acc ks) (Z.of_nat b) = true
    <-> Z.testbit acc (Z.of_nat b) = true \/ exists name, kd name = true /\ key_bit ks name b) as H.
  { induction ks as [|k ks IH]; intros acc; cbn [foldl].
    { split; [by left|]. intros [|(? & _ & []%key_bit_nil)]; done. }
    rewrite IH. clear IH. setoid_rewrite key_bit_cons.
    assert (Z.testbit (if kd (key_name k) then Z.lor acc (bits k) else acc) (Z.of_nat b) = true <->
            Z.testbit acc (Z.of_nat b) = true \/
            (kd (key_name k) = true /\ Z.testbit (bits k) (Z.of_nat b) = true)) as ->
      by (destruct (kd (key_name k)); rewrite ?Z.lor_spec, ?orb_true_iff; intuition congruence).
    split.
    - intros [[?|[? ?]]|(n & ? & ?)]; [by left|right; exists (key_name k); auto|right; exists n; auto].
    - intros [?|(n & ? & [[<- ?]|?])]; [by do 2 left|by left; right|right; by exists n]. }
  rewrite H, Z.bits_0. split; [by intros [|]|by right].
Qed.

(** Bit [b] of a frame's mask is set exactly when some key is down that the game has
    applied to the action of button [b]; a key bound to several actions sets each, and
    the look action sets none. *)
Theorem mask_is_held_buttons (buttons : list (option Z)) (look : option Z) (ms : list (option Z * bytes))
    (kd : bytes -> bool) (b : nat)
    (Hms : 0 < length ms <= MAX_MAPPINGS) (Hkeys : length (keys (harvest buttons look ms)) < MAX_KEYS) :
  Z.testbit (read_mask kd (keys (harvest buttons look ms))) (Z.of_nat b) = true <->
  exists name a, kd name = true /\ (Some a, name) ∈ ms /\ look <> Some a /\ buttons !! b = Some (Some a).
Proof.
  unfold harvest in *. rewrite (proj2 (Nat.eqb_neq _ _)), (proj2 (Nat.ltb_ge _ _)) in * by lia. cbn [orb] in *.
  rewrite read_mask_spec. setoid_rewrite (harvest_bits _ _ _ _ _ _ Hkeys). split.
  - intros (n & Hn & [(? & ?%elem_of_nil & _)|(a & ?)]); [done|eauto].
  - intros (n & a & Hn & ?). exists n. split; [done|]. right. eauto.
Qed.

(** * The queue *)

Abbreviation buttons_of q := (List.filter button q).

Lemma drop_newest_None q : drop_newest_axis q = None -> Forall (fun e => button e = true) q.
Proof.
  induction q as [|e q IH]; [constructor|]. simpl. destruct (drop_newest_axis q); [done|].
  destruct (button e) eqn:E; [|done]. constructor; auto.
Qed.

Lemma drop_newest_Some q q' :
  drop_newest_axis q = Some q' -> exists a e b, q = a ++ e :: b /\ q' = a ++ b /\ button e = false.
Proof.
  revert q'. induction q as [|e q IH]; intros q'; [done|]. simpl.
  destruct (drop_newest_axis q) as [q1|].
  - intros [= <-]. destruct (IH q1 eq_refl) as (a & e' & b & -> & -> & Hb). by exists (e :: a), e', b.
  - destruct (button e) eqn:E; [done|]. intros [= <-]. by exists [], e, q.
Qed.

Lemma buttons_all q : Forall (fun e => button e = true) q -> buttons_of q = q.
Proof. induction 1 as [|e q He Hq IH]; [done|]. simpl. by rewrite He, IH. Qed.

(** What the queue holds of a history of edges. *)
Record queue_of (history q : list InputEdgeRec) (drops : nat) : Prop := QueueOf {
  q_cap : length q <= INPUT_TRACK_QUEUE_CAP;
  q_sub : sublist q history;
  q_count : length q + drops = length history;
  q_buttons : buttons_of q = buttons_of history \/
    (Forall (fun e => button e = true) q /\ length q = INPUT_TRACK_QUEUE_CAP)
}.

Lemma queue_edge_step history q drops e :
  queue_of history q drops ->
  match queue_edge e q with
  | (Some q', refused) => queue_of (history ++ [e]) q' (drops + if refused then 1 else 0) /\ list.last q' = Some e
  | (None, refused) => queue_of (history ++ [e]) q (drops + 1) /\ refused = true /\ button e = false
  end.
Proof.
  intros [Hc Hs Hn Hb]. unfold queue_edge. 
  assert (forall l : list InputEdgeRec, list.last (l ++ [e]) = Some e) as Hlast by (intros l; by rewrite last_snoc).
  destruct (Nat.leb_spec INPUT_TRACK_QUEUE_CAP (length q)) as [Hfull|Hroom].
  - destruct (drop_newest_axis q) as [q'|] eqn:E.
    + apply drop_newest_Some in E as (a & d & b & -> & -> & Hd). split; [|apply Hlast].
      rewrite length_app in *. cbn [length] in *. split.
      * rewrite !length_app in *. simpl in *. lia.
      * apply sublist_app; [|done]. etrans; [|exact Hs]. apply sublist_app; [done|]. by apply sublist_cons.
      * rewrite !length_app in *. simpl in *. lia.
      * rewrite !List.filter_app in *. cbn [List.filter] in *. rewrite Hd in *.
        destruct Hb as [Hb|[Hb _]]; [by left; rewrite <- Hb|].
        apply Forall_app in Hb as [_ Hb]. apply Forall_cons_1 in Hb as [Hb _]. congruence.
    + apply drop_newest_None in E. destruct (button e) eqn:Ee.
      * destruct q as [|d q]; [unfold INPUT_TRACK_QUEUE_CAP in Hfull; simpl in Hfull; lia|]. cbn [tail].
        split; [|apply Hlast]. apply Forall_cons_1 in E as [_ E]. split.
        -- rewrite length_app in *. simpl in *. lia.
        -- apply sublist_app; [|done]. etrans; [|exact Hs]. by apply sublist_cons.
        -- rewrite !length_app in *. simpl in *. lia.
        -- right. split; [apply Forall_app; split; [done|by repeat constructor]|].
           rewrite length_app in *. simpl in *. lia.
      * split; [|done]. split; [done| | |].
        -- etrans; [exact Hs|]. by apply sublist_inserts_r.
        -- rewrite length_app. simpl. lia.
        -- right. split; [done|lia].
  - split; [|apply Hlast]. split.
    + rewrite length_app. simpl. lia.
    + by apply sublist_app.
    + rewrite !length_app. simpl. lia.
    + rewrite !List.filter_app. destruct Hb as [->|[_ Hb]]; [by left|lia].
Qed.

(** The edges a run of frames makes. *)
Fixpoint edges_made (frames : list frame_env) (s : input_state) : list InputEdgeRec :=
  match frames with
  | [] => []
  | env :: frames =>
      match (frame_edge env s).2 with Some (e, _) => [e] | None => [] end
        ++ edges_made frames (input_track_sample env s)
  end.
Definition run_frames (frames : list frame_env) (s : input_state) : input_state :=
  foldl (fun s env => input_track_sample env s) s frames.

Lemma read_axes_queue env s :
  input_edges (read_axes env s).1 = input_edges s /\ input_drops (read_axes env s).1 = input_drops s.
Proof.
  unfold read_axes. cbn [INPUT_TRACK_AXES negb]. unfold read_camera.
  destruct (input_cam_refused s); [done|]. destruct (camera env) as [[yaw pitch]|]; [by destruct s|].
  destruct (input_cam_resolved s); [done|]. cbv zeta. destruct (_ >=? _)%Z; by destruct s.
Qed.

Lemma frame_edge_queue env s :
  input_edges (frame_edge env s).1 = input_edges s /\ input_drops (frame_edge env s).1 = input_drops s.
Proof.
  unfold frame_edge. cbv zeta.
  set (s1 := s <| input_frame := _ |>). assert (input_edges s1 = input_edges s /\ input_drops s1 = input_drops s) as [<- <-]
    by (by destruct s). clearbody s1. destruct (_ || _); [by destruct s1|].
  destruct (read_axes_queue env s1) as [<- <-]. destruct (read_axes env s1) as [s2 ax]. cbn [fst].
  destruct (negb (track_wants env)); [done|]. destruct (_ && _); [done|]. cbn [fst]. unfold jump_check.
  destruct (_ && _); [|done]. by destruct (Bool.eqb _ _); destruct s2.
Qed.

(** C40: over any run of frames the queue never exceeds its capacity, holds edges of the
    run in the order they were made, and counts every edge it refused; and as long as
    any button edge has been given up, the queue is full of nothing but button edges. *)
Theorem input_queue_accounts (frames : list frame_env) (s : input_state)
    (Hq : input_edges s = []) (Hd : input_drops s = 0%Z) (Hn : (Z.of_nat (length frames) < 2 ^ 32)%Z) :
  let s' := run_frames frames s in
  exists drops, input_drops s' = Z.of_nat drops /\ queue_of (edges_made frames s) (input_edges s') drops.
Proof.
  assert (forall frames s history drops,
    queue_of history (input_edges s) drops -> input_drops s = Z.of_nat drops ->
    (Z.of_nat drops + Z.of_nat (length frames) < 2 ^ 32)%Z ->
    exists drops', input_drops (run_frames frames s) = Z.of_nat drops' /\
      queue_of (history ++ edges_made frames s) (input_edges (run_frames frames s)) drops') as H.
  { clear. induction frames as [|env frames IH]; intros s history drops Hq Hd Hn; cbn [run_frames foldl edges_made].
    { exists drops. by rewrite app_nil_r. }
    change (foldl _ ?x frames) with (run_frames frames x). cbn [length] in Hn.
    unfold input_track_sample. pose proof (frame_edge_queue env s) as [Eq Ed].
    destruct (frame_edge env s) as [s1 [[e ch]|]]; cbn [fst snd] in *.
    2:{ apply (IH s1 history drops); [by rewrite Eq|by rewrite Ed|lia]. }
    rewrite app_assoc. rewrite <- Eq in Hq. pose proof (queue_edge_step _ _ _ e Hq) as Hstep. unfold enqueue.
    destruct (queue_edge e (input_edges s1)) as [[q'|] refused].
    - destruct Hstep as [Hstep _]. apply (IH _ _ (drops + if refused then 1 else 0)).
      + destruct refused, ch, s1; exact Hstep.
      + destruct refused; cbv zeta.
        * transitivity (u32 (input_drops s1 + 1)); [by destruct ch, s1|]. unfold u32. rewrite Z.mod_small; lia.
        * transitivity (input_drops s1); [by destruct ch, s1|lia].
      + destruct refused; lia.
    - destruct Hstep as (Hstep & -> & _). apply (IH _ _ (drops + 1)).
      + destruct s1; exact Hstep.
      + transitivity (u32 (input_drops s1 + 1)); [by destruct s1|]. unfold u32. rewrite Z.mod_small; lia.
      + lia. }
  apply (H frames s [] 0); [rewrite Hq; by split; [simpl; lia| | |left]|done|lia].
Qed.

(** * Defects *)

(** The drain takes the batch and clears the count of drops before it decides to wait
    for the camera: what it took is neither queued nor sent. *)
Theorem drain_before_camera_loses (format_double : double -> bytes) (send : bytes -> bool) (s : input_state)
    (Hl : input_labels_sent s = false) (Hc : input_cam_resolved s = false) :
  let '(s', line) := input_track_drain_and_send format_double true send s in
  line = None /\ input_edges s' = drop INPUT_TRACK_BATCH_MAX (input_edges s) /\ input_drops s' = 0%Z /\
  input_edges_sent s' = input_edges_sent s.
Proof.
  unfold input_track_drain_and_send. destruct s. cbn in *. subst. rewrite andb_false_r. by cbn.
Qed.

(** A frame with the on-screen history on and no core attached keeps the previous mask,
    so the first frame after the core attaches makes no edge when nothing changed. *)
Theorem display_keeps_previous (env : frame_env) (s : input_state)
    (Ht : track_wants env = false) (Hd : display_wants env = true) (Ho : have_objects env = true) :
  input_have_prev (input_track_sample env s) = input_have_prev s.
Proof.
  unfold input_track_sample, frame_edge. rewrite Ht, Hd, Ho. cbn [negb andb orb]. cbv zeta.
  unfold read_axes. cbn [INPUT_TRACK_AXES negb]. unfold read_camera. destruct s. cbn.
  destruct input_cam_refused; [done|]. destruct (camera env) as [[yaw pitch]|]; [done|].
  destruct input_cam_resolved; [done|]. by destruct (_ >=? _)%Z.
Qed.

(** * Witnesses *)

Definition sample_maps : list (option Z * bytes) :=
  [(Some 1%Z, str "SpaceBar"); (Some 2%Z, str "LeftMouse"); (None, str "Z"); (Some 9%Z, str "Mouse2D");
   (Some 2%Z, str "SpaceBar")].
Definition sample_frame (kd : bytes -> bool) (now : Z) : frame_env :=
  {| track_wants := true; display_wants := false; have_objects := true; key_layout_ok := true; key_down := kd;
     tables := harvest [Some 1%Z; Some 2%Z; None] (Some 9%Z) sample_maps; move := None; camera := Some (dzero, dzero);
     look_layout_ok := false; look_vector := fun _ => (dzero, dzero); frame_now_ms := now; jump_held := false |}.

Lemma mask_is_held_buttons_witness :
  Z.testbit (read_mask (fun k => bool_decide (k = str "SpaceBar"))
    (keys (harvest [Some 1%Z; Some 2%Z; None] (Some 9%Z) sample_maps))) 1 = true.
Proof.
  apply (mask_is_held_buttons [Some 1%Z; Some 2%Z; None] (Some 9%Z) sample_maps _ 1); [vm_compute; lia|vm_compute; lia|].
  exists (str "SpaceBar"), 2%Z. split; [reflexivity|]. split; [|split; [discriminate|reflexivity]].
  do 4 right. left.
Defined.

Lemma input_queue_accounts_witness :
  let frames := [sample_frame (fun k => bool_decide (k = str "SpaceBar")) 100; sample_frame (fun _ => false) 120] in
  map er_m (edges_made frames input_state0) = [3; 0]%Z /\
  exists drops, input_drops (run_frames frames input_state0) = Z.of_nat drops /\
    queue_of (edges_made frames input_state0) (input_edges (run_frames frames input_state0)) drops.
Proof.
  cbv zeta. split; [by vm_compute|]. apply input_queue_accounts; [reflexivity|reflexivity|done].
Defined.
