(* ===== verification/Update.v ===== *)
(** Plugin.cpp, the two halves of the bridge's traffic: [on_update], on UE4SS's thread,
    and the drain of [game_thread_tick], on the game thread.

    [on_update] is composed of the bridge client, the launcher and the input track; what
    the operating system answers in one call is the argument [update_env].  The sends it
    attempts are returned, in order.

    The two threads share a lock, but not all of an update is under it: the hello's send,
    its note in the client and the latches it resets are three writes a tick of the game
    can fall between, and so can one fall between any two of the stages.  [moves] is the
    update cut at those points, [on_update] the update no tick falls into, and
    [moves_update] that the second is the first run through.  Within a stage the thread
    has the lock, or works on the client, the launcher or a copy of its own. *)
From S2P Require Import Prelude Float64 JsonString JsonScoped JsonTop Collapse BridgeClient.
From S2P Require Import CoreLauncher RemoteGhost Lifecycle BridgeLine InputTrack.
From Stdlib Require Import ZArith.

Definition PENDING_LINES_COLLAPSE_AT : nat := 2048.
Definition INPUT_HISTORY_DISPLAY : bool := true.
Definition INPUT_TRACK_CAPTURE : bool := true.
Definition GAME_ID : bytes := str "pseudoregalia".
Definition ADAPTER_VERSION : bytes := str "phase7.7".
Definition MIN_RELAY_PROTOCOL_FIELD : bytes := js "'min_protocol_version':2".

(** The fields of the plugin the two threads share, with the bridge, the launcher and
    the input track. *)
Record update_state := UpdateState {
  bridge : client;
  core_launcher : launcher;
  bridge_was_connected : bool;
  bridge_disconnect_cleanup_pending : bool;
  player_frozen_sent : bool;
  input : input_state;
  cached_local_state_json : bytes;
  pending_incoming_lines : list bytes;
  pending_collapse_at : nat
}.
#[export] Instance update_eta : Eta update_state := fun r =>
  UpdateState (bridge r) (core_launcher r) (bridge_was_connected r) (bridge_disconnect_cleanup_pending r)
    (player_frozen_sent r) (input r) (cached_local_state_json r) (pending_incoming_lines r) (pending_collapse_at r).

Record update_env := UpdateEnv {
  net : network; clock_hello : Z; clock_cool : Z; clock_sweep : Z;       (* tick_connect *)
  run_port : Z -> bool; run_claim : Z -> bool; run_spawn : Z -> bool;    (* the waits on the child *)
  exe_exists : bytes -> bool; exe_dirs : list bytes; own_pid : Z; launcher_now : Z; create : create_answer;
  hello_answer : send_answer; hello_at : Z;
  recv_answers : list recv_answer; recv_now : Z;
  state_answer : send_answer; input_answer : send_answer;
  input_enabled : bool; format_double : double -> bytes
}.

#[export] Instance update_env_eta : Eta update_env := fun r =>
  UpdateEnv (net r) (clock_hello r) (clock_cool r) (clock_sweep r) (run_port r) (run_claim r) (run_spawn r) (exe_exists r)
    (exe_dirs r) (own_pid r) (launcher_now r) (create r) (hello_answer r) (hello_at r) (recv_answers r) (recv_now r)
    (state_answer r) (input_answer r) (input_enabled r) (format_double r).

Definition hello : bytes :=
  js "{'type':'hello','payload':{'game_id':'" ++ GAME_ID ++ js "','game_version':'" ++ ADAPTER_VERSION ++ js "',"
  ++ MIN_RELAY_PROTOCOL_FIELD ++ (if GHOST_ROTATION_SLERP then js ",'interpolate_orientation':true" else [])
  ++ (if INPUT_HISTORY_DISPLAY then js ",'input_tracks':true" else []) ++ js "}}".

(** The launcher is driven off the connection. *)
Definition drive_launcher (env : update_env) (c : client) (l : launcher) : launcher * option (bytes * bytes) :=
  if connected c then (tick_connected l, None)
  else match spawnable_port c with
       | None => (l, None)
       | Some spawn_on =>
           tick_disconnected (run_claim env) (run_spawn env) (exe_exists env) (exe_dirs env) (own_pid env)
             (launcher_now env) (create env) spawn_on (last_busy_port c) l
       end.

(** The dial, the launcher, and the falling edge of readiness. *)
Definition connect_stage (env : update_env) (s : update_state) : update_state * option (bytes * bytes) :=
  let c := tick_connect (net env) (clock_hello env) (clock_cool env) (clock_sweep env) (bridge s) in
  let now_connected := is_ready c in
  let c := set_own_core_port (child_port (run_port env) (core_launcher s)) c in
  let (l, started) := drive_launcher env c (core_launcher s) in
  let s := s <| bridge := c |> <| core_launcher := l |> in
  let s := if bridge_was_connected s && negb now_connected
           then s <| bridge_disconnect_cleanup_pending := true |> else s in
  (s <| bridge_was_connected := now_connected |>, started).

(** The hello, on a connection that has not had one: whether it went. *)
Definition offer_hello (env : update_env) (s : update_state) : update_state * bool * list bytes :=
  if connected (bridge s) && negb (hello_sent_this_connection (bridge s)) then
    let (ok, c) := send_line (hello_answer env) hello (bridge s) in (s <| bridge := c |>, ok, [hello])
  else (s, false, []).
(** What follows a hello that went: its note, and the two latches a fresh core starts with,
    written without the lock. *)
Definition note_hello (env : update_env) (s : update_state) : update_state := s <| bridge := mark_hello_sent (hello_at env) (bridge s) |>.
Definition reset_latches (s : update_state) : update_state :=
  s <| player_frozen_sent := false |> <| input := input s <| input_labels_sent := false |> |>.
Definition hello_stage (env : update_env) (s : update_state) : update_state * list bytes :=
  let '(s, ok, sent) := offer_hello env s in (if ok then reset_latches (note_hello env s) else s, sent).

Definition poll_stage (env : update_env) (s : update_state) : update_state * list bytes :=
  if connected (bridge s) then
    let '(c, lines, _) := poll_lines (recv_answers env) (recv_now env) (bridge s) in (s <| bridge := c |>, lines)
  else (s, []).

(** The cached state and the input track, sent in this order. *)
Definition send_stage (env : update_env) (s : update_state) : update_state * list bytes :=
  let '(s, sent) :=
    if bool_decide (cached_local_state_json s = []) then (s, [])
    else (s <| bridge := (send_line (state_answer env) (cached_local_state_json s) (bridge s)).2 |>,
          [cached_local_state_json s]) in
  if INPUT_TRACK_CAPTURE then
    let (i, line) := input_track_drain_and_send (format_double env) (is_ready (bridge s) && input_enabled env)
                       (fun line => (send_line (input_answer env) line (bridge s)).1) (input s) in
    match line with
    | None => (s <| input := i |>, sent)
    | Some line => (s <| input := i |> <| bridge := (send_line (input_answer env) line (bridge s)).2 |>, sent ++ [line])
    end
  else (s, sent).

(** The lines received join the queue, which is collapsed when it is past its bound. *)
Definition queue_stage (received : list bytes) (s : update_state) : update_state :=
  if bool_decide (received = []) then s
  else
    let lines := pending_incoming_lines s ++ received in
    if pending_collapse_at s <? length lines then
      let lines := collapse_latest_render_remote lines in
      s <| pending_incoming_lines := lines |>
        <| pending_collapse_at := Nat.max PENDING_LINES_COLLAPSE_AT (length lines * 2) |>
    else s <| pending_incoming_lines := lines |>.

(** The state, the lines offered to the socket, and the process started. *)
Definition on_update (env : update_env) (s : update_state) : update_state * list bytes * option (bytes * bytes) :=
  let (s, started) := connect_stage env s in
  let (s, hellos) := hello_stage env s in
  let (s, received) := poll_stage env s in
  if is_ready (bridge s) then
    let (s, sent) := send_stage env s in (queue_stage received s, hellos ++ sent, started)
  else (s, hellos, started).

(** * The update, cut where a tick can fall *)

(** Where the thread is, with the lines it has read and not yet queued. *)
Inductive spot := AtTop | AtHello | AtNote | AtLatches | AtPoll | AtSend (received : list bytes) | AtQueue (received : list bytes).

(** Its next move: where it is after it, the state, and the lines offered to the socket. *)
Definition moves (env : update_env) (at_ : spot) (s : update_state) : spot * update_state * list bytes :=
  match at_ with
  | AtTop => (AtHello, (connect_stage env s).1, [])
  | AtHello => let '(s, ok, sent) := offer_hello env s in (if ok then AtNote else AtPoll, s, sent)
  | AtNote => (AtLatches, note_hello env s, [])
  | AtLatches => (AtPoll, reset_latches s, [])
  | AtPoll => let (s, received) := poll_stage env s in (if is_ready (bridge s) then AtSend received else AtTop, s, [])
  | AtSend received => let (s, sent) := send_stage env s in (AtQueue received, s, sent)
  | AtQueue received => (AtTop, queue_stage received s, [])
  end.

Definition move_on (env : update_env) (x : spot * update_state * list bytes) : spot * update_state * list bytes :=
  let '(at_, s, sent) := x in let '(at_, s, sent') := moves env at_ s in (at_, s, sent ++ sent').

(** With no tick in between, the moves are the update. *)
Lemma moves_update env s :
  exists n, Nat.iter (S n) (move_on env) (AtTop, s, []) = (AtTop, (on_update env s).1.1, (on_update env s).1.2).
Proof.
  unfold on_update, hello_stage. destruct (connect_stage env s) as [s1 st] eqn:E1.
  destruct (offer_hello env s1) as [[s2 ok] hs] eqn:E2.
  set (s3 := if ok then reset_latches (note_hello env s2) else s2).
  destruct (poll_stage env s3) as [s4 received] eqn:E4.
  assert (exists n, Nat.iter n (move_on env) (AtTop, s, []) = (AtPoll, s3, hs)) as (n & Hn).
  { destruct ok; [exists 4|exists 2]; cbn; rewrite E1; cbn; rewrite E2; cbn; by rewrite ?app_nil_r. }
  destruct (is_ready (bridge s4)) eqn:Er.
  - destruct (send_stage env s4) as [s5 sent] eqn:E5. exists (S (S n)).
    rewrite !Nat.iter_succ, Hn. cbn. rewrite E4, Er. cbn. rewrite E5. cbn. by rewrite !app_nil_r.
  - exists n. rewrite Nat.iter_succ, Hn. cbn. rewrite E4, Er. by rewrite app_nil_r.
Qed.

(** * The game thread's half *)

Record drain_env := DrainEnv { d_line : line_env; d_ids : list bytes (* the order [remotes] is walked in *) }.

Definition handle_lines (env : line_env) (lines : list bytes) (p : plugin) : plugin * list engine_call :=
  foldl (fun '(p, calls) line => let (p, calls') := handle_bridge_line env line p in (p, calls ++ calls')) (p, []) lines.

(** The queue is taken, collapsed, and applied in order; then the ghosts are released if
    the bridge was lost. *)
Definition drain (env : drain_env) (s : update_state) (p : plugin) : update_state * plugin * list engine_call :=
  let lines_to_process := collapse_latest_render_remote (pending_incoming_lines s) in
  let cleanup := bridge_disconnect_cleanup_pending s in
  let s := s <| pending_incoming_lines := [] |> <| pending_collapse_at := PENDING_LINES_COLLAPSE_AT |>
             <| bridge_disconnect_cleanup_pending := false |> in
  let (p, calls) := handle_lines (d_line env) lines_to_process p in
  if cleanup then
    let (p, calls') := release_all_ghosts_parked (l_release (d_line env)) (d_ids env) p in (s, p, calls ++ calls')
  else (s, p, calls).
