(* ===== verification/LocalTick.v ===== *)
(** Plugin.cpp, [game_thread_tick], from its top to the drain: the gates, the freeze told
    to the core, the local player's frame and the line cached for [on_update].

    The turns of the remotes that follow are [RemoteTick]. *)
From S2P Require Import Prelude Float64 JsonString BridgeClient RemoteGhost Lifecycle BridgeLine InputTrack.
From S2P Require Import ObjectRegistry PeerProps PoseMirror LocalCapture TrailCapture VfxCapture LocalState Update.
From Stdlib Require Import ZArith.

(** Maps that hold a real pawn and are no play. *)
Definition NON_GAMEPLAY_MAP_FRAGMENTS : list string := ["TitleScreen"]%string.
Definition in_non_gameplay_map (area_id : bytes) : bool :=
  existsb (fun fragment => PeerProps.contains area_id (str fragment)) NON_GAMEPLAY_MAP_FRAGMENTS.

Record game := Game { g_update : update_state; g_plugin : plugin; g_capture : capture }.
#[export] Instance game_eta : Eta game := fun r => Game (g_update r) (g_plugin r) (g_capture r).

Record game_env := GameEnv {
  e_view : local_view; e_tick : Z; unreal_ready : bool; quiet_until_tick : Z;
  e_controller : option Z; e_pawn : option Z; cursor_shown : bool;
  frozen_answer : send_answer; reset_answer : send_answer;   (* what the socket answers each edge line *)
  e_format : double -> bytes; e_frame : frame_env; e_drain : drain_env
}.
#[export] Instance game_env_eta : Eta game_env := fun r =>
  GameEnv (e_view r) (e_tick r) (unreal_ready r) (quiet_until_tick r) (e_controller r) (e_pawn r) (cursor_shown r)
    (frozen_answer r) (reset_answer r) (e_format r) (e_frame r) (e_drain r).

(** An edge line offered to the bridge: whether it went, and the bridge after it. *)
Definition went (answer : send_answer) (c : client) (line : bytes) : bool := (send_edge_line answer line c).1.
Definition offer (answer : send_answer) (lines : list bytes) (c : client) : client :=
  foldl (fun c line => (send_edge_line answer line c).2) c lines.

Definition frozen_stage (env : game_env) (s : update_state) : update_state * list bytes :=
  match e_controller env with
  | None => (s, [])
  | Some controller =>
      let (sent, lines) := send_frozen (Some (went (frozen_answer env) (bridge s)))
                             (read_frozen (e_view env) controller (e_pawn env)) (player_frozen_sent s) in
      (s <| player_frozen_sent := sent |> <| bridge := offer (frozen_answer env) lines (bridge s) |>, lines)
  end.

(** The panel follows a ghost while it has a track, and 180 ticks past its absence; then
    the next ghost may take it. *)
Definition follow_panel (p : plugin) (grace : Z) : plugin * Z * bool :=
  if bool_decide (g_disp_ghost_id p = []) then (p, grace, false)
  else if bool_decide (is_Some (ghost_inputs p !! g_disp_ghost_id p)) then (p, 180%Z, true)
  else if (grace >? 0)%Z then (p, (grace - 1)%Z, true)
  else (p <| g_disp_ghost_id := [] |>, grace, false).

(** What the input track is given of the bridge: the track is wanted where the settings want
    it and a core is ready for it. *)
Definition frame_now (s : update_state) (f : frame_env) : frame_env :=
  f <| track_wants := track_wants f && is_ready (bridge s) |>.

(** Withheld where there is no play: no pawn, or a map that is none. *)
Definition no_state (st : game) : game :=
  st <| g_capture := g_capture st <| c_ticks_since_pawn_valid := 0%Z |> |>
     <| g_update := g_update st <| cached_local_state_json := NO_STATE |> |>.

Definition capture_stage (env : game_env) (st : game) : game * list bytes :=
  match e_controller env, e_pawn env with
  | Some _, Some pawn =>
      let c := g_capture st in
      let since := if class_looks_like_player (pawn_of (e_view env) pawn) then u64 (c_ticks_since_pawn_valid c + 1) else 0%Z in
      let '(c, f, lines) :=
        sample_frame (e_view env) (e_tick env) pawn (Some (went (reset_answer env) (bridge (g_update st))))
          (spawned_by_us (remotes (g_plugin st))) (c <| c_ticks_since_pawn_valid := since |>) in
      let s := g_update st <| bridge := offer (reset_answer env) lines (bridge (g_update st)) |> in
      let st := Game s (g_plugin st) c in
      if in_non_gameplay_map (f_area_id f) then (no_state st, lines)
      else
        let s := s <| cached_local_state_json := local_state (e_format env) f |> in
        let s := if INPUT_TRACK_CAPTURE then s <| input := input_track_sample (frame_now s (e_frame env)) (input s) |> else s in
        let '(p, grace, _) := if INPUT_HISTORY_DISPLAY then follow_panel (g_plugin st) (g_disp_ghost_grace c)
                              else (g_plugin st, g_disp_ghost_grace c, false) in
        (Game s p (c <| g_disp_ghost_grace := grace |>), lines)
  | _, _ => (no_state st, [])
  end.

(** Silent while the pause menu shows its cursor, and across a teardown. *)
Definition silent (env : game_env) : bool :=
  (bool_decide (is_Some (e_controller env)) && cursor_shown env) || (e_tick env <? quiet_until_tick env)%Z.

(** The top of a tick, before its gates: what the loading thread constructed, the freeze. *)
Definition top_stage (env : game_env) (st : game) : game * list bytes :=
  let c := g_capture st in
  let c := c <| c_feed := registry_drain_pending (world_objects (e_view env)) (c_feed c) |> in
  let (s, frozen) := frozen_stage env (g_update st) in
  (Game s (g_plugin st) c, frozen).

(** What a line's handler is given of the tick: the pawn and the controller found, and how
    long the pawn has been up. *)
Definition spawn_now (env : game_env) (ticks : Z) (e : spawn_env) : spawn_env :=
  SpawnEnv (pawn_of (e_view env) <$> e_pawn env) (e_controller env) (e_tick env)
    (suppress_ghost_spawn_until_tick e) ticks (ghost_spawn_far e) (bare_ghost e) (spawned_actor e) (strips_ambient e) (own_hitable e).
Definition drain_now (env : game_env) (c : capture) : drain_env :=
  let d := e_drain env in
  DrainEnv (LineEnv (spawn_now env (c_ticks_since_pawn_valid c) (l_spawn (d_line d))) (l_release (d_line d)) (l_now_ms (d_line d)))
    (d_ids d).

Definition bottom_stage (env : game_env) (st : game) : game * list bytes * list engine_call :=
  let (st, resets) := capture_stage env st in
  let '(s, p, calls) := drain (drain_now env (g_capture st)) (g_update st) (g_plugin st) in
  (Game s p (g_capture st), resets, calls).

(** The state after the local half, the edge lines offered to the core, and the calls of
    the lines drained. *)
Definition local_half (env : game_env) (st : game) : game * list bytes * list engine_call :=
  if negb (unreal_ready env) then (st, [], [])
  else
    let (st, frozen) := top_stage env st in
    if silent env then (st, frozen, [])
    else let '(st, resets, calls) := bottom_stage env st in (st, frozen ++ resets, calls).
