(* ===== verification/GameTick.v ===== *)
(** Plugin.cpp, [game_thread_tick] from its top to its end, and the level's transitions:
    the local half, the camera rigs, the outlines, the recording indicator and the turns of
    the remotes, composed in the order of the code and over one state, with the settings
    the other thread polls.

    Left out: the input panels' widgets, the censuses and traces. *)
From S2P Require Import Prelude Float64 JsonString BridgeClient RemoteGhost Lifecycle BridgeLine InputTrack PeerProps DistanceTier.
From S2P Require Import ObjectRegistry PoseMirror MontageMirror GhostSweeps Chaser InputDisplay Nametag RemoteTick.
From S2P Require Import LocalCapture LocalState TrailCapture AfterimageOutline GhostGuards IndicatorConfig Hud Update LocalTick.
From Stdlib Require Import ZArith.

Definition RESET_SPAWN_SUPPRESS_TICKS : Z := 0.
Definition POST_WORLD_SPAWN_SUPPRESS_TICKS : Z := 0.

(** * The state *)

Record world := World {
  w_game : game;
  w_spot : spot;                              (* where on_update's thread is *)
  w_outline : outline;                        (* its registry is the capture's *)
  orphan_sightings : gmap Z Z;
  w_lights : fix_lights;
  w_local : guard_local;
  last_non_ghost_view_target : option Z;
  suppress_until : Z; quiet_until : Z;        (* suppress_ghost_spawn_until_tick, quiet_until_tick *)
  w_settings : indicator; w_ranges : ranges; w_hud : hud
}.
#[export] Instance world_eta : Eta world := fun r =>
  World (w_game r) (w_spot r) (w_outline r) (orphan_sightings r) (w_lights r) (w_local r) (last_non_ghost_view_target r)
    (suppress_until r) (quiet_until r) (w_settings r) (w_ranges r) (w_hud r).
Definition world0 (s : update_state) : world :=
  World (Game s plugin0 capture0) AtTop (Outline ∅ ∅ feed0 ∅) ∅ fix_lights0 None None 0 0 indicator0 ranges0 hud0.

(** What a tick reads besides the local half's: the rigs, the images, the widgets, and for
    each remote, in the map's order, what its turn asks. *)
Record world_env := WorldEnv {
  t_game : game_env; t_owning : Z -> option (option Z); t_images : image_view; t_remotes : list (bytes * remote_env);
  t_pow : double -> double -> double; t_widgets : widget_env; t_parts : option made * option made * option Z; t_wall_ms : Z
}.

Record tick_out := TickOut {
  o_lines : list bytes;                 (* edge lines offered to the core *)
  o_lights : option Z;                  (* the spawns of a light repair *)
  o_neutralised : list Z; o_orphans : list Z;
  o_released : list engine_call; o_tiers : list tier_call; o_calls : list ghost_call; o_hud : list hud_call
}.

Definition ghosts_now (ids : list bytes) (p : plugin) : list Z := omap (fun id => remotes p !! id ≫= (fun g => ghost (engine_objects g))) ids.

(** * The stages *)

(** The gates and the spawn's hold, as the transitions set them, and what the settings want
    of the inputs. *)
Definition with_holds (w : world) (env : game_env) : game_env :=
  let d := e_drain env in
  let e := l_spawn (d_line d) in
  env <| quiet_until_tick := quiet_until w |>
      <| e_frame := e_frame env <| track_wants := g_input_track_enabled (w_settings w) |>
                                <| display_wants := g_disp_player (disp (w_settings w)) |> |>
      <| e_drain := DrainEnv (LineEnv (SpawnEnv (local_pawn e) (local_controller e) (tick_count e) (suppress_until w)
                                         (ticks_since_pawn_valid e) (ghost_spawn_far e) (bare_ghost e) (spawned_actor e)
                                         (strips_ambient e) (own_hitable e)) (l_release (d_line d)) (l_now_ms (d_line d))) (d_ids d) |>.

Definition set_feed (fd : feed) (st : game) : game := st <| g_capture := g_capture st <| c_feed := fd |> |>.

(** With a pawn and a controller: the rigs held out of the view, the orphans destroyed, and
    the player's place kept for the guard. *)
Definition rig_stage (env : world_env) (w : world) : world * list Z * list Z :=
  let g := t_game env in
  match e_controller g, e_pawn g with
  | Some _, Some pawn =>
      let rv := RigView (e_view g) (t_owning env) in
      let (fd, neutral) := neutralise_rigs rv (e_tick g) pawn (c_feed (g_capture (w_game w))) in
      let '(fd, m, destroyed) := sweep_orphan_rigs rv (e_tick g) (pawn_of (e_view g) pawn) (fd, orphan_sightings w) in
      (w <| w_game := set_feed fd (w_game w) |> <| orphan_sightings := m |> <| w_local := cache_local (place (e_view g) pawn) |>,
       neutral, destroyed)
  | _, _ => (w, [], [])
  end.

Definition outline_stage (env : world_env) (w : world) : world :=
  let g := t_game env in
  let s := w_outline w <| afterimage_feed := c_feed (g_capture (w_game w)) |> in
  let s := tick_outlines (t_images env) (e_tick g) (ghosts_now (map fst (t_remotes env)) (g_plugin (w_game w)))
             (place (e_view g) <$> e_pawn g) s in
  w <| w_outline := s |> <| w_game := set_feed (afterimage_feed s) (w_game w) |>.

(** The recording indicator. *)
Definition hud_stage (env : world_env) (w : world) : world * list hud_call :=
  let g := t_game env in
  let p := g_plugin (w_game w) in
  let (h, calls) := tick_hud_indicator (t_pow env) (t_widgets env) (w_settings w) (g_recording_active p) (g_recording_started_unix_ms p)
                      (t_wall_ms env) (e_tick g) (e_controller g) (t_parts env) (w_hud w) in
  (w <| w_hud := h |>, calls).

(** What the turns are given of the tick: the settings, and the freeze told. *)
Record given := Given { gv_game : game_env; gv_settings : indicator; gv_ranges : ranges; gv_frozen : bool }.

Definition remote_now (t : given) (e : remote_env) : remote_env :=
  let g := gv_game t in
  let p := props e in
  let world := match e_controller g, e_pawn g with Some _, Some pawn => world_of (e_view g) pawn | _, _ => None end in
  {| alive := alive e;
     props := PropEnv (fx p) (weapon_prop_skipped p) (hand p) (e_tick g) (now_ms p) (created_flyer p) (deactivate_immediate p)
                (peer_asset p) world (ghost_name p) (niagara_components p) (weapon_mesh p);
     tier_ranges := gv_ranges t; local_loc := place (e_view g) <$> e_pawn g; tier_mesh := tier_mesh e; tier_movement := tier_movement e;
     local_player := e_pawn g; toggles := toggles e; reads := reads e; view := view e; assets := assets e;
     ambient_stripped := ambient_stripped e; hurt := hurt e;
     contact := ContactEnv (seen_by (contact e)) (location_of (contact e)) (gv_frozen t);
     panel := DisplayEnv (drawn (disp (gv_settings t))) (fps_shown (panel e)) (ghost_text (panel e)) (display_now (panel e));
     nametag_view := nametag_view e <| pawn_at := place (e_view g) <$> e_pawn g |>; nametag_tuning := tag_tuning_of (gv_settings t);
     decode_utf8 := decode_utf8 e; mathematics := mathematics e |}.

Definition loop_step (t : given) (st : plugin * list tier_call * list ghost_call) (x : bytes * remote_env)
    : plugin * list tier_call * list ghost_call :=
  let '(p, tiers, calls) := st in
  let '(p, tiers', calls') := tick_remote (remote_now t x.2) x.1 p in (p, tiers ++ tiers', calls ++ calls').

Definition loop_stage (env : world_env) (w : world) (p : plugin) : plugin * list tier_call * list ghost_call :=
  let t := Given (t_game env) (w_settings w) (w_ranges w) (Update.player_frozen_sent (g_update (w_game w))) in
  foldl (loop_step t) (p, [], []) (t_remotes env).

(** A spawn asks for the light repair; the spacing of the spawns leaves one to a tick. *)
Definition note_spawn (before after : plugin) (s : fix_lights) : fix_lights :=
  if (last_ghost_spawn_tick after =? last_ghost_spawn_tick before)%Z then s else ask_fix_lights s.

(** * The tick *)

Definition game_thread_tick (env : world_env) (w : world) : world * tick_out :=
  let g := with_holds w (t_game env) in
  if negb (unreal_ready g) then (w, TickOut [] None [] [] [] [] [] [])
  else
    let (lights, served) := serve_fix_lights (e_tick g) (w_lights w) in
    let (st, frozen) := top_stage g (w_game w) in
    let w := w <| w_lights := lights |> <| w_game := st |> in
    if silent g then (w, TickOut frozen served [] [] [] [] [] [])
    else
      let '(w, neutral, orphans) := rig_stage env w in
      let before := g_plugin (w_game w) in
      let '(st, resets, released) := bottom_stage g (w_game w) in
      let w := outline_stage env (w <| w_lights := note_spawn before (g_plugin st) (w_lights w) |> <| w_game := st |>) in
      let (w, hud_calls) := hud_stage env w in
      let st := w_game w in
      let '(p, tiers, calls) := loop_stage env w (g_plugin st) in
      (w <| w_game := Game (g_update st) p (g_capture st) |>, TickOut (frozen ++ resets) served neutral orphans released tiers calls hud_calls).

(** * Transitions *)

(** [release_all_ghosts]: everything that names an actor of the level is dropped. *)
Definition level_ends (w : world) : world :=
  let st := w_game w in
  w <| w_game := Game (g_update st) (release_all_ghosts (g_plugin st)) (forget_capture (g_capture st)) |>
    <| w_outline := forget_outlines (w_outline w) |> <| last_non_ghost_view_target := None |>
    <| w_hud := forget_hud (w_hud w) |>.

Definition hold_until (until : Z) (w : world) : world := w <| suppress_until := until |> <| quiet_until := until |>.

Definition release_step (env : release_env) (st : plugin * list engine_call) (id : bytes) : plugin * list engine_call :=
  let (p, calls) := st in
  match remotes p !! id ≫= (fun g => ghost (engine_objects g)) with
  | Some _ => let (p, calls') := release_ghost env id p in (p, calls ++ calls')
  | None => (p, calls)
  end.

(** Before a map is loaded: each ghost there is, then all the rest. *)
Definition load_map_pre (env : release_env) (ids : list bytes) (tick : Z) (w : world) : world * list engine_call :=
  let st := w_game w in
  let (p, calls) := foldl (release_step env) (g_plugin st, []) ids in
  (hold_until (u64 (tick + RESET_SPAWN_SUPPRESS_TICKS)) (level_ends (w <| w_game := Game (g_update st) p (g_capture st) |>)), calls).

Definition init_game_state_pre (tick : Z) (w : world) : world :=
  hold_until (u64 (tick + POST_WORLD_SPAWN_SUPPRESS_TICKS)) (level_ends w).

(** * What may happen *)

Inductive event :=
  | Moved (env : update_env)                                       (* on_update's next move, UE4SS's thread *)
  | Polled (undefined : Z) (config file : option bytes)            (* on_update's poll of the two files *)
  | Ticked (env : world_env)
  | LoadMapPre (env : release_env) (ids : list bytes) (tick : Z)
  | InitGameStatePre (tick : Z)
  | Switched (ids : list bytes) (s : switch)                       (* SetViewTargetWithBlend *)
  | Depth (v : image_view) (ids : list bytes) (c : Z) (value : bool)   (* SetRenderCustomDepth *)
  | Constructed (w : objects) (in_game_thread : bool) (a : Z).     (* StaticConstructObject *)

Definition happens (w : world) (e : event) : world :=
  match e with
  | Moved env =>
      let env := env <| input_enabled := g_input_track_enabled (w_settings w) |> in
      let moved := (moves env (w_spot w) (g_update (w_game w))).1 in
      w <| w_spot := moved.1 |> <| w_game := w_game w <| g_update := moved.2 |> |>
  | Polled undefined config file =>
      let '(s, redraw, r) := poll_recording_indicator_tuning undefined config file (w_settings w) (w_ranges w) in
      let w := w <| w_settings := s |> <| w_ranges := r |> in
      if redraw then w <| w_game := w_game w <| g_plugin := redraw_panels (g_plugin (w_game w)) |> |> else w
  | Ticked env => (game_thread_tick env w).1
  | LoadMapPre env ids tick => (load_map_pre env ids tick w).1
  | InitGameStatePre tick => init_game_state_pre tick w
  | Switched ids s =>
      let s := {| sw_reads := sw_reads s; sw_ghosts := ghosts_now ids (g_plugin (w_game w)); sw_tick := sw_tick s;
                  sw_spawn_tick := last_ghost_spawn_tick (g_plugin (w_game w)); sw_gone := sw_gone s; sw_target := sw_target s |} in
      w <| last_non_ghost_view_target := (camera_guard (last_non_ghost_view_target w) s).1 |>
  | Depth v ids c value =>
      let s := set_render_custom_depth v (ghosts_now ids (g_plugin (w_game w))) c value
                 (w_outline w <| afterimage_feed := c_feed (g_capture (w_game w)) |>) in
      w <| w_outline := s |> <| w_game := set_feed (afterimage_feed s) (w_game w) |>
  | Constructed ws gt a => w <| w_game := set_feed (registry_note_constructed ws gt a (c_feed (g_capture (w_game w)))) (w_game w) |>
  end.

Definition runs (es : list event) (w : world) : world := foldl happens w es.
