(* ===== verification/UpdateProps.v ===== *)
(** The bridge's traffic: collapsing the queue early loses nothing the drain would keep,
    nothing but the hello goes out before a core has answered, a core is started only
    while none is connected, and a lost bridge releases the ghosts. *)
From S2P Require Import Prelude Float64 JsonString JsonScoped JsonTop Collapse BridgeClient.
From S2P Require Import CoreLauncher RemoteGhost Lifecycle BridgeLine InputTrack Update.
From Stdlib Require Import ZArith.

(** * The stages, field by field *)

(** The state whose bridge the poll reads. *)
Definition before_poll (env : update_env) (s : update_state) : update_state :=
  (hello_stage env (connect_stage env s).1).1.
Definition after_poll (env : update_env) (s : update_state) : update_state := (poll_stage env (before_poll env s)).1.
Definition lines_read (env : update_env) (s : update_state) : list bytes := (poll_stage env (before_poll env s)).2.

(** The lines an update puts in the queue. *)
Definition lines_queued (env : update_env) (s : update_state) : list bytes :=
  if is_ready (bridge (after_poll env s)) then lines_read env s else [].

Lemma connect_stage_fields env s :
  let s' := (connect_stage env s).1 in
  pending_incoming_lines s' = pending_incoming_lines s /\ pending_collapse_at s' = pending_collapse_at s /\
  cached_local_state_json s' = cached_local_state_json s.
Proof.
  unfold connect_stage. cbv zeta. destruct (drive_launcher _ _ _) as [l st].
  destruct (bridge_was_connected _ && _); by destruct s.
Qed.

Lemma hello_stage_fields env s :
  let s' := (hello_stage env s).1 in
  pending_incoming_lines s' = pending_incoming_lines s /\ pending_collapse_at s' = pending_collapse_at s /\
  bridge_disconnect_cleanup_pending s' = bridge_disconnect_cleanup_pending s /\
  bridge_was_connected s' = bridge_was_connected s.
Proof.
  unfold hello_stage, offer_hello. destruct (_ && _); [|done]. destruct (send_line _ _ _) as [[] c]; by destruct s.
Qed.

Lemma poll_stage_fields env s :
  let s' := (poll_stage env s).1 in
  pending_incoming_lines s' = pending_incoming_lines s /\ pending_collapse_at s' = pending_collapse_at s /\
  bridge_disconnect_cleanup_pending s' = bridge_disconnect_cleanup_pending s /\
  bridge_was_connected s' = bridge_was_connected s.
Proof.
  unfold poll_stage. destruct (connected _); [|done]. destruct (poll_lines _ _ _) as [[c lines] rest]. by destruct s.
Qed.

Lemma send_stage_fields env s :
  let s' := (send_stage env s).1 in
  pending_incoming_lines s' = pending_incoming_lines s /\ pending_collapse_at s' = pending_collapse_at s /\
  bridge_disconnect_cleanup_pending s' = bridge_disconnect_cleanup_pending s /\
  bridge_was_connected s' = bridge_was_connected s.
Proof.
  unfold send_stage. destruct (bool_decide _); cbn [INPUT_TRACK_CAPTURE];
    destruct (input_track_drain_and_send _ _ _ _) as [i [line|]]; by destruct s.
Qed.

Lemma queue_stage_fields received s :
  let s' := queue_stage received s in
  bridge s' = bridge s /\ bridge_disconnect_cleanup_pending s' = bridge_disconnect_cleanup_pending s /\
  bridge_was_connected s' = bridge_was_connected s.
Proof.
  unfold queue_stage. destruct (bool_decide _); [done|]. cbv zeta. destruct (_ <? _); by destruct s.
Qed.

(** The update, as its stages leave it. *)
Lemma on_update_stages env s :
  on_update env s =
  (if is_ready (bridge (after_poll env s))
   then (queue_stage (lines_read env s) (send_stage env (after_poll env s)).1,
         (hello_stage env (connect_stage env s).1).2 ++ (send_stage env (after_poll env s)).2,
         (connect_stage env s).2)
   else (after_poll env s, (hello_stage env (connect_stage env s).1).2, (connect_stage env s).2)).
Proof.
  unfold on_update, after_poll, lines_read, before_poll.
  destruct (connect_stage env s) as [s1 st]. cbn [fst snd]. destruct (hello_stage env s1) as [s2 hs]. cbn [fst snd].
  destruct (poll_stage env s2) as [s3 rs]. cbn [fst snd]. destruct (is_ready (bridge s3)); [|done].
  by destruct (send_stage env s3).
Qed.

(** * The queue *)

(** The bound that triggers the next collapse is never below the queue. *)
Definition queue_ok (s : update_state) : Prop :=
  length (pending_incoming_lines s) <= pending_collapse_at s /\ PENDING_LINES_COLLAPSE_AT <= pending_collapse_at s.

Lemma queue_stage_latest received s :
  queue_ok s ->
  latest (pending_incoming_lines (queue_stage received s)) = latest (pending_incoming_lines s ++ received) /\
  queue_ok (queue_stage received s) /\
  pending_collapse_at (queue_stage received s)
    <= Nat.max (pending_collapse_at s) (2 * length (latest (pending_incoming_lines s ++ received))).
Proof.
  unfold queue_ok, queue_stage. intros [Hl Hb]. case_bool_decide as Hr; [subst; rewrite app_nil_r; split; [done|lia]|].
  cbv zeta. destruct (Nat.ltb_spec (pending_collapse_at s) (length (pending_incoming_lines s ++ received))) as [Ho|Ho].
  - rewrite collapse_latest. pose proof (latest_latest_app (pending_incoming_lines s ++ received) []) as H.
    rewrite !app_nil_r in H. destruct s. cbn -[PENDING_LINES_COLLAPSE_AT Nat.mul Nat.max] in *.
    split; [done|lia].
  - destruct s. cbn -[PENDING_LINES_COLLAPSE_AT Nat.mul Nat.max] in *. split; [done|]. lia.
Qed.

Lemma on_update_queue env s :
  queue_ok s ->
  latest (pending_incoming_lines (on_update env s).1.1) = latest (pending_incoming_lines s ++ lines_queued env s) /\
  queue_ok (on_update env s).1.1.
Proof.
  intros Hok. rewrite on_update_stages. unfold lines_queued.
  destruct (poll_stage_fields env (before_poll env s)) as (E1 & E2 & _).
  destruct (hello_stage_fields env (connect_stage env s).1) as (E3 & E4 & _).
  destruct (connect_stage_fields env s) as (E5 & E6 & _).
  fold (after_poll env s) in E1, E2. fold (before_poll env s) in E3, E4.
  assert (pending_incoming_lines (after_poll env s) = pending_incoming_lines s) as Ep by congruence.
  assert (pending_collapse_at (after_poll env s) = pending_collapse_at s) as Eq by congruence.
  destruct (is_ready (bridge (after_poll env s))); cbn [fst].
  - destruct (send_stage_fields env (after_poll env s)) as (E7 & E8 & _). rewrite Ep in E7. rewrite Eq in E8.
    destruct (queue_stage_latest (lines_read env s) (send_stage env (after_poll env s)).1) as (H1 & H2 & _).
    { unfold queue_ok. by rewrite E7, E8. }
    by rewrite H1, E7.
  - unfold queue_ok. by rewrite Ep, Eq, app_nil_r.
Qed.

(** Updates with no drain between them, and the lines they queue. *)
Definition updates (envs : list update_env) (s : update_state) : update_state :=
  foldl (fun s env => (on_update env s).1.1) s envs.
Fixpoint queued (envs : list update_env) (s : update_state) : list bytes :=
  match envs with
  | [] => []
  | env :: envs => lines_queued env s ++ queued envs (on_update env s).1.1
  end.

Lemma latest_app_congr a b c : latest a = latest b -> latest (a ++ c) = latest (b ++ c).
Proof. intros E. by rewrite <- (latest_latest_app a), <- (latest_latest_app b), E. Qed.

Lemma updates_latest envs : forall s, queue_ok s ->
  latest (pending_incoming_lines (updates envs s)) = latest (pending_incoming_lines s ++ queued envs s) /\ queue_ok (updates envs s).
Proof.
  induction envs as [|env envs IH]; intros s Hok; cbn [updates foldl queued]; [by rewrite app_nil_r|].
  change (foldl _ ?x envs) with (updates envs x). destruct (on_update_queue env s Hok) as [H1 H2].
  destruct (IH _ H2) as [H3 H4]. split; [|done]. rewrite H3, app_assoc. by apply latest_app_congr.
Qed.

(** * A sample run

    A connected client whose core has accepted it, and updates that receive [lines]. *)

Definition start_state : update_state :=
  UpdateState (new_client BRIDGE_BASE_PORT) (new_launcher (fun _ => None) (fun _ => None) [])
    false false false input_state0 [] [] PENDING_LINES_COLLAPSE_AT.
Definition sample_update (answer : Z -> dial) (lines : list bytes) (now : Z) : update_env :=
  {| net := Network answer (fun _ => true);
     clock_hello := now; clock_cool := now; clock_sweep := now;
     run_port := fun _ => true; run_claim := fun _ => true; run_spawn := fun _ => true;
     exe_exists := fun _ => true; exe_dirs := [str "C:"]; own_pid := 42; launcher_now := 1000; create := Some (5, 6)%Z;
     hello_answer := Sent (S (length hello)); hello_at := now;
     recv_answers := map (fun l => Recv (l ++ [cLF])) lines; recv_now := now;
     state_answer := Sent 0; input_answer := Sent 0; input_enabled := false; format_double := fun _ => [] |}.
Definition answers_up (port : Z) : dial := Dial (Some port) ConnOk SelNone.
Definition answers_down (port : Z) : dial := Dial (Some port) (ConnErr WSAECONNREFUSED) SelNone.

(** The first update: the sweep connects, the hello goes out, the core accepts. *)
Definition first_update : update_env := sample_update answers_up [js "{'type':'bridge_ready'}"] (ms 2000).
Definition ready_state : update_state := (on_update first_update start_state).1.1.

(** C25: what the drain applies is what it would apply had the queue never been collapsed:
    over any number of updates while the game is paused, of all the lines queued (those
    there were, and those the updates received) the drain handles, in the order received,
    every line that is not a player's state, and of each player's states the newest and
    no other; and the queue is never left above the bound of its next collapse. *)
Theorem queue_collapse_transparent (envs : list update_env) (s : update_state) (Hok : queue_ok s) :
  let all := pending_incoming_lines s ++ queued envs s in
  let applied := latest all in
  (forall d p, bridge_disconnect_cleanup_pending (updates envs s) = false ->
     let '(_, p', calls) := drain d (updates envs s) p in (p', calls) = handle_lines (d_line d) applied p) /\
  collapse_latest_render_remote (pending_incoming_lines (updates envs s)) = applied /\
  applied `sublist_of` all /\
  filter (fun l => render_id l = None) applied = filter (fun l => render_id l = None) all /\
  (forall id, filter (fun l => render_id l = Some id) applied = option_list (list.last (filter (fun l => render_id l = Some id) all))) /\
  queue_ok (updates envs s).
Proof.
  intros all applied. destruct (updates_latest envs s Hok) as [E Hq].
  assert (collapse_latest_render_remote (pending_incoming_lines (updates envs s)) = applied) as Ec by by rewrite collapse_latest.
  split_and!; [|done|apply latest_sublist|apply filter_latest_kept|intros; apply filter_latest_id|done].
  intros d p Hc. unfold drain. rewrite Hc, Ec. by destruct (handle_lines (d_line d) applied p).
Qed.

(** Three states of one player and a name, received in two updates. *)
Example queue_collapse_transparent_witness :
  let pose n := js "{'type':'render_remote','payload':{'player_id':'a','n':" ++ to_decimal n ++ js "}}" in
  let envs := [sample_update answers_up [pose 1%Z; js "{'type':'remote_name'}"] (ms 2001);
               sample_update answers_up [pose 2%Z; pose 3%Z] (ms 2002)] in
  is_ready (bridge ready_state) = true /\ queue_ok ready_state /\
  pending_incoming_lines (updates envs ready_state) = [pose 1%Z; js "{'type':'remote_name'}"; pose 2%Z; pose 3%Z] /\
  collapse_latest_render_remote (pending_incoming_lines (updates envs ready_state)) = [js "{'type':'remote_name'}"; pose 3%Z].
Proof.
  intros pose envs. assert (queue_ok ready_state) as Hok.
  { apply (on_update_queue first_update start_state). split; [apply Nat.le_0_l|apply Nat.le_refl]. }
  split; [by vm_compute|]. split; [done|]. split; [by vm_compute|].
  destruct (queue_collapse_transparent envs ready_state Hok) as (_ & -> & _). by vm_compute.
Defined.

(** * The handshake *)

(** What one update offers to the socket. *)
Lemma on_update_sent (env : update_env) (s : update_state) :
  let '(s', sent, _) := on_update env s in
  let c := bridge (connect_stage env s).1 in
  let hellos := if connected c && negb (hello_sent_this_connection c) then [hello] else [] in
  (is_ready (bridge (after_poll env s)) = false ->
     sent = hellos /\ pending_incoming_lines s' = pending_incoming_lines s) /\
  (is_ready (bridge (after_poll env s)) = true ->
     exists state track, sent = hellos ++ state ++ option_list track /\
       state = (if bool_decide (cached_local_state_json (after_poll env s) = []) then []
                else [cached_local_state_json (after_poll env s)])).
Proof.
  rewrite on_update_stages.
  assert ((hello_stage env (connect_stage env s).1).2 =
    if connected (bridge (connect_stage env s).1) && negb (hello_sent_this_connection (bridge (connect_stage env s).1))
    then [hello] else []) as Eh.
  { unfold hello_stage, offer_hello. destruct (_ && _); [|done]. by destruct (send_line _ _ _) as [[] c]. }
  rewrite Eh. destruct (is_ready (bridge (after_poll env s))) eqn:Er; (split; [|done]) || (split; [done|]); intros _.
  - unfold send_stage. destruct (bool_decide _); cbn [INPUT_TRACK_CAPTURE];
      destruct (input_track_drain_and_send _ _ _ _) as [i line]; eexists _, line; (split; [|done]);
      by destruct line.
  - split; [done|]. destruct (poll_stage_fields env (before_poll env s)) as (E1 & _).
    destruct (hello_stage_fields env (connect_stage env s).1) as (E3 & _).
    destruct (connect_stage_fields env s) as (E5 & _). unfold after_poll. unfold before_poll in *. congruence.
Qed.

(** * Starting a core *)

(** An update starts a process only when it has no connection, on the free port the
    sweep reported, and only while no child of its own is running. *)
Theorem update_starts_core (env : update_env) (s : update_state) (command dir : bytes)
    (Hs : (on_update env s).2 = Some (command, dir)) :
  let c := tick_connect (net env) (clock_hello env) (clock_cool env) (clock_sweep env) (bridge s) in
  connected c = false /\
  exists port exe, spawnable_port c = Some port /\ command = spawn_command exe (own_pid env) port /\
    spawn_disabled (core_launcher s) = false /\
    (child_still_running (run_spawn env) (core_launcher s) = false \/
     child_still_running (run_claim env) (core_launcher s) = true /\ last_busy_port c = last_spawn_port (core_launcher s)).
Proof.
  rewrite on_update_stages in Hs.
  assert ((connect_stage env s).2 = Some (command, dir)) as H by (by destruct (is_ready _)). clear Hs. revert H.
  unfold connect_stage. cbv zeta.
  set (c := tick_connect _ _ _ _ _). set (c1 := set_own_core_port _ c).
  assert (connected c1 = connected c /\ spawnable_port c1 = spawnable_port c /\ last_busy_port c1 = last_busy_port c)
    as (E1 & E2 & E3) by (by unfold c1; destruct c).
  clearbody c1. intros H.
  assert ((drive_launcher env c1 (core_launcher s)).2 = Some (command, dir)) as Hd by (by destruct (drive_launcher _ _ _)).
  clear H. unfold drive_launcher in Hd. rewrite E1, E2, E3 in Hd.
  destruct (connected c); [done|]. split; [done|]. destruct (spawnable_port c) as [port|]; [|done].
  unfold tick_disconnected in Hd. destruct (spawn_disabled (core_launcher s)) eqn:Edis; [done|].
  destruct (forget_claimed_same (run_claim env) (last_busy_port c) (core_launcher s)) as (_ & _ & _ & Hf).
  revert Hd Hf. generalize (forget_claimed (run_claim env) (last_busy_port c) (core_launcher s)). intros l Hd Hf.
  destruct (child_still_running (run_spawn env) l) eqn:Er; [done|].
  destruct (cooling_down _ _ _); [done|]. destruct (find_exe _ _) as [[d exe]|]; [|done].
  exists port, exe. split; [done|]. split; [by destruct (create env) as [[h p]|]; simplify_eq/=|]. split; [done|].
  destruct Hf as [Hf|(_ & ? & _ & ?)]; [left|by right]. unfold child_still_running in *. by rewrite <- Hf.
Qed.

(** Nothing listens: the update starts a core on the first port. *)
Example update_starts_core_witness :
  let env := sample_update answers_down [] (ms 2000) in
  exists command dir, (on_update env start_state).2 = Some (command, dir) /\
    exists port exe, spawnable_port (tick_connect (net env) (clock_hello env) (clock_cool env) (clock_sweep env)
                                       (bridge start_state)) = Some port /\
      command = spawn_command exe 42 port.
Proof.
  intros env. assert (is_Some (on_update env start_state).2) as [[command dir] E]
    by (vm_compute; by eexists).
  pose proof (update_starts_core env start_state command dir E) as (_ & port & exe & H1 & H2 & _).
  exists command, dir. split; [exact E|]. exists port, exe. split; [exact H1|exact H2].
Defined.

(** * Losing the bridge *)

Lemma on_update_cleanup env s :
  bridge_disconnect_cleanup_pending (on_update env s).1.1
    = bridge_disconnect_cleanup_pending s
      || (bridge_was_connected s
          && negb (is_ready (tick_connect (net env) (clock_hello env) (clock_cool env) (clock_sweep env) (bridge s)))) /\
  bridge_was_connected (on_update env s).1.1
    = is_ready (tick_connect (net env) (clock_hello env) (clock_cool env) (clock_sweep env) (bridge s)).
Proof.
  rewrite on_update_stages.
  assert (bridge_disconnect_cleanup_pending (connect_stage env s).1 = bridge_disconnect_cleanup_pending s
      || (bridge_was_connected s
          && negb (is_ready (tick_connect (net env) (clock_hello env) (clock_cool env) (clock_sweep env) (bridge s)))) /\
    bridge_was_connected (connect_stage env s).1
      = is_ready (tick_connect (net env) (clock_hello env) (clock_cool env) (clock_sweep env) (bridge s))) as [H1 H2].
  { unfold connect_stage. cbv zeta. destruct (drive_launcher _ _ _) as [l st]. destruct s. cbn.
    destruct (_ && _); cbn; [by rewrite orb_true_r|by rewrite orb_false_r]. }
  rewrite <- H1, <- H2. unfold after_poll, before_poll.
  destruct (hello_stage_fields env (connect_stage env s).1) as (_ & _ & H3 & H4).
  destruct (poll_stage_fields env (hello_stage env (connect_stage env s).1).1) as (_ & _ & H5 & H6).
  destruct (is_ready (bridge (poll_stage env (hello_stage env (connect_stage env s).1).1).1)); cbn [fst]; [|split; congruence].
  match goal with |- context [queue_stage ?r (send_stage ?e ?x).1] =>
    destruct (send_stage_fields e x) as (_ & _ & H7 & H8); destruct (queue_stage_fields r (send_stage e x).1) as (_ & H9 & H10) end.
  split; congruence.
Qed.
