(* ===== verification/SystemProps.v ===== *)
(** The invariants of the whole plugin: over any interleaving of bridge lines, ticks of
    the remotes, level transitions and lost bridges.  What reaches the engine from a
    peer stays within its bounds, and no entry holds an object of a pawn it no longer
    has. *)
From S2P Require Import Prelude Float64 FloatFacts JsonString JsonScoped JsonBounds RemoteGhost.
From S2P Require Import Lifecycle BridgeLine BridgeLineFacts VfxMirror VfxProps PeerProps.
From S2P Require Import GlideProps PropFacts DistanceTier PoseMirror MontageMirror GhostSweeps Chaser.
From S2P Require Import InputDisplay PoseFacts Nametag RemoteTick NametagProps TickFacts IndicatorConfig LocalTick.
From Stdlib Require Import ZArith.

(** * The lifecycle *)

Definition objects_ok (p : plugin) : Prop := map_Forall (fun _ g => object_ok g) (remotes p).

Lemma remote_of_object id p : objects_ok p -> object_ok (remote_of id p).
Proof.
  intros Hp. unfold remote_of. destruct (remotes p !! id) as [g|] eqn:E; [by eapply Hp|apply object0_ok].
Qed.

Lemma set_objects id g p p' : objects_ok p -> remotes p' = remotes p -> object_ok g -> objects_ok (set_remote id g p').
Proof. intros Hp E Hg. unfold objects_ok, set_remote. cbn. rewrite E. by apply map_Forall_insert_2. Qed.

(** A pawn gained. *)
Lemma gained_object f l w g :
  (forall h, projectile_component (f h) = projectile_component h /\
             projectile_component_world (f h) = projectile_component_world h /\
             recall_glow_component (f h) = recall_glow_component h /\
             recent_one_shot_components (f h) = recent_one_shot_components h) ->
  ghost (f (engine_objects g)) <> None ->
  weapon_render_primed l = weapon_render_primed (latches g) -> recall_glow_shown l = recall_glow_shown (latches g) ->
  object_ok g -> object_ok (g <| engine_objects := f (engine_objects g) |> <| latches := l |> <| wire_state := w |>).
Proof.
  intros Hf Hg E1 E2 [H1 H2 H3 H4 H5 H6]. destruct (Hf (engine_objects g)) as (F1 & F2 & F3 & F4).
  split; unfold attached_ok, sword_ok, projectile_ok, recall_ok, ring_ok in *; destruct g; cbn in *;
    rewrite ?E1, ?E2, ?F1, ?F2, ?F3, ?F4; done.
Qed.

Lemma ensure_objects id env p : objects_ok p -> objects_ok (ensure_ghost_spawned id env p).
Proof.
  intros Hp. unfold ensure_ghost_spawned. destruct (spawn_allowed env p id) as [[world loc]|]; [|done].
  destruct (spawned_actor env) as [actor|]; [|done]. pose proof (remote_of_object id p Hp) as Hg. cbv zeta.
  revert Hg. generalize (remote_of id p). intros g Hg. destruct (bare_ghost env).
  - apply (set_objects id _ p p Hp eq_refl).
    refine (eq_ind _ object_ok (gained_object (fun h => h <| ghost := Some actor |> <| owning_world := Some world |>)
      (latches g) (wire_state g) g _ _ eq_refl eq_refl Hg) _ _); [by intros []|by destruct (engine_objects g)|by destruct g].
  - apply (set_objects id _ p p Hp eq_refl). unfold spawned_entry. destruct loc as [[x y] z].
    refine (eq_ind _ object_ok (gained_object (fun h => h <| ghost := Some actor |> <| owning_world := Some world |>
         <| drive_private_gi := None |> <| drive_own_hitable := own_hitable env |>) (latches g <| drive_prepared := false |>
         <| drive_move_live := false |> <| distance_tier := 0%Z |> <| spawned_at_tick := tick_count env |>
         <| ambient_fx_stripped := strips_ambient env |>) _ g _ _ _ _ Hg) _ _);
      [by intros []|by destruct (engine_objects g)|by destruct (latches g)..|by destruct g].
Qed.

Lemma render_objects env now line p : objects_ok p -> objects_ok (on_render_remote env now line p).
Proof.
  intros Hp. unfold on_render_remote. destruct (render_sample line) as [[id s]|]; [|done]. cbv zeta.
  pose proof (ensure_objects id env p Hp) as He. revert He. generalize (ensure_ghost_spawned id env p). intros q He.
  destruct (remotes q !! id) as [g|] eqn:Eg; [|done]. apply (set_objects id _ q q He eq_refl).
  apply (object_ok_ext g); [..|by eapply He]; unfold apply_sample; cbv zeta;
    destruct (match remotes p !! id with Some _ => false | None => true end); by destruct g.
Qed.

(** An entry whose attached objects are all dropped. *)
Lemma dropped_object g h l :
  ghost h = None ->
  owning_world h = None /\ weapon_fly_component h = None /\ recall_glow_component h = None /\
  nametag_component h = None /\ nametag_plate h = None /\ nametag_plate_mid h = None /\
  drive_private_gi h = None /\ drive_own_hitable h = None /\ vfx_components h = ∅ ->
  (weapon_render_primed l = true -> weapon_render_primed (latches g) = true) ->
  (projectile_component h <> None <-> projectile_component_world h <> None) ->
  length (recent_one_shot_components h) <= MAX_TRACKED_ONE_SHOTS ->
  object_ok g -> object_ok (g <| engine_objects := h |> <| latches := l |>).
Proof.
  intros Hg Ha Hl Hp Hr [H1 H2 H3 H4 H5 H6].
  split; unfold attached_ok, sword_ok, projectile_ok, recall_ok, ring_ok in *; destruct g; cbn in *; auto.
  intros _. apply Ha.
Qed.

(** What a release leaves of the entry: nothing held, whichever path it took. *)
Record released (g g' : RemoteGhost) : Prop := Released {
  rl_handles : engine_objects g' = handles0 <| weapon_actor_world := weapon_actor_world (engine_objects g') |>
                                            <| owning_world := owning_world (engine_objects g') |>;
  rl_world : owning_world (engine_objects g) = None \/ ghost (engine_objects g) <> None ->
             owning_world (engine_objects g') = None;
  rl_primed : weapon_render_primed (latches g') = true -> weapon_render_primed (latches g) = true;
  rl_shown : recall_glow_shown (latches g') = false;
  rl_rest : wire_state g' = wire_state g /\ counters_seen g' = counters_seen g /\ weapon_segment g' = weapon_segment g /\
            vfx_counts g' = vfx_counts g /\ vfx_counts_baselined g' = vfx_counts_baselined g /\
            pose g' = pose g
}.

Lemma release_handles_fields h :
  release_handles h = handles0 <| ghost := ghost h |> <| owning_world := owning_world h |>
                        <| weapon_actor := weapon_actor h |> <| weapon_actor_world := weapon_actor_world h |>.
Proof. by destruct h. Qed.
Lemma release_latches_fields l :
  weapon_render_primed (release_latches l) = weapon_render_primed l /\ recall_glow_shown (release_latches l) = false.
Proof. by destruct l. Qed.

Lemma release_entry env id p g :
  remotes p !! id = Some g ->
  exists g', remotes (release_ghost env id p).1 = <[id := g']> (remotes p) /\ released g g' /\
    ghost_inputs (release_ghost env id p).1 = ghost_inputs p /\ nametags (release_ghost env id p).1 = nametags p.
Proof.
  intros Eg. unfold release_ghost. rewrite Eg. cbv zeta. rewrite release_handles_fields.
  destruct (release_latches_fields (latches g)) as [E1 E2]. revert E1 E2. generalize (release_latches (latches g)).
  generalize (of_Z (-1)). intros unseen l1 E1 E2. destruct g as [w sn h l seg vc vb], p, l1. cbn in E1, E2. subst.
  destruct h as [gh ow wa waw ? ? ? ? ? ? ? ? ? ? ? ?]. cbn.
  destruct wa; cbn; destruct gh; cbn; eexists; (split; [done|]); (split; [|done]); split; cbn; try done; by intros [|].
Qed.

Lemma released_object g g' : released g g' -> object_ok g -> object_ok g'.
Proof.
  intros [E1 E2 E3 E4 (_ & _ & E5 & _ & _ & E6)] [H1 H2 H3 H4 H5 H6].
  assert (owning_world (engine_objects g') = None) as E.
  { apply E2. unfold attached_ok in H1. destruct (ghost (engine_objects g)); [by right|]. left. by apply H1. }
  rewrite E in E1. revert E1. generalize (weapon_actor_world (engine_objects g')). intros waw E1.
  split; unfold attached_ok, sword_ok, projectile_ok, recall_ok, ring_ok in *; rewrite ?E5, ?E6, ?E1; cbn; auto with lia.
  done.
Qed.

Lemma release_objects env id p : objects_ok p -> objects_ok (release_ghost env id p).1.
Proof.
  intros Hp. destruct (remotes p !! id) as [g|] eqn:Eg; [|by unfold release_ghost; rewrite Eg].
  destruct (release_entry env id p g Eg) as (g' & E & Hr & _). unfold objects_ok. rewrite E.
  apply map_Forall_insert_2; [|done]. eapply released_object; [done|by eapply Hp].
Qed.

Lemma forget_released g : released g (forget_entry g).
Proof. destruct g as [? ? h l ? ? ?], h, l. split; cbn; try done. destruct ghost; [done|]. by intros [|]. Qed.

(** Giving up a pawn that died or stayed in another world. *)
Lemma stale_fields g :
  let g' := g <| engine_objects := stale_handles (engine_objects g) |> <| latches := stale_latches (latches g) |> in
  wire_state g' = wire_state g /\ (object_ok g -> object_ok g').
Proof.
  cbv zeta. split; [by destruct g|]. intros Hg. apply dropped_object; [..|done].
  - by destruct (engine_objects g).
  - by destruct (engine_objects g).
  - by destruct (latches g).
  - pose proof (o_projectile _ Hg) as H. unfold projectile_ok in H. by destruct (engine_objects g).
  - pose proof (o_ring _ Hg) as H. unfold ring_ok in H. by destruct (engine_objects g).
Qed.

(** * The invariant of the plugin *)

Lemma tier_objects r mesh movement loc g :
  let g' := (tick_distance_tier r mesh movement loc g).1.1 in
  wire_state g' = wire_state g /\ ghost (engine_objects g') = ghost (engine_objects g) /\ (object_ok g -> object_ok g').
Proof.
  pose proof (tier_tick_fields r mesh movement loc g) as H. cbv zeta in *.
  destruct (tick_distance_tier r mesh movement loc g) as [[g1 tiers] dormant]. cbn [fst] in *.
  destruct H as (T1 & T2 & T3 & T4 & T5 & T6 & _). split_and!; [done|by rewrite T2|]. intros [H1 H2 H3 H4 H5 H6].
  split; unfold attached_ok, sword_ok, projectile_ok, recall_ok, ring_ok in *; rewrite ?T2, ?T3, ?T4, ?T5, ?T6; done.
Qed.

Record system_ok (p : plugin) : Prop := SystemOk { sys_wire : plugin_ok p; sys_objects : objects_ok p }.

Lemma set_system id g p p' :
  system_ok p -> remotes p' = remotes p -> ghost_inputs p' = ghost_inputs p ->
  wire_ok (wire_state g) -> object_ok g -> system_ok (set_remote id g p').
Proof.
  intros [[H1 H2] H3] E1 E2 Hw Hg. split; [split|].
  - unfold set_remote. cbn. rewrite E1. by apply map_Forall_insert_2.
  - unfold set_remote. cbn. by rewrite E2.
  - by apply (set_objects id g p).
Qed.

Lemma tick_remote_system env id p : system_ok p -> system_ok (tick_remote env id p).1.1.
Proof.
  intros Hp. unfold tick_remote. destruct (remotes p !! id) as [g|] eqn:Eg; [|done].
  pose proof (proj1 (sys_wire _ Hp) _ _ Eg) as Hw. pose proof (sys_objects _ Hp _ _ Eg) as Hg.
  destruct (ghost (engine_objects g)) as [actor|] eqn:Ha; [|done]. cbv beta in Hw, Hg.
  destruct (negb (alive env)).
  { destruct (stale_fields g) as [E Ho]. unfold drop_stale. cbn [fst].
    apply (set_system id _ p); [done|by destruct p..|by rewrite E|auto]. }
  pose proof (tier_objects (tier_ranges env) (tier_mesh env) (tier_movement env) (local_loc env) g) as Ht.
  cbv zeta in Ht. destruct (tick_distance_tier _ _ _ _ g) as [[g1 tiers] dormant]. cbn [fst] in Ht.
  destruct Ht as (T1 & T2 & T3). specialize (T3 Hg). rename T3 into Hg1.
  rewrite <- T1 in Hw. rewrite <- T2 in Ha. clear T1 T2 Hg.
  destruct (tag_turn env id p g1) as (_ & _ & T). specialize (T ltac:(split; [congruence|done..])).
  destruct (tick_tag env id p g1) as [g0 tags]. cbn [fst] in T. destruct T as [T Hw0 Hg0]. clear Hw Hg1 Ha g1.
  destruct dormant; [by apply (set_system id _ p p Hp)|].
  destruct (other_world _ _).
  { destruct (stale_fields g0) as [E Ho]. unfold drop_stale. cbn [fst].
    apply (set_system id _ p); [done|by destruct p..|by rewrite E|auto]. }
  pose proof (awake_ok env id actor p g0 ltac:(by split) (proj2 (sys_wire _ Hp))) as Ht.
  destruct (tick_awake env id actor p g0) as [[p2 g2] calls]. cbn [fst]. destruct Ht as ([_ Hw2 Ho2] & E & Ht & _).
  destruct Hp as [[Hr _] Hobj]. apply (set_system id _ p2 p2); [|done..].
  split; [split; [by rewrite E|done]|unfold objects_ok; by rewrite E].
Qed.

Lemma release_system env id p : system_ok p -> system_ok (release_ghost env id p).1.
Proof. intros [H1 H2]. split; [by apply release_ok|by apply release_objects]. Qed.

Lemma release_all_system p : system_ok p -> system_ok (release_all_ghosts p).
Proof.
  intros [[H1 H2] H3]. split; [split; [|exact H2]|]; unfold objects_ok, release_all_ghosts; cbn; intros id g Hg;
    apply lookup_fmap_Some in Hg as (g0 & <- & E); destruct (forget_released g0) eqn:Er.
  - rewrite (proj1 rl_rest0). by eapply H1.
  - eapply released_object; [apply forget_released|by eapply H3].
Qed.

Lemma parked_system env ids p : system_ok p -> system_ok (release_all_ghosts_parked env ids p).1.
Proof.
  intros Hp. unfold release_all_ghosts_parked.
  match goal with |- context [foldl ?f _ _] => set (step := f) end.
  assert (forall calls, system_ok (foldl step (p, calls) ids).1) as H.
  { revert p Hp. induction ids as [|id ids IH]; intros p Hp calls; [done|]. cbn [foldl]. unfold step at 2.
    destruct (ghost _); [|by apply IH]. pose proof (release_system env id p Hp) as Hr.
    destruct (release_ghost env id p) as [p' calls']. by apply IH. }
  specialize (H []). destruct (foldl step (p, []) ids) as [p' calls]. destruct H as [[H1 _] H3]. by split.
Qed.

Lemma handle_system env line p :
  spawn_env_ok (l_spawn env) -> system_ok p -> system_ok (handle_bridge_line env line p).1.
Proof.
  intros Henv [H1 H2]. split; [by apply handle_ok|]. clear H1. unfold handle_bridge_line. cbv zeta.
  assert (objects_ok (p <| seen_types := {[json_string_field line (str "type")]} ∪ seen_types p |>)) as Hp by exact H2.
  revert Hp. generalize (p <| seen_types := {[json_string_field line (str "type")]} ∪ seen_types p |>).
  clear p H2. intros p Hp.
  case_bool_decide; [by apply render_objects|].
  case_bool_decide. { unfold on_remote_name. destruct (payload_span line); [|done]. cbv zeta. by case_bool_decide. }
  case_bool_decide. { unfold on_recording_state. by destruct (payload_span line). }
  case_bool_decide.
  { unfold on_remote_input. destruct (payload_span line); [|done]. cbv zeta. case_bool_decide; [done|]. by destruct (_ && _). }
  case_bool_decide. { unfold on_session_policy. by destruct (payload_span line). }
  case_bool_decide; [|done]. unfold on_despawn_remote. destruct (payload_span line) as [payload|]; [|done]. cbv zeta.
  case_bool_decide; [done|]. pose proof (release_objects (l_release env) (read_string line payload "player_id") p Hp) as Hr.
  destruct (release_ghost _ _ p) as [p' calls]. by apply map_Forall_delete.
Qed.

(** One step of the game thread: a line of the bridge, the tick of one remote, the panel's
    hand-over, its redraw, a release, a level transition, a lost bridge. *)
Inductive step : plugin -> plugin -> Prop :=
  | StepLine env line p : spawn_env_ok (l_spawn env) -> step p (handle_bridge_line env line p).1
  | StepTick env id p : step p (tick_remote env id p).1.1
  | StepPanel grace p : step p (follow_panel p grace).1.1
  | StepRedraw p : step p (redraw_panels p)
  | StepRelease env id p : step p (release_ghost env id p).1
  | StepLevel p : step p (release_all_ghosts p)
  | StepLost env ids p : step p (release_all_ghosts_parked env ids p).1.

Definition reachable : plugin -> Prop := rtc step plugin0.

Lemma step_system p p' : step p p' -> system_ok p -> system_ok p'.
Proof.
  destruct 1; [by apply handle_system|apply tick_remote_system| |by intros [[H1 H2] H3]|apply release_system|apply release_all_system|apply parked_system].
  unfold follow_panel. intros [[H1 H2] H3]. by repeat case_match.
Qed.

Lemma reachable_system p : reachable p -> system_ok p.
Proof.
  unfold reachable. intros H. assert (system_ok plugin0) as H0 by (split; [split|]; apply map_Forall_empty).
  revert H H0. generalize plugin0. induction 1; [done|]. intros Hp. by eapply IHrtc, step_system.
Qed.

(** * A sample run

    A local pawn in the world, a peer's first sample, its ghost, and a tick of it. *)

Definition sample_spawn : spawn_env :=
  {| local_pawn := Some {| p_location := (of_Z 300, of_Z 40, of_Z 5); p_world := Some 2%Z;
                           p_class := Some (str "BP_PlayerGoatMain_C") |};
     local_controller := Some 3%Z; tick_count := 100000; suppress_ghost_spawn_until_tick := 0;
     ticks_since_pawn_valid := 1000; ghost_spawn_far := true; bare_ghost := false; spawned_actor := Some 77%Z;
     strips_ambient := true; own_hitable := None |}.
Definition sample_release : release_env :=
  {| live_components := {[9%Z]}; component_function := fun _ f => bool_decide (f = "Deactivate"%string); destroy_by_path := true;
     ai_controller := fun _ => None; camera_rigs := [(78%Z, Some 77%Z); (79%Z, Some 70%Z)]; destroy_reflected := fun _ => true |}.
Definition sample_line_env : line_env := LineEnv sample_spawn sample_release 5000.
Definition sample_line : bytes :=
  js "{'type':'render_remote','payload':{'player_id':'p1','state':{'position':[310,41,6],'orientation':[0,90,0],"
  ++ js "'extras':{'land_count':1e300,'weapon_thrown':1,'weapon_pos':[320,41,6],'weapon_rot':[0,0,0]}}}}".
Definition sample_plugin : plugin := (handle_bridge_line sample_line_env sample_line plugin0).1.

Lemma sample_spawn_ok : spawn_env_ok sample_spawn.
Proof. repeat split; by vm_compute. Qed.

Lemma sample_reachable : reachable sample_plugin.
Proof. apply rtc_once. apply StepLine, sample_spawn_ok. Qed.

(** An engine in which every property resolves. *)
Definition sample_reflection : reflection :=
  {| obj := fun _ _ => Some 20%Z; num := fun _ _ => Some dzero; flag := fun _ _ => Some false;
     raw_flag := fun _ _ => Some true; objs := fun _ _ => Some []; has := fun _ _ => true; has_fn := fun _ _ => true |}.
Definition sample_view : world_view :=
  {| all_of := fun _ => [30%Z]; full_name := fun _ => str "NiagaraComponent /Game/G_1.Fx"; own_name := fun _ => str "G_1";
     property_objects := fun _ => [31%Z]; owned_by := fun _ _ => true |}.
Definition sample_asset_view : asset_view :=
  {| named_asset := fun _ _ => Some 40%Z; class_name := fun _ => Some "AnimMontage"%string;
     live_skeleton := fun _ => true; unreachable := fun _ => false; active_montage := fun _ => Some (str "none") |}.
Definition sample_display : display_env := DisplayEnv (Display 10 (str "cs") true false true) 60 (Some 41%Z) 5000.
Definition sample_remote_env : remote_env :=
  {| alive := true; props := sample_props; tier_ranges := ranges0; local_loc := None; tier_mesh := fun _ => None;
     tier_movement := None; local_player := Some 42%Z; toggles := toggles_off; reads := fun _ => sample_reflection;
     view := sample_view; assets := sample_asset_view; ambient_stripped := true; hurt := HurtEnv None true None;
     contact := ContactEnv sample_reflection (fun _ => vzero) false; panel := sample_display;
     nametag_view := sample_tag_env 61; nametag_tuning := sample_tuning; decode_utf8 := sample_decode; mathematics := sample_libm |}.

(** * The properties *)

(** Over any interleaving of bridge lines, ticks, level transitions and lost bridges,
    every entry's state stays within the bounds the engine is given (finite poses,
    bounded speeds and colours, counters that fit an [int]), every input track within
    its caps, and an entry without a pawn holds none of the objects that hang off one. *)
Theorem reachable_invariant (p : plugin) (Hp : reachable p) :
  map_Forall (fun _ g => wire_ok (wire_state g) /\ object_ok g) (remotes p) /\
  map_Forall (fun _ t => track_ok t) (ghost_inputs p).
Proof.
  destruct (reachable_system p Hp) as [[H1 H2] H3]. split; [|done]. intros id g E. split; [by eapply H1|by eapply H3].
Qed.

(** The peer of the sample run, whose wire counter is past an [int]. *)
Example reachable_invariant_witness :
  exists g, remotes sample_plugin !! str "p1" = Some g /\ wire_ok (wire_state g) /\ object_ok g.
Proof.
  destruct (reachable_invariant sample_plugin sample_reachable) as [H _].
  found (fun _ => tt) in (remotes sample_plugin !! str "p1")
    is tt as (g & E & _).
  exists g. split; [exact E|]. exact (H _ _ E).
Defined.

(** One turn, on a state that satisfies the invariant. *)
Lemma turn_draws_finite env id p : system_ok p -> remote_env_ok env -> Forall ghost_call_ok (tick_remote env id p).2.
Proof.
  intros [[Hw Hi] Ho] Henv. unfold tick_remote.
  destruct (remotes p !! id) as [g|] eqn:Eg; [|constructor]. specialize (Hw _ _ Eg). specialize (Ho _ _ Eg). cbv beta in Hw, Ho.
  destruct (ghost (engine_objects g)) as [actor|] eqn:Ha; [|constructor].
  destruct (negb (alive env)); [constructor|].
  pose proof (tier_objects (tier_ranges env) (tier_mesh env) (tier_movement env) (local_loc env) g) as Ht.
  cbv zeta in Ht. destruct (tick_distance_tier _ _ _ _ g) as [[g1 tiers] dormant]. cbn [fst] in Ht.
  destruct Ht as (T1 & T2 & T3). rewrite <- T1 in Hw.
  destruct (tag_turn env id p g1) as (_ & _ & T). specialize (T ltac:(split; [congruence|done|by apply T3])).
  pose proof (tag_calls_ok env id p g1) as Htags. destruct (tick_tag env id p g1) as [g0 tags]. cbn [fst snd] in T, Htags.
  destruct dormant.
  { apply Forall_app; split; [|done]. destruct T as [_ Hw0 _]. constructor; [|constructor]. destruct Hw0. by split. }
  destruct (other_world _ _); [done|]. pose proof (awake_ok env id actor p g0 T Hi) as Hk.
  destruct (tick_awake env id actor p g0) as [[p2 g2] calls]. cbn [snd]. apply Forall_app; split; [done|]. by apply Hk.
Qed.

(** Whatever lines the core has sent and whatever else has happened, a turn of a
    remote asks the engine for nothing out of bounds.  Every place is finite (the
    teleport, the glided sword, the glow, the dust, the wall hits, the projectile, the
    effects), so is every colour and every number but the mesh's offset and the shadow's
    arm, and every integer fits the byte it is written to. *)
Theorem reachable_draws_finite (p : plugin) (Hp : reachable p) (env : remote_env) (Henv : remote_env_ok env) (id : bytes) :
  Forall ghost_call_ok (tick_remote env id p).2.
Proof. apply turn_draws_finite; [by apply reachable_system|done]. Qed.

(** The turn of that peer throws its sword, teleports and animates its ghost. *)
Example reachable_draws_finite_witness :
  (20 <=? length (tick_remote sample_remote_env (str "p1") sample_plugin).2) = true /\
  Forall ghost_call_ok (tick_remote sample_remote_env (str "p1") sample_plugin).2.
Proof.
  split; [by vm_compute|].
  apply (reachable_draws_finite sample_plugin sample_reachable sample_remote_env).
  split; [by repeat split|done].
Defined.
