(* ===== verification/DrivenProps.v ===== *)
(** The ghost drive rig over the program: disarmed it changes nothing, and armed its hook
    answers for one pawn only, the one of the replay ghost it drives. *)
From S2P Require Import Prelude Float64 JsonString JsonScoped RemoteGhost Lifecycle BridgeLine VfxMirror VfxProps PeerProps.
From S2P Require Import DistanceTier PoseMirror MontageMirror GhostSweeps Chaser InputDisplay PoseFacts Nametag RemoteTick NametagProps.
From S2P Require Import TickFacts IndicatorConfig LocalTick SystemProps GhostDrive DrivenTurn.
From Stdlib Require Import ZArith.

(** * What a turn keeps of the pawn and of the rig's fields *)

Definition same_rig (g g' : RemoteGhost) : Prop := ghost (engine_objects g') = ghost (engine_objects g) /\ drive g' = drive g.
#[export] Instance same_rig_preorder : PreOrder same_rig.
Proof. split; [by split|]. intros ? ? ? [] []. split; congruence. Qed.

Definition keeps {C} (f : RemoteGhost -> RemoteGhost * list C) : Prop := forall g, same_rig g (f g).1.

Lemma keeps_then {C} (f h : RemoteGhost -> RemoteGhost * list C) : keeps f -> keeps h -> keeps (f ;> h).
Proof. intros Hf Hh. exact (and_then_rel same_rig f h Hf Hh). Qed.

Lemma keeps_calling {C D} (k : D -> C) f : keeps f -> keeps (calling k f).
Proof. intros H g. rewrite calling_fst. apply H. Qed.

Lemma keeps_emit {C} (f : RemoteGhost -> list C) : keeps (emit f).
Proof. by intros g. Qed.

Lemma pose_kept_same g g' : pose_kept g g' -> same_rig g g'.
Proof. intros []. split; congruence. Qed.

Lemma keeps_tame f : tame f -> keeps (calling Pose f).
Proof. intros H. apply keeps_calling. intros g. apply pose_kept_same, H. Qed.

(** A sequence of blocks of the pose, one by one. *)
Ltac tame_sequence :=
  repeat match goal with |- tame (_ ;> _) => apply tame_then end;
  match goal with |- tame (emit _) => apply tame_emit; intros ? ?; auto with within | _ => auto with tame end.

Section Turn.
Context (env : remote_env).

Lemma weapon_keeps : keeps (tick_remote_weapon (props env)).
Proof. intros g. destruct (weapon_kept (props env) g). by split. Qed.
Lemma projectile_keeps : keeps (tick_remote_projectile (props env)).
Proof. intros g. destruct (projectile_beside (props env) g). by split. Qed.
Lemma moments_keeps : keeps tick_moments.
Proof. intros g. unfold tick_moments. cbv zeta. by destruct g. Qed.
Lemma recall_keeps : keeps (tick_remote_recall_glow (props env)).
Proof. intros g. destruct (recall_beside (props env) g) as (_ & E1 & _ & _ & _ & _ & _ & _ & E2). by split. Qed.
Lemma vfx_keeps : keeps (tick_remote_mirrored_vfx (fx (props env))).
Proof.
  intros g. unfold tick_remote_mirrored_vfx. cbn [MIRROR_PLAYER_VFX negb]. destruct (ghost (engine_objects g)); [|done].
  destruct (foldl (mirror_row (fx (props env))) (g, []) (imap pair MIRRORED_EFFECTS)) as [g1 c1] eqn:Ef.
  destruct (rows_done (fx (props env)) g _ g [] g1 c1 keys_distinct ltac:(reflexivity) ltac:(by split) Ef) as ([] & _).
  cbn [fst]. by destruct g1.
Qed.

Lemma props_keep : keeps (calling Fx (tick_remote_weapon (props env)) ;> calling Fx (tick_remote_projectile (props env))).
Proof. apply keeps_then; apply keeps_calling; [apply weapon_keeps|apply projectile_keeps]. Qed.
Lemma effects_keep : keeps (tick_effects env).
Proof. repeat apply keeps_then; apply keeps_calling; [apply moments_keeps|apply recall_keeps|apply vfx_keeps]. Qed.
Lemma head_keeps a : keeps (tick_head env a).
Proof. apply keeps_tame. tame_sequence. Qed.
Lemma placed_keeps a place : keeps (tick_placed_at env a place).
Proof.
  apply keeps_then; [apply keeps_then|apply keeps_calling, projectile_keeps]; [|apply keeps_calling, weapon_keeps].
  apply keeps_calling, keeps_emit.
Qed.
Lemma tail_keeps a : keeps (tick_tail env a).
Proof.
  apply keeps_then; [apply keeps_then; [apply effects_keep|apply keeps_tame; tame_sequence]|].
  intros g. unfold tick_pulsed. cbv zeta. generalize (land_rise g || jump_rise g). intros edge. revert g.
  apply keeps_tame. tame_sequence.
Qed.

Lemma inputs_keep id ts p :
  let p' := (tick_ghost_inputs (panel env) id ts p).1 in remotes p' = remotes p /\ g_drive_ghost p' = g_drive_ghost p.
Proof.
  unfold tick_ghost_inputs. cbv zeta. destruct (ghost_inputs p !! id) as [t|]; [|done]. cbv zeta.
  generalize (apply_due ts t). intros t'. destruct (bool_decide (_ = id) && _ && _); [|done].
  by destruct (observe_panel _ _ _ _ _ _ _).
Qed.

Lemma mirrored_keeps id a place p g :
  let '(p', g', _) := tick_mirrored env id a place p g in
  same_rig g g' /\ remotes p' = remotes p /\ g_drive_ghost p' = g_drive_ghost p.
Proof.
  unfold tick_mirrored. pose proof (head_keeps a g) as K1. destruct (tick_head env a g) as [g1 c1].
  pose proof (inputs_keep id (target_ts (wire_state g1)) p) as Hp. destruct (tick_ghost_inputs _ _ _ p) as [p1 text].
  pose proof (placed_keeps a place g1) as K2. destruct (tick_placed_at env a place g1) as [g2 c2].
  destruct (tick_sweeps _ _ _ _ _ _ _) as [s c3].
  destruct (hurt_kept (hurt env) id a s g2) as [K4%pose_kept_same _]. destruct (hurt_reaction _ _ _ _) as [[s' g3] c4].
  destruct (contact_tame (contact env) (local_player env) (g_chaser_contact_mode p1) id a g3) as [K5%pose_kept_same _].
  destruct (chaser_contact _ _ _ _ _ g3) as [g4 c5].
  pose proof (tail_keeps a g4) as K6. destruct (tick_tail env a g4) as [g5 c6].
  split; [|exact Hp]. cbn [fst snd] in *. by repeat (etrans; [eassumption|]).
Qed.

(** Drawn where the peer is, it is the turn of [RemoteTick]. *)
Lemma mirrored_awake id a p g :
  tick_mirrored env id a target_pos p (retry_ambient (PeerProps.tick (props env)) (ambient_stripped env) g) = tick_awake env id a p g.
Proof. reflexivity. Qed.

Lemma retry_same tick stripped g : same_rig g (retry_ambient tick stripped g).
Proof. unfold retry_ambient. destruct (_ && _); [|done]. by destruct g. Qed.

Lemma tag_same id p g : same_rig g (tick_tag env id p g).1.
Proof.
  assert (tag_fields g (tick_tag env id p g).1) as H.
  { unfold tick_tag. destruct (nametag_hidden _); [done|]. rewrite calling_fst. apply update_fields. }
  revert H. generalize (tick_tag env id p g).1. intros g' H. unfold tag_fields in H.
  destruct g as [? ? [] [] ? ? ? ? ?], g' as [? ? [] [] ? ? ? ? ?]. injection H as. by subst.
Qed.

Lemma tier_same g : same_rig g (tick_distance_tier (tier_ranges env) (tier_mesh env) (tier_movement env) (local_loc env) g).1.1.
Proof.
  destruct (tier_tick_fields (tier_ranges env) (tier_mesh env) (tier_movement env) (local_loc env) g) as (_ & E1 & _ & _ & _ & _ & E2).
  split; congruence.
Qed.
End Turn.

(** * Disarmed *)

Lemma off_same g : driven (drive g) = false -> upd_drive (fun d => d <| driven := false |>) g = g.
Proof. destruct g as [? ? ? ? ? ? ? ? []]. cbn. by intros ->. Qed.

(** One turn of the loop with the rig disarmed. *)
Lemma disarmed_turn env renv id s p :
  armed (g_drive s) = false -> (forall g, remotes p !! id = Some g -> driven (drive g) = false) ->
  tick_remote_rig env renv id s p =
  let '(p', tiers, calls) := tick_remote env id p in (s, p', tiers, map Ghost calls, false).
Proof.
  intros Hs Hd. unfold tick_remote_rig, tick_remote. destruct (remotes p !! id) as [g|]; [|done]. specialize (Hd g eq_refl).
  destruct (ghost (engine_objects g)) as [actor|]; [|done]. destruct (negb (alive env)); [done|].
  pose proof (tier_same env g) as [_ T]. destruct (tick_distance_tier _ _ _ _ g) as [[g1 tiers] dormant].
  pose proof (tag_same env id p g1) as [_ T2]. destruct (tick_tag env id p g1) as [g2 tags]. cbn [fst] in *.
  destruct dormant; [by rewrite map_app, map_map|]. destruct (other_world _ _); [done|].
  assert (driven (drive g2) = false) as Hd2 by congruence. rewrite <- mirrored_awake.
  destruct (retry_same (PeerProps.tick (props env)) (ambient_stripped env) g2) as [_ T3].
  set (g3 := retry_ambient _ _ g2) in *. unfold ghost_drive_select. rewrite Hs. cbn [negb].
  rewrite (off_same g3) by congruence. rewrite T3, Hd2.
  assert (drawn_at (g_drive s) id = target_pos) as -> by (unfold drawn_at; by rewrite Hs).
  assert (p <| g_drive_ghost := g_drive_ghost p |> = p) as -> by (by destruct p).
  destruct (tick_mirrored env id actor target_pos p g3) as [[p' g'] calls]. by rewrite map_app.
Qed.

(** * The rest of the program *)

(** A step of the program drives no ghost the rig did not, and gives up no pawn the rig still aims at. *)
Record follows (p p' : plugin) : Prop := Follows {
  f_entry : forall id g', remotes p' !! id = Some g' -> driven (drive g') = true ->
            exists g, remotes p !! id = Some g /\ driven (drive g) = true;
  f_aim : forall a, g_drive_ghost p' = Some a -> g_drive_ghost p = Some a /\
          forall id g, remotes p !! id = Some g -> ghost (engine_objects g) = Some a ->
          exists g', remotes p' !! id = Some g' /\ ghost (engine_objects g') = Some a
}.

#[export] Instance follows_preorder : PreOrder follows.
Proof.
  split; [split; eauto|]. intros p1 p2 p3 [E1 A1] [E2 A2]. split.
  - intros id g Hg Hd. destruct (E2 _ _ Hg Hd) as (g2 & Hg2 & Hd2). eauto.
  - intros a Ha. destruct (A2 _ Ha) as [Ha2 H2]. destruct (A1 _ Ha2) as [Ha1 H1]. split; [done|].
    intros id g Hg Hgh. destruct (H1 _ _ Hg Hgh) as (g2 & Hg2 & Hgh2). eauto.
Qed.

(** The other fields. *)
Lemma follows_same p p' : remotes p' = remotes p -> g_drive_ghost p' = g_drive_ghost p -> follows p p'.
Proof. intros E1 E2. split; rewrite E1, ?E2; eauto. Qed.

(** One entry written. *)
Lemma follows_set id g p p' :
  remotes p' = <[id := g]> (remotes p) ->
  (driven (drive g) = true -> exists g0, remotes p !! id = Some g0 /\ driven (drive g0) = true) ->
  (forall a, g_drive_ghost p' = Some a -> g_drive_ghost p = Some a /\
     forall g0, remotes p !! id = Some g0 -> ghost (engine_objects g0) = Some a -> ghost (engine_objects g) = Some a) ->
  follows p p'.
Proof.
  intros E Hd Ha. split.
  - intros id' g' Hg Hd'. rewrite E in Hg. destruct (decide (id = id')) as [<-|]; simplify_map_eq; eauto.
  - intros a H. destruct (Ha a H) as [H1 H2]. split; [done|]. intros id' g0 Hg0 Hgh. rewrite E.
    destruct (decide (id = id')) as [<-|]; simplify_map_eq; eauto.
Qed.

(** An entry that keeps its pawn and the rig's fields. *)
Lemma follows_keep id g g' p p' :
  remotes p !! id = Some g -> same_rig g g' -> remotes p' = <[id := g']> (remotes p) -> g_drive_ghost p' = g_drive_ghost p -> follows p p'.
Proof.
  intros Hg [K1 K2] E1 E2. apply (follows_set id g'); [done|rewrite K2; eauto|]. rewrite E2, K1. intros a Ha. split; [done|].
  intros g0 Hg0. by simplify_eq.
Qed.

Lemma remote_of_driven id p : driven (drive (remote_of id p)) = true -> exists g0, remotes p !! id = Some g0 /\ driven (drive g0) = true.
Proof. unfold remote_of. destruct (remotes p !! id) as [g|]; [eauto|done]. Qed.

(** A spawn is the gain of a pawn by an entry that has none. *)
Lemma spawn_follows id env p : follows p (ensure_ghost_spawned id env p).
Proof.
  unfold ensure_ghost_spawned. destruct (spawn_allowed env p id) as [[world loc]|] eqn:Es; [|reflexivity].
  assert (ghost (engine_objects (remote_of id p)) = None) as Hn.
  { unfold spawn_allowed in Es. by destruct (ghost (engine_objects (remote_of id p))). }
  destruct (spawned_actor env) as [actor|]; [|reflexivity]. cbv zeta.
  assert (forall g0 a, remotes p !! id = Some g0 -> ghost (engine_objects g0) = Some a -> False) as Hno.
  { intros g0 a Hg Ha. unfold remote_of in Hn. rewrite Hg in Hn. cbn in Hn. congruence. }
  pose proof (remote_of_driven id p) as Hd.
  destruct (bare_ghost env); (eapply follows_set; [reflexivity| |intros a Ha; split; [exact Ha|intros g0 Hg0 H0; by destruct (Hno g0 a)]]).
  - intros H. apply Hd. revert H. by destruct (remote_of id p).
  - intros H. apply Hd. revert H. unfold spawned_entry. destruct loc as [[x y] z]. by destruct (remote_of id p).
Qed.

Lemma sample_same id now first s g : same_rig g (apply_sample id now first s g).
Proof. unfold apply_sample. cbv zeta. destruct first; by destruct g. Qed.

Lemma render_follows env now line p : follows p (on_render_remote env now line p).
Proof.
  unfold on_render_remote. destruct (render_sample line) as [[id s]|]; [|reflexivity]. cbv zeta.
  etrans; [apply (spawn_follows id env p)|]. generalize (ensure_ghost_spawned id env p). intros q.
  destruct (remotes q !! id) as [g|] eqn:Eg; [|reflexivity]. by eapply follows_keep; [done|apply sample_same|..].
Qed.

(** A release drops the aim at the pawn it gives up. *)
Lemma release_follows env id p : follows p (release_ghost env id p).1.
Proof.
  destruct (remotes p !! id) as [g|] eqn:Eg; [|by unfold release_ghost; rewrite Eg].
  destruct (release_entry env id p g Eg) as (g' & E & _).
  assert (drive g' = drive g /\ g_drive_ghost (release_ghost env id p).1 = drop_drive_ghost (ghost (engine_objects g)) (g_drive_ghost p))
    as [Ed Ea].
  { revert E. unfold release_ghost. rewrite Eg. cbv zeta. destruct g as [w sn h l seg vc vb po d], p. cbn.
    destruct h as [gh ow wa waw ? ? ? ? ? ? ? ? ? ? ? ?]. cbn. intros E.
    assert (exists g0, <[id := g0]> remotes = <[id := g']> remotes /\ RemoteGhost.drive g0 = d) as (g0 & E' & <-).
    { destruct wa; cbn in E; destruct gh; cbn in E; eexists; (split; [exact E|done]). }
    split; [|by destruct wa, gh].
    apply (f_equal (lookup id)) in E'. rewrite !lookup_insert_eq in E'. by simplify_eq. }
  eapply follows_set; [done|rewrite Ed; eauto|]. rewrite Ea. unfold drop_drive_ghost. intros a. case_bool_decide as Hb; [done|].
  intros Ha. split; [done|]. intros g0 Hg0 Hgh. simplify_eq. by rewrite Ha, Hgh in Hb.
Qed.

Lemma despawn_follows id p : (forall g a, remotes p !! id = Some g -> g_drive_ghost p = Some a -> ghost (engine_objects g) <> Some a) ->
  forall p', remotes p' = delete id (remotes p) -> g_drive_ghost p' = g_drive_ghost p -> follows p p'.
Proof.
  intros H p' E1 E2. split; rewrite E1, ?E2.
  - intros id' g' Hg. apply lookup_delete_Some in Hg as [_ Hg]. eauto.
  - intros a Ha. split; [done|]. intros id' g Hg Hgh. destruct (decide (id = id')) as [<-|]; [by destruct (H _ _ Hg Ha)|].
    exists g. by rewrite lookup_delete_ne.
Qed.

Lemma level_follows p : follows p (release_all_ghosts p).
Proof.
  split; unfold release_all_ghosts; cbn [remotes g_drive_ghost set_field].
  - intros id g' Hg Hd. apply lookup_fmap_Some in Hg as (g & <- & Hg). exists g. split; [done|]. by destruct g.
  - intros a Ha. change (match g_drive_ghost p with Some b => if bool_decide (b ∈ ghosts_of (remotes p)) then None else Some b | None => None end = Some a) in Ha.
    destruct (g_drive_ghost p) as [b|]; [|done]. case_bool_decide as Hb; [done|]. simplify_eq. split; [done|].
    intros id g Hg Hgh. destruct Hb. unfold ghosts_of. rewrite elem_of_list_to_set, list_elem_of_omap.
    exists (id, g). split; [by apply elem_of_map_to_list|done].
Qed.

Lemma handle_follows env line p : follows p (handle_bridge_line env line p).1.
Proof.
  unfold handle_bridge_line. cbv zeta. etrans; [apply (follows_same p (p <| seen_types := {[json_string_field line (str "type")]} ∪ seen_types p |>)); done|].
  generalize (p <| seen_types := {[json_string_field line (str "type")]} ∪ seen_types p |>). clear p. intros p.
  case_bool_decide; [apply render_follows|].
  case_bool_decide. { apply follows_same; unfold on_remote_name; (destruct (payload_span line); [|done]); cbv zeta; by case_bool_decide. }
  case_bool_decide. { apply follows_same; unfold on_recording_state; by destruct (payload_span line). }
  case_bool_decide.
  { apply follows_same; unfold on_remote_input; (destruct (payload_span line); [|done]); cbv zeta; (case_bool_decide; [done|]); by destruct (_ && _). }
  case_bool_decide. { apply follows_same; unfold on_session_policy; by destruct (payload_span line). }
  case_bool_decide; [|reflexivity]. unfold on_despawn_remote. destruct (payload_span line) as [payload|]; [|reflexivity]. cbv zeta.
  case_bool_decide; [reflexivity|]. set (id := read_string line payload "player_id"). clearbody id.
  pose proof (release_follows (l_release env) id p) as Hr.
  assert (forall g, remotes (release_ghost (l_release env) id p).1 !! id = Some g -> ghost (engine_objects g) = None) as Hn.
  { destruct (remotes p !! id) as [g|] eqn:Eg.
    - destruct (release_entry (l_release env) id p g Eg) as (g' & E & [Hh _ _ _ _] & _). rewrite E, lookup_insert_eq. intros g0 [= <-].
      by rewrite Hh.
    - unfold release_ghost. rewrite Eg. cbn [fst]. congruence. }
  destruct (release_ghost (l_release env) id p) as [p' calls]. cbn [fst] in *. etrans; [exact Hr|].
  apply (despawn_follows id p'); [|done..]. intros g a Hg _. by rewrite (Hn g Hg).
Qed.

Lemma parked_follows env ids p : follows p (release_all_ghosts_parked env ids p).1.
Proof.
  unfold release_all_ghosts_parked. match goal with |- context [foldl ?f _ _] => set (step := f) end.
  assert (forall calls, follows p (foldl step (p, calls) ids).1) as H.
  { revert p. induction ids as [|id ids IH]; intros p calls; [reflexivity|]. cbn [foldl]. unfold step at 2.
    destruct (ghost _); [|apply IH]. pose proof (release_follows env id p) as Hr. destruct (release_ghost env id p) as [p' calls'].
    etrans; [exact Hr|apply IH]. }
  specialize (H []). destruct (foldl step (p, []) ids) as [p' calls]. etrans; [exact H|]. by apply follows_same.
Qed.

(** A pawn that died or stayed in another world. *)
Lemma stale_follows id actor g g0 p :
  remotes p !! id = Some g0 -> ghost (engine_objects g0) = Some actor -> drive g = drive g0 -> follows p (drop_stale id actor g p).
Proof.
  intros Hg Ha Hd. eapply (follows_set id); [reflexivity| |].
  - intros H. exists g0. split; [done|]. rewrite <- Hd. by destruct g.
  - intros a. change (g_drive_ghost (drop_stale id actor g p)) with (drop_drive_ghost (Some actor) (g_drive_ghost p)).
    unfold drop_drive_ghost. case_bool_decide as Hb; [done|]. intros E. split; [done|]. intros g1 Hg1 Ha1. congruence.
Qed.

Lemma awake_keeps env id a p g :
  let '(p', g', _) := tick_awake env id a p g in same_rig g g' /\ remotes p' = remotes p /\ g_drive_ghost p' = g_drive_ghost p.
Proof.
  rewrite <- mirrored_awake. set (g1 := retry_ambient _ _ g). pose proof (mirrored_keeps env id a target_pos p g1) as H.
  destruct (tick_mirrored _ _ _ _ _ _) as [[p' g'] calls]. destruct H as (H1 & H2). split; [|done]. etrans; [apply retry_same|exact H1].
Qed.

Lemma tick_follows env id p : follows p (tick_remote env id p).1.1.
Proof.
  unfold tick_remote. destruct (remotes p !! id) as [g|] eqn:Eg; [|reflexivity].
  destruct (ghost (engine_objects g)) as [actor|] eqn:Ea; [|reflexivity]. destruct (negb (alive env)); [by apply (stale_follows id actor g g)|].
  pose proof (tier_same env g) as T1. destruct (tick_distance_tier _ _ _ _ g) as [[g1 tiers] dormant].
  pose proof (tag_same env id p g1) as T2. destruct (tick_tag env id p g1) as [g2 tags]. cbn [fst] in *.
  assert (same_rig g g2) as [T3 T4] by (etrans; eassumption).
  destruct dormant; [by eapply follows_keep; [exact Eg|split; [exact T3|exact T4]|..]|].
  destruct (other_world _ _); [by apply (stale_follows id actor g2 g)|].
  pose proof (awake_keeps env id actor p g2) as H. destruct (tick_awake env id actor p g2) as [[p' g'] calls]. cbn [fst].
  destruct H as ([H1 H2] & E1 & E2).
  eapply (follows_keep id g g'); [exact Eg|split; congruence|cbn; by rewrite E1|done].
Qed.

Lemma step_follows p p' : SystemProps.step p p' -> follows p p'.
Proof.
  destruct 1; [apply handle_follows|apply tick_follows| |by apply follows_same|apply release_follows|apply level_follows|apply parked_follows].
  apply follows_same; unfold follow_panel; by repeat case_match.
Qed.

(** * The program with the rig *)

Inductive rig_step : rig * plugin -> rig * plugin -> Prop :=
  | RigPoll undefined file s p : rig_step (s, p) (poll_ghost_drive_toggle undefined file s p)
  | RigTurn env renv id s p : rig_step (s, p) (tick_remote_rig env renv id s p).1.1.1
  | RigBeside s p p' : SystemProps.step p p' -> rig_step (s, p) (s, p').

(** The pawn the rig aims at is the one of the replay ghost it drives. *)
Definition aimed (st : rig * plugin) : Prop :=
  forall a, g_drive_ghost st.2 = Some a ->
  armed (g_drive st.1) = true /\ is_replay (g_drive_id st.1) = true /\
  exists g, remotes st.2 !! g_drive_id st.1 = Some g /\ ghost (engine_objects g) = Some a.

Lemma follows_aimed s p p' : follows p p' -> aimed (s, p) -> aimed (s, p').
Proof.
  intros [_ H] Ha a E. cbn [fst snd] in *. destruct (H a E) as [E1 H2]. destruct (Ha a E1) as (H3 & H4 & g & Hg & Hgh). eauto.
Qed.

(** * The turn of a driven ghost *)

Definition holds_pawn (g g' : RemoteGhost) : Prop := ghost (engine_objects g') = ghost (engine_objects g).

Lemma same_holds g g' : same_rig g g' -> holds_pawn g g'.
Proof. by intros []. Qed.

(** The part of the rig that only a poll or a selection changes. *)
Definition same_target (s s' : rig) : Prop := g_drive s' = g_drive s /\ g_drive_id s' = g_drive_id s.

Lemma select_spec v id player s d g :
  let '(s', d', g', _) := ghost_drive_select v id player s d g in
  holds_pawn g g' /\ g_drive s' = g_drive s /\
  (driven (drive g') = true -> armed (g_drive s) = true /\ is_replay id = true /\ g_drive_id s' = id /\ d' = ghost (engine_objects g)) /\
  (driven (drive g') = false -> s' = s /\ d' = d).
Proof.
  unfold ghost_drive_select. destruct (armed (g_drive s)) eqn:Ea; [|by destruct g as [? ? ? ? ? ? ? ? []]]. cbn [negb].
  set (s1 := if bool_decide (g_drive_id s = []) && is_replay id then s <| g_drive_id := id |> else s).
  set (on := is_replay id && bool_decide (g_drive_id s1 = id)).
  set (g1 := upd_drive (fun d => d <| driven := on |>) g).
  assert (ghost (engine_objects g1) = ghost (engine_objects g) /\ driven (drive g1) = on) as [G1 G2].
  { unfold g1. by destruct g as [? ? ? ? ? ? ? ? []]. }
  assert (g_drive s1 = g_drive s) as S1 by (unfold s1; by destruct (_ && _), s).
  assert (on = true -> is_replay id = true /\ g_drive_id s1 = id) as Hon.
  { unfold on. intros [H1 H2]%andb_true_iff. by apply bool_decide_eq_true in H2. }
  assert (on = false -> s1 = s) as Hoff.
  { unfold on, s1. destruct (bool_decide (g_drive_id s = [])); [|done]. cbn [andb]. destruct (is_replay id); [|done].
    cbn [andb]. by destruct s; cbn; rewrite bool_decide_true. }
  cbv zeta. change (let '(s', d', g', _) := match ghost (engine_objects g1) with
    | Some a => if on && negb (drive_prepared (latches g1)) then let (g, calls) := prepare v (g_drive s1) a player g1 in
                  (s1, if on then ghost (engine_objects g1) else d, g, calls) else (s1, if on then ghost (engine_objects g1) else d, g1, [])
    | None => (s1, if on then ghost (engine_objects g1) else d, g1, []) end in
    holds_pawn g g' /\ g_drive s' = g_drive s /\
    (driven (drive g') = true -> true = true /\ is_replay id = true /\ g_drive_id s' = id /\ d' = ghost (engine_objects g)) /\
    (driven (drive g') = false -> s' = s /\ d' = d)).
  assert (forall a, ghost (engine_objects (prepare v (g_drive s1) a player g1).1) = ghost (engine_objects g1) /\
                    driven (drive (prepare v (g_drive s1) a player g1).1) = driven (drive g1)) as Hp.
  { intros a. unfold prepare. destruct (private_instance _ _ _ _) as [gi calls]. by destruct g1. }
  unfold holds_pawn. clearbody s1 g1 on.
  destruct (ghost (engine_objects g1)) as [a|] eqn:Eg; [destruct (on && _); [specialize (Hp a); destruct (prepare _ _ _ _ _) as [g2 calls]; destruct Hp as [P1 P2]; cbn [fst] in *|]|];
    rewrite ?P1, ?P2, ?Eg, G2, <- G1; (split_and!; [done|done|intros ->; by destruct (Hon eq_refl)|intros ->; by rewrite Hoff]).
Qed.

Lemma drive_tick_holds lay named cfg now a g : holds_pawn g (ghost_drive_tick lay named cfg now a g).1.
Proof.
  unfold ghost_drive_tick, holds_pawn. cbv zeta. destruct (_ || _); [done|]. destruct (bool_decide _); [by destruct g|].
  destruct (starts_with _ _); [by destruct g|]. destruct (attack_node _ _); by destruct g.
Qed.

Lemma track_tick_holds v a t s g :
  let '(s', g', _, _) := ghost_drive_track_tick v a t s g in same_target s s' /\ holds_pawn g g'.
Proof.
  assert (forall g, holds_pawn g (correct v (g_drive s) a g).1) as Hc.
  { intros h. unfold correct. destruct (target_pos _) as [[x y] z]. by destruct h. }
  unfold ghost_drive_track_tick. cbv zeta. destruct (have_state t).
  - set (g1 := g <| latches := _ |>). assert (holds_pawn g g1) as H1 by (by destruct g). clearbody g1.
    destruct (so_thrown _); [by destruct s|]. specialize (Hc g1). destruct (correct _ _ _ g1) as [g2 calls].
    split; [by destruct s|]. unfold holds_pawn in *. cbn [fst] in *. congruence.
  - specialize (Hc g). by destruct (correct _ _ _ g).
Qed.

Section Driven.
Context (env : remote_env) (renv : rig_env) (id : bytes) (a : Z).

Lemma driven_inputs_holds s p g :
  let '(s', p', g', _, _) := driven_inputs env renv id a s p g in
  same_target s s' /\ holds_pawn g g' /\ remotes p' = remotes p /\ g_drive_ghost p' = g_drive_ghost p.
Proof.
  unfold driven_inputs. cbv zeta. set (ts := target_ts (wire_state g)). clearbody ts.
  set (m := replay_inputs _ _ _ _ _ _ _).
  assert (same_target s m.1.1.1 /\ holds_pawn g m.1.1.2) as Hm.
  { unfold m, replay_inputs. destruct (ghost_inputs p !! id) as [track|]; [|done]. destruct (bool_decide _); [|done].
    pose proof (track_tick_holds (stick_view renv) a (apply_due ts track) s g) as H.
    by destruct (ghost_drive_track_tick _ _ _ _ _) as [[[s' g'] calls] thrown]. }
  clearbody m. destruct m as [[[s' g'] calls] thrown]. cbn [fst snd] in Hm. destruct thrown; [by destruct Hm, p|].
  pose proof (inputs_keep env id ts p) as Hi. destruct (tick_ghost_inputs _ _ _ p) as [p' text]. by destruct Hm, Hi.
Qed.

Definition seg_holds (f : loop_statics * RemoteGhost -> (loop_statics * RemoteGhost) * list ghost_call) : Prop :=
  forall st, holds_pawn st.2 (f st).1.2.

Lemma entry_holds f : (forall g, holds_pawn g (f g).1) -> seg_holds (on_entry f).
Proof. intros H [s g]. unfold on_entry. specialize (H g). by destruct (f g). Qed.
Lemma statics_holds f : seg_holds (on_statics f).
Proof. intros [s g]. unfold on_statics. by destruct (f g s). Qed.

Lemma consumed_holds f g g0 : tame f -> holds_pawn g g0 -> holds_pawn g (calling Pose f g0).1.
Proof. intros Hf H0. rewrite calling_fst. destruct (Hf g0) as [K _]. unfold holds_pawn in *. by rewrite (p_objects _ _ K). Qed.

Lemma driven_pulses_tame r : tame (fun g => tick_pulses r a (consume_pulses g)).
Proof.
  intros g. destruct (pulses_tame r a (consume_pulses g)) as [K W]. split.
  - destruct K as [K1 K2 K3 K4 K5 K6 K7]. by destruct g; split.
  - intros Hw Hp. apply W; by destruct g.
Qed.

Lemma run_tail_holds t segments : forall marker, Forall seg_holds segments -> seg_holds (run_tail t marker segments).
Proof.
  induction segments as [|f segments IH]; intros marker H st; [done|]. apply list.Forall_cons in H as [Hf H]. cbn [run_tail].
  destruct (t <? marker)%Z; [done|]. rewrite and_then_fst. unfold holds_pawn. rewrite (IH _ H). apply Hf.
Qed.

Lemma driven_tail_holds mode : Forall seg_holds (driven_tail env id a mode).
Proof.
  unfold driven_tail. repeat (apply list.Forall_cons; split); [| | | | | |constructor].
  - apply entry_holds. intros g. apply same_holds, props_keep.
  - apply statics_holds.
  - apply statics_holds.
  - intros st. unfold driven_events. rewrite and_then_fst.
    destruct (hurt_kept (hurt env) id a st.1 st.2) as [K%pose_kept_same _]. rewrite <- surjective_pairing in K.
    rewrite calling_fst. unfold holds_pawn. apply same_holds in K. rewrite <- K. apply entry_holds. intros g. apply same_holds.
    apply keeps_then; [apply keeps_then; [apply keeps_tame, contact_tame|apply effects_keep]|apply keeps_tame; tame_sequence].
  - apply entry_holds. intros g. apply consumed_holds; [tame_sequence|done].
  - apply entry_holds. intros g. apply consumed_holds; [|by destruct g].
    repeat match goal with |- tame (_ ;> _) => apply tame_then end; try (apply tame_emit; intros ? ?); auto with within tame.
    apply driven_pulses_tame.
Qed.

Lemma tick_driven_holds prepared s p g :
  let '(s', p', g', _, _) := tick_driven env renv id a prepared s p g in
  same_target s s' /\ holds_pawn g g' /\ remotes p' = remotes p /\ g_drive_ghost p' = g_drive_ghost p.
Proof.
  unfold tick_driven. pose proof (drive_tick_holds (timer_layout renv) (timer_named renv) (g_drive s) (timer_now renv) a g) as H1.
  destruct (ghost_drive_tick _ _ _ _ _ g) as [g1 fired]. cbn [fst] in H1.
  pose proof (driven_inputs_holds s p g1) as H2. destruct (driven_inputs _ _ _ _ s p g1) as [[[[s2 p2] g2] inputs] thrown].
  destruct H2 as (S2 & P2 & R2 & D2). destruct thrown; [unfold holds_pawn in *; split_and!; try done; congruence|].
  pose proof (run_tail_holds (tail_until (g_drive s2)) _ 1 (driven_tail_holds (g_chaser_contact_mode p2)) (statics p2, g2)) as H3.
  destruct (run_tail _ _ _ _) as [[st g3] rest]. unfold holds_pawn in *. cbn [fst snd] in *. split_and!; try done; congruence.
Qed.
End Driven.

(** * The hook *)

(** A file read is a rig armed. *)
Lemma set_key_armed undefined cfg key value : armed (set_key undefined cfg key value) = armed cfg.
Proof. unfold set_key. cbv zeta. by repeat (case_bool_decide; [destruct cfg|]). Qed.
Lemma read_drive_armed undefined t : armed (read_drive undefined t) = true.
Proof.
  unfold read_drive. generalize (split_lines t []). intros lines.
  assert (armed (drive_cfg0 <| armed := true |> <| text := t |>) = true) as H by done. revert H.
  generalize (drive_cfg0 <| armed := true |> <| text := t |>). induction lines as [|line lines IH]; intros cfg H; [done|].
  cbn [foldl]. apply IH. unfold set_line. destruct (cut_line line) as [[key value]|]; [by rewrite set_key_armed|done].
Qed.

(** Another entry stays, the rig's own is written. *)
Lemma aimed_set s p s' g' id (p' : plugin) :
  aimed (s, p) -> remotes p' = <[id := g']> (remotes p) -> g_drive s' = g_drive s ->
  (g_drive_ghost p' = g_drive_ghost p /\ s' = s /\ (forall g, remotes p !! id = Some g -> holds_pawn g g') \/
   g_drive_ghost p' = ghost (engine_objects g') /\ armed (g_drive s) = true /\ is_replay id = true /\ g_drive_id s' = id) ->
  aimed (s', p').
Proof.
  intros Ha E Es [(E1 & -> & Hg)|(E1 & A1 & A2 & <-)] a E2; cbn [fst snd] in *; rewrite E1 in E2.
  - destruct (Ha a E2) as (H1 & H2 & g & Hg0 & Hgh). cbn [fst snd] in *. split_and!; [done..|]. rewrite E.
    destruct (decide (id = g_drive_id s)) as [->|]; [|exists g; by rewrite lookup_insert_ne].
    exists g'. rewrite lookup_insert_eq. split; [done|]. by rewrite (Hg g Hg0).
  - split_and!; [congruence|done|]. exists g'. by rewrite E, lookup_insert_eq.
Qed.

Lemma turn_aimed env renv id s p : aimed (s, p) -> aimed (tick_remote_rig env renv id s p).1.1.1.
Proof.
  intros Ha. unfold tick_remote_rig. destruct (remotes p !! id) as [g|] eqn:Eg; [|done].
  destruct (ghost (engine_objects g)) as [actor|] eqn:Egh; [|done].
  destruct (negb (alive env)); [by apply (follows_aimed s p), Ha; apply (stale_follows id actor g g)|].
  pose proof (tier_same env g) as T1. destruct (tick_distance_tier _ _ _ _ g) as [[g1 tiers] dormant].
  pose proof (tag_same env id p g1) as T2. destruct (tick_tag env id p g1) as [g2 tags]. cbn [fst] in *.
  assert (same_rig g g2) as T by (etrans; eassumption). pose proof T as [T3 T4].
  destruct dormant; [by apply (follows_aimed s p), Ha; eapply (follows_keep id g g2)|].
  destruct (other_world _ _); [by apply (follows_aimed s p), Ha; apply (stale_follows id actor g2 g)|].
  pose proof (same_holds _ _ (retry_same (PeerProps.tick (props env)) (ambient_stripped env) g2)) as R. unfold holds_pawn in R.
  pose proof (select_spec (prepared_on renv) id (local_player env) s (g_drive_ghost p) (retry_ambient (PeerProps.tick (props env)) (ambient_stripped env) g2)) as S.
  destruct (ghost_drive_select _ _ _ _ _ _) as [[[s1 d1] g3] prepared]. destruct S as (S1 & S2 & Son & Soff). unfold holds_pawn in S1.
  assert (remotes (p <| g_drive_ghost := d1 |>) = remotes p /\ g_drive_ghost (p <| g_drive_ghost := d1 |>) = d1) as [Q1 Q2] by done.
  revert Q1 Q2. generalize (p <| g_drive_ghost := d1 |>). intros q Q1 Q2. destruct (driven (drive g3)) eqn:Ed.
  - pose proof (tick_driven_holds env renv id actor prepared s1 q g3) as H.
    destruct (tick_driven _ _ _ _ _ _ _ _) as [[[[s2 p2] g4] calls] thrown]. destruct H as ([H1 H1'] & H2 & H3 & H4).
    unfold holds_pawn in H2. destruct (Son eq_refl) as (A1 & A2 & A3 & A4). cbn [fst].
    apply (aimed_set s p s2 g4 id); [done|cbn; by rewrite H3, Q1|congruence|right]. split_and!; [cbn; congruence|done|done|congruence].
  - destruct (Soff eq_refl) as [-> ->]. pose proof (mirrored_keeps env id actor (drawn_at (g_drive s) id) q g3) as H.
    destruct (tick_mirrored _ _ _ _ _ _) as [[p2 g4] calls]. destruct H as ([H1 H1'] & H3 & H4). cbn [fst].
    apply (aimed_set s p s g4 id); [done|cbn; by rewrite H3, Q1|done|left]. cbn. split_and!; [congruence|done|].
    intros g0 Hg0. unfold holds_pawn. congruence.
Qed.

Lemma step_aimed st st' : rig_step st st' -> aimed st -> aimed st'.
Proof.
  destruct 1 as [undefined file s p|env renv id s p|s p p' H]; intros Ha.
  - unfold poll_ghost_drive_toggle. destruct file as [t|]; [|by destruct (armed _)].
    destruct (armed (g_drive s)) eqn:Ea; cbn [andb].
    + case_bool_decide; [done|]. intros a Hd. destruct (Ha a Hd) as (_ & H2 & H3). split_and!; [apply read_drive_armed|by destruct s..].
    + intros a Hd. destruct (Ha a Hd) as [H1 _]. cbn [fst] in H1. congruence.
  - by apply turn_aimed.
  - eapply follows_aimed; [by apply step_follows|done].
Qed.

Lemma run_aimed st : rtc rig_step (rig0, plugin0) st -> aimed st.
Proof.
  assert (aimed (rig0, plugin0)) as H0 by (by intros a).
  intros H. revert H0. generalize (rig0, plugin0), H. induction 1; [done|]. intros Ha. by apply IHrtc, (step_aimed x y).
Qed.

(** Over any run of the program with the rig, a read of the bound stick is answered as the engine answered it, unless the
    rig is armed to answer and the actor is the pawn the entry of the replay ghost it drives holds now; then it is the
    recorded stick.  So no read of the player's own pawn is touched, nor one at the address of a pawn given up. *)
Theorem hook_answers_driven s p ia_move actor action answer :
  rtc rig_step (rig0, plugin0) (s, p) ->
  let out := bound_stick_hook s (g_drive_ghost p) ia_move actor action answer in
  out = answer \/
  out = ActionValue (g_drive_stick s).1 (g_drive_stick s).2 dzero 2 /\ armed (g_drive s) = true /\ bound_stick (g_drive s) = true /\
  action = ia_move /\ is_Some ia_move /\ is_replay (g_drive_id s) = true /\
  exists g a, remotes p !! g_drive_id s = Some g /\ ghost (engine_objects g) = Some a /\ actor = Some a.
Proof.
  intros H%run_aimed. cbv zeta. unfold bound_stick_hook. destruct (g_drive_ghost p) as [a|] eqn:Ea; [|by left].
  destruct (armed _) eqn:E1; [|by left]. destruct (bound_stick _) eqn:E2; [|by left]. cbn [andb].
  destruct (decide (actor = Some a)) as [->|]; [|left; by rewrite bool_decide_false].
  rewrite bool_decide_true by done. cbn [andb]. destruct (decide (is_Some ia_move)); [|left; by rewrite (bool_decide_false (is_Some _))].
  destruct (decide (action = ia_move)); [|left; by rewrite (bool_decide_false (action = _)), andb_false_r].
  right. rewrite !bool_decide_true by done. destruct (H a Ea) as (_ & H2 & g & H3 & H4). eauto 15.
Qed.

(** * Never armed *)

Definition undriven (p : plugin) : Prop := g_drive_ghost p = None /\ forall id g, remotes p !! id = Some g -> driven (drive g) = false.

Lemma follows_undriven p p' : follows p p' -> undriven p -> undriven p'.
Proof.
  intros [H1 H2] [U1 U2]. split.
  - destruct (g_drive_ghost p') as [a|]; [|done]. destruct (H2 a eq_refl) as [E _]. congruence.
  - intros id g Hg. destruct (driven (drive g)) eqn:E; [|done]. destruct (H1 _ _ Hg E) as (g0 & Hg0 & Hd).
    by rewrite (U2 _ _ Hg0) in Hd.
Qed.

(** A step after which the rig is not armed. *)
Definition quiet_step (st st' : rig * plugin) : Prop := rig_step st st' /\ armed (g_drive st'.1) = false.

Lemma quiet_reaches st : rtc quiet_step (rig0, plugin0) st -> st.1 = rig0 /\ reachable st.2 /\ undriven st.2.
Proof.
  assert (forall st st', quiet_step st st' -> st.1 = rig0 /\ reachable st.2 /\ undriven st.2 ->
    st'.1 = rig0 /\ reachable st'.2 /\ undriven st'.2) as Hstep.
  { intros x y [H Hq] (E & Hr & Hu). destruct H as [undefined file s p|env renv id s p|s p p' H]; cbn [fst snd] in *; subst s.
    - unfold poll_ghost_drive_toggle in *. destruct file as [t|]; [|done]. cbn in Hq. by rewrite read_drive_armed in Hq.
    - pose proof (disarmed_turn env renv id rig0 p eq_refl (proj2 Hu id)) as D. pose proof (StepTick env id p) as Hs.
      destruct (tick_remote env id p) as [[p' tiers] calls]. rewrite D in *. cbn [fst snd] in *. split_and!; [done|by eapply rtc_r|].
      by eapply follows_undriven, Hu; apply step_follows.
    - split_and!; [done|by eapply rtc_r|]. by eapply follows_undriven, Hu; apply step_follows. }
  assert ((rig0, plugin0).1 = rig0 /\ reachable (rig0, plugin0).2 /\ undriven (rig0, plugin0).2) as H0.
  { split_and!; [done|apply rtc_refl|]. split; [done|]. intros id g Hg. cbn in Hg. by rewrite lookup_empty in Hg. }
  intros H. revert H0. generalize (rig0, plugin0), H. induction 1; [done|]. intros Ha. by apply IHrtc, (Hstep x y).
Qed.

(** C38: without ghost_drive.txt the rig is not there: over any run in which it is never armed its state is the initial one, the
    plugin is where the program without the rig can be, and the next turn of every ghost is, in its state and its calls, the
    turn of the loop without the rig. *)
Theorem disarmed_rig_transparent s p env renv id :
  rtc quiet_step (rig0, plugin0) (s, p) ->
  s = rig0 /\ reachable p /\
  tick_remote_rig env renv id s p = let '(p', tiers, calls) := tick_remote env id p in (s, p', tiers, map Ghost calls, false).
Proof.
  intros H. destruct (quiet_reaches _ H) as (E & Hr & Hu). cbn [fst snd] in *. subst s. split_and!; [done..|].
  apply disarmed_turn; [done|exact (proj2 Hu id)].
Qed.

(** * A sample run

    The rig armed in track mode, a replay's first sample, a turn of its ghost. *)

Definition replay_line : bytes :=
  js "{'type':'render_remote','payload':{'player_id':'replay:1','state':{'position':[310,41,6],'orientation':[0,90,0],'extras':{}}}}".
Definition sample_file : bytes := str "mode = track # the recorded inputs".
Definition sample_prepare : prepare_view := PrepareView sample_reflection [] (fun _ => true) None [].
Definition sample_track_view : track_view :=
  TrackView sample_reflection (fun _ => None) (fun _ => None) (fun _ => true) true (fun _ => None) None vzero (fun _ _ => Fits) sample_libm.
Definition sample_rig_env : rig_env :=
  RigEnv sample_prepare (fun _ _ => Fits) (fun _ => true) dzero (fun _ _ => Fits) sample_track_view.
Definition armed_at_start : rig * plugin := poll_ghost_drive_toggle 0 (Some sample_file) rig0 plugin0.
Definition with_ghost : rig * plugin := (armed_at_start.1, (handle_bridge_line sample_line_env replay_line armed_at_start.2).1).
Definition driven_run : rig * plugin := (tick_remote_rig sample_remote_env sample_rig_env (str "replay:1") with_ghost.1 with_ghost.2).1.1.1.

Lemma driven_run_steps : rtc rig_step (rig0, plugin0) (driven_run.1, driven_run.2).
Proof.
  rewrite <- surjective_pairing. apply (rtc_l _ _ armed_at_start); [apply RigPoll|]. apply (rtc_l _ _ with_ghost).
  - rewrite (surjective_pairing armed_at_start). apply RigBeside, StepLine, sample_spawn_ok.
  - apply rtc_once. rewrite (surjective_pairing with_ghost). apply RigTurn.
Qed.

(** The driven pawn's read is answered, the player's is not. *)
Example hook_answers_driven_witness :
  let hook actor := bound_stick_hook driven_run.1 (g_drive_ghost driven_run.2) (Some 9%Z) (Some actor) (Some 9%Z) in
  let held := ActionValue (of_Z 1) dzero dzero 2 in
  hook 77%Z held = ActionValue dzero dzero dzero 2 /\ hook 42%Z held = held /\
  exists g a, remotes driven_run.2 !! g_drive_id driven_run.1 = Some g /\ ghost (engine_objects g) = Some a /\ 77%Z = a.
Proof.
  split; [by vm_compute|]. split; [by vm_compute|].
  destruct (hook_answers_driven driven_run.1 driven_run.2 (Some 9%Z) (Some 77%Z) (Some 9%Z) (ActionValue (of_Z 1) dzero dzero 2) driven_run_steps)
    as [H|(_ & _ & _ & _ & _ & _ & g & a & H1 & H2 & H3)].
  - exfalso. revert H. by vm_compute.
  - exists g, a. split; [exact H1|]. split; [exact H2|]. by injection H3.
Defined.

Example disarmed_rig_transparent_witness :
  let p := (handle_bridge_line sample_line_env replay_line plugin0).1 in
  (20 <=? length (tick_remote_rig sample_remote_env sample_rig_env (str "replay:1") rig0 p).1.2) = true /\
  tick_remote_rig sample_remote_env sample_rig_env (str "replay:1") rig0 p =
  let '(p', tiers, calls) := tick_remote sample_remote_env (str "replay:1") p in (rig0, p', tiers, map Ghost calls, false).
Proof.
  split; [by vm_compute|].
  refine (proj2 (proj2 (disarmed_rig_transparent rig0 _ sample_remote_env sample_rig_env (str "replay:1") _))).
  apply rtc_once. split; [apply RigBeside, StepLine, sample_spawn_ok|done].
Defined.

(** * What the rig leaves behind *)

(** A pawn spawned while the recorded stick was pushed has it pushed until the recording next moves it: the spawn takes the
    latch that would release it, and the stick answered stays. *)
Lemma respawn_keeps_stick v cfg a t held g env actor world loc :
  axis 0 t = dzero -> axis 1 t = dzero ->
  drive_move_live (latches (spawned_entry env actor world loc g)) = false /\
  so_stick (feed_stick v cfg a t held (drive_move_live (latches (spawned_entry env actor world loc g)))) = held.
Proof.
  intros E1 E2. assert (drive_move_live (latches (spawned_entry env actor world loc g)) = false) as ->.
  { unfold spawned_entry. destruct loc as [[x y] z]. by destruct g as [? ? ? [] ? ? ? ? ?]. }
  split; [done|]. unfold feed_stick. by rewrite E1, E2.
Qed.

(** Disarmed, the ghost is mirrored again on the pawn the rig prepared: nothing it was given (the collision, the object
    type, the facing, the private game instance) is taken back. *)
Lemma disarm_keeps_prepared v id player d g s :
  armed (g_drive s) = false ->
  let '(_, _, g', calls) := ghost_drive_select v id player s d g in
  calls = [] /\ latches g' = latches g /\ engine_objects g' = engine_objects g.
Proof. intros Hs. unfold ghost_drive_select. rewrite Hs. by destruct g. Qed.
