(* ===== verification/LocalProps.v ===== *)
(** Properties of the local player's capture: what the core is told, what it is told
    once, and what it is never told.
    Then the freeze, told once per change: what the core knows of it after any traffic of
    the two threads. *)
From S2P Require Import Prelude Float64 JsonString BridgeClient CoreLauncher NumberText RemoteGhost Lifecycle.
From S2P Require Import BridgeLine PeerProps ObjectRegistry PoseMirror Chaser LocalCapture TrailCapture.
From S2P Require Import VfxCapture LocalState InputTrack InputTrackProps Update LocalTick UpdateProps.
From S2P Require Import SystemProps.
From Stdlib Require Import ZArith.

(** * Deaths and the chasers' resets *)

(** One tick's health: the reading, and the bridge that takes the edge line. *)
Definition hp_tick : Type := option double * option (bytes -> bool).

Definition sends (send : option (bytes -> bool)) (line : bytes) : bool := match send with Some f => f line | None => false end.

(** The state, and how many resets the core was told of. *)
Definition run_hp (st : vitals * Z) (t : hp_tick) : vitals * Z :=
  let (s, lines) := reset_chasers t.2 (note_death t.1 (note_hurt t.1 st.1)) in
  (s, (st.2 + Z.of_nat (length (List.filter (sends t.2) lines)))%Z).

(** What is counted of the readings that there are. *)
Fixpoint drops (seen : double) (hps : list double) : Z :=
  match hps with
  | [] => 0
  | hp :: rest => (if (seen >=? dzero)%double && (hp <? seen)%double then 1 else 0) + drops hp rest
  end%Z.
Fixpoint deaths (dead : bool) (hps : list double) : Z :=
  match hps with
  | [] => 0
  | hp :: rest => (if (hp <=? dzero)%double && negb dead then 1 else 0) + deaths (hp <=? dzero)%double rest
  end%Z.

Lemma deaths_pos hps : forall dead, (0 <= deaths dead hps)%Z.
Proof. induction hps as [|hp hps IH]; intros dead; cbn; [lia|]. specialize (IH (hp <=? dzero)%double). destruct (_ && _); lia. Qed.

Lemma reset_chasers_counts send s :
  let (s', lines) := reset_chasers send s in
  local_last_seen_hp s' = local_last_seen_hp s /\ local_was_dead s' = local_was_dead s /\
  local_hurt_count s' = local_hurt_count s /\ local_death_count s' = local_death_count s /\
  (chaser_reset_death_count s' = local_death_count s /\ (local_death_count s > chaser_reset_death_count s)%Z /\
     length (List.filter (sends send) lines) = 1 \/
   s' = s /\ length (List.filter (sends send) lines) = 0 /\
     ((local_death_count s > chaser_reset_death_count s)%Z -> sends send CHASER_RESET = false)).
Proof.
  destruct s as [seen hurts dead died reset]. unfold reset_chasers. cbn [local_death_count chaser_reset_death_count].
  destruct send as [f|]; [|split_and!; [done..|by right]].
  destruct (Z.gtb_spec died reset);
    [|split_and!; [done..|right; split_and!; [done|done|lia]]].
  generalize CHASER_RESET as line. intros line. cbn.
  destruct (f line) eqn:E; cbn; (do 4 (split; [done|])); [left|right]; split_and!; lia || done.
Qed.

Lemma note_hp_counts hp s :
  let s' := note_death hp (note_hurt hp s) in
  chaser_reset_death_count s' = chaser_reset_death_count s /\
  match hp with
  | Some hp =>
      local_last_seen_hp s' = hp /\ local_was_dead s' = (hp <=? dzero)%double /\
      local_hurt_count s' = (local_hurt_count s + drops (local_last_seen_hp s) [hp])%Z /\
      local_death_count s' = (local_death_count s + deaths (local_was_dead s) [hp])%Z
  | None => s' = s
  end.
Proof.
  destruct s as [seen hurts dead died reset], hp as [hp|]; [|done]. cbv zeta. unfold note_hurt, note_death. cbn.
  destruct ((seen >=? dzero)%double && (hp <? seen)%double), ((hp <=? dzero)%double), dead; cbn; repeat split; lia.
Qed.

Lemma run_hp_step s n t :
  (chaser_reset_death_count s <= local_death_count s)%Z ->
  let (s', n') := run_hp (s, n) t in
  (chaser_reset_death_count s' <= local_death_count s')%Z /\
  (n <= n' /\ n' - n <= chaser_reset_death_count s' - chaser_reset_death_count s)%Z /\
  (sends t.2 CHASER_RESET = true -> chaser_reset_death_count s' = local_death_count s') /\
  match t.1 with
  | Some hp =>
      local_last_seen_hp s' = hp /\ local_was_dead s' = (hp <=? dzero)%double /\
      local_hurt_count s' = (local_hurt_count s + drops (local_last_seen_hp s) [hp])%Z /\
      local_death_count s' = (local_death_count s + deaths (local_was_dead s) [hp])%Z
  | None =>
      local_last_seen_hp s' = local_last_seen_hp s /\ local_was_dead s' = local_was_dead s /\
      local_hurt_count s' = local_hurt_count s /\ local_death_count s' = local_death_count s
  end.
Proof.
  intros Hs. destruct t as [hp send]. unfold run_hp. cbn [fst snd]. destruct (note_hp_counts hp s) as [Hr Hc].
  set (s1 := note_death hp (note_hurt hp s)) in *. pose proof (reset_chasers_counts send s1) as Hreset.
  assert (local_death_count s <= local_death_count s1)%Z as Hgrow.
  { destruct hp as [hp|]; [|by rewrite Hc]. destruct Hc as (_ & _ & _ & ->).
    pose proof (deaths_pos [hp] (local_was_dead s)). lia. }
  destruct (reset_chasers send s1) as [s2 lines].
  destruct Hreset as (E1 & E2 & E3 & E4 & Hcase). rewrite E1, E2, E3, E4.
  split; [|split; [|split]].
  - destruct Hcase as [(H & _ & _)|(-> & _ & _)]; lia.
  - destruct Hcase as [(H & Hgt & ->)|(-> & -> & _)]; lia.
  - intros Hsend. destruct Hcase as [(H & _ & _)|(-> & _ & H)]; [done|]. rewrite Hsend in H.
    destruct (Z_gt_dec (local_death_count s1) (chaser_reset_death_count s1)) as [Hgt|Hle]; [by apply H in Hgt|lia].
  - destruct hp as [hp|]; [done|]. by rewrite Hc.
Qed.

(** The reset lines that are due: a tick that owes an answer and has a socket that takes it
    sends one line, however many deaths it answers. *)
Fixpoint answered (owed : Z) (dead : bool) (ticks : list hp_tick) : Z :=
  match ticks with
  | [] => 0
  | (hp, send) :: rest =>
      let owed := (owed + deaths dead (option_list hp))%Z in
      let dead := match hp with Some hp => (hp <=? dzero)%double | None => dead end in
      if (owed >? 0)%Z && sends send CHASER_RESET then 1 + answered 0 dead rest else answered owed dead rest
  end%Z.

Lemma reset_chasers_answers send s :
  (chaser_reset_death_count s <= local_death_count s)%Z ->
  let due := (local_death_count s - chaser_reset_death_count s >? 0)%Z && sends send CHASER_RESET in
  length (reset_chasers send s).2 <= 1 /\
  length (List.filter (sends send) (reset_chasers send s).2) = (if due then 1 else 0) /\
  chaser_reset_death_count (reset_chasers send s).1 = (if due then local_death_count s else chaser_reset_death_count s).
Proof.
  destruct s as [seen hurts dead died reset]. unfold reset_chasers. cbn [local_death_count chaser_reset_death_count]. intros Hle.
  generalize CHASER_RESET as line. intros line.
  destruct send as [f|]; [|cbn [sends]; rewrite andb_false_r; cbn; split_and!; [lia|done|done]].
  destruct (Z.gtb_spec died reset), (Z.gtb_spec (died - reset) 0); try lia; [|cbn; split_and!; [lia|done|done]].
  cbn. destruct (f line) eqn:E; cbn; split_and!; lia || done.
Qed.

Lemma run_hp_answers s n t :
  (chaser_reset_death_count s <= local_death_count s)%Z ->
  let (s', n') := run_hp (s, n) t in
  let owed := (local_death_count s - chaser_reset_death_count s + deaths (local_was_dead s) (option_list t.1))%Z in
  if (owed >? 0)%Z && sends t.2 CHASER_RESET
  then n' = (n + 1)%Z /\ chaser_reset_death_count s' = local_death_count s'
  else n' = n /\ (local_death_count s' - chaser_reset_death_count s')%Z = owed.
Proof.
  intros Hs. destruct t as [hp send]. unfold run_hp. cbn [fst snd]. destruct (note_hp_counts hp s) as [Hr Hc].
  set (s1 := note_death hp (note_hurt hp s)) in *.
  assert (local_death_count s1 = (local_death_count s + deaths (local_was_dead s) (option_list hp))%Z) as Hd.
  { destruct hp as [hp|]; [by destruct Hc as (_ & _ & _ & ->)|rewrite Hc; cbn; lia]. }
  pose proof (deaths_pos (option_list hp) (local_was_dead s)) as Hpos.
  destruct (reset_chasers_answers send s1 ltac:(lia)) as (_ & H1 & H2). pose proof (reset_chasers_counts send s1) as H3.
  destruct (reset_chasers send s1) as [s2 lines]. destruct H3 as (_ & _ & _ & H4 & _). cbn [fst snd] in *. rewrite Hr in *.
  replace (local_death_count s1 - chaser_reset_death_count s)%Z
    with (local_death_count s - chaser_reset_death_count s + deaths (local_was_dead s) (option_list hp))%Z in * by lia.
  rewrite H1, H2, H4. destruct (_ && _); split; lia.
Qed.

(** C16: hurts and deaths are counted as they come, whatever the bridge does, and the core
    is told to start the pack over by as few lines as that allows.  Over any run of ticks
    the counters have gained exactly the drops and the deaths of the readings; a tick
    offers one line at most; and the lines delivered are exactly one at each tick that
    owes an answer and whose socket takes the line, which answers every death counted so
    far: deaths while the bridge was down are answered by one line, and no line goes
    without a death.  What is owed is the plugin's own count: a line the socket takes
    before the core has had its hello counts as an answer, although the core ignores it. *)
Theorem resets_answer_deaths (ticks : list hp_tick) (s : vitals) (n : Z)
    (Hs : (chaser_reset_death_count s <= local_death_count s)%Z) :
  let hps := omap fst ticks in
  let '(s', n') := foldl run_hp (s, n) ticks in
  local_hurt_count s' = (local_hurt_count s + drops (local_last_seen_hp s) hps)%Z /\
  local_death_count s' = (local_death_count s + deaths (local_was_dead s) hps)%Z /\
  (chaser_reset_death_count s' <= local_death_count s')%Z /\
  n' = (n + answered (local_death_count s - chaser_reset_death_count s) (local_was_dead s) ticks)%Z /\
  (forall send, length (reset_chasers send s').2 <= 1) /\
  (forall hp send, sends send CHASER_RESET = true ->
     let s'' := (run_hp (s', n') (hp, send)).1 in chaser_reset_death_count s'' = local_death_count s'').
Proof.
  cbv zeta. revert s n Hs. induction ticks as [|t ticks IH]; intros s n Hs.
  - cbn [foldl omap list_omap drops deaths answered]. split_and!; try lia.
    + intros send. by apply reset_chasers_answers.
    + intros hp send Hsend. pose proof (run_hp_step s n (hp, send) Hs) as Hstep.
      destruct (run_hp (s, n) (hp, send)) as [s1 n1]. by apply Hstep.
  - cbn [foldl]. pose proof (run_hp_step s n t Hs) as Hstep. pose proof (run_hp_answers s n t Hs) as Hans.
    destruct (run_hp (s, n) t) as [s1 n1].
    destruct Hstep as (H1 & _ & _ & H4). specialize (IH s1 n1 H1). destruct (foldl run_hp (s1, n1) ticks) as [s' n'].
    destruct IH as (I1 & I2 & I3 & I4 & I5 & I6). destruct t as [hp send]. cbn [fst snd answered] in *.
    assert (local_was_dead s1 = match hp with Some hp => (hp <=? dzero)%double | None => local_was_dead s end) as Hdead
      by (destruct hp; by destruct H4 as (? & ? & _)).
    rewrite Hdead in I4.
    assert (n' = n + (if (local_death_count s - chaser_reset_death_count s + deaths (local_was_dead s) (option_list hp) >? 0)
                         && sends send CHASER_RESET
                      then 1 + answered 0 (match hp with Some hp => (hp <=? dzero)%double | None => local_was_dead s end) ticks
                      else answered (local_death_count s - chaser_reset_death_count s + deaths (local_was_dead s) (option_list hp))
                             (match hp with Some hp => (hp <=? dzero)%double | None => local_was_dead s end) ticks))%Z as Hn.
    { destruct (_ && _); destruct Hans as [E1 E2]; rewrite I4, E1, E2; [|done]. rewrite Z.sub_diag. lia. }
    destruct hp as [hp|].
    + change (omap fst ((Some hp, send) :: ticks)) with (hp :: omap fst ticks). destruct H4 as (E1 & E2 & E3 & E4).
      rewrite E1, E3 in I1. rewrite E2, E4 in I2. cbn [drops deaths] in *. split_and!; [lia|lia|lia|exact Hn|exact I5|exact I6].
    + change (omap fst ((None, send) :: ticks)) with (omap fst ticks). destruct H4 as (E1 & E2 & E3 & E4).
      rewrite E1, E3 in I1. rewrite E2, E4 in I2. split_and!; [lia|lia|lia|exact Hn|exact I5|exact I6].
Qed.

(** Two deaths with the bridge down and a drop between them; the next tick answers both
    with one line. *)
Definition down : option (bytes -> bool) := Some (fun _ => false).
Definition sample_hp : list hp_tick :=
  [(Some (of_Z 3), down); (Some (of_Z 0), down); (Some (of_Z 3), down); (Some (of_Z 2), down); (Some (of_Z (-1)), down)].

Example resets_answer_deaths_witness :
  let ticks := sample_hp ++ [(None, Some (fun _ => true))] in
  let '(s', n') := foldl run_hp (vitals0, 0%Z) ticks in
  local_hurt_count s' = 3%Z /\ local_death_count s' = 2%Z /\ n' = 1%Z.
Proof.
  intros ticks. pose proof (resets_answer_deaths ticks vitals0 0%Z ltac:(done)) as H. cbv zeta in H.
  assert (drops (local_last_seen_hp vitals0) (omap fst ticks) = 3%Z) as E1 by (by vm_compute).
  assert (deaths (local_was_dead vitals0) (omap fst ticks) = 2%Z) as E2 by (by vm_compute).
  assert (answered (local_death_count vitals0 - chaser_reset_death_count vitals0) (local_was_dead vitals0) ticks = 1%Z) as E3 by (by vm_compute).
  destruct (foldl run_hp (vitals0, 0%Z) ticks) as [s' n']. rewrite E1, E2, E3 in H.
  destruct H as (H1 & H2 & _ & H4 & _). split; [exact H1|]. split; [exact H2|exact H4].
Defined.

(** * A connection that has had its hello *)

Abbreviation greeted c := (hello_sent_this_connection c).

Lemma close_greeted c : greeted (close_socket c) = false.
Proof. unfold close_socket. by destruct c as [? []]. Qed.

Lemma process_greeted port now ls : forall c out,
  match process port now ls c out with
  | inl (c', _) => greeted c' = greeted c
  | inr (c', _) => greeted c' = false
  end.
Proof.
  induction ls as [|l ls IH]; intros c out; cbn [process]; [done|]. case_bool_decide; [apply IH|].
  assert (greeted (count_line (strip_cr l) c) = greeted c) as Hc by (unfold count_line; by destruct (well_bracketed _)).
  destruct (classify (strip_cr l)) as [line| |line].
  - specialize (IH (count_line (strip_cr l) c) (out ++ [line])). by rewrite Hc in IH.
  - specialize (IH (count_line (strip_cr l) c <| core_answered_ready := true |>) out).
    rewrite <- Hc. destruct (count_line (strip_cr l) c). exact IH.
  - unfold on_reject. cbv zeta. set (x := if negb (walks_on line) then _ else _).
    pose proof (close_greeted x) as Hx. by destruct (close_socket x).
Qed.

Lemma recv_loop_greeted answers : forall n c, greeted (recv_loop answers n c).1 = true -> greeted c = true.
Proof.
  induction answers as [|a answers IH]; intros n c; [done|]. cbn [recv_loop]. nat_case; [done|]. destruct a as [chunk| |err].
  - intros Ht%IH. by destruct c.
  - cbn [fst]. by rewrite close_greeted.
  - destruct (err =? WSAEWOULDBLOCK)%Z; [done|]. cbn [fst]. by rewrite close_greeted.
Qed.

Lemma poll_greeted answers now c : greeted (poll_lines answers now c).1.1 = true -> greeted c = true.
Proof.
  unfold poll_lines. destruct (connected c); [|done]. cbn [negb]. pose proof (recv_loop_greeted answers 0 c) as Hr.
  destruct (recv_loop answers 0 c) as [c1 rest]. cbn [fst] in *. intros H. apply Hr. revert H.
  rewrite extract_refines. unfold extract_spec. destruct (BridgeClient.frame (recv_buffer c1)) as [ls r].
  pose proof (process_greeted (current_port c) now ls c1 []) as Hp. destruct (process _ _ _ _ _) as [[c2 out]|[c2 out]]; cbn [fst].
  - unfold keep_rest. cbv zeta. nat_case; [by rewrite close_greeted|]. rewrite <- Hp. by destruct c2.
  - by rewrite Hp.
Qed.

Lemma send_greeted a line c : greeted (send_line_inner a line c).2 = true -> greeted c = true.
Proof.
  unfold send_line_inner. destruct (connected c); [|done]. cbn [negb].
  destruct a as [n|err]; [nat_case|destruct (err =? WSAEWOULDBLOCK)%Z]; try done; cbn [snd]; try by rewrite close_greeted.
Qed.

Lemma send_line_greeted a line c : greeted (send_line a line c).2 = true -> greeted c = true.
Proof. pose proof (send_greeted a line c) as H. unfold send_line. by destruct (send_line_inner a line c) as [[??]?]. Qed.

Lemma send_edge_greeted a line c : greeted (send_edge_line a line c).2 = true -> greeted c = true.
Proof. pose proof (send_greeted a line c) as H. unfold send_edge_line. by destruct (send_line_inner a line c) as [[??]?]. Qed.

Lemma offer_greeted a lines : forall c, greeted (offer a lines c) = true -> greeted c = true.
Proof. unfold offer. induction lines as [|l lines IH]; intros c; [done|]. cbn. intros H%IH. by eapply send_edge_greeted. Qed.

Lemma sweep_greeted net now cands : forall c, greeted c = false -> greeted (BridgeClient.sweep net now cands c) = false.
Proof.
  induction cands as [|i cands IH]; intros c Hc; [done|]. cbn [BridgeClient.sweep]. cbv zeta.
  destruct (skips now c i); [by apply IH|].
  assert (greeted (try_port (net_dial net (candidate c i)) c).2 = false) as Ht.
  { unfold try_port. destruct (net_dial net (candidate c i)) as [[s|] [|err] [|w so]]; simpl; repeat split_match; by destruct c. }
  destruct (try_port (net_dial net (candidate c i)) c) as [[[] refused] c1]; [done|]. simpl in Ht.
  apply IH. by destruct (_ && _).
Qed.

Lemma tick_greeted net n1 n2 n3 c : greeted (tick_connect net n1 n2 n3 c) = true -> greeted c = true.
Proof.
  destruct (greeted c) eqn:E; [done|]. unfold tick_connect. rewrite E. cbn [andb negb].
  destruct (connected c); cbn [andb negb]; [by rewrite E|]. cbv zeta.
  destruct (n3 <? relay_down_until c)%Z; [by rewrite E|]. destruct (n3 - last_connect_attempt c <? RECONNECT_INTERVAL)%Z; [by rewrite E|].
  rewrite sweep_greeted; [done|]. by destruct c.
Qed.

(** * What goes out *)






(** * The two threads *)

Lemma connect_frozen env s :
  let s' := (connect_stage env s).1 in
  player_frozen_sent s' = player_frozen_sent s /\ (greeted (bridge s') = true -> greeted (bridge s) = true).
Proof.
  unfold connect_stage. cbv zeta. set (c := set_own_core_port _ _). destruct (drive_launcher _ _ _) as [l st].
  assert (greeted c = true -> greeted (bridge s) = true) as Hc by (unfold c, set_own_core_port; apply tick_greeted).
  destruct (bridge_was_connected _ && _); by destruct s.
Qed.

Lemma offer_frozen env s :
  let s' := (offer_hello env s).1.1 in
  player_frozen_sent s' = player_frozen_sent s /\ (greeted (bridge s') = true -> greeted (bridge s) = true).
Proof.
  unfold offer_hello. destruct (connected (bridge s) && negb (greeted (bridge s))); [|done].
  pose proof (send_line_greeted (hello_answer env) hello (bridge s)) as Hg.
  destruct (send_line _ _ _) as [ok c]; cbn [fst snd] in *. by destruct s.
Qed.

Lemma poll_frozen env s :
  let s' := (poll_stage env s).1 in
  player_frozen_sent s' = player_frozen_sent s /\ (greeted (bridge s') = true -> greeted (bridge s) = true).
Proof.
  unfold poll_stage. destruct (connected (bridge s)); [|done].
  pose proof (poll_greeted (recv_answers env) (recv_now env) (bridge s)) as Hp.
  destruct (poll_lines _ _ _) as [[c lines] rest]. by destruct s.
Qed.

Lemma send_frozen_kept env s :
  let s' := (send_stage env s).1 in
  player_frozen_sent s' = player_frozen_sent s /\ (greeted (bridge s') = true -> greeted (bridge s) = true).
Proof.
  unfold send_stage. cbn [INPUT_TRACK_CAPTURE].
  set (r := if bool_decide (cached_local_state_json s = []) then _ else _).
  assert (player_frozen_sent r.1 = player_frozen_sent s /\ (greeted (bridge r.1) = true -> greeted (bridge s) = true)) as [H1 H2].
  { unfold r. destruct (bool_decide _); [done|]. destruct s. cbn. split; [done|]. apply send_line_greeted. }
  destruct r as [s1 sent]. cbn [fst] in *. destruct (input_track_drain_and_send _ _ _ _) as [i [line|]]; destruct s1; cbn in *; [|done].
  split; [done|]. intros H%send_line_greeted. by apply H2.
Qed.

Lemma queue_frozen received s :
  player_frozen_sent (queue_stage received s) = player_frozen_sent s /\ bridge (queue_stage received s) = bridge s.
Proof.
  unfold queue_stage. destruct (bool_decide _); [done|]. cbv zeta. destruct (_ <? _); by destruct s.
Qed.

Lemma capture_frozen env g :
  let g' := (capture_stage env g).1 in
  player_frozen_sent (g_update g') = player_frozen_sent (g_update g) /\
  (greeted (bridge (g_update g')) = true -> greeted (bridge (g_update g)) = true).
Proof.
  unfold capture_stage. destruct (e_controller env); [|done]. destruct (e_pawn env) as [pawn|]; [|done].
  cbv zeta. destruct (LocalState.sample_frame _ _ _ _ _ _) as [[c f] lines].
  destruct (in_non_gameplay_map (f_area_id f)); [split; [done|exact (offer_greeted _ _ _)]|].
  cbn [INPUT_HISTORY_DISPLAY INPUT_TRACK_CAPTURE g_plugin].
  destruct (follow_panel (g_plugin g) (g_disp_ghost_grace c)) as [[p' grace] ht]. split; [done|exact (offer_greeted _ _ _)].
Qed.

Lemma drain_frozen env s p :
  let s' := (drain env s p).1.1 in player_frozen_sent s' = player_frozen_sent s /\ bridge s' = bridge s.
Proof.
  unfold drain. cbv zeta. destruct (handle_lines _ _ _) as [p1 calls]. destruct (bridge_disconnect_cleanup_pending s).
  - destruct (release_all_ghosts_parked _ _ _). by destruct s.
  - by destruct s.
Qed.

Lemma local_half_frozen env g :
  let u := g_update (local_half env g).1.1 in
  let s' := if unreal_ready env then (frozen_stage env (g_update g)).1 else g_update g in
  player_frozen_sent u = player_frozen_sent s' /\ (greeted (bridge u) = true -> greeted (bridge s') = true).
Proof.
  cbv zeta. unfold local_half. destruct (unreal_ready env); [|done]. cbn [negb].
  unfold top_stage. destruct (frozen_stage env (g_update g)) as [s1 frozen]. cbn [fst]. destruct (silent env); [done|]. unfold bottom_stage.
  set (g1 := Game _ _ _). destruct (capture_frozen env g1) as [H1 H2]. destruct (capture_stage env g1) as [g2 resets]. cbn [fst] in *.
  destruct (drain_frozen (drain_now env (g_capture g2)) (g_update g2) (g_plugin g2)) as [H3 H4].
  destruct (drain _ _ _) as [[s3 p3] calls]. cbn [fst g_update] in *. rewrite H3, H4. by split.
Qed.

(** * What the core knows *)

(** A step of either thread: the update's next move, or a whole tick of the game. *)
Inductive traffic := Moved (env : update_env) | Ticked (env : game_env).

(** The plugin, where the update's thread is, what the core holds of the freeze, and
    whether the core took a freeze line between its hello and the reset of the latch. *)
Record threads := Threads { t_game : game; t_at : spot; t_core : bool; t_slipped : bool }.
Definition t_bridge (st : threads) : client := bridge (g_update (t_game st)).
Definition t_latch (st : threads) : bool := player_frozen_sent (g_update (t_game st)).

(** The hello is on its way, and the latch is still the last connection's. *)
Definition between (at_ : spot) : bool := match at_ with AtNote | AtLatches => true | _ => false end.
(** The core reads the lines that follow its hello, and ignores one before it. *)
Definition heard (st : threads) : bool := greeted (t_bridge st) || (match t_at st with AtNote => true | _ => false end).

(** The freeze lines of a tick that the core reads. *)
Definition freeze_lines (env : game_env) (s : update_state) : list bytes :=
  if unreal_ready env then (frozen_stage env s).2 else [].
Definition taken (env : game_env) (st : threads) : list bytes :=
  List.filter (fun line => heard st && went (frozen_answer env) (t_bridge st) line) (freeze_lines env (g_update (t_game st))).

(** A core just greeted has the player unfrozen. *)
Definition exchange (st : threads) (t : traffic) : threads :=
  match t with
  | Moved env =>
      let '(at_, s, _) := moves env (t_at st) (g_update (t_game st)) in
      let greeting := match at_ with AtNote => true | _ => false end in
      Threads (t_game st <| g_update := s |>) at_ (if greeting then false else t_core st) (if greeting then false else t_slipped st)
  | Ticked env =>
      Threads (local_half env (t_game st)).1.1 (t_at st)
        (foldl (fun _ line => bool_decide (line = FROZEN_LINE true)) (t_core st) (taken env st))
        (t_slipped st || (between (t_at st) && negb (bool_decide (taken env st = []))))
  end.

(** The core holds what the latch says, but for a core told the player is frozen in the
    window, which may be left so by the reset. *)
Definition in_step (st : threads) : Prop :=
  if between (t_at st) then t_core st = false \/ t_slipped st = true
  else greeted (t_bridge st) = true ->
       t_core st = t_latch st \/ (t_slipped st = true /\ t_core st = true /\ t_latch st = false).

Lemma frozen_line_reads b : bool_decide (FROZEN_LINE b = FROZEN_LINE true) = b.
Proof. by destruct b. Qed.

(** A tick's freeze: at most one line, on a change, and the latch follows what went. *)
Lemma frozen_stage_spec env s :
  let '(s', lines) := frozen_stage env s in
  match e_controller env ≫= (fun c => read_frozen (e_view env) c (e_pawn env)) with
  | Some b =>
      if Bool.eqb b (player_frozen_sent s) then s' = s /\ lines = []
      else lines = [FROZEN_LINE b] /\
           player_frozen_sent s' = (if went (frozen_answer env) (bridge s) (FROZEN_LINE b) then b else player_frozen_sent s) /\
           (greeted (bridge s') = true -> greeted (bridge s) = true)
  | None => s' = s /\ lines = []
  end.
Proof.
  unfold frozen_stage. destruct (e_controller env) as [c|]; [|done]. cbn [mbind option_bind].
  destruct (read_frozen (e_view env) c (e_pawn env)) as [b|]; cbn [send_frozen]; [|by destruct s].
  destruct (Bool.eqb b (player_frozen_sent s)); [by destruct s|].
  split; [done|]. split; [done|]. exact (offer_greeted _ [FROZEN_LINE b] _).
Qed.

Lemma moved_in_step env st : in_step st -> in_step (exchange st (Moved env)).
Proof.
  destruct st as [g at_ k sl]. unfold in_step, exchange, t_bridge, t_latch. cbn [t_game t_at t_core t_slipped].
  destruct at_ as [| | | | |received|received]; cbn [moves between].
  - intros Hin. destruct (connect_frozen env (g_update g)) as [H1 H2].
    cbn [t_at t_core t_slipped t_game g_update between]. intros Hg. cbn in *. rewrite H1. by apply Hin, H2.
  - intros Hin. destruct (offer_frozen env (g_update g)) as [H1 H2]. destruct (offer_hello env (g_update g)) as [[s ok] sent].
    cbn in H1, H2. destruct ok; cbn [t_at t_core t_slipped between]; [by left|]. cbn. intros Hg. rewrite H1. by apply Hin, H2.
  - by intros H.
  - intros H. cbn. intros _. destruct H as [->| ->]; [by left|]. destruct k; [right|left]; by split_and?.
  - intros Hin. destruct (poll_frozen env (g_update g)) as [H1 H2]. destruct (poll_stage env (g_update g)) as [s received].
    cbn in H1, H2. destruct (is_ready (bridge s)); cbn [t_at t_core t_slipped between]; cbn; intros Hg; rewrite H1; by apply Hin, H2.
  - intros Hin. destruct (send_frozen_kept env (g_update g)) as [H1 H2]. destruct (send_stage env (g_update g)) as [s sent].
    cbn in *. intros Hg. rewrite H1. by apply Hin, H2.
  - intros Hin. destruct (queue_frozen received (g_update g)) as [H1 H2].
    cbn [t_at t_core t_slipped t_game g_update between]. intros Hg. cbn in *. rewrite H2 in Hg. rewrite H1. by apply Hin.
Qed.

(** A tick: the line it offers, if any, and the latch after it. *)
Lemma ticked_latch env g at_ k sl :
  greeted (bridge (g_update (local_half env g).1.1)) = true ->
  greeted (bridge (g_update g)) = true /\
  match freeze_lines env (g_update g) with
  | [] => player_frozen_sent (g_update (local_half env g).1.1) = player_frozen_sent (g_update g)
          /\ taken env (Threads g at_ k sl) = []
  | line :: rest => rest = [] /\ exists b, line = FROZEN_LINE b /\
      if went (frozen_answer env) (bridge (g_update g)) line
      then player_frozen_sent (g_update (local_half env g).1.1) = b /\ taken env (Threads g at_ k sl) = [line]
      else player_frozen_sent (g_update (local_half env g).1.1) = player_frozen_sent (g_update g)
           /\ taken env (Threads g at_ k sl) = []
  end.
Proof.
  intros Hg. destruct (local_half_frozen env g) as [H1 H2]. rewrite H1. apply H2 in Hg. clear H1 H2.
  unfold taken, freeze_lines, heard, t_bridge. cbn [t_game t_at]. destruct (unreal_ready env); [|done].
  pose proof (frozen_stage_spec env (g_update g)) as Hs. destruct (frozen_stage env (g_update g)) as [s' lines]. cbn [fst snd] in *.
  destruct (_ ≫= _) as [b|]; [|by destruct Hs as [-> ->]].
  destruct (Bool.eqb b (player_frozen_sent (g_update g))); [by destruct Hs as [-> ->]|].
  destruct Hs as (-> & -> & Hkept). pose proof (Hkept Hg) as Hgreet. split; [done|]. split; [done|]. exists b. split; [done|].
  cbn [List.filter]. rewrite Hgreet. cbn [orb andb]. by destruct (went _ _ _).
Qed.

Lemma ticked_in_step env st : in_step st -> in_step (exchange st (Ticked env)).
Proof.
  destruct st as [g at_ k sl]. unfold in_step. cbn [exchange t_at t_core t_slipped].
  destruct (between at_) eqn:Eb.
  - intros Hin. case_bool_decide as Et; cbn [negb andb]; [rewrite Et, orb_false_r; exact Hin|right; apply orb_true_r].
  - unfold t_bridge at 2, t_latch at 2 3. cbn [t_game exchange]. intros Hin Hg.
    destruct (ticked_latch env g at_ k sl Hg) as [Hgreet Hl]. specialize (Hin Hgreet). cbn [andb]. rewrite orb_false_r.
    unfold t_bridge, t_latch in *. cbn [t_game] in *.
    destruct (freeze_lines env (g_update g)) as [|line rest]; [destruct Hl as [-> ->]; exact Hin|].
    destruct Hl as (-> & b & -> & Hl). destruct (went _ _ _); destruct Hl as [-> ->]; [|exact Hin].
    left. cbn. apply frozen_line_reads.
Qed.

Lemma exchanges_in_step ts : forall st, in_step st -> in_step (foldl exchange st ts).
Proof.
  induction ts as [|[env|env] ts IH]; intros st H; [done|apply IH, moved_in_step, H|apply IH, ticked_in_step, H].
Qed.

(** C15: the core is never wrong about the freeze for longer than the socket makes it, but
    for one window.  The bridge's thread writes the hello, its note and the reset of the
    plugin's latch one after another without the lock, and whole ticks of the game may
    come between any of its moves.  After any such interleaving, on any connections, a
    core that has had its hello holds the player frozen exactly as the latch says, unless
    a tick's line was taken by it between the hello and the reset of the latch: then it
    may be left holding the player frozen with the latch at not frozen.  Outside that
    window a tick offers a line only when the game's state differs from the latch, one
    line; once a line that is due is taken by the socket the core's view is the game's,
    and this is so after a slip too, at the next tick that finds the player frozen. *)
Theorem freeze_known (ts : list traffic) (st0 : threads) (Hin : in_step st0) :
  let st := foldl exchange st0 ts in
  in_step st /\
  (between (t_at st) = false -> greeted (t_bridge st) = true ->
     (t_slipped st = false -> t_core st = t_latch st) /\
     forall env controller b, unreal_ready env = true -> e_controller env = Some controller ->
       read_frozen (e_view env) controller (e_pawn env) = Some b ->
       freeze_lines env (g_update (t_game st)) = (if Bool.eqb b (t_latch st) then [] else [FROZEN_LINE b]) /\
       (t_slipped st = false \/ b = true -> went (frozen_answer env) (t_bridge st) (FROZEN_LINE b) = true ->
        t_core (exchange st (Ticked env)) = b)).
Proof.
  cbv zeta. pose proof (exchanges_in_step ts st0 Hin) as Hst. split; [done|]. revert Hst.
  destruct (foldl exchange st0 ts) as [g at_ k sl]. unfold in_step. cbn [t_at t_core t_slipped].
  intros Hst Hb Hg. rewrite Hb in Hst. specialize (Hst Hg). split; [intros ->; by destruct Hst as [|[]]|].
  intros env controller b Hr Hc Hrd. pose proof (frozen_stage_spec env (g_update g)) as Hs.
  rewrite Hc in Hs. cbn [mbind option_bind] in Hs. rewrite Hrd in Hs. unfold exchange, taken, freeze_lines, heard, t_bridge, t_latch in *.
  cbn [t_game t_at t_core t_slipped] in *. rewrite Hr. destruct (frozen_stage env (g_update g)) as [s' lines]. cbn [snd].
  destruct (Bool.eqb b (player_frozen_sent (g_update g))) eqn:E.
  - destruct Hs as [_ ->]. split; [done|]. intros Hsb _. cbn. apply Bool.eqb_prop in E. subst b.
    destruct Hst as [|(Hs1 & Hs2 & Hs3)]; [done|]. destruct Hsb; congruence.
  - destruct Hs as (-> & _). split; [done|]. intros _ Hw. cbn [List.filter]. rewrite Hg, Hw. cbn. apply frozen_line_reads.
Qed.

(** A view of one pawn whose world is paused: nothing else resolves. *)
Definition view_of_pause (pauser : option Z) : local_view := {|
  refl := {| obj := fun o p =>
                      if decide (o = 1 /\ p = "PersistentLevel"%string) then Some 2 else
                      if decide (o = 2 /\ p = "WorldSettings"%string) then Some 3 else
                      if decide (o = 3 /\ p = "PauserPlayerState"%string) then pauser else None;
             num := fun _ _ => None; flag := fun _ _ => None; raw_flag := fun _ _ => None; objs := fun _ _ => None;
             has := fun o p => bool_decide (o = 3 /\ p = "PauserPlayerState"%string); has_fn := fun _ _ => false |};
  integer := fun _ _ => None; vector := fun _ _ => None; colour := fun _ _ => None; short_name := fun _ => [];
  long_name := fun _ => []; class_of := fun _ => None; world_of := fun o => if decide (o = 9) then Some 1 else None;
  outer := fun _ => None; place := fun _ => (dzero, dzero, dzero); heading := fun _ => (dzero, dzero, dzero);
  is_active := fun _ => false; is_gone := fun _ => false; montage_name := fun _ => None; one_byte := fun _ _ => false;
  held_objects := fun _ => []; bool_properties := fun _ => []; instances := fun _ => []; world_objects := ∅ |}%Z.

Definition paused_view : local_view := view_of_pause (Some 4%Z).

Definition paused_tick : game_env := {|
  e_view := paused_view; e_tick := 10; unreal_ready := true; quiet_until_tick := 1000;
  e_controller := Some 9; e_pawn := None; cursor_shown := true;
  frozen_answer := Sent (S (length (FROZEN_LINE true))); reset_answer := Sent 0; e_format := exact_format;
  e_frame := InputTrackProps.sample_frame (fun _ => false) 0; e_drain := DrainEnv sample_line_env [] |}%Z.

(** An update from its top, as its moves. *)
Definition updated (env : update_env) (n : nat) : list traffic := replicate n (Moved env).
Definition greeting_env : update_env := sample_update answers_up [] (ms 2000).
Definition threads0 : threads := Threads (Game start_state plugin0 capture0) AtTop false false.

(** The first update connects and greets the core; the game is then paused. *)
Example freeze_known_witness :
  let st := foldl exchange threads0 (updated greeting_env 5) in
  in_step st /\ t_at st = AtTop /\ t_core st = false /\
  freeze_lines paused_tick (g_update (t_game st)) = [FROZEN_LINE true] /\ t_core (exchange st (Ticked paused_tick)) = true.
Proof.
  assert (in_step threads0) as Hin by done.
  destruct (freeze_known (updated greeting_env 5) _ Hin) as [H1 H2]. set (st := foldl _ _ _) in *.
  assert (t_at st = AtTop) as Ha by (by vm_compute). assert (t_slipped st = false) as Hsl by (by vm_compute).
  destruct (H2 ltac:(by rewrite Ha) ltac:(by vm_compute)) as [H3 H4]. specialize (H3 Hsl).
  assert (t_core st = false) as Hk by (by vm_compute). rewrite <- H3, Hk in H4.
  destruct (H4 paused_tick 9%Z true eq_refl eq_refl ltac:(by vm_compute)) as [H5 H6].
  split_and!; [done..|]. apply H6; [by left|by vm_compute].
Defined.

(** The tick of a player who is not paused. *)
Definition unpaused_tick : game_env := paused_tick <| e_view := view_of_pause None |>.

(** The slip: a tick tells the greeted core of a pause before the latch is reset, and the
    game resumes before the next tick.  Nothing more is sent, tick after tick, and the
    core goes on holding the player frozen. *)
Lemma slip_lasts env st controller :
  t_core st = true -> t_latch st = false -> unreal_ready env = true -> e_controller env = Some controller ->
  read_frozen (e_view env) controller (e_pawn env) = Some false ->
  freeze_lines env (g_update (t_game st)) = [] /\ t_core (exchange st (Ticked env)) = true.
Proof.
  intros Hk Hl Hr Hc Hrd. assert (freeze_lines env (g_update (t_game st)) = []) as Hf.
  { pose proof (frozen_stage_spec env (g_update (t_game st))) as Hs. rewrite Hc in Hs. cbn [mbind option_bind] in Hs.
    unfold t_latch in Hl. rewrite Hrd, Hl in Hs. unfold freeze_lines. rewrite Hr. by destruct (frozen_stage _ _), Hs as [_ ->]. }
  split; [done|]. unfold exchange, taken. cbn [t_core]. rewrite Hf. exact Hk.
Qed.

Example freeze_slips :
  let st := foldl exchange threads0 (updated greeting_env 2 ++ [Ticked paused_tick] ++ updated greeting_env 3 ++ [Ticked unpaused_tick; Ticked unpaused_tick]) in
  t_at st = AtTop /\ t_core st = true /\ t_latch st = false /\
  read_frozen (e_view unpaused_tick) 9 None = Some false /\ freeze_lines unpaused_tick (g_update (t_game st)) = [].
Proof. by vm_compute. Qed.
