(* ===== verification/GameProps.v ===== *)
(** The whole program: runs of the two threads, the level's transitions and the hooks, and
    what holds over all of them.
    Then the gates of a tick: what a paused or quiet tick leaves alone, and what the core
    is told of a player who is not in play. *)
From S2P Require Import Prelude Float64 JsonString FloatFacts BridgeClient ScanFacts RemoteGhost Lifecycle.
From S2P Require Import BridgeLine BridgeLineFacts PeerProps GlideProps PropFacts DistanceTier ObjectRegistry.
From S2P Require Import PoseMirror MontageMirror GhostSweeps Chaser InputDisplay PoseFacts RemoteTick TickFacts.
From S2P Require Import LocalCapture TrailCapture AfterimageOutline LocalState GhostGuards.
From S2P Require Import IndicatorConfig Hud InputTrack InputTrackProps Update LocalTick GameTick UpdateProps.
From S2P Require Import SystemProps.
From Stdlib Require Import ZArith.

Abbreviation plug w := (g_plugin (w_game w)).

(** * Every run is a run of the steps *)

(** The engine places the player's pawn at a finite location. *)
Definition place_ok (env : game_env) : Prop :=
  match e_pawn env with Some a => finite3 (place (e_view env) a) = true /\ wf3 (place (e_view env) a) | None => True end.
Definition event_ok (e : event) : Prop := match e with Ticked env => place_ok (t_game env) | _ => True end.

Lemma handle_lines_steps env lines : spawn_env_ok (l_spawn env) -> forall p, rtc step p (handle_lines env lines p).1.
Proof.
  intros Henv p. unfold handle_lines. generalize (@nil engine_call). revert p. induction lines as [|l lines IH]; intros p calls; [done|].
  cbn [foldl]. pose proof (StepLine env l p Henv) as Hs. destruct (handle_bridge_line env l p) as [p1 c1].
  eapply rtc_l; [exact Hs|apply IH].
Qed.

Lemma drain_steps env s p : spawn_env_ok (l_spawn (d_line env)) -> rtc step p (drain env s p).1.2.
Proof.
  intros Henv. unfold drain. cbv zeta. set (lines := Collapse.collapse_latest_render_remote _).
  pose proof (handle_lines_steps (d_line env) lines Henv p) as Hl. destruct (handle_lines _ lines p) as [p1 calls]. cbn [fst] in Hl.
  destruct (bridge_disconnect_cleanup_pending s); [|done].
  pose proof (StepLost (l_release (d_line env)) (d_ids env) p1) as Hs. destruct (release_all_ghosts_parked _ _ p1) as [p2 calls'].
  eapply rtc_r; [exact Hl|exact Hs].
Qed.

Lemma capture_plugin env st :
  g_plugin (capture_stage env st).1 = g_plugin st \/
  exists grace, g_plugin (capture_stage env st).1 = (follow_panel (g_plugin st) grace).1.1.
Proof.
  unfold capture_stage. destruct (e_controller env); [|by left]. destruct (e_pawn env) as [pawn|]; [|by left]. cbv zeta.
  destruct (LocalState.sample_frame _ _ _ _ _ _) as [[c f] lines]. destruct (in_non_gameplay_map _); [by left|]. right.
  exists (g_disp_ghost_grace c). cbn [INPUT_HISTORY_DISPLAY INPUT_TRACK_CAPTURE g_plugin].
  by destruct (follow_panel (g_plugin st) (g_disp_ghost_grace c)) as [[p' grace] ht].
Qed.

Lemma bottom_steps env st : place_ok env -> rtc step (g_plugin st) (g_plugin (bottom_stage env st).1.1).
Proof.
  intros Henv. unfold bottom_stage. pose proof (capture_plugin env st) as Hc.
  destruct (capture_stage env st) as [st1 resets]. cbn [fst] in Hc.
  pose proof (drain_steps (drain_now env (g_capture st1)) (g_update st1) (g_plugin st1)) as Hd.
  destruct (drain _ _ _) as [[s p] calls]. cbn [fst snd g_plugin] in *.
  assert (rtc step (g_plugin st) (g_plugin st1)) as H1.
  { destruct Hc as [-> |[grace ->]]; [done|]. apply rtc_once, StepPanel. }
  etransitivity; [exact H1|]. apply Hd. unfold spawn_env_ok, drain_now, spawn_now. cbn. unfold place_ok in Henv.
  by destruct (e_pawn env).
Qed.

Lemma loop_steps t xs : forall p tiers calls, rtc step p (foldl (loop_step t) (p, tiers, calls) xs).1.1.
Proof.
  induction xs as [|[id e] xs IH]; intros p tiers calls; [done|]. cbn [foldl loop_step fst snd].
  pose proof (StepTick (remote_now t e) id p) as Hs. destruct (tick_remote _ id p) as [[p1 t1] c1].
  eapply rtc_l; [exact Hs|apply IH].
Qed.

Lemma rig_stage_plugin env w : plug (rig_stage env w).1.1 = plug w.
Proof.
  unfold rig_stage. destruct (e_controller (t_game env)), (e_pawn (t_game env)); try done.
  destruct (neutralise_rigs _ _ _ _) as [fd n]. destruct (sweep_orphan_rigs _ _ _ _) as [[fd' m] d]. by destruct w as [[]].
Qed.

Lemma outline_stage_plugin env w : plug (outline_stage env w) = plug w.
Proof. unfold outline_stage. cbv zeta. generalize (tick_outlines (t_images env)). intros f. by destruct w as [[]]. Qed.

Lemma top_stage_plugin env st : g_plugin (top_stage env st).1 = g_plugin st.
Proof. unfold top_stage. by destruct (frozen_stage env (g_update st)). Qed.

(** The tick gets past its gates. *)
Definition works (w : world) (env : game_env) : bool := unreal_ready env && negb (silent (with_holds w env)).
Abbreviation up st := (c_ticks_since_pawn_valid (g_capture st)).

Lemma rig_stage_up env w : up (w_game (rig_stage env w).1.1) = up (w_game w).
Proof.
  unfold rig_stage. destruct (e_controller (t_game env)), (e_pawn (t_game env)); try done.
  destruct (neutralise_rigs _ _ _ _) as [fd n]. destruct (sweep_orphan_rigs _ _ _ _) as [[fd' m] d]. by destruct w as [[? ? []]].
Qed.
Lemma outline_stage_up env w : up (w_game (outline_stage env w)) = up (w_game w).
Proof. unfold outline_stage. cbv zeta. generalize (tick_outlines (t_images env)). intros f. by destruct w as [[? ? []]]. Qed.
Lemma top_stage_up env st : up (top_stage env st).1 = up st.
Proof. unfold top_stage. destruct (frozen_stage env (g_update st)). by destruct st as [? ? []]. Qed.

Lemma hud_stage_game env w : w_game (hud_stage env w).1 = w_game w.
Proof. unfold hud_stage. destruct (tick_hud_indicator _ _ _ _ _ _ _ _ _ _). by destruct w. Qed.

(** A tick is its bottom half on the same plugin, then the turns of the remotes; or it
    leaves the plugin alone. *)
Lemma tick_parts env w :
  let w' := (game_thread_tick env w).1 in
  if works w (t_game env) then
    exists st v, g_plugin st = plug w /\ up st = up (w_game w) /\
      let st' := (bottom_stage (with_holds w (t_game env)) st).1.1 in
      up (w_game w') = up st' /\ plug w' = (loop_stage env v (g_plugin st')).1.1 /\
      o_calls (game_thread_tick env w).2 = (loop_stage env v (g_plugin st')).2
  else plug w' = plug w /\ up (w_game w') = up (w_game w) /\ o_calls (game_thread_tick env w).2 = [].
Proof.
  cbv zeta. unfold works, game_thread_tick. cbv zeta. set (g := with_holds w (t_game env)).
  change (unreal_ready (t_game env)) with (unreal_ready g). destruct (unreal_ready g); [|done]. cbn [negb andb].
  destruct (serve_fix_lights _ _) as [lights served]. pose proof (top_stage_plugin g (w_game w)) as Ht.
  pose proof (top_stage_up g (w_game w)) as Hu. destruct (top_stage g (w_game w)) as [st frozen]. cbn [fst] in Ht, Hu.
  set (w1 := w <| w_lights := lights |> <| w_game := st |>). assert (w_game w1 = st) as E1 by (by destruct w).
  destruct (silent g); [by cbn [fst negb]; rewrite E1|]. cbn [negb].
  pose proof (rig_stage_plugin env w1) as E2. pose proof (rig_stage_up env w1) as U2. rewrite E1 in E2, U2.
  destruct (rig_stage env w1) as [[w2 neutral] orphans]. cbn [fst] in E2, U2.
  exists (w_game w2). destruct (bottom_stage g (w_game w2)) as [[st2 resets] released]. cbn [fst].
  set (w3 := outline_stage _ _). assert (plug w3 = g_plugin st2 /\ up (w_game w3) = up st2) as [E3 U3].
  { unfold w3. rewrite outline_stage_plugin, outline_stage_up. by destruct w2. }
  pose proof (hud_stage_game env w3) as E4. destruct (hud_stage env w3) as [w4 drawn]. cbn [fst] in E4. rewrite <- E4 in E3, U3.
  exists w4. split; [by rewrite E2|]. split; [by rewrite U2|]. rewrite <- E3.
  destruct (loop_stage env w4 (plug w4)) as [[p tiers] calls]. rewrite <- U3. by destruct w4.
Qed.

Lemma tick_steps env w : place_ok (t_game env) -> rtc step (plug w) (plug (game_thread_tick env w).1).
Proof.
  intros Hp. pose proof (tick_parts env w) as Ht. cbv zeta in Ht. destruct (works w (t_game env)); [|by destruct Ht as [-> _]].
  destruct Ht as (st & u & E & _ & _ & -> & _). rewrite <- E. etransitivity; [exact (bottom_steps (with_holds w (t_game env)) st Hp)|apply loop_steps].
Qed.

Lemma release_steps env ids : forall p calls, rtc step p (foldl (release_step env) (p, calls) ids).1.
Proof.
  induction ids as [|id ids IH]; intros p calls; [done|]. cbn [foldl]. unfold release_step at 2. destruct (_ ≫= _); [|apply IH].
  pose proof (StepRelease env id p) as Hs. destruct (release_ghost env id p) as [p1 c1]. eapply rtc_l; [exact Hs|apply IH].
Qed.

Lemma happens_steps w e : event_ok e -> rtc step (plug w) (plug (happens w e)).
Proof.
  destruct e as [env|undefined config file|env|env ids tick|tick|ids s|v ids c value|ws gt a]; cbn [event_ok happens]; intros He.
  - by destruct w as [[]].
  - destruct (poll_recording_indicator_tuning _ _ _ _ _) as [[s redraw] r]. destruct redraw; [apply rtc_once|by destruct w as [[]]].
    destruct w as [[]]. apply StepRedraw.
  - by apply tick_steps.
  - unfold load_map_pre. pose proof (release_steps env ids (plug w) []) as Hr. destruct (foldl _ _ ids) as [p calls]. cbn [fst] in *.
    eapply rtc_r; [exact Hr|]. destruct w as [[]]. apply StepLevel.
  - apply rtc_once. destruct w as [[]]. apply StepLevel.
  - by destruct w.
  - cbv zeta. generalize (set_render_custom_depth v (ghosts_now ids (plug w)) c value). intros f. by destruct w as [[]].
  - by destruct w as [[]].
Qed.

Lemma runs_steps es : Forall event_ok es -> forall w, rtc step (plug w) (plug (runs es w)).
Proof.
  unfold runs. induction 1 as [|e es He Hes IH]; intros w; [done|]. cbn [foldl]. etransitivity; [by apply happens_steps|apply IH].
Qed.

Lemma steps_system p p' : rtc step p p' -> system_ok p -> system_ok p'.
Proof. induction 1 as [|p q r H _ IH]; [done|]. intros Hp. by apply IH, (step_system p). Qed.

Lemma runs_system es s : Forall event_ok es -> system_ok (plug (runs es (world0 s))).
Proof. intros H. apply reachable_system. exact (runs_steps es H (world0 s)). Qed.

(** C1: whatever the two threads, the transitions and the hooks have done since the program
    was loaded, every entry's state is within the bounds the engine is given (finite poses,
    bounded speeds and colours, counters that fit an [int]), every input track within its
    caps, and an entry without a pawn holds none of the objects that hang off one. *)
Theorem runs_invariant (es : list event) (s : update_state) (Hes : Forall event_ok es) :
  let p := plug (runs es (world0 s)) in
  map_Forall (fun _ g => wire_ok (wire_state g) /\ object_ok g) (remotes p) /\
  map_Forall (fun _ t => track_ok t) (ghost_inputs p).
Proof.
  destruct (runs_system es s Hes) as [[H1 H2] H3]. split; [|done]. intros id g E. split; [by eapply H1|by eapply H3].
Qed.

(** * What the turns ask of the engine *)

Lemma loop_draws_finite t xs : forall p tiers calls,
  system_ok p -> Forall (fun x => remote_env_ok x.2) xs -> Forall ghost_call_ok calls ->
  Forall ghost_call_ok (foldl (loop_step t) (p, tiers, calls) xs).2.
Proof.
  induction xs as [|[id e] xs IH]; intros p tiers calls Hp Hxs Hc; [done|].
  apply list.Forall_cons in Hxs as [He Hxs]. cbn [foldl loop_step fst snd] in *.
  assert (remote_env_ok (remote_now t e)) as He' by (by destruct He).
  pose proof (tick_remote_system (remote_now t e) id p Hp) as Hp'.
  pose proof (turn_draws_finite (remote_now t e) id p Hp He') as Hcalls.
  destruct (tick_remote _ id p) as [[p1 t1] c1]. apply IH; [done|done|]. by apply Forall_app_2.
Qed.

(** C2: what a peer sends reaches the engine finite.  After any run of the program, of all
    that a tick asks for the remotes together: every place and every rotation at which a
    ghost, its sword, its glow, its dust, its wall hits, its projectile or one of its effects
    is put is finite; so is every colour and every number written on a ghost, but the mesh's
    offset and the shadow's arm; and every integer written fits a byte.  Assumed of the
    engine: it places the player's pawn and the ghosts at finite locations, and the offsets
    of effects measured on the player are at most 2^969.  Not covered: the calls on the name
    tags (their sizes, places and colours are worked out from the tuning file, the engine's
    places and libm) and the blow of a chaser's touch (its damage is the health the engine
    reports). *)
Theorem every_tick_draws_finite (es : list event) (s : update_state) (Hes : Forall event_ok es)
    (env : world_env) (Henv : place_ok (t_game env)) (Hremotes : Forall (fun x => remote_env_ok x.2) (t_remotes env)) :
  Forall ghost_call_ok (o_calls (game_thread_tick env (runs es (world0 s))).2).
Proof.
  pose proof (tick_parts env (runs es (world0 s))) as Ht. cbv zeta in Ht.
  destruct (works _ _); [|destruct Ht as (_ & _ & ->); constructor]. destruct Ht as (st & u & E & _ & _ & _ & ->).
  apply loop_draws_finite; [|done|constructor]. eapply steps_system; [exact (bottom_steps (with_holds _ (t_game env)) st Henv)|].
  rewrite E. by apply runs_system.
Qed.

(** * A level's end *)

Lemma forget_handles g : object_ok g -> engine_objects (forget_entry g) = handles0.
Proof.
  intros [Ha _ _ _ _ _]. unfold attached_ok in Ha. destruct g as [w sn h l seg vc vb], h as [gh ow ? ? ? ? ? ? ? ? ? ? ? ? ? ?].
  cbn in *. destruct gh; [done|]. destruct (Ha eq_refl) as (-> & _). done.
Qed.

Lemma clear_all_empty fd name : name ∈ REGISTRIES -> members (registries (registry_clear_all fd) !!! name) = ∅.
Proof.
  intros Hn. unfold registry_clear_all. cbn [registries]. generalize (registries fd). revert Hn.
  induction REGISTRIES as [|r rs IH]; intros Hn m; [by apply elem_of_nil in Hn|]. cbn [fold_right].
  destruct (decide (name = r)) as [->|Hne]; [by rewrite lookup_total_insert_eq|].
  rewrite lookup_total_insert_ne by done. apply IH. by apply elem_of_cons in Hn as [?|?].
Qed.

(** C4: when a level ends, whatever had been going on, the pointers into it that the tables
    below hold are dropped: every remote's entry holds the objects a new entry holds, so
    each is spawned afresh; the registries, the pool of shots, the identities of components,
    the positions of images, their owners and what was withheld of them are empty, and the
    camera's fallback is forgotten.  The sightings of ownerless camera rigs, counted by
    address, are not among them: they are kept as they were, although the code's comment
    says no freed address is. *)
Theorem level_end_drops (es : list event) (s : update_state) (Hes : Forall event_ok es) :
  let w := level_ends (runs es (world0 s)) in
  let c := g_capture (w_game w) in
  map_Forall (fun _ g => engine_objects g = handles0) (remotes (plug w)) /\
  (forall name, name ∈ REGISTRIES -> members (registries (c_feed c) !!! name) = ∅) /\
  (c_shot c).1 = [] /\ g_recall_identity (c_recall c) = ∅ /\ afterimage_pos_by_ptr (c_trail c) = ∅ /\
  afterimage_owners (w_outline w) = ∅ /\ afterimage_pending_reenable (w_outline w) = ∅ /\
  last_non_ghost_view_target w = None /\
  orphan_sightings w = orphan_sightings (runs es (world0 s)).
Proof.
  cbv zeta. pose proof (runs_system es s Hes) as [_ Ho]. destruct (runs es (world0 s)) as [[u p c] sp o m lights loc cam sup qui cfg rng h].
  cbn in Ho. unfold level_ends. cbn. split.
  { intros id g Hg. cbn in Hg. apply lookup_fmap_Some in Hg as (g0 & <- & E). apply forget_handles. by eapply Ho. }
  split; [intros name Hn; destruct c; by apply clear_all_empty|]. by destruct c, o.
Qed.

(** * Where ghosts come from *)

Definition ghost_at (p : plugin) (id : bytes) : option Z := remotes p !! id ≫= (fun g => ghost (engine_objects g)).
(** No entry has a pawn it did not have. *)
Definition no_new (p p' : plugin) : Prop := forall id, ghost_at p id = None -> ghost_at p' id = None.

#[export] Instance no_new_preorder : PreOrder no_new.
Proof. split; [by intros p id|]. intros p q r H1 H2 id H. by apply H2, H1. Qed.

Lemma no_new_same p p' : remotes p' = remotes p -> no_new p p'.
Proof. intros E id. unfold ghost_at. by rewrite E. Qed.

Lemma no_new_insert p p' id g :
  remotes p' = <[id := g]> (remotes p) -> (ghost_at p id = None -> ghost (engine_objects g) = None) -> no_new p p'.
Proof.
  intros E Hg i Hi. unfold ghost_at. rewrite E. destruct (decide (i = id)) as [->|Hne]; [rewrite lookup_insert_eq; by apply Hg|].
  by rewrite lookup_insert_ne.
Qed.

Lemma release_no_new env id p : no_new p (release_ghost env id p).1.
Proof.
  destruct (remotes p !! id) as [g|] eqn:Eg; [|by unfold release_ghost; rewrite Eg].
  destruct (release_entry env id p g Eg) as (g' & E & [Hh _ _ _ _] & _). eapply no_new_insert; [exact E|]. intros _.
  rewrite Hh. by generalize (weapon_actor_world (engine_objects g')) (owning_world (engine_objects g')).
Qed.

Lemma parked_no_new env ids p : no_new p (release_all_ghosts_parked env ids p).1.
Proof.
  unfold release_all_ghosts_parked. match goal with |- context [foldl ?f _ _] => set (step := f) end.
  assert (forall calls, no_new p (foldl step (p, calls) ids).1) as H.
  { revert p. induction ids as [|id ids IH]; intros p calls; [done|]. cbn [foldl]. unfold step at 2.
    destruct (ghost _); [|by apply IH]. pose proof (release_no_new env id p) as Hr.
    destruct (release_ghost env id p) as [p' calls']. etransitivity; [exact Hr|apply IH]. }
  specialize (H []). destruct (foldl step (p, []) ids) as [p' calls]. etransitivity; [exact H|]. by apply no_new_same.
Qed.

Lemma turn_no_new env id p : system_ok p -> no_new p (tick_remote env id p).1.1.
Proof.
  intros Hp. unfold tick_remote. destruct (remotes p !! id) as [g|] eqn:Eg; [|done].
  destruct (ghost (engine_objects g)) as [actor|] eqn:Ha; [|done].
  assert (ghost_at p id <> None) as Hsome by (unfold ghost_at; rewrite Eg; cbn; by rewrite Ha).
  destruct (negb (alive env)); [by eapply no_new_insert; [by destruct p|]|].
  pose proof (tier_objects (tier_ranges env) (tier_mesh env) (tier_movement env) (local_loc env) g) as Ht.
  cbv zeta in Ht. destruct (tick_distance_tier _ _ _ _ g) as [[g1 tiers] dormant]. cbn [fst] in Ht. destruct Ht as (T1 & T2 & T3).
  destruct (tag_turn env id p g1) as (_ & _ & T).
  specialize (T ltac:(split; [congruence|rewrite T1; by eapply (sys_wire _ Hp)|by apply T3; eapply (sys_objects _ Hp)])).
  destruct (tick_tag env id p g1) as [g0 tags]. cbn [fst] in T.
  destruct dormant; [by eapply no_new_insert|]. destruct (other_world _ _); [by eapply no_new_insert; [by destruct p|]|].
  pose proof (awake_ok env id actor p g0 T (proj2 (sys_wire _ Hp))) as Hk.
  destruct (tick_awake env id actor p g0) as [[p2 g2] calls]. cbn [fst]. destruct Hk as (_ & E & _).
  eapply no_new_insert; [unfold set_remote; cbn; by rewrite E|done].
Qed.

(** Before the pawn has been up for [SPAWN_DELAY_TICKS], or during a hold, a line spawns
    nothing. *)
Definition may_spawn (e : spawn_env) : Prop :=
  (SPAWN_DELAY_TICKS <= ticks_since_pawn_valid e)%Z /\ (suppress_ghost_spawn_until_tick e <= tick_count e)%Z.

Lemma spawn_needs e p id world loc : spawn_allowed e p id = Some (world, loc) -> may_spawn e.
Proof.
  unfold spawn_allowed, may_spawn. destruct (ghost _); [done|]. destruct (local_pawn e); [|done]. destruct (local_controller e); [|done].
  destruct (_ && _); [done|]. destruct (Z.ltb_spec (tick_count e) (suppress_ghost_spawn_until_tick e)); [done|].
  destruct (Z.ltb_spec (ticks_since_pawn_valid e) SPAWN_DELAY_TICKS); [done|]. by intros _.
Qed.

Lemma render_no_new env now line p : ~ may_spawn env -> no_new p (on_render_remote env now line p).
Proof.
  intros Hno. unfold on_render_remote. destruct (render_sample line) as [[id s]|]; [|done]. cbv zeta.
  assert (ensure_ghost_spawned id env p = p) as ->.
  { unfold ensure_ghost_spawned. destruct (spawn_allowed env p id) as [[world loc]|] eqn:E; [|done].
    destruct Hno. by eapply spawn_needs. }
  destruct (remotes p !! id) as [g|] eqn:Eg; [|done]. eapply no_new_insert; [done|]. unfold ghost_at. rewrite Eg. cbn.
  unfold apply_sample. cbv zeta. by destruct g.
Qed.

Lemma line_no_new env line p : ~ may_spawn (l_spawn env) -> no_new p (handle_bridge_line env line p).1.
Proof.
  intros Hno. unfold handle_bridge_line. cbv zeta.
  transitivity (p <| seen_types := {[json_string_field line (str "type")]} ∪ seen_types p |>); [by apply no_new_same|].
  generalize (p <| seen_types := {[json_string_field line (str "type")]} ∪ seen_types p |>). clear p. intros p.
  case_bool_decide; [by apply render_no_new|].
  case_bool_decide. { unfold on_remote_name. destruct (payload_span line); [|done]. cbv zeta. case_bool_decide; [done|by apply no_new_same]. }
  case_bool_decide. { unfold on_recording_state. destruct (payload_span line); [|done]. by apply no_new_same. }
  case_bool_decide.
  { unfold on_remote_input. destruct (payload_span line); [|done]. cbv zeta. case_bool_decide; [done|].
    destruct (_ && _); by apply no_new_same. }
  case_bool_decide. { unfold on_session_policy. destruct (payload_span line); [|done]. by apply no_new_same. }
  case_bool_decide; [|done]. unfold on_despawn_remote. destruct (payload_span line) as [payload|]; [|done]. cbv zeta.
  case_bool_decide; [done|]. set (id := read_string _ _ _). pose proof (release_no_new (l_release env) id p) as Hr.
  destruct (release_ghost _ _ p) as [p' calls]. etransitivity; [exact Hr|]. cbn [fst]. intros i. unfold ghost_at. cbn.
  destruct (decide (i = id)) as [->|Hne]; [by rewrite lookup_delete_eq|by rewrite lookup_delete_ne].
Qed.

Lemma drain_no_new env s p : ~ may_spawn (l_spawn (d_line env)) -> no_new p (drain env s p).1.2.
Proof.
  intros Hno. unfold drain. cbv zeta. set (lines := Collapse.collapse_latest_render_remote _).
  assert (no_new p (handle_lines (d_line env) lines p).1) as Hl.
  { unfold handle_lines. generalize (@nil engine_call). revert p. induction lines as [|l lines IH]; intros p calls; [done|].
    cbn [foldl]. pose proof (line_no_new (d_line env) l p Hno) as Hs. destruct (handle_bridge_line _ l p) as [p1 c1].
    etransitivity; [exact Hs|apply IH]. }
  destruct (handle_lines _ lines p) as [p1 calls]. destruct (bridge_disconnect_cleanup_pending s); [|done].
  pose proof (parked_no_new (l_release (d_line env)) (d_ids env) p1) as Hs. destruct (release_all_ghosts_parked _ _ p1) as [p2 calls'].
  etransitivity; [exact Hl|exact Hs].
Qed.

(** * The delay of the first spawns *)

(** The player is in play: its own pawn, in a map that is one. *)
Definition in_play (env : game_env) : bool :=
  match e_controller env, e_pawn env with
  | Some _, Some a => class_looks_like_player (pawn_of (e_view env) a) && negb (in_non_gameplay_map (area_of (e_view env) a))
  | _, _ => false
  end.

Lemma sample_frame_up v tick pawn send ours c :
  let r := LocalState.sample_frame v tick pawn send ours c in
  c_ticks_since_pawn_valid r.1.1 = c_ticks_since_pawn_valid c /\ f_area_id r.1.2 = area_of v pawn.
Proof.
  cbv zeta. unfold LocalState.sample_frame.
  assert (c_ticks_since_pawn_valid (sample_counts v pawn send c).1 = c_ticks_since_pawn_valid c) as E1.
  { unfold sample_counts. destruct (reset_chasers _ _). by destruct c. }
  destruct (sample_counts v pawn send c) as [c1 lines]. cbn [fst] in E1.
  assert (c_ticks_since_pawn_valid (sample_effects v tick pawn ours c1).1 = c_ticks_since_pawn_valid c1) as E2.
  { unfold sample_effects. repeat split_match; by destruct c1. }
  destruct (sample_effects v tick pawn ours c1) as [c2 [sword color]]. cbn [fst snd] in *. split; [congruence|done].
Qed.

Lemma capture_up env st : up (capture_stage env st).1 = if in_play env then u64 (up st + 1) else 0%Z.
Proof.
  unfold capture_stage, in_play. destruct (e_controller env); [|by destruct st as [? ? []]].
  destruct (e_pawn env) as [a|]; [|by destruct st as [? ? []]]. cbv zeta.
  set (c0 := g_capture st <| c_ticks_since_pawn_valid := _ |>).
  pose proof (sample_frame_up (e_view env) (e_tick env) a (Some (went (reset_answer env) (bridge (g_update st))))
    (VfxCapture.spawned_by_us (remotes (g_plugin st))) c0) as [E1 E2].
  destruct (LocalState.sample_frame _ _ _ _ _ _) as [[c f] lines]. cbn [fst snd] in *. rewrite E2.
  destruct (in_non_gameplay_map _); [by rewrite andb_false_r; destruct c|]. rewrite andb_true_r.
  cbn [INPUT_HISTORY_DISPLAY INPUT_TRACK_CAPTURE g_plugin]. destruct (follow_panel _ _) as [[p' grace] ht].
  assert (c_ticks_since_pawn_valid c0 = if class_looks_like_player (pawn_of (e_view env) a) then u64 (up st + 1) else 0%Z) as E0
    by (unfold c0; by destruct (g_capture st)).
  rewrite <- E0, <- E1. by destruct c.
Qed.

(** A tick that adds a pawn found the player in play, long enough, and no hold. *)
Lemma bottom_new env st :
  let st' := (bottom_stage env st).1.1 in
  up st' = (if in_play env then u64 (up st + 1) else 0%Z) /\
  (no_new (g_plugin st) (g_plugin st') \/ (SPAWN_DELAY_TICKS <= up st')%Z /\
     (suppress_ghost_spawn_until_tick (l_spawn (d_line (e_drain env))) <= e_tick env)%Z).
Proof.
  cbv zeta. unfold bottom_stage. pose proof (capture_up env st) as Hu. pose proof (capture_plugin env st) as Hc.
  destruct (capture_stage env st) as [st1 resets]. cbn [fst] in Hu, Hc.
  pose proof (drain_no_new (drain_now env (g_capture st1)) (g_update st1) (g_plugin st1)) as Hd.
  destruct (drain _ _ _) as [[s p] calls]. cbn [fst snd g_plugin g_capture] in *. split; [done|].
  assert (no_new (g_plugin st) (g_plugin st1)) as H1.
  { apply no_new_same. destruct Hc as [-> |[grace ->]]; [done|]. unfold follow_panel. by repeat case_match. }
  unfold may_spawn in Hd. cbn in Hd.
  destruct (decide ((SPAWN_DELAY_TICKS <= up st1)%Z /\ (suppress_ghost_spawn_until_tick (l_spawn (d_line (e_drain env))) <= e_tick env)%Z));
    [by right|left]. etransitivity; [exact H1|by apply Hd].
Qed.

Lemma loop_no_new t xs : forall p tiers calls, system_ok p -> no_new p (foldl (loop_step t) (p, tiers, calls) xs).1.1.
Proof.
  induction xs as [|[id e] xs IH]; intros p tiers calls Hp; [done|]. cbn [foldl loop_step fst snd].
  pose proof (turn_no_new (remote_now t e) id p Hp) as Hn. pose proof (tick_remote_system (remote_now t e) id p Hp) as Hs.
  destruct (tick_remote _ id p) as [[p1 t1] c1]. etransitivity; [exact Hn|by apply IH].
Qed.

(** The ticks that got past their gates, each with whether the player was in play. *)
Fixpoint plays (es : list event) (w : world) : list bool :=
  match es with
  | [] => []
  | e :: es =>
      match e with Ticked env => if works w (t_game env) then [in_play (t_game env)] else [] | _ => [] end ++ plays es (happens w e)
  end.

Definition count_up (n : Z) (b : bool) : Z := if b then (n + 1)%Z else 0%Z.

Lemma tick_up env w :
  up (w_game (game_thread_tick env w).1) =
    if works w (t_game env) then (if in_play (t_game env) then u64 (up (w_game w) + 1) else 0%Z) else up (w_game w).
Proof.
  pose proof (tick_parts env w) as Ht. cbv zeta in Ht. destruct (works _ _); [|apply Ht].
  destruct Ht as (st & u & _ & E & -> & _). rewrite <- E. apply (bottom_new (with_holds w (t_game env)) st).
Qed.

Lemma other_up w e : (forall env, e <> Ticked env) -> up (w_game (happens w e)) = up (w_game w).
Proof.
  intros Hne. destruct e as [env|undefined config file|env|env ids tick|tick|ids s|v ids c value|ws gt a]; cbn [happens].
  - by destruct w as [[]].
  - destruct (poll_recording_indicator_tuning _ _ _ _ _) as [[s redraw] r]. by destruct redraw, w as [[]].
  - by destruct (Hne env).
  - unfold load_map_pre. destruct (foldl _ _ ids) as [p calls]. by destruct w as [[? ? []]].
  - by destruct w as [[? ? []]].
  - by destruct w.
  - cbv zeta. generalize (set_render_custom_depth v (ghosts_now ids (plug w)) c value). intros f. by destruct w as [[? ? []]].
  - by destruct w as [[? ? []]].
Qed.

Lemma up_counts es : forall w n, (0 <= up (w_game w) <= n)%Z ->
  (0 <= up (w_game (runs es w)) <= foldl count_up n (plays es w))%Z.
Proof.
  unfold runs. induction es as [|e es IH]; intros w n Hn; [done|]. cbn [foldl plays]. rewrite foldl_app. apply IH.
  destruct e as [env|undefined config file|env|env ids tick|tick|ids s|v ids c value|ws gt a]; try (rewrite other_up by done; exact Hn).
  cbn [happens]. rewrite tick_up. destruct (works w (t_game env)); [|exact Hn]. cbn [foldl]. unfold count_up.
  destruct (in_play (t_game env)); [|done]. unfold u64. pose proof (Z.mod_pos_bound (up (w_game w) + 1) (2 ^ 64) ltac:(done)).
  pose proof (Z.mod_le (up (w_game w) + 1) (2 ^ 64) ltac:(lia) ltac:(done)). lia.
Qed.

Lemma count_up_suffix l : forall k : nat, (Z.of_nat k <= foldl count_up 0 l)%Z -> exists pre, l = pre ++ replicate k true.
Proof.
  induction l as [|b l IH] using rev_ind; intros k Hk.
  - exists []. cbn in Hk. assert (k = 0) as -> by lia. done.
  - rewrite foldl_app in Hk. cbn [foldl] in Hk. destruct k as [|k]; [exists (l ++ [b]); by rewrite app_nil_r|].
    destruct b; unfold count_up in Hk at 1; [|lia]. destruct (IH k ltac:(lia)) as [pre ->].
    exists pre. rewrite <- app_assoc. f_equal. symmetry. apply (replicate_S_end k true).
Qed.

(** C3: a ghost is spawned only where the player is, and has been, in play.  If a tick gives
    a pawn to a peer that had none then no hold is on, and the tick and the 119 before it
    that got past their gates, whatever happened between them, all found the player's own
    pawn in a map that is play. *)
Theorem spawn_needs_play (es : list event) (s : update_state) (env : world_env) (id : bytes)
    (Hes : Forall event_ok es) (Henv : place_ok (t_game env)) :
  let w := runs es (world0 s) in
  ghost_at (plug w) id = None -> ghost_at (plug (game_thread_tick env w).1) id <> None ->
  works w (t_game env) = true /\ (suppress_until w <= e_tick (t_game env))%Z /\
  exists earlier, plays (es ++ [Ticked env]) (world0 s) = earlier ++ replicate 120 true.
Proof.
  cbv zeta. set (w := runs es (world0 s)). intros Hnone Hnew.
  pose proof (tick_parts env w) as Ht. cbv zeta in Ht. destruct (works w (t_game env)) eqn:Hw; [|by destruct Ht as [E _]; rewrite E in Hnew].
  destruct Ht as (st & u & E & Eu & Eup & Ep & _). split; [done|].
  destruct (bottom_new (with_holds w (t_game env)) st) as [Hu Hb]. rewrite Ep in Hnew.
  assert (system_ok (g_plugin (bottom_stage (with_holds w (t_game env)) st).1.1)) as Hsys.
  { eapply steps_system; [exact (bottom_steps (with_holds w (t_game env)) st Henv)|]. rewrite E. by apply runs_system. }
  destruct Hb as [Hb|[Hdelay Hhold]].
  { destruct Hnew. apply (loop_no_new (Given (t_game env) (w_settings u) (w_ranges u) (Update.player_frozen_sent (g_update (w_game u)))) (t_remotes env) _ [] [] Hsys). apply Hb. by rewrite E. }
  split; [exact Hhold|]. apply (count_up_suffix _ 120).
  pose proof (up_counts (es ++ [Ticked env]) (world0 s) 0%Z ltac:(done)) as Hcount.
  unfold runs in Hcount. rewrite foldl_app in Hcount. cbn [foldl happens] in Hcount. fold (runs es (world0 s)) in Hcount. fold w in Hcount.
  rewrite Eup in Hcount. unfold SPAWN_DELAY_TICKS in Hdelay. lia.
Qed.

(** * A sample run

    A pawn in play for 119 ticks, a core that accepts and sends a peer's state, and the
    tick that spawns its ghost. *)

Definition play_view : local_view := {|
  refl := {| obj := fun o p => if decide (o = 2 /\ p = "PersistentLevel"%string) then Some 3 else None;
             num := fun _ _ => None; flag := fun _ _ => None; raw_flag := fun _ _ => None; objs := fun _ _ => None;
             has := fun _ _ => false; has_fn := fun _ _ => false |};
  integer := fun _ _ => None; vector := fun _ _ => None; colour := fun _ _ => None; short_name := fun _ => [];
  long_name := fun o => if decide (o = 5) then str "BlueprintGeneratedClass /Game/Mechanics/BP_PlayerGoatMain_C" else str "Level /Game/Maps/Zone_Dungeon";
  class_of := fun o => if decide (o = 42) then Some 5 else None; world_of := fun o => if decide (o = 42) then Some 2 else None;
  outer := fun _ => None; place := fun _ => (of_Z 300, of_Z 40, of_Z 5); heading := fun _ => vzero;
  is_active := fun _ => false; is_gone := fun _ => false; montage_name := fun _ => None; one_byte := fun _ _ => false;
  held_objects := fun _ => []; bool_properties := fun _ => []; instances := fun _ => []; world_objects := ∅ |}%Z.

Definition play_game : game_env := {|
  e_view := play_view; e_tick := 1000; unreal_ready := true; quiet_until_tick := 0;
  e_controller := Some 9; e_pawn := Some 42; cursor_shown := false; frozen_answer := Sent 0; reset_answer := Sent 0;
  e_format := fun _ => []; e_frame := InputTrackProps.sample_frame (fun _ => false) 0; e_drain := DrainEnv sample_line_env [str "p1"] |}%Z.
Definition play_tick : world_env :=
  {| t_game := play_game; t_owning := fun _ => None;
     t_images := {| outers := fun _ => []; is_afterimage := fun _ => false; copy_actor := fun _ => None; placed := fun _ => false;
                    image_place := fun _ => vzero; held := fun _ => []; depth_byte := fun _ => None; can_set := fun _ => false;
                    guarded := false; v_objects := ∅ |};
     t_remotes := [(str "p1", sample_remote_env)];
     t_pow := fun x _ => x;
     t_widgets := WidgetEnv (ObjectArray Some (fun _ => true) id id) (ObjectArray Some (fun _ => true) id id) true (Some (of_Z 1920, of_Z 1080)) None false;
     t_parts := (None, None, None); t_wall_ms := 66200 |}.
(** An update whose state line the socket takes whole. *)
Definition takes_state (u : update_env) : update_env :=
  {| net := net u; clock_hello := clock_hello u; clock_cool := clock_cool u; clock_sweep := clock_sweep u;
     run_port := run_port u; run_claim := run_claim u; run_spawn := run_spawn u; exe_exists := exe_exists u; exe_dirs := exe_dirs u;
     own_pid := own_pid u; launcher_now := launcher_now u; create := create u; hello_answer := hello_answer u; hello_at := hello_at u;
     recv_answers := recv_answers u; recv_now := recv_now u; state_answer := Sent 5000; input_answer := input_answer u;
     input_enabled := input_enabled u; format_double := format_double u |}.
Definition played : list event :=
  replicate 119 (Ticked play_tick)
    ++ replicate 7 (Moved (takes_state first_update)) ++ replicate 5 (Moved (takes_state (sample_update answers_up [sample_line] (ms 2001)))).

Lemma played_ok : Forall event_ok played.
Proof.
  apply Forall_app_2; [|by repeat constructor]. apply Forall_replicate. repeat split; by vm_compute.
Qed.
Lemma play_tick_ok : place_ok (t_game play_tick).
Proof. repeat split; by vm_compute. Qed.

Example spawn_needs_play_witness :
  let w := runs played (world0 UpdateProps.start_state) in
  ghost_at (plug w) (str "p1") = None /\ ghost_at (plug (game_thread_tick play_tick w).1) (str "p1") = Some 77%Z /\
  exists earlier, plays (played ++ [Ticked play_tick]) (world0 UpdateProps.start_state) = earlier ++ replicate 120 true.
Proof.
  cbv zeta. assert (ghost_at (plug (runs played (world0 UpdateProps.start_state))) (str "p1") = None) as H1 by (by vm_compute).
  assert (ghost_at (plug (game_thread_tick play_tick (runs played (world0 UpdateProps.start_state))).1) (str "p1") = Some 77%Z) as H2
    by (by vm_compute).
  split; [exact H1|]. split; [exact H2|].
  apply (spawn_needs_play played UpdateProps.start_state play_tick (str "p1") played_ok play_tick_ok H1). by rewrite H2.
Defined.

(** That tick, and the one after it. *)
Definition spawned : list event := played ++ [Ticked play_tick].
Lemma spawned_ok : Forall event_ok spawned.
Proof. apply Forall_app_2; [exact played_ok|]. repeat constructor; by vm_compute. Qed.

Example runs_invariant_witness :
  exists g, remotes (plug (runs spawned (world0 start_state))) !! str "p1" = Some g /\ wire_ok (wire_state g) /\ object_ok g.
Proof.
  destruct (runs_invariant spawned start_state spawned_ok) as [H _].
  found (fun _ => tt) in (remotes (plug (runs spawned (world0 start_state))) !! str "p1") is tt as (g & E & _).
  exists g. split; [exact E|]. exact (H _ _ E).
Defined.

Lemma sample_remotes_ok : Forall (fun x => remote_env_ok x.2) (t_remotes play_tick).
Proof. constructor; [split; [by repeat split|done]|constructor]. Qed.

Example every_tick_draws_finite_witness :
  (20 <=? length (o_calls (game_thread_tick play_tick (runs spawned (world0 start_state))).2)) = true /\
  Forall ghost_call_ok (o_calls (game_thread_tick play_tick (runs spawned (world0 start_state))).2).
Proof.
  split; [by vm_compute|]. apply (every_tick_draws_finite spawned start_state spawned_ok play_tick play_tick_ok sample_remotes_ok).
Defined.

Example level_end_drops_witness :
  map_Forall (fun _ g => engine_objects g = handles0) (remotes (plug (level_ends (runs spawned (world0 start_state))))) /\
  bool_decide (is_Some (remotes (plug (level_ends (runs spawned (world0 start_state)))) !! str "p1")) = true.
Proof.
  split; [apply (level_end_drops spawned start_state spawned_ok)|by vm_compute].
Defined.

(** What the two threads share of the bridge, but the connection and the freeze. *)
Definition exchanged (s : update_state) : bytes * list bytes * nat * bool :=
  (cached_local_state_json s, pending_incoming_lines s, pending_collapse_at s, bridge_disconnect_cleanup_pending s).

Lemma frozen_exchanged env s : exchanged (frozen_stage env s).1 = exchanged s.
Proof. unfold frozen_stage. destruct (e_controller env); [|done]. destruct (send_frozen _ _ _). by destruct s. Qed.

Lemma top_exchanged env st : exchanged (g_update (top_stage env st).1) = exchanged (g_update st).
Proof. unfold top_stage. pose proof (frozen_exchanged env (g_update st)) as H. by destruct (frozen_stage env (g_update st)). Qed.

Lemma rig_stage_update env w : g_update (w_game (rig_stage env w).1.1) = g_update (w_game w).
Proof.
  unfold rig_stage. destruct (e_controller (t_game env)), (e_pawn (t_game env)); try done.
  destruct (neutralise_rigs _ _ _ _) as [fd n]. destruct (sweep_orphan_rigs _ _ _ _) as [[fd' m] d]. by destruct w as [[]].
Qed.
Lemma outline_stage_update env w : g_update (w_game (outline_stage env w)) = g_update (w_game w).
Proof. unfold outline_stage. cbv zeta. generalize (tick_outlines (t_images env)). intros f. by destruct w as [[]]. Qed.

(** There is a pawn to speak of, in a map that is play. *)
Definition shown (env : game_env) : bool :=
  match e_controller env, e_pawn env with
  | Some _, Some a => negb (in_non_gameplay_map (area_of (e_view env) a))
  | _, _ => false
  end.

Lemma capture_cached env st :
  if shown env
  then exists f, f_area_id f = default [] (area_of (e_view env) <$> e_pawn env) /\
                 cached_local_state_json (g_update (capture_stage env st).1) = local_state (e_format env) f
  else cached_local_state_json (g_update (capture_stage env st).1) = NO_STATE.
Proof.
  unfold capture_stage, shown. destruct (e_controller env); [|reflexivity]. destruct (e_pawn env) as [a|]; [|reflexivity]. cbv zeta.
  set (c0 := g_capture st <| c_ticks_since_pawn_valid := _ |>).
  pose proof (sample_frame_up (e_view env) (e_tick env) a (Some (went (reset_answer env) (bridge (g_update st))))
    (VfxCapture.spawned_by_us (remotes (g_plugin st))) c0) as [_ E2].
  destruct (LocalState.sample_frame _ _ _ _ _ _) as [[c f] lines]. cbn [fst snd] in E2. rewrite E2.
  destruct (in_non_gameplay_map _); [reflexivity|].
  destruct (follow_panel _ _) as [[p' grace] ht]. exists f. split; [exact E2|reflexivity].
Qed.

Lemma drain_exchanged env s p :
  exchanged (drain env s p).1.1 = (cached_local_state_json s, [], PENDING_LINES_COLLAPSE_AT, false).
Proof.
  unfold drain. cbv zeta. destruct (handle_lines _ _ _) as [p1 calls]. destruct (bridge_disconnect_cleanup_pending s).
  - destruct (release_all_ghosts_parked _ _ _). by destruct s.
  - by destruct s.
Qed.

Lemma bottom_exchanged env st :
  exchanged (g_update (bottom_stage env st).1.1) =
    (cached_local_state_json (g_update (capture_stage env st).1), [], PENDING_LINES_COLLAPSE_AT, false).
Proof.
  unfold bottom_stage. destruct (capture_stage env st) as [st1 resets]. pose proof (drain_exchanged (drain_now env (g_capture st1)) (g_update st1) (g_plugin st1)) as H.
  by destruct (drain _ _ _) as [[s p] calls].
Qed.

(** A tick that stops at a gate (the menu's cursor, the hold of a transition, an engine
    not ready) calls no actor and changes no ghost: the remotes, the lines waiting, the line
    told to the core, the images and the rigs are as they were, and nothing is asked of the
    engine.  A tick that passes takes every line waiting, and the line it leaves for the core
    names the area of a pawn in a map that is play, or is the one that withholds the player. *)
Theorem gates_hold (env : world_env) (w : world) :
  let '(w', out) := game_thread_tick env w in
  let s := g_update (w_game w') in
  if works w (t_game env) then
    pending_incoming_lines s = [] /\ bridge_disconnect_cleanup_pending s = false /\
    if shown (t_game env)
    then exists f, f_area_id f = default [] (area_of (e_view (t_game env)) <$> e_pawn (t_game env)) /\
                   cached_local_state_json s = local_state (e_format (t_game env)) f
    else cached_local_state_json s = NO_STATE
  else
    plug w' = plug w /\ exchanged s = exchanged (g_update (w_game w)) /\
    w_outline w' = w_outline w /\ orphan_sightings w' = orphan_sightings w /\ w_local w' = w_local w /\
    o_neutralised out = [] /\ o_orphans out = [] /\ o_released out = [] /\ o_tiers out = [] /\ o_calls out = [].
Proof.
  unfold works, game_thread_tick. cbv zeta. set (g := with_holds w (t_game env)).
  change (unreal_ready (t_game env)) with (unreal_ready g). destruct (unreal_ready g); [|done]. cbn [negb andb].
  destruct (serve_fix_lights _ _) as [lights served]. pose proof (top_stage_plugin g (w_game w)) as Ht.
  pose proof (top_exchanged g (w_game w)) as Hx. destruct (top_stage g (w_game w)) as [st frozen]. cbn [fst] in Ht, Hx.
  destruct (silent g); cbn [negb].
  { rewrite <- Ht, <- Hx. by destruct w. }
  set (w1 := w <| w_lights := lights |> <| w_game := st |>).
  destruct (rig_stage env w1) as [[w2 neutral] orphans].
  pose proof (capture_cached g (w_game w2)) as Hc. pose proof (bottom_exchanged g (w_game w2)) as Hb.
  destruct (bottom_stage g (w_game w2)) as [[st2 resets] released]. cbn [fst] in Hb.
  set (w3 := outline_stage _ _). assert (g_update (w_game w3) = g_update st2) as E3.
  { unfold w3. rewrite outline_stage_update. by destruct w2. }
  pose proof (hud_stage_game env w3) as E4. destruct (hud_stage env w3) as [w4 drawn]. cbn [fst] in E4. rewrite <- E4 in E3.
  destruct (loop_stage env w4 (plug w4)) as [[p tiers] calls].
  unfold exchanged in Hb. injection Hb as B1 B2 _ B4.
  assert (g_update (w_game (w4 <| w_game := Game (g_update (w_game w4)) p (g_capture (w_game w4)) |>)) = g_update st2) as -> by (by destruct w4).
  rewrite B1. split; [done|]. split; [done|]. exact Hc.
Qed.
