(* ===== verification/BridgeLineProps.v ===== *)
(** What the bridge lines do to the plugin: a peer's first sample baselines its counters,
    a held slide keeps its capsule across the seams, the recorded edges queue in order
    and within the cap, a label survives while its player is present, a despawn disposes
    of what the peer owned, and a lost bridge leaves no ghost behind. *)
From S2P Require Import Prelude Float64 JsonString JsonScoped JsonTop Collapse BridgeClient.
From S2P Require Import CoreLauncher RemoteGhost Lifecycle BridgeLine BridgeLineFacts VfxMirror.
From S2P Require Import PeerProps RemoteTick TickFacts InputTrack Update UpdateProps.
From S2P Require Import SystemProps.
From Stdlib Require Import ZArith Sorted.

(** * A render_remote *)

Lemma ensure_entry id env p :
  ensure_ghost_spawned id env p = p \/
  exists g, remotes (ensure_ghost_spawned id env p) = <[id := g]> (remotes p) /\
    counters_seen g = counters_seen (remote_of id p) /\ vfx_counts g = vfx_counts (remote_of id p) /\
    nametags (ensure_ghost_spawned id env p) = nametags p /\ ghost_inputs (ensure_ghost_spawned id env p) = ghost_inputs p.
Proof.
  unfold ensure_ghost_spawned. destruct (spawn_allowed env p id) as [[world [[x y] z]]|]; [|by left].
  destruct (spawned_actor env) as [actor|]; [right|by left]. cbv zeta. generalize (remote_of id p). intros g.
  destruct (bare_ghost env); (eexists; split; [reflexivity|]); by destruct g.
Qed.

(** The counters a sample carries, as the entry stores them. *)
Definition counters_of (w : wire) : seen :=
  {| last_seen_land_count := target_land_count w; last_seen_jump_count := target_jump_count w;
     last_seen_montage_count := target_montage_count w; last_seen_montage_stop_count := target_montage_stop_count w;
     last_seen_blink_count := target_blink_count w; last_seen_death_count := target_death_count w;
     last_seen_hurt_count := target_hurt_count w; last_seen_afterimage_count := target_afterimage_count w |}.

Lemma capsule_counters now c w : counters_of (apply_capsule now c w) = counters_of w.
Proof. unfold apply_capsule. destruct (shrunk c); [|destruct (_ && _)]; by destruct w. Qed.
Lemma pose_counters id now s w :
  let w' := apply_pose id now s w in
  target_land_count w' = s_land_count s /\ target_jump_count w' = s_jump_count s /\
  target_afterimage_count w' = s_afterimage_count s.
Proof.
  unfold apply_pose. destruct (loopback_offset id) as [ox oz], (s_pos s) as [[x y] z]. cbv zeta.
  match goal with |- context [apply_capsule now (s_capsule_half s) ?x] =>
    pose proof (capsule_counters now (s_capsule_half s) x) as H; revert H; generalize (apply_capsule now (s_capsule_half s) x) end.
  intros w1 H. unfold counters_of in H. injection H as H1 H2 _ _ _ _ _ H3. destruct w1, w. cbn in *. by subst.
Qed.
Lemma sample_counters id now s g : counters_of (wire_state (apply_sample id now false s g)) = baseline s.
Proof.
  unfold apply_sample. cbv zeta. destruct (pose_counters id now s (wire_state g)) as (H1 & H2 & H3).
  revert H1 H2 H3. generalize (apply_pose id now s (wire_state g)). intros w H1 H2 H3.
  assert (counters_of (apply_look s w) = baseline s) as Hl.
  { unfold apply_look. cbv zeta. unfold baseline. rewrite <- H1, <- H2, <- H3. by destruct (s_afterimage_color s), w. }
  revert Hl. generalize (apply_look s w). clear w H1 H2 H3. intros w Hl.
  assert (counters_of (apply_props id s w) = counters_of w) as Hp.
  { unfold apply_props. destruct (loopback_offset id) as [ox oz]. cbv zeta.
    destruct (s_projectile_active s), (s_prj_pos s), (s_prj_rot s), (s_weapon_thrown s), (s_weapon_pos s), (s_weapon_rot s);
      by destruct w. }
  rewrite <- Hl, <- Hp. by destruct g.
Qed.

Lemma sample_fields id now new s g :
  let g' := apply_sample id now new s g in
  counters_of (wire_state g') = baseline s /\ vfx_counts g' = vfx_counts g /\
  counters_seen g' = (if new then baseline s else counters_seen g).
Proof.
  cbv zeta. split; [rewrite <- (sample_counters id now s g)|]; unfold apply_sample; cbv zeta; destruct new; by destruct g.
Qed.

(** C17: a sample changes the entry of the player it names and nothing else.  A player's
    first applied sample baselines every counter, so nothing that happened before the
    player was seen is replayed; a later one leaves the counters acted on alone, so
    nothing is lost or played twice. *)
Theorem first_sample_baselines (env : spawn_env) (now : Z) (line : bytes) (p : plugin) (id : bytes) (s : sample)
    (Hs : render_sample line = Some (id, s)) :
  let p' := on_render_remote env now line p in
  (forall id', id' <> id -> remotes p' !! id' = remotes p !! id') /\
  nametags p' = nametags p /\ ghost_inputs p' = ghost_inputs p /\
  match remotes p !! id, remotes p' !! id with
  | None, None => True
  | None, Some g' => counters_of (wire_state g') = baseline s /\ counters_seen g' = baseline s /\ (tick_moments g').2 = []
  | Some g, Some g' => counters_of (wire_state g') = baseline s /\ counters_seen g' = counters_seen g /\
                       vfx_counts g' = vfx_counts g
  | Some _, None => False
  end.
Proof.
  cbv zeta. unfold on_render_remote. rewrite Hs. cbv zeta.
  assert (forall g, counters_of (wire_state g) = baseline s -> counters_seen g = baseline s -> (tick_moments g).2 = []) as Hm.
  { intros g E1 E2. unfold tick_moments. rewrite E2, <- E1. cbn. by rewrite !Z.ltb_irrefl. }
  set (new := match remotes p !! id with Some _ => false | None => true end).
  destruct (ensure_entry id env p) as [-> | (g1 & Er & Ec & Ev & Et & Ei)].
  - destruct (remotes p !! id) as [g|] eqn:Eg; [|by rewrite ?Eg; split_and!].
    destruct (sample_fields id now new s g) as (F1 & F2 & F3). unfold set_remote. cbn -[tick_moments].
    split_and!; [|done|done|rewrite lookup_insert_eq; by split_and!]. intros id' Hne. by rewrite lookup_insert_ne.
  - rewrite Er, lookup_insert_eq. destruct (sample_fields id now new s g1) as (F1 & F2 & F3). unfold set_remote. cbn -[tick_moments].
    rewrite Er, Et, Ei, lookup_insert_eq. unfold remote_of in Ec, Ev. split_and!; [|done|done|].
    { intros id' Hne. by rewrite !lookup_insert_ne by done. }
    unfold new in *. destruct (remotes p !! id) as [g|]; cbn [from_option] in *; split_and!; auto; congruence.
Qed.

(** The first sample of the sample run, with a landing count the player never saw. *)
Example first_sample_baselines_witness :
  exists s, render_sample sample_line = Some (str "p1", s) /\ s_land_count s <> dzero /\
    exists g', remotes (on_render_remote sample_spawn 5000 sample_line plugin0) !! str "p1" = Some g' /\
      counters_seen g' = baseline s /\ (tick_moments g').2 = [].
Proof.
  found (fun x => (x.1, dne (s_land_count x.2) dzero)) in (render_sample sample_line)
    is (str "p1", true) as ([id s] & E & Hx). injection Hx as -> Hland.
  exists s. split; [exact E|]. split; [intros Ez; by rewrite Ez in Hland|].
  pose proof (first_sample_baselines sample_spawn 5000 sample_line plugin0 (str "p1") s E) as (_ & _ & _ & H).
  replace (remotes plugin0 !! str "p1") with (None : option RemoteGhost) in H by done.
  found (fun _ => tt) in (remotes (on_render_remote sample_spawn 5000 sample_line plugin0) !! str "p1")
    is tt as (g' & Eg & _).
  rewrite Eg in H. exists g'. split; [exact Eg|]. exact (proj2 H).
Defined.

(** * The slide's capsule *)

(** The newest shrunk sample of a history. *)
Definition last_shrunk (hist : list (Z * double)) : option (Z * double) := list.last (List.filter (fun s => shrunk s.2) hist).
Definition capsules (hist : list (Z * double)) (w : wire) : wire := foldl (fun w s => apply_capsule s.1 s.2 w) w hist.

(** What the capsule is after a history ending in [(now, h)]. *)
Definition held_capsule (hist : list (Z * double)) (now : Z) (h : double) : double :=
  match last_shrunk (hist ++ [(now, h)]) with
  | Some (t, k) => if (now - t <? SLIDE_SEAM_HOLD_MS)%Z then k else h
  | None => h
  end.

(** A steady clock in milliseconds that has started. *)
Definition steady (hist : list (Z * double)) : Prop :=
  StronglySorted (fun a b => (a.1 <= b.1)%Z) hist /\ Forall (fun s => (0 < s.1 < 2 ^ 64)%Z) hist.

Lemma steady_snoc hist now h :
  steady (hist ++ [(now, h)]) -> steady hist /\ Forall (fun s => (s.1 <= now)%Z) hist /\ (0 < now < 2 ^ 64)%Z.
Proof.
  intros [Hs Hr]. apply Forall_app in Hr as [Hr [Hn _]%Forall_cons_1]. cbn [fst] in Hn. unfold steady.
  induction hist as [|a hist IH]; [repeat constructor; lia|].
  cbn [app] in Hs. apply StronglySorted_inv in Hs as [Hs Ha]. apply Forall_app in Ha as [Ha [Ha' _]%Forall_cons_1].
  apply Forall_cons_1 in Hr as [Hr1 Hr2]. destruct (IH Hs Hr2) as ([H1 H2] & H3 & H4). cbn [fst] in Ha'.
  repeat split; try (by constructor); lia.
Qed.

Lemma last_shrunk_snoc hist now h :
  last_shrunk (hist ++ [(now, h)]) = if shrunk h then Some (now, h) else last_shrunk hist.
Proof.
  unfold last_shrunk. rewrite List.filter_app. cbn. destruct (shrunk h); [by rewrite last_snoc|by rewrite app_nil_r].
Qed.

Lemma capsules_snoc hist now h w : capsules (hist ++ [(now, h)]) w = apply_capsule now h (capsules hist w).
Proof. unfold capsules. by rewrite foldl_app. Qed.

Lemma last_shrunk_in hist t k : last_shrunk hist = Some (t, k) -> (t, k) ∈ hist /\ shrunk k = true.
Proof.
  unfold last_shrunk. intros H%last_Some_elem_of. apply list_elem_of_In, List.filter_In in H as [H1 H2].
  split; [by apply list_elem_of_In|done].
Qed.

(** A held slide keeps its capsule across the seams: whatever samples come, the ghost's
    capsule is that of the newest shrunk sample for less than [SLIDE_SEAM_HOLD_MS] after
    it was received, and that of the newest sample from then on. *)
Theorem slide_seam_hold (hist : list (Z * double)) (now : Z) (h : double) (w : wire)
    (Hw : last_shrunk_ms w = 0%Z) (Hs : steady (hist ++ [(now, h)])) :
  target_capsule_half (capsules (hist ++ [(now, h)]) w) = held_capsule hist now h.
Proof.
  assert (last_shrunk_ms (capsules (hist ++ [(now, h)]) w) = from_option fst 0%Z (last_shrunk (hist ++ [(now, h)])) /\
    target_capsule_half (capsules (hist ++ [(now, h)]) w) = held_capsule hist now h) as [_ H]; [|exact H].
  revert now h Hs. induction hist as [|[now' h'] hist IH] using rev_ind; intros now h Hs.
  - unfold held_capsule, capsules, last_shrunk. cbn [app foldl fst snd]. unfold apply_capsule. rewrite Hw. cbn -[shrunk].
    destruct (shrunk h) eqn:E; cbn; [|by destruct w].
    rewrite Z.sub_diag. by destruct w.
  - destruct (steady_snoc _ _ _ Hs) as (Hs' & Hle & Hn). destruct (IH now' h' Hs') as [E1 E2].
    rewrite capsules_snoc. unfold held_capsule in *. rewrite last_shrunk_snoc.
    revert E1 E2 Hle. generalize (capsules (hist ++ [(now', h')]) w). intros w1 E1 E2 Hle.
    unfold apply_capsule. destruct (shrunk h) eqn:Esh.
    { cbn. rewrite Z.sub_diag. by destruct w1. }
    destruct (last_shrunk (hist ++ [(now', h')])) as [[t k]|] eqn:El; cbn [from_option fst] in E1; rewrite E1.
    2:{ cbn. by destruct w1. }
    apply last_shrunk_in in El as [Hin Hk]. destruct Hs' as [_ Hr]. rewrite list.Forall_forall in Hr, Hle.
    pose proof (Hr _ Hin) as Ht. pose proof (Hle _ Hin) as Htn. pose proof (Hle (now', h')) as Hn'. cbn [fst] in *.
    specialize (Hn' ltac:(apply elem_of_app; right; by apply list_elem_of_singleton)).
    rewrite (proj2 (Z.eqb_neq t 0)) by lia. unfold u64. rewrite Z.mod_small by lia. cbn [negb andb].
    unfold SLIDE_SEAM_HOLD_MS in *. destruct (Z.ltb_spec (now - t) 200) as [Hlt|Hge].
    + rewrite (proj2 (Z.ltb_lt (now' - t) 200)) in E2 by lia. cbn [andb]. rewrite E2, Hk. done.
    + cbn [andb]. by destruct w1.
Qed.

(** A slide, and an upright sample within the hold and past it. *)
Example slide_seam_hold_witness :
  let slide := [(1000%Z, of_Z 40)] in
  shrunk (of_Z 40) = true /\ shrunk (of_Z 88) = false /\
  target_capsule_half (capsules (slide ++ [(1100%Z, of_Z 88)]) wire0) = of_Z 40 /\
  target_capsule_half (capsules (slide ++ [(1300%Z, of_Z 88)]) wire0) = of_Z 88.
Proof.
  intros slide. split; [by vm_compute|]. split; [by vm_compute|].
  assert (forall t, (1000 <= t < 2000)%Z -> steady (slide ++ [(t, of_Z 88)])) as Hs.
  { intros t Ht. split; [|repeat constructor; cbn [fst]; lia].
    repeat constructor. cbn [fst]. lia. }
  split.
  - rewrite (slide_seam_hold slide 1100 (of_Z 88) wire0 eq_refl (Hs 1100%Z ltac:(lia))). by vm_compute.
  - rewrite (slide_seam_hold slide 1300 (of_Z 88) wire0 eq_refl (Hs 1300%Z ltac:(lia))). by vm_compute.
Defined.

(** * A remote_input *)

(** The edges a payload carries, in order. *)
Definition payload_edges (line : bytes) (payload : span) : list GhostInputEdge :=
  match json_array_member line payload.1 payload.2 (str "edges") with
  | Some a => array_edges line a
  | None => []
  end.

Lemma update_track_queue line payload (reset : bool) t :
  let t0 := if reset then reset_track t else t in
  let t' := update_track line payload reset t in
  let es := payload_edges line payload in
  edges t' = edges t0 ++ take (GHOST_INPUT_EDGE_CAP - length (edges t0)) es /\
  dropped t' = (dropped t0 + N.of_nat (length es - (GHOST_INPUT_EDGE_CAP - length (edges t0))))%N.
Proof.
  cbv zeta. unfold update_track, payload_edges. cbv zeta. generalize (if reset then reset_track t else t). intros t0.
  match goal with |- context [add_edges _ _ ?x] => set (t1 := x) end.
  assert (edges t1 = edges t0 /\ dropped t1 = dropped t0) as [E1 E2].
  { unfold t1, set_labels, set_axes. by destruct (json_array_member _ _ _ (str "labels")), (json_array_member _ _ _ (str "axes")), t0. }
  clearbody t1. rewrite <- E1, <- E2. unfold add_edges. destruct (json_array_member _ _ _ (str "edges")) as [a|].
  - rewrite read_edges_collects. destruct (push_edges_spec (array_edges line a) t1) as (? & ? & _). by split.
  - rewrite take_nil, app_nil_r. split; [done|]. simpl length. lia.
Qed.

(** A [remote_input] touches one player's track: its edges join the queue behind
    those held (behind none after a reset) until the cap, in the order sent, the ones
    past the cap are counted and nothing already queued is lost. *)
Theorem remote_input_queues (line : bytes) (p : plugin) (payload : span) (id : bytes)
    (Hp : payload_span line = Some payload) (Hid : read_string line payload "player_id" = id) (Hne : id <> []) :
  let p' := on_remote_input line p in
  let reset := json_bool_member line payload.1 payload.2 (str "reset") in
  let t := default GhostInputTrack0 (ghost_inputs p !! id) in
  let held := if reset then [] else edges t in
  let es := payload_edges line payload in
  let room := GHOST_INPUT_EDGE_CAP - length held in
  remotes p' = remotes p /\ nametags p' = nametags p /\
  exists t', ghost_inputs p' = <[id := t']> (ghost_inputs p) /\ edges t' = held ++ take room es /\
    dropped t' = ((if reset then 0 else dropped t) + N.of_nat (length es - room))%N.
Proof.
  cbv zeta. unfold on_remote_input. rewrite Hp. cbv zeta. rewrite Hid, bool_decide_eq_false_2 by done.
  set (reset := json_bool_member line payload.1 payload.2 (str "reset")).
  set (t := default GhostInputTrack0 (ghost_inputs p !! id)).
  destruct (update_track_queue line payload reset t) as [E1 E2].
  assert (edges (if reset then reset_track t else t) = (if reset then [] else edges t) /\
          dropped (if reset then reset_track t else t) = (if reset then 0 else dropped t)%N) as [F1 F2]
    by (destruct reset; by destruct t).
  rewrite F1 in E1, E2. rewrite F2 in E2. clearbody reset t.
  destruct (reset && _); (split; [done|]); (split; [done|]); eexists; (split; [reflexivity|]); by split.
Qed.

(** Two edges of a new player. *)
Example remote_input_queues_witness :
  let line := js "{'type':'remote_input','payload':{'player_id':'p1','labels':['A'],"
    ++ js "'edges':[{'f':1,'t':0,'m':1,'at':100},{'f':2,'t':16,'m':0,'at':116.5}]}}" in
  exists t', ghost_inputs (on_remote_input line sample_plugin) !! str "p1" = Some t' /\
    length (edges t') = 2 /\ dropped t' = 0%N.
Proof.
  intros line. found (fun pl => (read_string line pl "player_id", length (payload_edges line pl))) in (payload_span line)
    is (str "p1", 2) as (payload & E & Hx). injection Hx as Hid Hlen.
  pose proof (remote_input_queues line sample_plugin payload (str "p1") E Hid ltac:(done)) as (_ & _ & t' & H1 & H2 & H3).
  assert (ghost_inputs sample_plugin !! str "p1" = None) as Ht by (vm_compute; reflexivity).
  rewrite Ht in H2, H3. cbn [default from_option edges dropped GhostInputTrack0] in H2, H3.
  exists t'. rewrite H1, lookup_insert_eq. split; [done|].
  revert H2 H3. generalize (payload_edges line payload) Hlen. intros es Hes.
  destruct (json_bool_member _ _ _ _); intros -> ->; cbn [app length];
    rewrite Nat.sub_0_r, length_take, Hes; split; vm_compute; reflexivity.
Defined.

(** * Labels *)

(** A [remote_name] sets its player's label, the label of a player who is present is
    never lost to the others', no label is lost while the table has room, and what a
    stranger's name adds leaves at most the bound, or the present players and one. *)
Theorem nametag_kept (line : bytes) (p : plugin) (payload : span) (id : bytes)
    (Hp : payload_span line = Some payload) (Hid : read_string line payload "player_id" = id) (Hne : id <> []) :
  let p' := on_remote_name line p in
  nametags p' !! id = Some {| tag_name := read_string line payload "display_name"; tag_color := read_string line payload "color" |} /\
  (forall other, other <> id -> is_Some (remotes p !! other) \/ size (nametags p) < MAX_REMEMBERED_NAMETAGS ->
     nametags p' !! other = nametags p !! other) /\
  (nametags p !! id = None -> size (nametags p') <= Nat.max MAX_REMEMBERED_NAMETAGS (S (size (remotes p)))) /\
  remotes p' = remotes p /\ ghost_inputs p' = ghost_inputs p.
Proof.
  cbv zeta. unfold on_remote_name. rewrite Hp. cbv zeta. rewrite Hid, bool_decide_eq_false_2 by done.
  generalize {| tag_name := read_string line payload "display_name"; tag_color := read_string line payload "color" |}.
  generalize MAX_REMEMBERED_NAMETAGS. intros bound tag. cbn.
  destruct (Nat.leb_spec bound (size (nametags p))) as [Hfull|Hroom]; cbn [andb].
  2:{ split_and!; [by rewrite lookup_insert_eq|intros; by rewrite lookup_insert_ne| |done|done].
      intros Hn. rewrite map_size_insert_None by done. lia. }
  destruct (nametags p !! id) as [old|] eqn:Eo; cbn.
  { split_and!; [by rewrite lookup_insert_eq|intros; by rewrite lookup_insert_ne|done|done|done]. }
  split_and!; [by rewrite lookup_insert_eq| | |done|done].
  - intros other Hother [Hin|?]; [|lia]. rewrite lookup_insert_ne by done.
    destruct (nametags p !! other) as [tg|] eqn:Et.
    + apply map_lookup_filter_Some. by split.
    + apply map_lookup_filter_None. by left.
  - intros _. rewrite map_size_insert_None by (apply map_lookup_filter_None; by left).
    assert (size (filter (fun kv : bytes * Nametag => is_Some (remotes p !! kv.1)) (nametags p)) <= size (remotes p)) as Hle.
    { rewrite <- !size_dom. apply subseteq_size. intros k [v Hk]%elem_of_dom.
      apply map_lookup_filter_Some in Hk as [_ Hr]. by apply elem_of_dom. }
    lia.
Qed.

(** A label for the peer of the sample run. *)
Example nametag_kept_witness :
  let line := js "{'type':'remote_name','payload':{'player_id':'p1','display_name':'Sybil','color':'#ff00ff'}}" in
  nametags (on_remote_name line sample_plugin) !! str "p1"
    = Some {| tag_name := str "Sybil"; tag_color := str "#ff00ff" |}.
Proof.
  intros line. found (fun pl => (read_string line pl "player_id", read_string line pl "display_name", read_string line pl "color")) in (payload_span line)
    is (str "p1", str "Sybil", str "#ff00ff") as (payload & E & Hx). injection Hx as Hid Hn Hc.
  pose proof (proj1 (nametag_kept line sample_plugin payload (str "p1") E Hid ltac:(done))) as H.
  rewrite Hn, Hc in H. exact H.
Defined.

(** * A despawn *)

(** The calls of a release, part by part. *)
Definition pawn_gone (env : release_env) (g : RemoteGhost) (actor : Z) : engine_call :=
  if destroy_reflected env actor then DestroyActor actor
  else ParkActor actor (let '(x, y, _) := target_pos (wire_state g) in (x, y, DESPAWN_PARK_Z)) (target_rot (wire_state g)).
Definition destroys (env : release_env) (actors : list Z) : list engine_call :=
  map DestroyActor (filter (fun a => destroy_reflected env a = true) actors).
Definition rigs_of (env : release_env) (owner : Z) : list Z :=
  (filter (fun rig : Z * option Z => rig.2 = Some owner) (camera_rigs env)).*1.
(** The actors of a peer that go before its pawn. *)
Definition actors_before (env : release_env) (g : RemoteGhost) : list Z :=
  option_list (weapon_actor (engine_objects g)) ++
  match ghost (engine_objects g) with Some actor => option_list (ai_controller env actor) ++ rigs_of env actor | None => [] end.

Lemma destroys_app env xs ys : destroys env (xs ++ ys) = destroys env xs ++ destroys env ys.
Proof. unfold destroys. by rewrite list.filter_app, map_app. Qed.

Lemma destroys_option env o : match o with Some a => destroy_actor env a | None => [] end = destroys env (option_list o).
Proof. destruct o as [a|]; [|done]. unfold destroys, destroy_actor. cbn. by destruct (destroy_reflected env a). Qed.

Lemma destroys_rigs env owner : destroy_camera_rigs_owned_by env owner = destroys env (rigs_of env owner).
Proof.
  unfold destroy_camera_rigs_owned_by, rigs_of. induction (camera_rigs env) as [|[rig o] rigs IH]; [done|]. cbn [map concat fst snd].
  rewrite IH, filter_cons. cbn [snd]. case_bool_decide as Ho; [rewrite decide_True by done|by rewrite decide_False by done].
  cbn [fmap list_fmap fst]. change (rig :: _) with ([rig] ++ (filter (fun r : Z * option Z => r.2 = Some owner) rigs).*1).
  rewrite destroys_app. f_equal. exact (destroys_option env (Some rig)).
Qed.

Lemma release_calls env id p g :
  remotes p !! id = Some g ->
  (release_ghost env id p).2
    = destroy_world_spawned_components env (stranded (engine_objects g)) ++ destroys env (actors_before env g)
      ++ map (pawn_gone env g) (option_list (ghost (engine_objects g))) /\
  hijacked_actors (release_ghost env id p).1
    = hijacked_actors p ∖ list_to_set (option_list (ghost (engine_objects g))).
Proof.
  intros Eg. unfold release_ghost, actors_before, pawn_gone. rewrite Eg. cbv zeta. rewrite release_handles_fields.
  generalize (destroy_world_spawned_components env (stranded (engine_objects g))). intros cs.
  generalize (of_Z (-1)). generalize (release_latches (latches g)). intros l v.
  cbn [GHOST_DESTROY_ORPHAN_CAMERA_RIGS GHOST_DESTROY_ON_DESPAWN andb].
  destruct (target_pos (wire_state g)) as [[x y] z]. destruct p, (engine_objects g) as [gh ? wa ? ? ? ? ? ? ? ? ? ? ? ? ?].
  cbn -[difference destroys destroy_camera_rigs_owned_by destroy_actor].
  destruct wa as [wa|], gh as [a|]; cbn -[difference destroys destroy_camera_rigs_owned_by destroy_actor];
    rewrite ?(destroys_option env (ai_controller env a)), ?destroys_rigs, ?destroys_app;
    rewrite ?(destroys_option env (Some wa) : destroy_actor env wa = destroys env [wa]);
    split; rewrite ?app_nil_r, <- ?app_assoc, ?difference_empty_L, ?union_empty_r_L; try done.
  all: try (by unfold destroy_actor; destruct (destroy_reflected env a)).
  pose proof (destroys_app env [wa] (option_list (ai_controller env a) ++ rigs_of env a)) as Ha. cbn [app] in Ha.
  rewrite Ha, destroys_app, <- !app_assoc. by unfold destroy_actor; destruct (destroy_reflected env a).
Qed.

(** The calls on a component. *)
Definition component_of (call : engine_call) : option Z :=
  match call with HideComponent c | StopComponent c _ | DestroyComponent c => Some c | _ => None end.

Lemma disposed_components env cs call :
  call ∈ destroy_world_spawned_components env cs <->
  exists c, Some c ∈ cs /\ c ∈ live_components env /\ call ∈ dispose_component env c.
Proof.
  unfold destroy_world_spawned_components. rewrite list_elem_of_In, in_concat. setoid_rewrite in_map_iff. split.
  - intros (xs & (c & <- & Hc) & Hx). apply list_elem_of_In, list_elem_of_filter in Hc as [Hl Hc].
    apply list_elem_of_omap in Hc as (o & Ho & E). simpl in E. subst o. exists c. split_and!; [done..|]. by apply list_elem_of_In.
  - intros (c & Hc & Hl & Hx). exists (dispose_component env c). split; [|by apply list_elem_of_In]. exists c. split; [done|].
    apply list_elem_of_In, list_elem_of_filter. split; [done|]. apply list_elem_of_omap. by exists (Some c).
Qed.

Lemma dispose_spec env c call :
  call ∈ dispose_component env c <->
  call = HideComponent c \/ (exists f, stop_function env c = Some f /\ call = StopComponent c f) \/
  (destroy_found env c = true /\ call = DestroyComponent c).
Proof.
  unfold dispose_component. rewrite elem_of_cons, elem_of_app. destruct (stop_function env c) as [f|], (destroy_found env c); cbn;
    rewrite ?list_elem_of_singleton, ?elem_of_nil; naive_solver.
Qed.

Lemma destroys_elem env actors call : call ∈ destroys env actors <-> exists a, call = DestroyActor a /\ a ∈ actors /\ destroy_reflected env a = true.
Proof.
  unfold destroys. rewrite list_elem_of_In, in_map_iff. split.
  - intros (a & <- & H). apply list_elem_of_In, list_elem_of_filter in H as [H1 H2]. eauto.
  - intros (a & -> & H1 & H2). exists a. split; [done|]. apply list_elem_of_In, list_elem_of_filter. by split.
Qed.

Lemma option_elem (o : option Z) a : a ∈ option_list o <-> o = Some a.
Proof. destruct o; cbn; [rewrite list_elem_of_singleton|rewrite elem_of_nil]; naive_solver. Qed.

Lemma rigs_elem env owner rig : rig ∈ rigs_of env owner <-> (rig, Some owner) ∈ camera_rigs env.
Proof.
  unfold rigs_of. rewrite list_elem_of_fmap. setoid_rewrite list_elem_of_filter. split.
  - intros ([r o] & -> & E & H). cbn in *. by subst o.
  - intros H. by exists (rig, Some owner).
Qed.

(** The components of a peer that live in the world and not on its pawn. *)
Definition world_component (h : handles) (c : Z) : Prop :=
  weapon_glow_component h = Some c \/ projectile_component h = Some c \/
  (exists k, vfx_components h !! k = Some c) \/ c ∈ recent_one_shot_components h.

Lemma stranded_component h c : Some c ∈ stranded h <-> world_component h c.
Proof.
  unfold stranded, world_component. rewrite !elem_of_app, !list_elem_of_In, !in_map_iff. cbn [In]. split.
  - intros [[E|[E|[]]]|[(kv & E & Hin)|(c' & E & Hin)]]; [by left|by right; left|right; right; left|right; right; right].
    + destruct kv as [k v]. exists k. apply list_elem_of_In, elem_of_map_to_list in Hin. cbn in E. by simplify_eq.
    + by simplify_eq.
  - intros [E|[E|[[k E]|E]]]; [left; by left|left; right; by left|right; left|right; right].
    + exists (k, c). split; [done|]. by apply list_elem_of_In, elem_of_map_to_list.
    + by exists c.
Qed.

(** C21: a despawn leaves nothing of the player but its label, which is kept whatever the
    comment on it says.  The entry and the input track are gone and the others untouched.
    Of the effects that would outlast the pawn, each that is still alive is hidden, stopped
    with whichever stop it has, and destroyed where a function to do it is found (where
    none is, it is left hidden and stopped); no other component is touched.  The peer's
    sword, the pawn's AI controller and the camera rigs the pawn owns are destroyed, each
    where it has K2_DestroyActor; then, last of all the calls, the pawn is destroyed, or
    parked under the world where it has none; and no other actor is destroyed. *)
Theorem despawn_disposes (env : release_env) (line : bytes) (p : plugin) (payload : span) (id : bytes) (g : RemoteGhost)
    (Hp : payload_span line = Some payload) (Hid : read_string line payload "player_id" = id) (Hne : id <> [])
    (Hg : remotes p !! id = Some g) :
  let '(p', calls) := on_despawn_remote env line p in
  let h := engine_objects g in
  remotes p' = delete id (remotes p) /\ ghost_inputs p' = delete id (ghost_inputs p) /\ nametags p' = nametags p /\
  (forall c, HideComponent c ∈ calls <-> world_component h c /\ c ∈ live_components env) /\
  (forall c f, StopComponent c f ∈ calls <-> world_component h c /\ c ∈ live_components env /\ stop_function env c = Some f) /\
  (forall c, DestroyComponent c ∈ calls <-> world_component h c /\ c ∈ live_components env /\ destroy_found env c = true) /\
  (forall pawn, ghost h = Some pawn -> pawn ∉ hijacked_actors p' /\
     exists before, calls = before ++ [
       if destroy_reflected env pawn then DestroyActor pawn
       else ParkActor pawn (let '(x, y, _) := target_pos (wire_state g) in (x, y, DESPAWN_PARK_Z)) (target_rot (wire_state g))]) /\
  (forall a, DestroyActor a ∈ calls <-> destroy_reflected env a = true /\
     (weapon_actor h = Some a \/
      exists pawn, ghost h = Some pawn /\ (a = pawn \/ ai_controller env pawn = Some a \/ (a, Some pawn) ∈ camera_rigs env))).
Proof.
  unfold on_despawn_remote. rewrite Hp. cbv zeta. rewrite Hid, bool_decide_eq_false_2 by done.
  destruct (release_entry env id p g Hg) as (g' & E1 & _ & E2 & E3). destruct (release_calls env id p g Hg) as [E4 E5].
  destruct (release_ghost env id p) as [p' calls]. cbn [fst snd] in *. subst calls.
  cbn -[destroy_world_spawned_components stranded destroys difference]. rewrite E1, E2, E3, E5, delete_insert_eq.
  assert (forall call, call ∈ destroy_world_spawned_components env (stranded (engine_objects g)) ++ destroys env (actors_before env g)
            ++ map (pawn_gone env g) (option_list (ghost (engine_objects g))) <->
          (exists c, world_component (engine_objects g) c /\ c ∈ live_components env /\ call ∈ dispose_component env c) \/
          (exists a, call = DestroyActor a /\ a ∈ actors_before env g /\ destroy_reflected env a = true) \/
          (exists pawn, ghost (engine_objects g) = Some pawn /\ call = pawn_gone env g pawn)) as Hin.
  { intros call. rewrite !elem_of_app, disposed_components, destroys_elem. setoid_rewrite stranded_component.
    assert (call ∈ map (pawn_gone env g) (option_list (ghost (engine_objects g))) <->
            exists pawn, ghost (engine_objects g) = Some pawn /\ call = pawn_gone env g pawn) as ->; [|done].
    destruct (ghost (engine_objects g)) as [pawn|]; cbn; rewrite ?list_elem_of_singleton, ?elem_of_nil; naive_solver. }
  assert (forall pawn, component_of (pawn_gone env g pawn) = None) as Hpawn by (intros; unfold pawn_gone; by destruct (destroy_reflected env pawn)).
  split_and!; try done.
  - intros c. rewrite Hin. setoid_rewrite dispose_spec. split.
    + intros [(c' & Hw & Hl & H)|[(a & ? & _)|(pawn & _ & E)]]; [naive_solver|done|by specialize (Hpawn pawn); rewrite <- E in Hpawn].
    + intros [Hw Hl]. left. exists c. split_and!; [done..|by left].
  - intros c f. rewrite Hin. setoid_rewrite dispose_spec. split.
    + intros [(c' & Hw & Hl & H)|[(a & ? & _)|(pawn & _ & E)]]; [naive_solver|done|by specialize (Hpawn pawn); rewrite <- E in Hpawn].
    + intros (Hw & Hl & Hf). left. exists c. split_and!; [done..|right; left; by exists f].
  - intros c. rewrite Hin. setoid_rewrite dispose_spec. split.
    + intros [(c' & Hw & Hl & H)|[(a & ? & _)|(pawn & _ & E)]]; [naive_solver|done|by specialize (Hpawn pawn); rewrite <- E in Hpawn].
    + intros (Hw & Hl & Hf). left. exists c. split_and!; [done..|right; by right].
  - intros pawn E. rewrite E. cbn -[difference destroys destroy_world_spawned_components]. split; [set_solver|].
    eexists. by rewrite app_assoc.
  - intros a. rewrite Hin. setoid_rewrite dispose_spec. unfold actors_before. split.
    + intros [(c' & _ & _ & H)|[(a' & [= <-] & Ha & Hr)|(pawn & Eg & E)]]; [naive_solver| |].
      * split; [done|]. apply elem_of_app in Ha as [Ha|Ha]; [left; by apply option_elem|right].
        destruct (ghost _) as [pawn|]; [|by apply elem_of_nil in Ha]. exists pawn. split; [done|].
        apply elem_of_app in Ha as [Ha|Ha]; [right; left; by apply option_elem|].
        right; right. by apply rigs_elem.
      * unfold pawn_gone in E. destruct (destroy_reflected env pawn) eqn:Er; [|done]. injection E as ->.
        split; [done|]. right. exists pawn. split; [done|by left].
    + intros [Hr [Hw|(pawn & Eg & [->|H])]]; [right; left|right; right|right; left].
      * exists a. rewrite Hw. cbn. split_and!; [done| |done]. by left.
      * exists pawn. unfold pawn_gone. by rewrite Hr.
      * exists a. rewrite Eg. split_and!; [done| |done]. apply elem_of_app. right. apply elem_of_app.
        destruct H as [H|H]; [left; by apply option_elem|right; by apply rigs_elem].
Qed.

(** The peer of the sample run leaves. *)
Example despawn_disposes_witness :
  let line := js "{'type':'despawn_remote','payload':{'player_id':'p1'}}" in
  exists g, remotes sample_plugin !! str "p1" = Some g /\
    remotes (on_despawn_remote sample_release line sample_plugin).1 = delete (str "p1") (remotes sample_plugin) /\
    DestroyActor 77 ∈ (on_despawn_remote sample_release line sample_plugin).2 /\
    DestroyActor 78 ∈ (on_despawn_remote sample_release line sample_plugin).2.
Proof.
  intros line. found (fun pl => read_string line pl "player_id") in (payload_span line)
    is (str "p1") as (payload & E & Hid).
  found (fun g => ghost (engine_objects g)) in (remotes sample_plugin !! str "p1")
    is (Some 77%Z) as (g & Eg & Hpawn).
  exists g. split; [exact Eg|].
  pose proof (despawn_disposes sample_release line sample_plugin payload (str "p1") g E Hid ltac:(done) Eg) as H.
  destruct (on_despawn_remote sample_release line sample_plugin) as [p' calls]. cbv zeta in H.
  destruct H as (H1 & _ & _ & _ & _ & _ & _ & H2). split; [exact H1|].
  split; apply H2; (split; [done|]); right; exists 77%Z; (split; [exact Hpawn|]); [by left|right; right; by left].
Defined.

(** * A lost bridge *)

(** Releasing one ghost after another leaves none of those named, and revives none. *)
Lemma parked_ghosts env ids p :
  let p' := (release_all_ghosts_parked env ids p).1 in
  ghost_inputs p' = ∅ /\
  (forall id, is_Some (remotes p' !! id) <-> is_Some (remotes p !! id)) /\
  (forall id, id ∈ ids \/ ghost (engine_objects (remote_of id p)) = None -> ghost (engine_objects (remote_of id p')) = None).
Proof.
  cbv zeta. unfold release_all_ghosts_parked.
  match goal with |- context [foldl ?f _ _] => set (step := f) end.
  assert (forall ids p calls, let p' := (foldl step (p, calls) ids).1 in
    (forall id, is_Some (remotes p' !! id) <-> is_Some (remotes p !! id)) /\
    (forall id, id ∈ ids \/ ghost (engine_objects (remote_of id p)) = None -> ghost (engine_objects (remote_of id p')) = None)) as H.
  { clear. intros ids. induction ids as [|i ids IH]; intros p calls; cbv zeta.
    { split; [done|]. intros id [H|H]; [by apply elem_of_nil in H|exact H]. }
    cbn [foldl]. destruct (ghost (engine_objects (remote_of i p))) as [a|] eqn:Ea.
    2:{ assert (step (p, calls) i = (p, calls)) as Es by (unfold step; by rewrite Ea). rewrite Es. destruct (IH p calls) as [H1 H2].
        split; [done|]. intros id [[->|Hin]%elem_of_cons|Hn]; auto. }
    assert (exists g, remotes p !! i = Some g) as [g Eg].
    { unfold remote_of in Ea. destruct (remotes p !! i) as [g|]; [by exists g|done]. }
    destruct (release_entry env i p g Eg) as (g' & E1 & Hr & _).
    assert (exists calls', step (p, calls) i = ((release_ghost env i p).1, calls')) as [calls' Es].
    { unfold step. rewrite Ea. destruct (release_ghost env i p). by eexists. }
    rewrite Es. destruct (IH (release_ghost env i p).1 calls') as [H1 H2].
    assert (ghost (engine_objects g') = None) as Hn by (rewrite (rl_handles _ _ Hr); done).
    assert (forall id, ghost (engine_objects (remote_of id p)) = None \/ id = i ->
              ghost (engine_objects (remote_of id (release_ghost env i p).1)) = None) as Hk.
    { intros id H. unfold remote_of. rewrite E1. destruct (decide (id = i)) as [->|Hne]; [by rewrite lookup_insert_eq|].
      rewrite lookup_insert_ne by done. destruct H as [H|H]; [exact H|done]. }
    split.
    - intros id. rewrite H1, E1. destruct (decide (id = i)) as [->|Hne]; [by rewrite lookup_insert_eq, Eg|by rewrite lookup_insert_ne].
    - intros id [[->|Hin]%elem_of_cons|Hid]; apply H2; auto. }
  specialize (H ids p []). destruct (foldl step (p, []) ids) as [p' calls]. cbn in *. destruct H. by split_and!.
Qed.

Lemma updates_cleanup envs s :
  bridge_disconnect_cleanup_pending s = true -> bridge_disconnect_cleanup_pending (updates envs s) = true.
Proof.
  revert s. induction envs as [|env envs IH]; intros s Hs; [done|]. cbn [updates foldl]. apply IH.
  by rewrite (proj1 (on_update_cleanup env s)), Hs.
Qed.

(** C18: a bridge that was ready and is lost leaves no ghost behind: once an update has seen
    it, and however many more updates run before the game thread drains, the drain ends
    with no ghost held by any entry, no input track, and the cleanup done. *)
Theorem lost_bridge_releases (env : update_env) (envs : list update_env) (d : drain_env) (s : update_state) (p : plugin)
    (Hwas : bridge_was_connected s = true) (Hlost : is_ready (bridge (connect_stage env s).1) = false)
    (Hids : let s1 := updates (env :: envs) s in
            forall id, is_Some (remotes (handle_lines (d_line d)
              (collapse_latest_render_remote (pending_incoming_lines s1)) p).1 !! id) -> id ∈ d_ids d) :
  let '(s2, p2, _) := drain d (updates (env :: envs) s) p in
  map_Forall (fun _ g => ghost (engine_objects g) = None) (remotes p2) /\ ghost_inputs p2 = ∅ /\
  bridge_disconnect_cleanup_pending s2 = false /\ pending_incoming_lines s2 = [].
Proof.
  assert (bridge_disconnect_cleanup_pending (updates (env :: envs) s) = true) as Hc.
  { cbn [updates foldl]. apply updates_cleanup. rewrite (proj1 (on_update_cleanup env s)), Hwas. cbn [andb].
    assert (is_ready (bridge (connect_stage env s).1)
      = is_ready (tick_connect (net env) (clock_hello env) (clock_cool env) (clock_sweep env) (bridge s))) as E.
    { unfold connect_stage. cbv zeta. set (c := tick_connect _ _ _ _ _). destruct (drive_launcher _ _ _) as [l st].
      destruct (bridge_was_connected _ && _); cbn; by destruct c. }
    rewrite <- E, Hlost. apply orb_true_r. }
  cbv zeta in Hids. revert Hc Hids. generalize (updates (env :: envs) s). intros s1 Hc Hids. unfold drain. rewrite Hc. cbv zeta.
  destruct (handle_lines (d_line d) (collapse_latest_render_remote (pending_incoming_lines s1)) p) as [p1 calls].
  cbn [fst] in Hids. destruct (parked_ghosts (l_release (d_line d)) (d_ids d) p1) as (H1 & H2 & H3).
  destruct (release_all_ghosts_parked (l_release (d_line d)) (d_ids d) p1) as [p2 calls']. cbn [fst] in *.
  split_and!; [|done|by destruct s1..]. intros id g Eg.
  assert (is_Some (remotes p1 !! id)) as Hin by (apply H2; by exists g). specialize (H3 id (or_introl (Hids id Hin))).
  unfold remote_of in H3. by rewrite Eg in H3.
Qed.

(** The core goes away after the sample run; the cooldown of the hello is long over. *)
Example lost_bridge_releases_witness :
  let s := start_state <| bridge_was_connected := true |> in
  let env := sample_update answers_down [] (ms 2000) in
  let d := DrainEnv sample_line_env [str "p1"] in
  bool_decide (is_Some (remotes sample_plugin !! str "p1")) = true /\
  map_Forall (fun _ g => ghost (engine_objects g) = None)
    (remotes (drain d (updates [env] s) sample_plugin).1.2).
Proof.
  intros s env d. split; [by vm_compute|].
  assert (pending_incoming_lines (updates [env] s) = []) as Ep by (by vm_compute).
  pose proof (lost_bridge_releases env [] d s sample_plugin eq_refl ltac:(by vm_compute)) as H. cbv zeta in H.
  rewrite Ep in H. destruct (drain d (updates [env] s) sample_plugin) as [[s2 p2] calls]. apply H. clear H.
  intros id Hid. change (id ∈ [str "p1"]). apply elem_of_dom in Hid.
  assert (elements (dom (remotes sample_plugin)) = [str "p1"]) as <- by (by vm_compute).
  apply elem_of_elements. exact Hid.
Defined.

(** * A number no bound holds *)

Definition tall_line : bytes :=
  js "{'type':'render_remote','payload':{'player_id':'p1','state':{'position':[310,41,6],'orientation':[0,90,0],"
  ++ js "'extras':{'capsule_half':1e999}}}}".

(** The peer's capsule is clamped where the capsule itself is set, but not where the
    mesh's offset is: a peer that sends 1e999 has an infinite offset written to its
    ghost. *)
Lemma base_offset_unbounded :
  Pose (PoseMirror.WriteNumber 77 "BaseTranslationOffset" (DInf true))
  ∈ (tick_remote sample_remote_env (str "p1") (handle_bridge_line sample_line_env tall_line plugin0).1).2.
Proof. apply list_elem_of_lookup. exists 6. by vm_compute. Qed.
