(* ===== verification/CallProps.v ===== *)
(** The calls the plugin makes by reflection: no block is overrun, whatever a turn or the
    widgets ask ([asks_keep_blocks]); a placement and a chaser's touch arrive as they were
    asked ([teleport_delivers], [touch_delivers]); two helpers need nothing of the layout
    ([guarded_helpers]).  A concrete engine, checked by a boolean test, satisfies what is
    assumed. *)
From S2P Require Import Prelude Float64 FloatFacts JsonString RemoteGhost Frames Reflect EngineCalls StructCalls TextCalls HudCalls.
From S2P Require Import VfxMirror PeerProps DistanceTier PoseMirror InputDisplay Nametag Hud RemoteTick SafeCalls SystemProps.
From Stdlib Require Import ZArith.

(** * Several stores *)

Fixpoint stores (ws : list (Z * cell)) (b : frame) : option frame :=
  match ws with [] => Some b | (o, c) :: ws => b ← store o c b; stores ws b end.

Definition slots_apart (s t : Z * cell) : Prop := apart s.1 (width s.2) t.1 (width t.2).

(** No two overlap. *)
Fixpoint disjoint_slots (ws : list (Z * cell)) : Prop :=
  match ws with [] => True | w :: ws => Forall (slots_apart w) ws /\ disjoint_slots ws end.

Definition holds (b : frame) (s : Z * cell) : Prop := load s.1 (width s.2) b = Some (un_le (cell_bytes s.2)).

Lemma stores_keep ws b b' s :
  stores ws b = Some b' -> (0 <= s.1)%Z -> Forall (fun w => slots_apart s w) ws -> holds b s -> holds b' s.
Proof.
  revert b. induction ws as [|[o c] ws IH]; intros b; cbn; [by intros [= <-]|].
  destruct (store o c b) as [b1|] eqn:E; [|done]. cbn. intros Es Hs [Ha Hws]%list.Forall_cons Hb.
  apply (IH b1); [done..|]. unfold holds. rewrite (load_store_other o c b b1); [done|done|lia|apply width_nonneg|].
  unfold slots_apart, apart in *. cbn in Ha. lia.
Qed.

(** What was stored is there. *)
Lemma stores_hold ws b b' :
  stores ws b = Some b' -> disjoint_slots ws -> Forall (fun s : Z * cell => 0 <= s.1)%Z ws -> Forall (holds b') ws.
Proof.
  revert b. induction ws as [|[o c] ws IH]; intros b; cbn; [done|].
  destruct (store o c b) as [b1|] eqn:E; [|done]. cbn. intros Es [Ha Hd] [H0 Hws]%list.Forall_cons.
  apply list.Forall_cons. split; [|by eapply IH].
  eapply stores_keep; [exact Es|done|exact Ha|]. unfold holds. cbn. by eapply load_store.
Qed.

Lemma holds_f64 b o d : holds b (o, F64 d) -> wf_double d = true -> of_bits64 <$> load o 8 b = Some d.
Proof.
  unfold holds. cbn. intros -> Hd. cbn. f_equal. rewrite un_le_le, bits64_mod by (done || lia). by apply of_bits64_bits64.
Qed.

Lemma holds_byte b o z : holds b (o, U8 z) -> (0 <= z < 256)%Z -> load o 1 b = Some z.
Proof. unfold holds. cbn. intros -> Hz. f_equal. rewrite un_le_le by lia. apply Z.mod_small. lia. Qed.

Lemma holds_ptr b o z : holds b (o, Ptr z) -> (0 <= z < 2 ^ 64)%Z -> load o 8 b = Some z.
Proof. unfold holds. cbn. intros -> Hz. f_equal. rewrite un_le_le by lia. by apply Z.mod_small. Qed.

(** * A checked engine *)

Section Table.
Context (table : list (string * ufunction)).

Definition entry (n : string) : option ufunction := snd <$> List.find (fun x => bool_decide (x.1 = n)) table.

(** The layouts of a table; what it is asked changes nothing. *)
Definition engine_of : engine := {|
  class_of := Some; function_of _ n := entry n; static_function := entry; static_object _ := Some 77%Z;
  find_property ps n := List.find (named n) ps; below_5_0 := false;
  set_bool p base v b := store (base + poffset p) (bool_cell v) b;
  fname _ := 5%Z;
  fvector '(x, y, z) := le 8 (bits64 x) ++ le 8 (bits64 y) ++ le 8 (bits64 z);
  ftext _ := le 24 0; process_event _ _ b := b |}.

Fixpoint fits_b (room : Z) (p : fproperty) : bool :=
  match p with
  | FProperty _ c o s st =>
      (0 <=? o)%Z && (0 <? s)%Z && (o + s <=? room)%Z
      && match kind_width c with Some w => (s =? w)%Z | None => true end
      && match st with
         | Some fields =>
             forallb (fits_b s) fields
             && forallb (fun q => implb (bool_decide (pname q ∈ REALS)) (8 <=? psize q)%Z) fields
         | None => true
         end
  end.

Fixpoint real_b (p : fproperty) : bool :=
  match p with
  | FProperty _ _ _ _ (Some fields) => forallb (fun q => bool_decide (pclass q ∉ INTEGERS) && real_b q) fields
  | _ => true
  end.

Definition signed_b (n : string) (f : ufunction) : bool :=
  forallb (fun '(m, sig) => implb (bool_decide (m = n)) (forallb (fun '(q, w) =>
    forallb (fun p => implb (bool_decide (pname p = q)) (w <=? psize p)%Z) (params f)) sig)) SIGNATURES.

Definition entry_b (x : string * ufunction) : bool :=
  let (n, f) := x in
  (0 <=? parms_size f)%Z && (parms_size f <? 2 ^ 16)%Z && forallb (fits_b (parms_size f)) (params f) && signed_b n f
  && implb (bool_decide (n ∈ PLACING)) (forallb (fun p => implb (bool_decide (pname p ∈ VECTORS)) (bool_decide (pclass p = "StructProperty"%string))) (params f))
  && implb (bool_decide (n = "SetSkeletalMeshAsset"%string)) (match params f with p :: _ => (8 <=? psize p)%Z | [] => true end)
  && implb (bool_decide (n ∈ HUD_FUNCTIONS)) (forallb real_b (params f)).

Lemma fits_b_sound p : forall room, fits_b room p = true -> fits engine_of room p.
Proof.
  induction p as [n c o s st IH] using fproperty_deep. intros room. cbn [fits_b]. rewrite !andb_true_iff.
  intros [[[[Ho Hs] Hr] Hk] Hst]. constructor; cbn; [lia..| |].
  - intros w Hw. rewrite Hw in Hk. lia.
  - intros fields ->. apply andb_true_iff in Hst as [Hf Hre]. rewrite forallb_forall in Hf, Hre.
    specialize (IH fields eq_refl). rewrite list.Forall_forall in IH. split.
    + apply list.Forall_forall. intros q Hq. apply IH; [done|]. by apply Hf, list_elem_of_In.
    + intros m q Hm [Hin Hn]%List.find_some. specialize (Hre q Hin).
      apply bool_decide_eq_true in Hn. rewrite Hn, bool_decide_eq_true_2 in Hre by done. cbn in Hre. unfold real_width. cbn. lia.
Qed.

Lemma real_b_sound p : real_b p = true -> real_members p.
Proof.
  induction p as [n c o s st IH] using fproperty_deep. destruct st as [fields|]; constructor; cbn; [|done]. intros ? [= <-].
  specialize (IH fields eq_refl). cbn [real_b] in H. rewrite forallb_forall in H. rewrite list.Forall_forall in *.
  intros q Hq. specialize (H q (proj1 (list_elem_of_In _ _) Hq)). apply andb_true_iff in H as [H1 H2].
  split; [by apply bool_decide_eq_true in H1|by apply IH].
Qed.

Lemma entry_in n f : entry n = Some f -> (n, f) ∈ table.
Proof.
  unfold entry. destruct (List.find _ table) as [[m g]|] eqn:E; [|done]. cbn. intros [= <-].
  apply List.find_some in E as [Hin Hm]. apply bool_decide_eq_true in Hm. cbn in Hm. subst. by apply list_elem_of_In.
Qed.

Lemma find_named_in ps n p : List.find (named n) ps = Some p -> p ∈ ps /\ pname p = n.
Proof. intros [Hin H]%List.find_some. apply bool_decide_eq_true in H. split; [by apply list_elem_of_In|done]. Qed.

(** A table that passes the test is an engine as assumed. *)
Lemma checked_engine : forallb entry_b table = true -> Reflected engine_of.
Proof.
  intros Ht. rewrite forallb_forall in Ht.
  assert (forall n f, entry n = Some f -> entry_b (n, f) = true) as He
    by (intros n f E%entry_in; by apply Ht, list_elem_of_In).
  assert (forall n f, entry n = Some f -> laid_out engine_of f) as Hl.
  { intros n f E%He. unfold entry_b in E. rewrite !andb_true_iff in E. destruct E as [[[[[[H1 H2] H3] _] _] _] _].
    split; [lia|]. rewrite forallb_forall in H3. apply list.Forall_forall. intros p Hp. apply fits_b_sound, H3. by apply list_elem_of_In. }
  split; cbn.
  - intros _ n f E. by eapply Hl.
  - intros n f E. by eapply Hl.
  - intros _ n f sig q w E Hs Hq p Hp. assert (entry_b (n, f) = true) as Hb by (destruct E; by apply He).
    unfold entry_b in Hb. rewrite !andb_true_iff in Hb. destruct Hb as [[[[_ Hsig] _] _] _].
    unfold signed_b in Hsig. rewrite forallb_forall in Hsig. specialize (Hsig (n, sig) (proj1 (list_elem_of_In _ _) Hs)).
    cbn in Hsig. rewrite bool_decide_eq_true_2 in Hsig by done. cbn [implb] in Hsig. rewrite forallb_forall in Hsig.
    specialize (Hsig (q, w) (proj1 (list_elem_of_In _ _) Hq)). cbn in Hsig. rewrite forallb_forall in Hsig.
    assert (p ∈ params f /\ pname p = q) as [Hin Hn] by (destruct Hp as [?|?%find_named_in]; done).
    specialize (Hsig p (proj1 (list_elem_of_In _ _) Hin)). rewrite bool_decide_eq_true_2 in Hsig by done. cbn in Hsig. lia.
  - intros n f q p Hn E%He Hq [Hin Hp]%find_named_in. unfold entry_b in E. rewrite !andb_true_iff in E.
    destruct E as [[[_ Hb] _] _]. rewrite bool_decide_eq_true_2 in Hb by done. cbn in Hb. rewrite forallb_forall in Hb.
    specialize (Hb p (proj1 (list_elem_of_In _ _) Hin)). rewrite bool_decide_eq_true_2 in Hb by (by rewrite Hp). cbn in Hb.
    by apply bool_decide_eq_true in Hb.
  - intros _ f p ps E%He Ep. unfold entry_b in E. rewrite !andb_true_iff in E. destruct E as [[_ Hb] _].
    rewrite bool_decide_eq_true_2, Ep in Hb by done. cbn in Hb. lia.
  - intros _ n f Hn E%He. unfold entry_b in E. rewrite !andb_true_iff in E. destruct E as [_ Hb].
    rewrite bool_decide_eq_true_2 in Hb by done. cbn in Hb. rewrite forallb_forall in Hb. apply list.Forall_forall.
    intros p Hp. apply real_b_sound, Hb. by apply list_elem_of_In.
  - intros ps n p [Hin _]%find_named_in. done.
  - intros p base v b room [? ? ? ? ?] Hb Hr. apply store_ok; cbn; lia.
  - intros [[x y] z]. rewrite !length_app. pose proof (length_cell_bytes (F64 x)). pose proof (length_cell_bytes (F64 y)).
    pose proof (length_cell_bytes (F64 z)). cbn in *. lia.
  - intros w. pose proof (length_Z_to_little_endian 24 8 0). unfold le. lia.
  - done.
Qed.
End Table.

(** The functions of a build, by their names or paths: some of those the plugin calls. *)
Definition plain (n c : string) (o s : Z) : fproperty := FProperty n c o s None.
Definition reals (n : string) (o : Z) (names : list string) : fproperty :=
  FProperty n "StructProperty" o (8 * Z.of_nat (length names))
    (Some (imap (fun i m => plain m "DoubleProperty" (8 * Z.of_nat i) 8) names)).

Definition ACTOR_PATH : string := "/Script/Engine.Actor:K2_SetActorLocationAndRotation".
Definition sample_place : ufunction := UFunction "K2_SetActorLocationAndRotation" 64
  [reals "NewLocation" 0 ["X"; "Y"; "Z"]%string; reals "NewRotation" 24 ["Pitch"; "Yaw"; "Roll"]%string;
   plain "bSweep" "BoolProperty" 48 1; plain "bTeleport" "BoolProperty" 56 1].

Definition sample_hitbox : fproperty :=
  FProperty "HitboxInfo" "StructProperty" 8 64 (Some
    [plain "Damage_2_A" "DoubleProperty" 0 8; plain "HitStopDuration_4_B" "DoubleProperty" 8 8; plain "HitSound_6_C" "ObjectProperty" 16 8;
     plain "hitboxSocketName_8_D" "NameProperty" 24 8; reals "lengthRadiusHalfHeight_10_E" 32 ["X"; "Y"; "Z"]%string;
     plain "DamageType_12_F" "ByteProperty" 56 1]).
Definition sample_try : ufunction := UFunction "BPI_TryDamage" 120
  [plain "Attacker" "ObjectProperty" 0 8; sample_hitbox; reals "ForwardVector" 72 ["X"; "Y"; "Z"]%string;
   reals "QueryLocation" 96 ["X"; "Y"; "Z"]%string].

Definition sample_table : list (string * ufunction) :=
  [(ACTOR_PATH, sample_place); ("BPI_TryDamage", sample_try);
   ("SetVisibility", UFunction "SetVisibility" 2 [plain "bNewVisibility" "BoolProperty" 0 1; plain "bPropagateToChildren" "BoolProperty" 1 1]);
   ("SetIntensity", UFunction "SetIntensity" 4 [plain "NewIntensity" "FloatProperty" 0 4]);
   ("Montage_Stop", UFunction "Montage_Stop" 16 [plain "InBlendOutTime" "FloatProperty" 0 4; plain "Montage" "ObjectProperty" 8 8]);
   ("SetBrushColor", UFunction "SetBrushColor" 16 [FProperty "InBrushColor" "StructProperty" 0 16
      (Some [plain "R" "FloatProperty" 0 4; plain "G" "FloatProperty" 4 4; plain "B" "FloatProperty" 8 4; plain "A" "FloatProperty" 12 4])]);
   ("AddToViewport", UFunction "AddToViewport" 4 [plain "ZOrder" "IntProperty" 0 4])]%string.

Lemma sample_reflected : Reflected (engine_of sample_table).
Proof. by apply checked_engine. Qed.

(** * Every block is kept to *)

Section Keep.
Context (e : engine) {R : Reflected e} (has_text_slot has_scale : Z -> bool) (own_world_size : Z -> option double).

Local Abbreviation good := (good_statics (e := e)).

Lemma safe_ask st c : good st -> safe (perform_pose e st c) good.
Proof.
  intros Hst. destruct c; cbn [perform_pose]; try (by apply safe_ret);
    try (eapply (safe_bind _ _ trivially); [|intros; by apply safe_ret]).
  - case_match; (eapply (safe_bind _ _ trivially); [|intros; by apply safe_ret]).
    + apply safe_on_function; [done|]. intros c f _ _ Hf. case_match; [by apply safe_ret|].
      eapply safe_bind; [by apply safe_call_zeroed|]. intros. by apply safe_ret.
    + apply safe_on_function; [done|]. intros c f _ _ Hf.
      eapply safe_bind; [by apply safe_call_zeroed|]. intros. by apply safe_ret.
  - apply safe_on_function; [done|]. intros c f _ _ Hf. by apply safe_byte.
  - apply safe_on_function; [done|]. intros c f _ _ Hf. case_match; [by apply safe_ret|].
    eapply safe_block; [done|]. intros b1 Hb1. eapply (safe_store_at f); [lia|cbn; lia|done|]. intros b2 Hb2.
    eapply (safe_store_at f); [lia|cbn; lia|done|]. intros. apply safe_processed; [done|]. intros. by apply safe_ret.
  - apply safe_set_actor.
  - apply safe_set_visibility.
  - unfold call_set_skeletal_mesh_asset. cbv zeta. apply safe_on_function; [done|]. intros c f _ E Hf.
    eapply (safe_bind _ _ trivially); [|intros; by apply safe_ret].
    apply safe_call_with; [done| |done]. intros b Hb. apply (store_first_ok (e := e)); [done| |done].
    intros p Hp. cbn. destruct (params f) as [|q ps] eqn:Ep; [done|]. injection Hp as ->. by eapply r_mesh.
  - apply safe_on_function; [done|]. intros c f _ _ Hf. eapply safe_quietly. by apply (safe_first_byte _ _ _ _ _ trivially).
  - apply safe_set_light_intensity.
  - apply safe_on_function; [done|]. intros c f _ _ Hf. eapply (safe_bind _ _ trivially); [|intros; by apply safe_ret].
    apply bare_ok.
  - apply safe_montage_play.
  - apply safe_montage_stop.
  - apply safe_on_function; [done|]. intros c f _ _ Hf. case_match; [by apply safe_ret|].
    eapply safe_block; [done|]. intros b Hb. eapply (safe_filled f).
    { apply (store_at_ok (e := e)); [done| |done]. by apply (byte_room (e := e)). }
    intros x Hx. apply safe_processed; [done|]. intros. by apply safe_ret.
  - eapply safe_bind; [by apply safe_try_damage|]. intros r Hr. by apply safe_ret.
Qed.

Lemma safe_fx a c : safe (perform_fx e a c) trivially.
Proof.
  destruct c; cbn [perform_fx].
  - eapply safe_quietly, safe_spawn_located.
  - eapply safe_quietly, safe_spawn_attached.
  - by apply safe_ret.
  - apply safe_set_component_world.
  - apply safe_set_visibility.
  - apply safe_on_function; [done|]. intros o f _ _ _. apply bare_ok.
  - apply (safe_quietly _ trivially). apply safe_on_function; [done|]. intros o f _ _ Hf. by apply safe_byte.
  - apply (safe_quietly _ trivially). apply safe_on_function; [done|]. intros o f _ _ Hf. case_match; [by apply safe_ret|].
    eapply safe_bind; [by apply safe_call_zeroed|]. intros. by apply safe_ret.
Qed.

Lemma safe_tag c : safe (perform_tag e has_text_slot has_scale own_world_size c) trivially.
Proof.
  destruct c; cbn [perform_tag].
  - eapply safe_quietly, safe_set_text.
  - eapply safe_quietly, safe_center.
  - eapply safe_quietly, safe_float_setter.
  - eapply safe_quietly, safe_relative_scale.
  - eapply safe_quietly, safe_set_vector.
  - apply safe_set_text_transform.
  - apply safe_refresh.
Qed.

Lemma safe_turn a panel st cs :
  good st -> safe (perform_turn e has_text_slot has_scale own_world_size a panel st cs) good.
Proof.
  revert st. induction cs as [|c cs IH]; intros st Hst; [by apply safe_ret|].
  cbn [perform_turn]. apply (safe_bind _ _ good); [|intros; by apply IH]. destruct c; cbn [perform_ghost].
  - eapply safe_bind; [by apply safe_fx|]. intros. by apply safe_ret.
  - by apply safe_ask.
  - eapply safe_bind; [by apply safe_tag|]. intros. by apply safe_ret.
  - eapply safe_bind; [by apply safe_set_hud_text|]. intros. by apply safe_ret.
Qed.

Lemma safe_tiers cs : safe (perform_tiers e cs) trivially.
Proof.
  induction cs as [|c cs IH]; [by apply safe_ret|]. cbn [perform_tiers]. eapply (safe_bind _ _ trivially); [|by intros].
  destruct c; [by apply safe_ret|]. apply (safe_quietly _ trivially). apply safe_on_function; [done|].
  intros o f _ _ Hf. by apply safe_byte.
Qed.

Lemma safe_widgets cs : safe (perform_widgets e cs) trivially.
Proof.
  induction cs as [|c cs IH]; [by apply safe_ret|]. cbn [perform_widgets]. eapply safe_bind; [apply safe_perform_hud|]. by intros.
Qed.
End Keep.

(** * What arrives *)

Lemma stores_inside ws b :
  Forall (fun s : Z * cell => within s.1 (width s.2) b = true) ws -> exists b', stores ws b = Some b'.
Proof.
  revert b. induction ws as [|[o c] ws IH]; intros b; [by eexists|]. intros [Hw Hws]%list.Forall_cons. cbn [stores].
  destruct (store_inside o c b Hw) as [b1 E]. rewrite E. cbn. apply IH. eapply list.Forall_impl; [exact Hws|].
  intros s. rewrite !within_iff, (length_store o c b b1 E). done.
Qed.

Lemma stores_app ws us b : stores (ws ++ us) b = (b ← stores ws b; stores us b).
Proof. revert b. induction ws as [|[o c] ws IH]; intros b; cbn; [done|]. destruct (store o c b); [apply IH|done]. Qed.

(** Slots of a block that do not overlap. *)
Record tiles (size : Z) (ws : list (Z * cell)) : Prop := Tiles {
  t_inside : Forall (fun s : Z * cell => within s.1 (width s.2) (zeroed size) = true) ws;
  t_disjoint : disjoint_slots ws
}.

Definition apart_b (s t : Z * cell) : bool := ((s.1 + width s.2 <=? t.1) || (t.1 + width t.2 <=? s.1))%Z.
Fixpoint disjoint_b (ws : list (Z * cell)) : bool :=
  match ws with [] => true | w :: ws => forallb (apart_b w) ws && disjoint_b ws end.
Definition tiles_b (size : Z) (ws : list (Z * cell)) : bool :=
  (0 <=? size)%Z && forallb (fun s => (0 <=? s.1) && (s.1 + width s.2 <=? size))%Z ws && disjoint_b ws.

Lemma tiles_b_sound size ws : tiles_b size ws = true -> tiles size ws.
Proof.
  unfold tiles_b. rewrite !andb_true_iff. intros [[Hs Hi] Hd]. rewrite forallb_forall in Hi. split.
  - apply list.Forall_forall. intros s Hin%list_elem_of_In. apply Hi in Hin. apply within_iff. rewrite length_zeroed. lia.
  - revert Hd. clear. induction ws as [|w ws IH]; [done|]. cbn. rewrite andb_true_iff, forallb_forall. intros [Hw Hd].
    split; [|by apply IH]. apply list.Forall_forall. intros t Ht%list_elem_of_In. specialize (Hw t Ht).
    unfold apart_b in Hw. unfold slots_apart, apart. lia.
Qed.

Lemma tiled size ws : tiles size ws -> exists b, stores ws (zeroed size) = Some b /\ Forall (holds b) ws.
Proof.
  intros [Hi Hd]. destruct (stores_inside ws _ Hi) as [b Hb]. exists b. split; [done|].
  eapply stores_hold; [exact Hb|done|]. eapply list.Forall_impl; [exact Hi|]. intros s Hs%within_iff. lia.
Qed.

Definition triple_slots (base : Z) (at3 : Z * Z * Z) (v : vec3) : list (Z * cell) :=
  let '(a1, a2, a3) := at3 in let '(x, y, z) := v in [(base + a1, F64 x); (base + a2, F64 y); (base + a3, F64 z)]%Z.

Lemma write_triple_stores e base at3 v b :
  below_5_0 e = false -> write_triple_at e base at3 v b = stores (triple_slots base at3 v) b.
Proof.
  intros Hv. destruct at3 as [[a1 a2] a3], v as [[x y] z]. unfold write_triple_at, real_cell. rewrite Hv. cbn.
  destruct (store _ _ b) as [b1|]; [cbn|done]. destruct (store _ _ b1) as [b2|]; [cbn|done]. by destruct (store _ _ b2).
Qed.

Definition real_at (b : frame) (o : Z) : option double := of_bits64 <$> load o 8 b.
Definition triple_read (b : frame) (base : Z) (at3 : Z * Z * Z) : option vec3 :=
  let '(a1, a2, a3) := at3 in
  x ← real_at b (base + a1); y ← real_at b (base + a2); z ← real_at b (base + a3); Some (x, y, z).

Definition wf_vec (v : vec3) : Prop := let '(x, y, z) := v in wf_double x && wf_double y && wf_double z = true.

Lemma triple_holds b base at3 v : Forall (holds b) (triple_slots base at3 v) -> wf_vec v -> triple_read b base at3 = Some v.
Proof.
  destruct at3 as [[a1 a2] a3], v as [[x y] z]. cbn. rewrite !list.Forall_cons, !andb_true_iff.
  intros (H1 & H2 & H3 & _) [[W1 W2] W3]. unfold real_at.
  by rewrite (holds_f64 _ _ _ H1 W1), (holds_f64 _ _ _ H2 W2), (holds_f64 _ _ _ H3 W3).
Qed.

(** Where [K2_SetActorLocationAndRotation] takes its arguments. *)
Record place_layout (e : engine) (f : ufunction) (at_loc at_rot : Z * Z * Z) (o_sweep o_teleport : Z) : Prop := PlaceLayout {
  pl_location : exists p, param e f "NewLocation" = Some p /\ room_for p f = Some true
                          /\ resolve_struct_triple e p "X" "Y" "Z" = Some (Some at_loc);
  pl_rotation : exists p, param e f "NewRotation" = Some p /\ room_for p f = Some true
                          /\ resolve_struct_triple e p "Pitch" "Yaw" "Roll" = Some (Some at_rot);
  pl_sweep : poffset <$> param e f "bSweep" = Some o_sweep;
  pl_teleport : poffset <$> param e f "bTeleport" = Some o_teleport
}.

Definition place_slots (at_loc at_rot : Z * Z * Z) (o_sweep o_teleport : Z) (loc rot : vec3) : list (Z * cell) :=
  triple_slots 0 at_loc loc ++ triple_slots 0 at_rot rot ++ [(o_sweep, U8 0); (o_teleport, U8 1)].

Lemma place_stores e l r f at_loc at_rot loc rot b :
  below_5_0 e = false ->
  resolve_struct_triple e l "X" "Y" "Z" = Some (Some at_loc) -> resolve_struct_triple e r "Pitch" "Yaw" "Roll" = Some (Some at_rot) ->
  f = triple_slots 0 at_loc loc ++ triple_slots 0 at_rot rot ->
  write_place_static e l r loc rot b = (fun b => (b, true)) <$> stores f b.
Proof.
  intros Hv Hl Hr ->. unfold write_place_static. rewrite Hl, Hr, stores_app, write_triple_stores by done.
  destruct (stores (triple_slots 0 at_loc loc) b) as [b1|]; [cbn|done]. rewrite write_triple_stores by done.
  by destruct (stores (triple_slots 0 at_rot rot) b1).
Qed.

(** C6: a placement arrives: on an engine with 64-bit vectors, where the parameters of
    [K2_SetActorLocationAndRotation] lie apart inside its block, the helper makes one call
    on the actor, and reading the block where the function takes its arguments gives back
    the location, the rotation, no sweep and a teleport. *)
Theorem teleport_delivers (e : engine) (f : ufunction) (at_loc at_rot : Z * Z * Z) (o_sweep o_teleport a : Z) (loc rot : vec3)
    (Hf : static_function e ACTOR_PATH = Some f) (Hv : below_5_0 e = false) (Hp : (0 <= parms_size f)%Z)
    (Hl : place_layout e f at_loc at_rot o_sweep o_teleport)
    (Ht : tiles (parms_size f) (place_slots at_loc at_rot o_sweep o_teleport loc rot))
    (Hloc : wf_vec loc) (Hrot : wf_vec rot) :
  exists b, call_set_actor_location_and_rotation e (Some a) loc rot = Some ([Process a f (Some b)], tt)
    /\ triple_read b 0 at_loc = Some loc /\ triple_read b 0 at_rot = Some rot
    /\ load o_sweep 1 b = Some 0%Z /\ load o_teleport 1 b = Some 1%Z.
Proof.
  destruct Hl as [(l & El & Rl & Ll) (r & Er & Rr & Lr) Es Et]. destruct (tiled _ _ Ht) as (b & Eb & Hb). exists b. split.
  - unfold call_set_actor_location_and_rotation, on_static. unfold ACTOR_PATH in Hf. rewrite Hf. unfold place_swept. rewrite El, Er.
    destruct (param e f "bSweep") as [sp|]; [|done]. destruct (param e f "bTeleport") as [tp|]; [|done].
    cbn in Es, Et. injection Es as <-. injection Et as <-. rewrite Rl. cbn. rewrite Rr. cbn.
    unfold new_frame. destruct (Z.ltb_spec (parms_size f) 0); [lia|]. cbn.
    rewrite (place_stores e l r _ at_loc at_rot loc rot _ Hv Ll Lr eq_refl).
    unfold place_slots in Eb. rewrite app_assoc, stores_app in Eb. destruct (stores _ (zeroed _)) as [b1|]; [|done]. cbn in *.
    destruct (store (poffset sp) _ b1) as [b2|]; [|done]. cbn in *. destruct (store (poffset tp) _ b2) as [b3|]; [|done].
    cbn in *. by injection Eb as <-.
  - unfold place_slots in Hb. rewrite !Forall_app, !list.Forall_cons in Hb. destruct Hb as (H1 & H2 & H3 & H4 & _).
    split; [by eapply triple_holds|]. split; [by eapply triple_holds|]. split; by apply holds_byte.
Qed.

Lemma teleport_delivers_witness :
  exists b, call_set_actor_location_and_rotation (engine_of sample_table) (Some 9%Z) (of_Z 1, lit 25 10, of_Z (-3)) (dzero, of_Z 90, dzero)
              = Some ([Process 9 sample_place (Some b)], tt)
    /\ triple_read b 0 (0, 8, 16)%Z = Some (of_Z 1, lit 25 10, of_Z (-3)) /\ triple_read b 0 (24, 32, 40)%Z = Some (dzero, of_Z 90, dzero)
    /\ load 48 1 b = Some 0%Z /\ load 56 1 b = Some 1%Z.
Proof.
  apply (teleport_delivers (engine_of sample_table) sample_place (0, 8, 16)%Z (24, 32, 40)%Z 48 56 9); [by vm_compute..| | | |].
  - split; [exists (reals "NewLocation" 0 ["X"; "Y"; "Z"]%string)|exists (reals "NewRotation" 24 ["Pitch"; "Yaw"; "Roll"]%string)| |]; done.
  - by apply tiles_b_sound.
  - by vm_compute.
  - by vm_compute.
Defined.

(** Where [BPI_TryDamage] takes its vectors. *)
Record try_layout (e : engine) (l : TryDamageLayout) (at_extent at_forward at_query : Z * Z * Z) : Prop := TryLaid {
  tl_extent : resolve_struct_triple e (l_extent l) "X" "Y" "Z" = Some (Some at_extent);
  tl_forward : resolve_struct_triple e (l_forward l) "X" "Y" "Z" = Some (Some at_forward);
  tl_query : resolve_struct_triple e (l_query l) "X" "Y" "Z" = Some (Some at_query)
}.

Definition EXTENT : vec3 := (of_Z 120, of_Z 80, of_Z 80).

Definition try_slots (e : engine) (l : TryDamageLayout) (at_extent at_forward at_query : Z * Z * Z) (attacker : Z) (cue : option Z)
    (damage : double) (forward query : vec3) : list (Z * cell) :=
  let info := poffset (l_hitbox l) in
  [(poffset (l_attacker l), Ptr attacker); (info + poffset (l_damage l), F64 damage); (info + poffset (l_hit_stop l), F64 (lit 1 5));
   (info + poffset (l_sound l), ptr cue); (info + poffset (l_socket l), Ptr (fname e "handSlot_RSocket"));
   (info + poffset (l_damage_type l), U8 5)]%Z
  ++ triple_slots info at_extent EXTENT ++ triple_slots 0 at_forward forward ++ triple_slots 0 at_query query.

Lemma write_vector_stores e base p at3 v b :
  below_5_0 e = false -> resolve_struct_triple e p "X" "Y" "Z" = Some (Some at3) ->
  write_vector_param e base p v b = (fun b => (b, true)) <$> stores (triple_slots base at3 v) b.
Proof.
  intros Hv Hr. unfold write_vector_param, write_struct_triple. rewrite Hr, write_triple_stores by done. by destruct (stores _ b).
Qed.

Lemma try_frame_stores e l at_extent at_forward at_query attacker cue damage forward query b :
  below_5_0 e = false -> try_layout e l at_extent at_forward at_query ->
  try_damage_frame e l attacker cue damage forward query b
  = (fun b => (b, true)) <$> stores (try_slots e l at_extent at_forward at_query attacker cue damage forward query) b.
Proof.
  intros Hv [Le Lf Lq]. unfold try_damage_frame, try_slots. rewrite stores_app. cbn [stores].
  do 6 (destruct (store _ _ _) as [?|]; [cbn [mbind option_bind]|done]). rewrite stores_app.
  rewrite (write_vector_stores e _ _ _ _ _ Hv Le). fold EXTENT. destruct (stores (triple_slots _ at_extent _) _); [cbn|done]. rewrite stores_app.
  rewrite (write_vector_stores e _ _ _ _ _ Hv Lf). destruct (stores (triple_slots _ at_forward _) _); [cbn|done].
  apply write_vector_stores; done.
Qed.

(** A chaser's touch arrives: where the members of [BPI_TryDamage]'s layout lie apart
    inside its block, a helper whose remembered layout is the actor's makes one call, and
    the block carries the attacker, the damage, the hit stop of 0.2, damage type 5, the
    extent 120 by 80 by 80 and the two vectors; the layout is remembered for the class. *)
Theorem touch_delivers (e : engine) (st : try_statics) (l : TryDamageLayout) (at_extent at_forward at_query : Z * Z * Z) (o attacker : Z)
    (damage : double) (forward query : vec3)
    (Hst : class_of e o = layout_class st -> layout st = Some l) (Hr : resolve_try_damage_layout e o = Some (Some l))
    (Hv : below_5_0 e = false) (Hp : (0 <= parms_size (l_function l))%Z) (Hl : try_layout e l at_extent at_forward at_query)
    (Ht : forall cue, tiles (parms_size (l_function l)) (try_slots e l at_extent at_forward at_query attacker cue damage forward query))
    (Ha : (0 <= attacker < 2 ^ 64)%Z) (Hd : wf_double damage = true) (Hf : wf_vec forward) (Hq : wf_vec query) :
  exists b st', call_try_damage e st (Some o) (Some attacker) damage forward query = Some ([Process o (l_function l) (Some b)], (st', true))
    /\ layout st' = Some l /\ layout_class st' = class_of e o
    /\ load (poffset (l_attacker l)) 8 b = Some attacker
    /\ real_at b (poffset (l_hitbox l) + poffset (l_damage l)) = Some damage
    /\ real_at b (poffset (l_hitbox l) + poffset (l_hit_stop l)) = Some (lit 1 5)
    /\ load (poffset (l_hitbox l) + poffset (l_damage_type l)) 1 b = Some 5%Z
    /\ triple_read b (poffset (l_hitbox l)) at_extent = Some EXTENT
    /\ triple_read b 0 at_forward = Some forward /\ triple_read b 0 at_query = Some query.
Proof.
  set (cue := match contact_cue st with Some c => Some c | None => static_object e CONTACT_CUE end).
  destruct (tiled _ _ (Ht cue)) as (b & Eb & Hb). exists b, (TryStatics (class_of e o) (Some l) cue). split; [|].
  - unfold call_try_damage. cbv zeta.
    assert ((if bool_decide (class_of e o = layout_class st) then ret st
             else x <- attempt (resolve_try_damage_layout e o) ;; ret (TryStatics (class_of e o) x (contact_cue st)))
            = Some ([], TryStatics (class_of e o) (Some l) (contact_cue st))) as ->.
    { case_bool_decide as Hc; [|by rewrite Hr]. rewrite Hc, <- (Hst Hc). by destruct st. }
    cbn [bind layout contact_cue layout_class]. fold cue. unfold new_frame.
    destruct (Z.ltb_spec (parms_size (l_function l)) 0); [lia|]. cbn [bind ret].
    by rewrite (try_frame_stores e l at_extent at_forward at_query attacker cue damage forward query _ Hv Hl), Eb.
  - unfold try_slots in Hb. rewrite !Forall_app, !list.Forall_cons in Hb.
    destruct Hb as ((H1 & H2 & H3 & _ & _ & H6 & _) & He & Hfw & Hqu).
    split_and!; [done|done|by apply holds_ptr|by apply holds_f64|by apply holds_f64|by apply holds_byte| | |];
      by apply triple_holds.
Qed.

Definition sample_layout : TryDamageLayout :=
  TryLayout sample_try (plain "Attacker" "ObjectProperty" 0 8) sample_hitbox (reals "ForwardVector" 72 ["X"; "Y"; "Z"]%string)
    (reals "QueryLocation" 96 ["X"; "Y"; "Z"]%string) (plain "Damage_2_A" "DoubleProperty" 0 8) (plain "HitStopDuration_4_B" "DoubleProperty" 8 8)
    (plain "HitSound_6_C" "ObjectProperty" 16 8) (plain "hitboxSocketName_8_D" "NameProperty" 24 8)
    (reals "lengthRadiusHalfHeight_10_E" 32 ["X"; "Y"; "Z"]%string) (plain "DamageType_12_F" "ByteProperty" 56 1).

Lemma touch_delivers_witness :
  exists b st', call_try_damage (engine_of sample_table) try_statics_initial (Some 4%Z) (Some 6%Z) (of_Z 2) (of_Z 1, dzero, dzero) (of_Z 7, of_Z 8, of_Z 9)
                  = Some ([Process 4 sample_try (Some b)], (st', true))
    /\ layout st' = Some sample_layout /\ layout_class st' = Some 4%Z
    /\ load 0 8 b = Some 6%Z /\ real_at b (8 + 0) = Some (of_Z 2) /\ real_at b (8 + 8) = Some (lit 1 5) /\ load (8 + 56) 1 b = Some 5%Z
    /\ triple_read b 8 (32, 40, 48)%Z = Some EXTENT
    /\ triple_read b 0 (72, 80, 88)%Z = Some (of_Z 1, dzero, dzero) /\ triple_read b 0 (96, 104, 112)%Z = Some (of_Z 7, of_Z 8, of_Z 9).
Proof.
  apply (touch_delivers (engine_of sample_table) try_statics_initial sample_layout (32, 40, 48)%Z (72, 80, 88)%Z (96, 104, 112)%Z 4 6);
    [done|by vm_compute|done|done|split; by vm_compute| |done|by vm_compute..].
  intros cue. by apply tiles_b_sound.
Defined.

(** C5: no block is overrun.  On an engine that reports its functions as [Reflected] says
    (every parameter inside its function's block and as wide as its kind, and the parameters
    the helpers write untested as wide as the engine declares them), whatever a remote's
    turn, a change of tier and the widgets ask of the helpers, in any order and number, is
    carried out without a store or a read outside a block; every block handed over has the
    size of its function; and the remembered layout of [BPI_TryDamage] stays one of the
    engine's.  The reads of properties, and the constructions of components and widgets, are
    not asks of these lists. *)
Theorem asks_keep_blocks (e : engine) (R : Reflected e) (has_text_slot has_scale : Z -> bool) (own_world_size : Z -> option double)
    (st : try_statics) (a : Z) (panel : option Z) (asks : list ghost_call) (tiers : list tier_call) (widgets : list hud_call)
    (Hst : good_statics (e := e) st) :
  (exists calls st', perform_turn e has_text_slot has_scale own_world_size a panel st asks = Some (calls, st')
     /\ Forall whole calls /\ good_statics (e := e) st')
  /\ (exists calls, perform_tiers e tiers = Some (calls, tt) /\ Forall whole calls)
  /\ exists calls, perform_widgets e widgets = Some (calls, tt) /\ Forall whole calls.
Proof.
  split; [exact (safe_turn e has_text_slot has_scale own_world_size a panel st asks Hst)|].
  split; [destruct (safe_tiers e tiers) as (calls & [] & E & H & _)|destruct (safe_widgets e widgets) as (calls & [] & E & H & _)]; by exists calls.
Qed.

Lemma initial_good e : good_statics (e := e) try_statics_initial.
Proof. by intros l. Qed.

Lemma asks_keep_blocks_witness :
  let asks := (tick_remote sample_remote_env (str "p1") sample_plugin).2 in
  (20 <=? length asks) = true /\
  (exists calls st', perform_turn (engine_of sample_table) (fun _ => true) (fun _ => true) (fun _ => None) 9 (Some 8%Z) try_statics_initial asks
                       = Some (calls, st') /\ Forall whole calls /\ good_statics (e := engine_of sample_table) st')
  /\ (exists calls, perform_tiers (engine_of sample_table) [DistanceTier.CallBool 9 "SetActorHiddenInGame" true] = Some (calls, tt)
       /\ Forall whole calls)
  /\ exists calls, perform_widgets (engine_of sample_table) [BrushColor 3 (of_Z 1, dzero, dzero) (of_Z 1); AddToViewport 3 100; RemoveFromParent 3] = Some (calls, tt) /\ Forall whole calls.
Proof.
  cbv zeta. split; [by vm_compute|]. apply (asks_keep_blocks (engine_of sample_table) sample_reflected). apply initial_good.
Defined.

(** * Helpers that need nothing of the layout *)

Lemma visibility_bytes_ok size values ps b :
  Z.of_nat (length b) = size -> exists b', visibility_bytes size values ps b = Some b' /\ length b' = length b.
Proof.
  intros Hb. revert ps b Hb. induction values as [|v values IH]; intros ps b Hb; [by exists b|]. destruct ps as [|p ps]; [by exists b|].
  cbn [visibility_bytes]. destruct (_ && _) eqn:E.
  - destruct (store_ok (poffset p) (bool_cell v) b) as (b1 & -> & L); [lia|cbn; lia|]. destruct (IH ps b1) as (b' & -> & L'); [lia|].
    exists b'. split; [done|lia].
  - by apply IH.
Qed.

(** Two helpers keep to their block whatever reflection reports: [SetVisibility] for
    every layout, [SetIntensity] for every layout whose first parameter's offset leaves
    the sum of its test inside an [int32_t]. *)
Theorem guarded_helpers (e : engine) (o : Z) (visible propagate : bool) (v : double)
    (Hoff : forall f p ps, function_of e o "SetIntensity" = Some f -> params f = p :: ps -> (poffset p < 2 ^ 31 - 4)%Z) :
  (exists calls, call_set_visibility e (Some o) visible propagate = Some (calls, tt) /\ Forall whole calls)
  /\ exists calls, call_set_light_intensity e (Some o) v = Some (calls, tt) /\ Forall whole calls.
Proof.
  unfold call_set_visibility, call_set_light_intensity, on_function. split.
  - destruct (function_of e o "SetVisibility") as [f|]; [|by exists []].
    destruct (Z.ltb_spec (parms_size f) 1) as [|Hs]; [by exists []|]. unfold new_frame.
    destruct (Z.ltb_spec (parms_size f) 0); [lia|]. cbn [bind ret].
    destruct (visibility_bytes_ok (parms_size f) [visible; propagate] (params f) (zeroed (parms_size f))) as (b & E & L);
      [rewrite length_zeroed; lia|]. rewrite E. cbn. case_bool_decide; [by exists []|]. cbn. eexists. split; [done|].
    apply Forall_singleton. unfold whole. cbn. rewrite L, length_zeroed. lia.
  - destruct (function_of e o "SetIntensity") as [f|] eqn:Ef; [|by exists []].
    destruct (Z.ltb_spec (parms_size f) 4) as [|Hs]; [by exists []|]. unfold new_frame.
    destruct (Z.ltb_spec (parms_size f) 0); [lia|]. cbn [bind ret].
    destruct (params f) as [|p ps] eqn:Ep; [by exists []|]. specialize (Hoff f p ps eq_refl Ep).
    destruct (Z.ltb_spec (poffset p) 0) as [|Ho]; [by exists []|].
    assert (add32 (poffset p) 4 = Some (poffset p + 4)%Z) as -> by (unfold add32; case_match; [done|lia]). cbn.
    destruct (Z.gtb_spec (poffset p + 4) (parms_size f)) as [|Hr]; [by exists []|].
    destruct (store_ok (poffset p) (F32 v) (zeroed (parms_size f))) as (b & E & L); [lia|rewrite length_zeroed; cbn; lia|].
    rewrite E. cbn. eexists. split; [done|]. apply Forall_singleton. unfold whole. cbn. rewrite L, length_zeroed. lia.
Qed.

Lemma guarded_helpers_witness :
  (exists calls, call_set_visibility (engine_of sample_table) (Some 4%Z) true true = Some (calls, tt) /\ Forall whole calls)
  /\ exists calls, call_set_light_intensity (engine_of sample_table) (Some 4%Z) (of_Z 3) = Some (calls, tt) /\ Forall whole calls.
Proof.
  apply (guarded_helpers (engine_of sample_table) 4). intros f p ps E Ep. vm_compute in E. injection E as <-. cbn in Ep.
  injection Ep as <- _. cbn. lia.
Defined.

(** * What does not hold *)

(** A layout remembered is used for the class's address whatever the engine now reports for
    it: nothing drops it when a level ends, unlike the caches of the same kind. *)
Lemma touch_stale_layout e st l o attacker damage forward query calls r :
  class_of e o = layout_class st -> layout st = Some l ->
  call_try_damage e st (Some o) (Some attacker) damage forward query = Some (calls, r) ->
  Forall (fun c => what c = l_function l) calls.
Proof.
  intros Hc Hl. unfold call_try_damage. cbv zeta. rewrite bool_decide_eq_true_2 by done. cbn [bind ret]. rewrite Hl.
  unfold new_frame. destruct (parms_size (l_function l) <? 0)%Z; [done|]. cbn [bind ret app].
  destruct (try_damage_frame _ _ _ _ _ _ _ _) as [[b ok]|]; [|done]. cbn. destruct ok; cbn; intros [= <- _]; by repeat constructor.
Qed.

(** The size is tested, the offset is not. *)
Lemma offset_past_the_block :
  call_set_collision_object_type
    (engine_of [("SetCollisionObjectType"%string, UFunction "SetCollisionObjectType" 1 [plain "NewType" "ByteProperty" 4 1])]) (Some 3%Z) 2 = None.
Proof. done. Qed.

(** The light manager's functions are given 256 bytes whatever they take. *)
Lemma lights_ignore_size e o f :
  function_of e o "FixLights" = Some f ->
  call_fix_lights e (Some o) "FixLights" = Some ([Process o f (Some (zeroed 256))], true).
Proof. intros H. unfold call_fix_lights, on_function. by rewrite H. Qed.
