(* ===== verification/SpawnSetup.v ===== *)
(** Plugin.cpp, [ensure_ghost_spawned]: what is done around [SpawnActor] and to the pawn it
    returns, and the two helpers that strip its parts and its ambient particles.

    The reflected fields are a store, [memory]: a name that resolves on an object has an
    entry.  A reflected call is the helper's of EngineCalls.v; what the engine then does to
    the fields is the argument [after], what [SpawnActor] does to them the argument [spawn].
    [setup] is the whole of it, [spawn_ghost] the setup with Lifecycle.v's bookkeeping.
    Compiled out, and left out: the timelines' stop, the hurtbox, the solidity, the
    traces and the censuses. *)
From S2P Require Import Prelude Float64 FloatFacts JsonString Frames Reflect EngineCalls RemoteGhost Lifecycle VfxMirror PeerProps.
From S2P Require Import PoseMirror GhostSweeps SafeCalls SystemProps CallProps.
From Stdlib Require Import ZArith.

(** * The words of a toggle's file *)

Definition ident (c : ascii) : bool := Ascii.eqb c "_" || is_digit c || in_range "a" "z" c || in_range "A" "Z" c.

(** Whether the word at [found] ends on both sides. *)
Definition word_at (body word : bytes) (found : nat) : bool :=
  let end_ := found + length word in
  ((found =? 0) || negb (ident (char_at body (found - 1)))) && ((length body <=? end_) || negb (ident (char_at body end_))).

Definition word_body (body word : bytes) (at_ : nat) : nat + bool :=
  match find_from body word at_ with
  | None => inr false
  | Some found => if word_at body word found then inr true else inl (found + 1)
  end.

Definition dev_toggle_word (body word : bytes) : bool :=
  if bool_decide (word = []) then false else loop (fun at_ => S (length body) - at_) (word_body body word) false 0.

(** [body] is the file's text, empty where there is no file. *)
Definition dev_toggle_contains (body needle : bytes) : bool :=
  let body := map to_lower body in dev_toggle_word body (str "all") || dev_toggle_word body needle.

(** * The fields *)

Definition slot : Type := Z * string.
Record memory := Memory {
  m_objects : gmap slot (option Z);   (* read through a UObject** *)
  m_bytes : gmap slot Z;              (* a whole byte, a bool read as one *)
  m_flags : gmap slot bool;           (* a bool, by its mask *)
  m_reals : gmap slot double
}.
#[export] Instance memory_eta : Eta memory := fun r => Memory (m_objects r) (m_bytes r) (m_flags r) (m_reals r).

(** A property that resolves, and what it holds; one that also is set. *)
Definition object_slot (m : memory) (o : Z) (n : string) : option (option Z) := m_objects m !! (o, n).
Definition object_at (m : memory) (o : Z) (n : string) : option Z := mjoin (object_slot m o n).
(** Written only where the name resolves. *)
Definition put {A} (s : gmap slot A) (k : slot) (v : A) : gmap slot A := match s !! k with Some _ => <[k := v]> s | None => s end.
Definition set_object (k : slot) (v : option Z) (m : memory) : memory := m <| m_objects := put (m_objects m) k v |>.
Definition set_byte (k : slot) (v : Z) (m : memory) : memory := m <| m_bytes := put (m_bytes m) k v |>.
Definition set_flag (k : slot) (v : bool) (m : memory) : memory := m <| m_flags := put (m_flags m) k v |>.
Definition set_real (k : slot) (v : double) (m : memory) : memory := m <| m_reals := put (m_reals m) k v |>.

(** * What is asked of the engine *)

Inductive deed := Asked (c : process) | Collides (actor : Z) (on : bool).

(** What is known of the objects besides their fields. *)
Record spawn_world := SpawnWorld {
  w_class : Z -> option string;                    (* GetClassPrivate()->GetName() *)
  w_outer : Z -> option Z;                         (* GetOuterPrivate *)
  w_full_name : Z -> bytes;
  w_children : Z -> option (list (option Z));      (* AttachChildren *)
  w_cdo : option Z;                                (* the pawn class's default object *)
  w_pawn_class : Z;
  w_child_actor_components : list (Z * bytes);     (* FindAllOf, without its null entries, and their names *)
  w_outers : Z -> list Z;                          (* the chain of outers *)
  w_controller : Z; w_pawn : Z                     (* the local player's *)
}.

Record spawn_toggles := SpawnToggles {
  t_vertexlight_killed : bool; t_no_overlap : bool; t_keeps_custom_depth : bool;
  t_bare : bool; t_parts_keep : bool; t_charmove_off : bool;
  t_decouple_off : bytes                           (* decouple_off.txt *)
}.

Section Setup.
Context (e : engine) (after : process -> memory -> memory).

(** A step: the deeds, what it answers, the fields; [None] undefined. *)
Definition W (A : Type) : Type := memory -> option (list deed * A * memory).
Definition wret {A} (a : A) : W A := fun m => Some ([], a, m).
Definition wbind {A B} (x : W A) (k : A -> W B) : W B := fun m =>
  match x m with
  | Some (c, a, m) => match k a m with Some (c', b, m) => Some (c ++ c', b, m) | None => None end
  | None => None
  end.
Notation "x <~ m ;; k" := (wbind m (fun x => k)) (at level 100, m at next level, k at level 200, right associativity).
Notation "m ;~ k" := (wbind m (fun _ => k)) (at level 100, k at level 200, right associativity).

Definition look {A} (f : memory -> A) : W A := fun m => Some ([], f m, m).
Definition edit (f : memory -> memory) : W unit := fun m => Some ([], tt, f m).
Definition deeds (cs : list deed) : W unit := fun m => Some (cs, tt, m).
(** A helper, and what its calls do to the fields. *)
Definition call {A} (x : M A) : W A := fun m =>
  match x with Some (cs, a) => Some (map Asked cs, a, foldl (fun m c => after c m) m cs) | None => None end.
(** [if (UObject** p = ...; p && *p)]. *)
Definition with_object {A} (o : Z) (n : string) (missing : A) (k : Z -> W A) : W A :=
  found <~ look (fun m => object_at m o n) ;; match found with Some c => k c | None => wret missing end.
Fixpoint for_each {A} (xs : list A) (k : A -> W unit) : W unit :=
  match xs with [] => wret tt | x :: xs => k x ;~ for_each xs k end.

Context (w : spawn_world) (t : spawn_toggles).

(** * Around SpawnActor *)

(** The template's actor component: the default object's, or the archetype found by its
    name and its outers. *)
Definition light_archetype : option Z :=
  fst <$> List.find (fun x => contains x.2 (str "PlayerLight") && contains x.2 (str "GEN_VARIABLE")
                              && bool_decide (w_pawn_class w ∈ w_outers w x.1)) (w_child_actor_components w).
Definition light_template (m : memory) : option Z :=
  match cdo ← w_cdo w; object_at m cdo "PlayerLight" with Some c => Some c | None => light_archetype end.

(** What was changed, to be put back. *)
Record saved := Saved { s_overlap : option (Z * bool); s_light : option (Z * option Z); s_possess : option (Z * Z) }.

Definition suppress_possess : W (option (Z * Z)) :=
  match w_cdo w with
  | None => wret None
  | Some cdo =>
      v <~ look (fun m => m_bytes m !! (cdo, "AutoPossessPlayer"%string)) ;;
      match v with
      | Some v => edit (set_byte (cdo, "AutoPossessPlayer"%string) 0) ;~ wret (Some (cdo, v))
      | None => wret None
      end
  end.

Definition suppress_light : W (option (Z * option Z)) :=
  if t_vertexlight_killed t then
    template <~ look light_template ;;
    match template with
    | None => wret None
    | Some c =>
        v <~ look (fun m => object_slot m c "ChildActorClass") ;;
        match v with
        | Some v => edit (set_object (c, "ChildActorClass"%string) None) ;~ wret (Some (c, v))
        | None => wret None
        end
    end
  else wret None.

Definition suppress_overlap : W (option (Z * bool)) :=
  match w_cdo w with
  | Some cdo =>
      if t_no_overlap t then
        with_object cdo "CapsuleComponent" None (fun cap =>
          v <~ look (fun m => m_flags m !! (cap, "bGenerateOverlapEvents"%string)) ;;
          match v with
          | Some v => edit (set_flag (cap, "bGenerateOverlapEvents"%string) false) ;~ wret (Some (cap, v))
          | None => wret None
          end)
      else wret None
  | None => wret None
  end.

Definition suppress : W saved :=
  possess <~ suppress_possess ;; light <~ suppress_light ;; overlap <~ suppress_overlap ;; wret (Saved overlap light possess).

(** The first two look the property up again, the last writes through the pointer kept. *)
Definition put_back (s : saved) : W unit :=
  edit (fun m => match s_overlap s with Some (c, v) => set_flag (c, "bGenerateOverlapEvents"%string) v m | None => m end) ;~
  edit (fun m => match s_light s with Some (c, v) => set_object (c, "ChildActorClass"%string) v m | None => m end) ;~
  edit (fun m => match s_possess s with
                 | Some (c, v) => m <| m_bytes := <[(c, "AutoPossessPlayer"%string) := v]> (m_bytes m) |>
                 | None => m end).

(** * The pawn's light, its movement, its controller *)

Definition decoupled_off (word : string) : bool := dev_toggle_contains (t_decouple_off t) (str word).

(** The child actor's slot is read again for the destruction. *)
Definition kill_spawn_light (ghost : Z) : W unit :=
  if t_vertexlight_killed t then
    with_object ghost "PlayerLight" tt (fun cac => with_object cac "ChildActor" tt (fun child =>
      edit (set_real (child, "Intensity"%string) dzero) ;~
      edit (set_real (child, "Radius"%string) dzero) ;~
      call (on_function e (Some child) "InitializePrameters" tt (fun o f => quietly (process_frame e o f (zeroed 256)))) ;~
      if decoupled_off "lightdestroy" then wret tt
      else child <~ look (fun m => object_at m cac "ChildActor") ;; call (quietly (call_destroy_actor e child))))
  else wret tt.

(** Written through a [bool*]: the whole byte. *)
Definition face_by_hand (ghost : Z) : W unit :=
  with_object ghost "CharacterMovement" tt (fun mv => edit (set_byte (mv, "bOrientRotationToMovement"%string) 0)).

(** Control is taken back only if something took it. *)
Definition hand_back : W unit :=
  held <~ look (fun m => object_slot m (w_controller w) "Pawn") ;;
  if bool_decide (held = Some (Some (w_pawn w))) then wret tt
  else match function_of e (w_controller w) "Possess" with
       | Some f => call (call_ufunction_with_leading_actor_arg e (Some (w_controller w)) (Some f) (Some (w_pawn w)))
       | None => wret tt
       end.

(** * The parts a ghost has no use for *)

Definition tick_off (o : option Z) : W unit := call (quietly (call_bool_ufunction e o "SetComponentTickEnabled" "bEnabled" false)).
Definition tick_off_named (owner : Z) (n : string) : W unit := c <~ look (fun m => object_at m owner n) ;; tick_off c.

Definition stop_controller (c : Z) : W unit :=
  match w_class w c with
  | Some n =>
      if contains (str n) (str "AIController") then
        call (quietly (call_bool_ufunction e (Some c) "SetActorTickEnabled" "bEnabled" false)) ;~
        tick_off_named c "PathFollowingComponent" ;~ tick_off_named c "ActionsComp"
      else wret tt
  | None => wret tt
  end.

Definition strip_ghost_no_use_parts (ghost : Z) : W unit :=
  if t_parts_keep t then wret tt
  else
    with_object ghost "SpringArm1" tt (fun boom => tick_off (Some boom) ;~ call (quietly (call_named_no_arg e (Some boom) "Deactivate"))) ;~
    tick_off_named ghost "DialogueCam" ;~
    tick_off_named ghost "CapsuleComponent" ;~
    with_object ghost "Controller" tt stop_controller ;~
    if t_charmove_off t then tick_off_named ghost "CharacterMovement" else wret tt.

(** * What the clone shares with the player *)

Definition HITBOXES : list string := ["Hit Component 1"; "CollisionComponent"]%string.
Definition DAMAGES : list string := ["lightAttackDamage"; "heavyAttackDamage"; "projectileFullDamage"]%string.
Definition SHARED : list string := ["As MV Game Instance Ref"; "UI_HudRef"; "BP_HpHitable"; "LastHitBy"]%string.

Definition remove_hud (ghost : Z) : W unit :=
  if decoupled_off "hud" then wret tt
  else with_object ghost "UI_HudRef" tt (fun hud => call (on_function e (Some hud) "RemoveFromParent" tt process_bare)).

(** The hit component is stashed where it is the ghost's own. *)
Definition own_of (ghost : Z) (n : string) (v : option Z) (own : option Z) : option Z :=
  match v with
  | Some h => if bool_decide (n = "BP_HpHitable"%string) && bool_decide (w_outer w h = Some ghost) then Some h else own
  | None => own
  end.
Fixpoint clear_refs (ghost : Z) (own : option Z) (names : list string) : W (option Z) :=
  match names with
  | [] => wret own
  | n :: names =>
      v <~ look (fun m => object_slot m ghost n) ;;
      match v with
      | Some v => edit (set_object (ghost, n) None) ;~ clear_refs ghost (own_of ghost n v own) names
      | None => clear_refs ghost own names
      end
  end.

Definition decouple (ghost : Z) : W (option Z) :=
  for_each HITBOXES (fun n => with_object ghost n tt (fun c => call (quietly (disable_component_collision e (Some c))))) ;~
  remove_hud ghost ;~
  for_each DAMAGES (fun n => edit (set_real (ghost, n) dzero)) ;~
  edit (set_byte (ghost, "obtainedProjectile?"%string) 0) ;~
  clear_refs ghost None (if decoupled_off "refs" then [] else SHARED).

(** * Its ambient particles, its meshes *)

(** The fields as GhostSweeps.v's walk reads them. *)
Definition seen (m : memory) : reflection :=
  Reflection (object_at m) (fun _ _ => None) (fun _ _ => None) (fun _ _ => None) (fun o _ => w_children w o) (fun _ _ => false) (fun _ _ => false).

Definition strip_node (node : Z) (found : nat) : W nat :=
  if bool_decide (w_class w node = Some "NiagaraComponent"%string) then
    with_object node "Asset" found (fun asset =>
      if contains (w_full_name w asset) (str "NE_Particles_System") then
        call (call_set_visibility e (Some node) false true) ;~
        call (quietly (call_named_no_arg e (Some node) "Deactivate")) ;~ wret (S found)
      else wret found)
  else wret found.
Fixpoint strip_nodes (nodes : list Z) (found : nat) : W nat :=
  match nodes with [] => wret found | n :: nodes => found <~ strip_node n found ;; strip_nodes nodes found end.

Definition strip_ghost_ambient_particles (ghost : Z) : W bool :=
  owned <~ look (fun m => attach_walk (seen m) false ghost) ;;
  found <~ strip_nodes owned 0 ;; wret (0 <? found).

Definition animate_always (ghost : Z) : W unit :=
  for_each ["Mesh"; "VisualMesh"; "WeaponMesh"]%string (fun n =>
    with_object ghost n tt (fun mesh => edit (set_byte (mesh, "VisibilityBasedAnimTickOption"%string) 1))).

Definition hide_outline (ghost : Z) : W unit :=
  if t_keeps_custom_depth t then wret tt
  else for_each ["VisualMesh"; "WeaponMesh"]%string (fun n =>
         with_object ghost n tt (fun mesh => call (call_set_render_custom_depth e (Some mesh) false))).

(** * The whole *)

Inductive outcome := NoPawn | Untouched (actor : Z) | Dressed (actor : Z) (own : option Z) (stripped : bool).

Definition dress (ghost : Z) : W outcome :=
  kill_spawn_light ghost ;~ face_by_hand ghost ;~ hand_back ;~
  deeds [Collides ghost false] ;~
  strip_ghost_no_use_parts ghost ;~
  own <~ decouple ghost ;;
  stripped <~ strip_ghost_ambient_particles ghost ;;
  animate_always ghost ;~ hide_outline ghost ;~
  wret (Dressed ghost own stripped).

(** With [bare_ghost.txt] the return comes before the templates are put back. *)
Definition setup (spawn : memory -> option Z * memory) : W outcome :=
  s <~ suppress ;;
  actor <~ (fun m => let (a, m) := spawn m in Some ([], a, m)) ;;
  match actor with
  | Some a => if t_bare t then wret (Untouched a) else put_back s ;~ dress a
  | None => put_back s ;~ wret NoPawn
  end.

(** Lifecycle.v's bookkeeping, with what the setup found. *)
Definition answered (env : spawn_env) (r : outcome) : spawn_env :=
  let with_ bare actor stripped own :=
    SpawnEnv (local_pawn env) (local_controller env) (tick_count env) (suppress_ghost_spawn_until_tick env)
      (ticks_since_pawn_valid env) (ghost_spawn_far env) bare actor stripped own in
  match r with
  | NoPawn => with_ (t_bare t) None false None
  | Untouched a => with_ true (Some a) false None
  | Dressed a own stripped => with_ false (Some a) stripped own
  end.

Definition spawn_ghost (spawn : memory -> option Z * memory) (env : spawn_env) (id : bytes) (p : plugin) : W plugin :=
  match spawn_allowed env p id with
  | None => wret p
  | Some _ => r <~ setup spawn ;; wret (ensure_ghost_spawned id (answered env r) p)
  end.
End Setup.

(** * Words *)

#[export] Instance word_decreasing body word : Decreasing (fun at_ => S (length body) - at_) (word_body body word).
Proof.
  intros at_ s' E. unfold word_body in E. destruct (find_from body word at_) as [found|] eqn:Ef; [|done].
  destruct (word_at body word found); [done|]. simplify_eq. apply find_from_bounds in Ef. lia.
Qed.

(** The search finds the first occurrence, or there is none. *)
Lemma find_str_first needle s j :
  starts_with needle (drop j s) = true -> j <= length s -> exists i, find_str needle s = Some i /\ i <= j.
Proof.
  revert j. induction s as [|c s IH]; intros j Hj Hl; cbn [find_str].
  - rewrite drop_nil in Hj. rewrite Hj. exists 0. split; [done|lia].
  - destruct (starts_with needle (c :: s)) eqn:E; [exists 0; split; [done|lia]|]. destruct j as [|j]; [cbn [drop] in Hj; congruence|].
    cbn in Hj, Hl. destruct (IH j Hj) as (i & -> & Hi); [lia|]. exists (S i). split; [done|lia].
Qed.

(** A whole word of the file, somewhere. *)
Definition has_word (body word : bytes) : Prop :=
  word <> [] /\ exists i, i <= length body /\ starts_with word (drop i body) = true /\ word_at body word i = true.

(** The loop finds the word wherever it stands whole. *)
Lemma dev_toggle_word_spec body word : dev_toggle_word body word = true <-> has_word body word.
Proof.
  unfold dev_toggle_word, has_word. case_bool_decide as Hw; [split; [done|naive_solver]|].
  apply (loop_inv _ _ (fun at_ => forall j, j <= length body -> j < at_ -> starts_with word (drop j body) = true -> word_at body word j = false)
                  (fun r => r = true <-> _)); [| |by intros; lia].
  - intros at_ at' HI E j Hl Hj Hs. unfold word_body in E. destruct (find_from body word at_) as [found|] eqn:Ef; [|done].
    destruct (word_at body word found) eqn:Ew; [done|]. simplify_eq. destruct (decide (j < at_)); [by apply HI|].
    unfold find_from in Ef. destruct (Nat.leb_spec at_ (length body)); [|done].
    destruct (find_str_first word (drop at_ body) (j - at_)) as (i & Ei & Hi);
      [by rewrite drop_drop, Nat.add_comm, Nat.sub_add by lia|rewrite length_drop; lia|]. rewrite Ei in Ef. cbn in Ef. injection Ef as <-.
    assert (j = at_ + i) as -> by lia. done.
  - intros at_ r HI E. unfold word_body in E. destruct (find_from body word at_) as [found|] eqn:Ef.
    + destruct (word_at body word found) eqn:Ew; [|done]. injection E as <-. split; [|done]. intros _. split; [done|]. exists found.
      pose proof (find_from_bounds _ _ _ _ Ef). split; [lia|]. split; [|done]. unfold find_from in Ef. destruct (Nat.leb_spec at_ (length body)); [|done].
      destruct (find_str word (drop at_ body)) as [i|] eqn:Ei; [|done]. cbn in Ef. injection Ef as <-.
      apply find_str_Some in Ei as [_ Ei]. by rewrite drop_drop in Ei.
    + injection E as <-. split; [done|]. intros (_ & i & Hl & Hs & Hi). destruct (decide (i < at_)) as [Hlt|Hge].
      { by rewrite (HI i Hl Hlt Hs) in Hi. }
      unfold find_from in Ef. destruct (Nat.leb_spec at_ (length body)); [|lia].
      destruct (find_str_first word (drop at_ body) (i - at_)) as (k & Ek & _);
        [by rewrite drop_drop, Nat.add_comm, Nat.sub_add by lia|rewrite length_drop; lia|]. by rewrite Ek in Ef.
Qed.

(** * Rules for the steps *)

Section Rules.
Context {e : engine} {R : Reflected e} {after : process -> memory -> memory}.

(** Started in [P] a step answers, and [Q] holds of its deeds, its answer and the fields. *)
Definition runs {A} (P : memory -> Prop) (x : W A) (Q : list deed -> A -> memory -> Prop) : Prop :=
  forall m, P m -> exists cs a m', x m = Some (cs, a, m') /\ Q cs a m'.
Definition keeps {A} (P : memory -> Prop) (x : W A) : Prop := runs P x (fun _ _ => P).
(** What a call leaves alone. *)
Definition stable (P : memory -> Prop) : Prop := forall c m, P m -> P (after c m).

Lemma runs_ret {A} (a : A) P (Q : list deed -> A -> memory -> Prop) : (forall m, P m -> Q [] a m) -> runs P (wret a) Q.
Proof. intros H m Hm. exists [], a, m. split; [done|by apply H]. Qed.

Lemma runs_bind {A B} (x : W A) (k : A -> W B) P S Q :
  runs P x S -> (forall c a, runs (S c a) (k a) (fun c' b m => Q (c ++ c') b m)) -> runs P (wbind x k) Q.
Proof.
  intros Hx Hk m Hm. destruct (Hx m Hm) as (c & a & m1 & E1 & H1). destruct (Hk c a m1 H1) as (c' & b & m2 & E2 & H2).
  exists (c ++ c'), b, m2. split; [|done]. unfold wbind. by rewrite E1, E2.
Qed.

(** A step that keeps what holds, and then one with no care for the deeds before. *)
Lemma runs_after {A B} (x : W A) (k : A -> W B) P Q :
  keeps P x -> (forall a, runs P (k a) Q) -> (forall c c' b m, Q c' b m -> Q (c ++ c') b m) -> runs P (wbind x k) Q.
Proof.
  intros Hx Hk HQ. eapply runs_bind; [exact Hx|]. intros c a m Hm. destruct (Hk a m Hm) as (c' & b & m' & E & H).
  exists c', b, m'. split; [done|by apply HQ].
Qed.

Lemma runs_weaken {A} (x : W A) (P P' : memory -> Prop) (Q Q' : list deed -> A -> memory -> Prop) :
  runs P x Q -> (forall m, P' m -> P m) -> (forall c a m, Q c a m -> Q' c a m) -> runs P' x Q'.
Proof. intros Hx HP HQ m Hm. destruct (Hx m (HP m Hm)) as (c & a & m' & E & H). exists c, a, m'. auto. Qed.

Lemma keeps_bind {A B} (x : W A) (k : A -> W B) P : keeps P x -> (forall a, keeps P (k a)) -> keeps P (wbind x k).
Proof. intros Hx Hk. by eapply runs_after. Qed.
Lemma keeps_ret {A} (a : A) P : keeps P (wret a).
Proof. by apply runs_ret. Qed.
Lemma keeps_look {A} (f : memory -> A) P : keeps P (look f).
Proof. intros m Hm. by exists [], (f m), m. Qed.
Lemma runs_look {A} (f : memory -> A) P : runs P (look f) (fun c a m => c = [] /\ a = f m /\ P m).
Proof. intros m Hm. by exists [], (f m), m. Qed.
Lemma runs_edit (f : memory -> memory) P Q : (forall m, P m -> Q [] tt (f m)) -> runs P (edit f) Q.
Proof. intros H m Hm. exists [], tt, (f m). split; [done|by apply H]. Qed.
Lemma keeps_edit (f : memory -> memory) (P : memory -> Prop) : (forall m, P m -> P (f m)) -> keeps P (edit f).
Proof. intros. by apply runs_edit. Qed.
Lemma keeps_deeds cs P : keeps P (deeds cs).
Proof. intros m Hm. by exists cs, tt, m. Qed.

Lemma keeps_call {A} (x : M A) P : stable P -> is_Some x -> keeps P (call after x).
Proof.
  intros Hs [[cs a] ->] m Hm. eexists _, _, _. split; [done|]. revert m Hm. induction cs as [|c cs IH]; intros m Hm; [done|].
  cbn. by apply IH, Hs.
Qed.

Lemma keeps_with {A} o n (missing : A) (k : Z -> W A) P : (forall c, keeps P (k c)) -> keeps P (with_object o n missing k).
Proof.
  intros Hk. apply keeps_bind; [apply keeps_look|]. intros [c|]; [apply Hk|apply keeps_ret].
Qed.
Lemma keeps_each {A} (xs : list A) (k : A -> W unit) P : (forall x, keeps P (k x)) -> keeps P (for_each xs k).
Proof. intros Hk. induction xs as [|x xs IH]; [apply keeps_ret|]. by apply keeps_bind. Qed.

Lemma safe_some {A} (x : M A) Q : safe x Q -> is_Some x.
Proof. intros (cs & a & -> & _). by eexists. Qed.
End Rules.

(** * What each step keeps *)

Definition BYTES : list (string * Z) := [("bOrientRotationToMovement", 0); ("obtainedProjectile?", 0); ("VisibilityBasedAnimTickOption", 1)]%string%Z.

Section Steps.
Context {e : engine} {R : Reflected e} {after : process -> memory -> memory} (w : spawn_world) (t : spawn_toggles).

(** Left alone by the calls and by every write but those of the shared references. *)
Record quiet (P : memory -> Prop) : Prop := Quiet {
  q_stable : stable (after := after) P;
  q_real k m : P m -> P (set_real k dzero m);
  q_byte o n v m : (n, v) ∈ BYTES -> P m -> P (set_byte (o, n) v m)
}.

Lemma is_on_function {A} (o : option Z) n (d : A) k :
  (forall c f, o = Some c -> function_of e c n = Some f -> laid_out e f -> is_Some (k c f)) -> is_Some (on_function e o n d k).
Proof.
  intros H. unfold on_function. destruct o as [c|]; [|by eexists]. destruct (function_of e c n) as [f|] eqn:E; [|by eexists].
  apply H; [done|done|by eapply r_laid].
Qed.

Lemma is_bool_call o fn q b : is_Some (call_bool_ufunction e o fn q b).
Proof. apply is_on_function. intros c f _ _ Hf. by eapply safe_some, (safe_byte (e := e) _ _ _ _ _ trivially). Qed.

Lemma is_no_arg o fn : is_Some (call_named_no_arg e o fn).
Proof. apply is_on_function. intros c f _ _ Hf. by eexists. Qed.

Lemma is_collision o : is_Some (disable_component_collision e o).
Proof.
  apply is_on_function. intros c f _ _ Hf. case_match; [by eexists|]. eapply (safe_some _ trivially), safe_block; [done|].
  intros b Hb. eapply (safe_filled f). { apply (store_at_ok (e := e)); [done| |done]. by apply (byte_room (e := e)). }
  intros x Hx. apply safe_processed; [done|]. intros. by apply safe_ret.
Qed.

Lemma is_depth o b : is_Some (call_set_render_custom_depth e o b).
Proof.
  apply is_on_function. intros c f _ _ Hf. eapply (safe_some _ trivially), safe_quietly.
  by apply (safe_first_byte (e := e) _ _ _ _ _ trivially).
Qed.

Lemma is_leading o f a : is_Some (call_ufunction_with_leading_actor_arg e (Some o) (Some f) a).
Proof.
  unfold call_ufunction_with_leading_actor_arg. destruct (Z.ltb_spec (parms_size f) 8) as [|H]; [by eexists|].
  unfold new_frame. destruct (Z.ltb_spec (parms_size f) 0); [lia|]. cbn [bind ret].
  destruct (store_ok 0 (ptr a) (zeroed (parms_size f))) as (b & -> & _); [done|rewrite length_zeroed; cbn; lia|by eexists].
Qed.

Lemma is_quietly {A} (x : M A) : is_Some x -> is_Some (quietly x).
Proof. intros [[c a] ->]. by eexists. Qed.

Lemma is_destroy o : is_Some (call_destroy_actor e o).
Proof. apply is_on_function. intros. by eexists. Qed.

Hint Resolve is_quietly is_bool_call is_no_arg is_collision is_depth is_leading is_destroy : core.

Section Kept.
Context (P : memory -> Prop) (HP : quiet P).

Lemma keeps_asked {A} (x : M A) : is_Some x -> keeps P (call after x).
Proof. apply keeps_call, HP. Qed.
Hint Resolve keeps_asked : core.

Lemma keeps_real k : keeps P (edit (set_real k dzero)).
Proof. apply keeps_edit, HP. Qed.
Lemma keeps_byte o n v : (n, v) ∈ BYTES -> keeps P (edit (set_byte (o, n) v)).
Proof. intros. apply keeps_edit. intros. by apply HP. Qed.

Ltac walk := repeat first
  [ apply keeps_ret | apply keeps_look | apply keeps_deeds | apply keeps_real | (apply keeps_byte; by repeat constructor)
  | (apply keeps_with; intros) | (apply keeps_bind; [|intros]) | (apply keeps_each; intros) | (apply keeps_asked; by auto) ].

Lemma keeps_kill_light a : keeps P (kill_spawn_light e after t a).
Proof.
  unfold kill_spawn_light. case_match; [|walk]. apply keeps_with. intros cac. apply keeps_with. intros child.
  walk; [|case_match; walk]. apply keeps_asked, is_on_function. intros. by eexists.
Qed.

Lemma keeps_face a : keeps P (face_by_hand a).
Proof. unfold face_by_hand. walk. Qed.

Lemma keeps_hand_back : keeps P (hand_back e after w).
Proof. unfold hand_back. walk. repeat case_match; walk. Qed.

Lemma keeps_tick_off o : keeps P (tick_off e after o).
Proof. unfold tick_off. walk. Qed.
Lemma keeps_tick_named o n : keeps P (tick_off_named e after o n).
Proof. unfold tick_off_named. walk. Qed.
Hint Resolve keeps_tick_off keeps_tick_named : core.

Lemma keeps_stop_controller c : keeps P (stop_controller e after w c).
Proof. unfold stop_controller. repeat case_match; walk; auto. Qed.

Lemma keeps_parts a : keeps P (strip_ghost_no_use_parts e after w t a).
Proof.
  unfold strip_ghost_no_use_parts. case_match; walk; auto; [apply keeps_stop_controller|case_match; walk; auto].
Qed.

Lemma keeps_nodes nodes found : keeps P (strip_nodes e after w nodes found).
Proof.
  revert found. induction nodes as [|n nodes IH]; intros found; cbn [strip_nodes]; walk; [|apply IH].
  unfold strip_node. case_match; walk. case_match; walk; apply keeps_asked; eapply safe_some, safe_set_visibility.
Qed.

Lemma keeps_ambient a : keeps P (strip_ghost_ambient_particles e after w a).
Proof. unfold strip_ghost_ambient_particles. walk. apply keeps_nodes. Qed.

Lemma keeps_animate a : keeps P (animate_always a).
Proof. unfold animate_always. walk. Qed.

Lemma keeps_outline a : keeps P (hide_outline e after t a).
Proof. unfold hide_outline. case_match; walk. Qed.

Lemma keeps_hitboxes a :
  keeps P (for_each HITBOXES (fun n => with_object a n tt (fun c => call after (quietly (disable_component_collision e (Some c)))))).
Proof. walk. Qed.

Lemma keeps_hud a : keeps P (remove_hud e after t a).
Proof. unfold remove_hud. case_match; walk. apply keeps_asked, is_on_function. intros. by eexists. Qed.

Lemma keeps_damages a : keeps P (for_each DAMAGES (fun n => edit (set_real (a, n) dzero))).
Proof. walk. Qed.

Lemma keeps_projectile a : keeps P (edit (set_byte (a, "obtainedProjectile?"%string) 0)).
Proof. walk. Qed.
End Kept.
End Steps.

(** * The references cleared *)

Lemma lookup_put {A} (s : gmap slot A) k v k' : put s k v !! k' = if bool_decide (k = k') then (fun _ => v) <$> s !! k' else s !! k'.
Proof.
  unfold put. case_bool_decide as Hk; [subst|].
  - destruct (s !! k') eqn:E; cbn; [by rewrite lookup_insert_eq|done].
  - destruct (s !! k); [by rewrite lookup_insert_ne|done].
Qed.

Lemma slot_set m a n v n' : object_slot (set_object (a, n) v m) a n' = if bool_decide (n = n') then (fun _ => v) <$> object_slot m a n' else object_slot m a n'.
Proof.
  unfold object_slot. cbn. rewrite lookup_put. case_bool_decide as Hk; [injection Hk as ->; by rewrite bool_decide_eq_true_2|].
  rewrite bool_decide_eq_false_2; [done|by intros ->].
Qed.

Lemma object_set_ne m a n v n' : n <> n' -> object_at (set_object (a, n) v m) a n' = object_at m a n'.
Proof. intros Hn. unfold object_at. by rewrite slot_set, bool_decide_eq_false_2. Qed.

Lemma object_set_none m a n n' : object_at m a n' = None \/ n = n' -> object_at (set_object (a, n) None m) a n' = None.
Proof.
  unfold object_at. rewrite slot_set. case_bool_decide as Hk; [|intros [?| ->]; [done|by destruct Hk]].
  intros _. by destruct (object_slot m a n').
Qed.

Definition cleared (a : Z) (names : list string) (m : memory) : Prop := forall n, n ∈ names -> object_at m a n = None.

(** The pawn's own hit component, where the reference holds it. *)
Definition own_hit (w : spawn_world) (a : Z) (v : option Z) : option Z :=
  h ← v; if bool_decide (w_outer w h = Some a) then Some h else None.

Lemma own_here w a v : own_of w a "BP_HpHitable" v None = own_hit w a v.
Proof. unfold own_of, own_hit. by destruct v. Qed.

Lemma own_other w a n v own : n <> "BP_HpHitable"%string -> own_of w a n v own = own.
Proof. intros Hn. unfold own_of. destruct v; [|done]. by rewrite bool_decide_eq_false_2. Qed.

Lemma runs_clear w a names done_ own v :
  NoDup names -> ("BP_HpHitable"%string ∈ names -> own = None) ->
  runs (fun m => cleared a done_ m /\ ("BP_HpHitable"%string ∈ names -> object_at m a "BP_HpHitable" = v)) (clear_refs w a own names)
       (fun _ own' m => cleared a (done_ ++ names) m /\ own' = if bool_decide ("BP_HpHitable"%string ∈ names) then own_hit w a v else own).
Proof.
  revert done_ own. induction names as [|n names IH]; intros done_ own Hnd Hown; cbn [clear_refs].
  { apply runs_ret. intros m [Hc _]. rewrite app_nil_r. split; [done|]. by rewrite bool_decide_eq_false_2 by apply not_elem_of_nil. }
  apply list.NoDup_cons in Hnd as [Hn Hnd]. intros m [Hc Hv]. unfold wbind, look.
  set (m1 := match object_slot m a n with Some _ => set_object (a, n) None m | None => m end).
  set (own1 := match object_slot m a n with Some v => own_of w a n v own | None => own end).
  assert (cleared a (done_ ++ [n]) m1) as Hc1.
  { intros n' [Hn'| ->%list_elem_of_singleton]%elem_of_app; unfold m1.
    - specialize (Hc n' Hn'). destruct (object_slot m a n); [apply object_set_none; by left|done].
    - destruct (object_slot m a n) as [x|] eqn:E; [apply object_set_none; by right|]. unfold object_at. by rewrite E. }
  assert (n <> "BP_HpHitable"%string -> object_at m1 a "BP_HpHitable" = object_at m a "BP_HpHitable") as Hk.
  { intros Hne. unfold m1. destruct (object_slot m a n); [by apply object_set_ne|done]. }
  assert (own1 = if bool_decide (n = "BP_HpHitable"%string) then own_of w a n (object_at m a n) own else own) as Ho.
  { unfold own1, object_at. destruct (decide (n = "BP_HpHitable"%string)) as [Hb|Hb].
    - rewrite bool_decide_eq_true_2 by done. by destruct (object_slot m a n).
    - rewrite bool_decide_eq_false_2 by done. destruct (object_slot m a n); [by apply own_other|done]. }
  destruct (IH (done_ ++ [n]) own1 Hnd) with (m := m1) as (cs & own' & m' & E & Hcl & Heq).
  - intros Hin. rewrite Ho, bool_decide_eq_false_2 by (by intros ->). apply Hown. by right.
  - split; [done|]. intros Hin. rewrite Hk by (by intros ->). apply Hv. by right.
  - exists cs, own', m'. split.
    { unfold m1, own1 in E. destruct (object_slot m a n) as [x|]; [|by rewrite E]. unfold edit, wbind. by rewrite E. }
    split; [by rewrite <- app_assoc in Hcl|]. rewrite Heq, Ho. destruct (decide (n = "BP_HpHitable"%string)) as [->|Hne].
    + rewrite bool_decide_eq_false_2 by done. rewrite bool_decide_eq_true_2 by done.
      rewrite bool_decide_eq_true_2 by by left. rewrite Hown, Hv by by left. apply own_here.
    + rewrite (bool_decide_eq_false_2 (n = _)) by done. assert ("BP_HpHitable"%string ∈ n :: names <-> "BP_HpHitable"%string ∈ names) as Hi.
      { rewrite elem_of_cons. naive_solver. }
      by rewrite (bool_decide_ext _ _ Hi).
Qed.

(** * The clone cut off *)

Definition real_slot (m : memory) (o : Z) (n : string) : option double := m_reals m !! (o, n).
Definition byte_slot (m : memory) (o : Z) (n : string) : option Z := m_bytes m !! (o, n).

Definition zero_real (a : Z) (n : string) (m : memory) : Prop := forall v, real_slot m a n = Some v -> v = dzero.

Lemma zero_real_set k a n m : zero_real a n m \/ k = (a, n) -> zero_real a n (set_real k dzero m).
Proof.
  intros H v. unfold real_slot. cbn. rewrite lookup_put. case_bool_decide as Hk.
  - destruct (_ !! _); [by intros [= <-]|done].
  - intros E. destruct H as [H| ->]; [by apply H|done].
Qed.

(** Harmless: it deals no damage, it has no projectile, it holds none of the references. *)
Record harmless (a : Z) (m : memory) : Prop := Harmless {
  hl_cleared : cleared a SHARED m;
  hl_damage n : n ∈ DAMAGES -> zero_real a n m;
  hl_projectile v : byte_slot m a "obtainedProjectile?" = Some v -> v = 0%Z
}.

(** The calls write none of these fields of the ghost's. *)
Record leaves_ghost (after : process -> memory -> memory) (a : Z) : Prop := LeavesGhost {
  lg_object c m n : n ∈ SHARED -> object_slot (after c m) a n = object_slot m a n;
  lg_real c m n : n ∈ DAMAGES -> real_slot (after c m) a n = real_slot m a n;
  lg_byte c m : byte_slot (after c m) a "obtainedProjectile?" = byte_slot m a "obtainedProjectile?"
}.

Lemma byte_slot_set o n v m a n' :
  byte_slot (set_byte (o, n) v m) a n' = if bool_decide ((o, n) = (a, n')) then (fun _ => v) <$> byte_slot m a n' else byte_slot m a n'.
Proof. unfold byte_slot. cbn. apply lookup_put. Qed.

Section Cut.
Context {e : engine} {R : Reflected e} {after : process -> memory -> memory} (w : spawn_world) (t : spawn_toggles).
Context (a : Z) (HL : leaves_ghost after a).

Definition refs_are (v h : option Z) (m : memory) : Prop := object_at m a "BP_HpHitable" = v /\ object_at m a "UI_HudRef" = h.

Lemma quiet_refs v h : quiet (after := after) (refs_are v h).
Proof.
  split; [|done..]. intros c m [H1 H2]. unfold refs_are, object_at in *.
  by rewrite !(lg_object _ _ HL) by (unfold SHARED; set_solver).
Qed.

Lemma quiet_harmless : quiet (after := after) (harmless a).
Proof.
  split.
  - intros c m [H1 H2 H3]. split.
    + intros n Hn. unfold object_at. rewrite (lg_object _ _ HL) by done. by apply H1.
    + intros n Hn v. rewrite (lg_real _ _ HL) by done. by apply H2.
    + intros v. rewrite (lg_byte _ _ HL). apply H3.
  - intros k m [H1 H2 H3]. split; [exact H1| |exact H3]. intros n Hn. apply zero_real_set. left. by apply H2.
  - intros o n v m Hn [H1 H2 H3]. split; [exact H1|exact H2|]. intros v'. rewrite byte_slot_set. case_bool_decide as Hk.
    + injection Hk as -> ->. assert (v = 0%Z) as -> by (unfold BYTES in Hn; set_solver).
      destruct (byte_slot m a _); [by intros [= <-]|done].
    + apply H3.
Qed.

Lemma runs_and {A} (x : W A) P P' Q Q' : runs P x Q -> runs P' x Q' -> runs (fun m => P m /\ P' m) x (fun c a m => Q c a m /\ Q' c a m).
Proof.
  intros H H' m [Hm Hm']. destruct (H m Hm) as (c & b & m1 & E & HQ). destruct (H' m Hm') as (c' & b' & m1' & E' & HQ').
  rewrite E in E'. injection E' as <- <- <-. by exists c, b, m1.
Qed.

Lemma keeps_clear own names (P : memory -> Prop) :
  (forall n m, n ∈ names -> P m -> P (set_object (a, n) None m)) -> keeps P (clear_refs w a own names).
Proof.
  revert own. induction names as [|n names IH]; intros own HP; cbn [clear_refs]; [apply keeps_ret|].
  assert (forall own, keeps P (clear_refs w a own names)) as Hk by (intros; apply IH; intros; apply HP; [by right|done]).
  apply keeps_bind; [apply keeps_look|]. intros [v|]; [|apply Hk]. apply keeps_bind; [|intros _; apply Hk].
  apply keeps_edit. intros. apply HP; [by left|done].
Qed.

Lemma keeps_dress (P : memory -> Prop) :
  quiet (after := after) P -> (forall n m, n ∈ SHARED -> P m -> P (set_object (a, n) None m)) -> keeps P (dress e after w t a).
Proof.
  intros HP HC. unfold dress, decouple.
  repeat first [ apply keeps_ret | apply keeps_deeds | (apply keeps_kill_light; exact HP) | exact (keeps_face _ HP a)
               | (apply keeps_hand_back; exact HP) | (apply keeps_parts; exact HP) | (apply keeps_hitboxes; exact HP)
               | (apply keeps_hud; exact HP) | exact (keeps_damages _ HP a) | exact (keeps_projectile _ HP a)
               | (apply keeps_ambient; exact HP) | exact (keeps_animate _ HP a) | (apply keeps_outline; exact HP)
               | (apply keeps_clear; case_match; [by intros ?? ?%elem_of_nil|exact HC])
               | (apply keeps_bind; [|intros]) ].
Qed.

(** The HUD is asked to leave the viewport while its reference still reaches it. *)
Definition hud_removed (h : option Z) (cs : list deed) : Prop :=
  forall hud f, h = Some hud -> function_of e hud "RemoveFromParent" = Some f -> Asked (Process hud f None) ∈ cs.

Lemma runs_hud v h :
  decoupled_off t "hud" = false ->
  runs (refs_are v h) (remove_hud e after t a) (fun cs _ m => refs_are v h m /\ hud_removed h cs).
Proof.
  intros Ht m Hm. pose proof Hm as [_ Hh]. unfold remove_hud. rewrite Ht. unfold with_object, wbind, look. rewrite Hh.
  destruct h as [hud|]; [|exists [], tt, m; split_and!; [done..|by intros]]. unfold on_function, call.
  destruct (function_of e hud "RemoveFromParent") as [f|] eqn:Ef.
  - cbn. eexists _, _, _. split; [done|]. split; [by apply quiet_refs|]. intros hud' f' [= <-]. rewrite Ef. intros [= <-]. by left.
  - cbn. exists [], tt, m. split_and!; [done..|]. intros hud' f' [= <-]. by rewrite Ef.
Qed.

Lemma runs_damages v h :
  runs (refs_are v h) (for_each DAMAGES (fun n => edit (set_real (a, n) dzero)))
       (fun _ _ m => refs_are v h m /\ forall n, n ∈ DAMAGES -> zero_real a n m).
Proof.
  intros m Hm. exists [], tt. eexists. split; [done|]. split; [done|]. unfold DAMAGES. intros n.
  rewrite !elem_of_cons. intros [->|[->|[->|[]%elem_of_nil]]].
  - apply zero_real_set. left. apply zero_real_set. left. apply zero_real_set. by right.
  - apply zero_real_set. left. apply zero_real_set. by right.
  - apply zero_real_set. by right.
Qed.

Lemma runs_refs v h :
  decoupled_off t "refs" = false ->
  runs (refs_are v h)
       (wbind (for_each DAMAGES (fun n => edit (set_real (a, n) dzero))) (fun _ =>
        wbind (edit (set_byte (a, "obtainedProjectile?"%string) 0)) (fun _ =>
        clear_refs w a None (if decoupled_off t "refs" then [] else SHARED))))
       (fun _ own m => harmless a m /\ own = own_hit w a v).
Proof.
  intros Ht. eapply runs_bind; [apply runs_damages|]. intros c [].
  eapply (runs_bind _ _ _ (fun _ _ m => refs_are v h m /\ (forall n, n ∈ DAMAGES -> zero_real a n m)
                                        /\ forall v, byte_slot m a "obtainedProjectile?" = Some v -> v = 0%Z)).
  { apply runs_edit. intros m [Hr Hz]. split_and!; [done|done|]. intros v'. rewrite byte_slot_set, bool_decide_eq_true_2 by done.
    destruct (byte_slot m a _); [by intros [= <-]|done]. }
  intros c' []. rewrite Ht. eapply runs_weaken.
  - apply runs_and; [apply (runs_clear w a SHARED [] None v); [|done]|].
    + unfold SHARED. repeat (apply list.NoDup_cons; split; [set_solver|]). by apply list.NoDup_nil.
    + apply (keeps_clear None SHARED (fun m => (forall n, n ∈ DAMAGES -> zero_real a n m)
                                        /\ forall v, byte_slot m a "obtainedProjectile?" = Some v -> v = 0%Z)). by intros.
  - intros m ([Hv _] & Hz & Hb). split_and!; [by intros n ?%elem_of_nil|by intros|done|done].
  - intros cs own m ([Hc Ho] & Hz & Hb). split; [by split|]. by rewrite Ho, bool_decide_eq_true_2 by (unfold SHARED; set_solver).
Qed.

Lemma runs_decouple v h :
  decoupled_off t "hud" = false -> decoupled_off t "refs" = false ->
  runs (refs_are v h) (decouple e after w t a) (fun cs own m => harmless a m /\ own = own_hit w a v /\ hud_removed h cs).
Proof.
  intros Hh Hr. unfold decouple. eapply runs_after.
  - by apply keeps_hitboxes, quiet_refs.
  - intros []. eapply runs_bind; [by apply runs_hud|]. intros c [] m [Hm Hc].
    destruct (runs_refs v h Hr m Hm) as (cs & own & m' & E & Hh' & Ho). exists cs, own, m'. split_and!; [exact E|done|done|].
    intros hud f E1 E2. apply elem_of_app. left. by eapply Hc.
  - intros c c' own m (H1 & H2 & H3). split_and!; [done..|]. intros hud f E1 E2. apply elem_of_app. right. by eapply H3.
Qed.

Lemma runs_dress v h :
  decoupled_off t "hud" = false -> decoupled_off t "refs" = false ->
  runs (refs_are v h) (dress e after w t a)
       (fun cs r m => exists stripped, r = Dressed a (own_hit w a v) stripped /\ harmless a m /\ hud_removed h cs).
Proof.
  intros Hh Hr. pose proof (quiet_refs v h) as Q1. pose proof quiet_harmless as Q2.
  assert (forall c c' b m,
    (exists stripped, b = Dressed a (own_hit w a v) stripped /\ harmless a m /\ hud_removed h c') ->
    exists stripped, b = Dressed a (own_hit w a v) stripped /\ harmless a m /\ hud_removed h (c ++ c')) as Mono.
  { intros c c' b m (s & -> & H1 & H2). exists s. split_and!; [done..|]. intros hud f E1 E2. apply elem_of_app. right. by eapply H2. }
  unfold dress. eapply runs_after; [by apply keeps_kill_light| |by apply Mono]. intros [].
  eapply runs_after; [exact (keeps_face _ Q1 a)| |by apply Mono]. intros [].
  eapply runs_after; [by apply keeps_hand_back| |by apply Mono]. intros [].
  eapply runs_after; [by apply keeps_deeds| |by apply Mono]. intros [].
  eapply runs_after; [by apply keeps_parts| |by apply Mono]. intros [].
  eapply runs_bind; [by apply runs_decouple|]. intros c own m (Hm & -> & Hc).
  assert (keeps (harmless a) (wbind (animate_always a) (fun _ => hide_outline e after t a))) as Hk
    by (apply keeps_bind; [exact (keeps_animate _ Q2 a)|intros; by apply keeps_outline]).
  destruct (keeps_ambient w (harmless a) Q2 a m Hm) as (c1 & stripped & m1 & E1 & H1).
  destruct (Hk m1 H1) as (c2 & [] & m2 & E2 & H2).
  unfold wbind in *. rewrite E1. destruct (animate_always a m1) as [[[ca []] ma]|]; [|done].
  destruct (hide_outline e after t a ma) as [[[cb []] mb]|]; [|done]. injection E2 as <- <-.
  eexists _, _, _. split; [done|]. exists stripped. split_and!; [done..|]. intros hud f E3 E4. apply elem_of_app. left. by eapply Hc.
Qed.
End Cut.

(** * The templates *)

Definition flag_slot (m : memory) (o : Z) (n : string) : option bool := m_flags m !! (o, n).

Section Templates.
Context (w : spawn_world) (t : spawn_toggles).

(** What is to be put back, in the fields as they were. *)
Definition to_restore (m : memory) : saved := Saved
  (if t_no_overlap t then
     cdo ← w_cdo w; cap ← object_at m cdo "CapsuleComponent"; v ← flag_slot m cap "bGenerateOverlapEvents"; Some (cap, v)
   else None)
  (if t_vertexlight_killed t then c ← light_template w m; v ← object_slot m c "ChildActorClass"; Some (c, v) else None)
  (cdo ← w_cdo w; v ← byte_slot m cdo "AutoPossessPlayer"; Some (cdo, v)).

(** What [SpawnActor] runs with. *)
Record suppressed (m : memory) : Prop := Suppressed {
  sp_possess cdo v : w_cdo w = Some cdo -> byte_slot m cdo "AutoPossessPlayer" = Some v -> v = 0%Z;
  sp_light c : t_vertexlight_killed t = true -> light_template w m = Some c -> object_at m c "ChildActorClass" = None;
  sp_overlap cdo cap v : t_no_overlap t = true -> w_cdo w = Some cdo -> object_at m cdo "CapsuleComponent" = Some cap ->
    flag_slot m cap "bGenerateOverlapEvents" = Some v -> v = false
}.

(** What was saved is there. *)
Record restored (s : saved) (m : memory) : Prop := Restored {
  rs_possess c v : s_possess s = Some (c, v) -> byte_slot m c "AutoPossessPlayer" = Some v;
  rs_light c v : s_light s = Some (c, v) -> object_slot m c "ChildActorClass" = Some v;
  rs_overlap c v : s_overlap s = Some (c, v) -> flag_slot m c "bGenerateOverlapEvents" = Some v
}.

(** What was saved still resolves. *)
Record resolves (s : saved) (m : memory) : Prop := Resolves {
  rv_light c v : s_light s = Some (c, v) -> is_Some (object_slot m c "ChildActorClass");
  rv_overlap c v : s_overlap s = Some (c, v) -> is_Some (flag_slot m c "bGenerateOverlapEvents")
}.

Lemma byte_set_possess m cdo v x : byte_slot (set_byte (cdo, "AutoPossessPlayer"%string) v m) cdo "AutoPossessPlayer" = Some x -> x = v.
Proof. rewrite byte_slot_set, bool_decide_eq_true_2 by done. by destruct (byte_slot m cdo _); intros [= <-]. Qed.

Lemma flag_slot_set o n v m a n' :
  flag_slot (set_flag (o, n) v m) a n' = if bool_decide ((o, n) = (a, n')) then (fun _ => v) <$> flag_slot m a n' else flag_slot m a n'.
Proof. unfold flag_slot. cbn. apply lookup_put. Qed.

Lemma slot_set_any o n v m a n' :
  object_slot (set_object (o, n) v m) a n' = if bool_decide ((o, n) = (a, n')) then (fun _ => v) <$> object_slot m a n' else object_slot m a n'.
Proof. unfold object_slot. cbn. apply lookup_put. Qed.

Lemma object_set_other o n v m a n' : n <> n' -> object_at (set_object (o, n) v m) a n' = object_at m a n'.
Proof. intros Hn. unfold object_at. rewrite slot_set_any, bool_decide_eq_false_2; [done|by intros [= _ ?]]. Qed.

Lemma template_same m m' : (forall o, object_at m' o "PlayerLight" = object_at m o "PlayerLight") -> light_template w m' = light_template w m.
Proof. intros H. unfold light_template. destruct (w_cdo w); cbn; [by rewrite H|done]. Qed.

Definition after_possess (m : memory) : memory :=
  match w_cdo w with Some cdo => set_byte (cdo, "AutoPossessPlayer"%string) 0 m | None => m end.
Definition after_light (m : memory) : memory :=
  if t_vertexlight_killed t then match light_template w m with Some c => set_object (c, "ChildActorClass"%string) None m | None => m end else m.
Definition after_overlap (m : memory) : memory :=
  if t_no_overlap t then
    match cdo ← w_cdo w; object_at m cdo "CapsuleComponent" with
    | Some cap => set_flag (cap, "bGenerateOverlapEvents"%string) false m | None => m end
  else m.
Definition held_back (m : memory) : memory := after_overlap (after_light (after_possess m)).

Lemma put_missing {A} (s : gmap slot A) k v : s !! k = None -> put s k v = s.
Proof. unfold put. by intros ->. Qed.

Lemma suppress_possess_held m : suppress_possess w m = Some ([], s_possess (to_restore m), after_possess m).
Proof.
  unfold suppress_possess, after_possess, wbind, look. cbn [s_possess to_restore]. destruct (w_cdo w) as [cdo|]; [|done]. cbn.
  unfold byte_slot. destruct (m_bytes m !! (cdo, "AutoPossessPlayer"%string)) as [v|] eqn:E; [done|]. cbn.
  unfold set_byte. rewrite put_missing by exact E. by destruct m.
Qed.

Lemma suppress_light_held m : suppress_light w t m = Some ([], s_light (to_restore m), after_light m).
Proof.
  unfold suppress_light, after_light, wbind, look. cbn [s_light to_restore]. destruct (t_vertexlight_killed t); [|done].
  destruct (light_template w m) as [c|]; [|done]. cbn. destruct (object_slot m c "ChildActorClass") as [v|] eqn:E; [done|]. cbn.
  unfold set_object. rewrite put_missing by exact E. by destruct m.
Qed.

Lemma suppress_overlap_held m : suppress_overlap w t m = Some ([], s_overlap (to_restore m), after_overlap m).
Proof.
  unfold suppress_overlap, after_overlap, with_object, wbind, look. cbn [s_overlap to_restore].
  destruct (w_cdo w) as [cdo|]; [|by destruct (t_no_overlap t)]. destruct (t_no_overlap t); [|done]. cbn.
  destruct (object_at m cdo "CapsuleComponent") as [cap|]; [|done]. cbn.
  unfold flag_slot. destruct (m_flags m !! (cap, "bGenerateOverlapEvents"%string)) as [v|] eqn:E; [done|]. cbn.
  unfold set_flag. rewrite put_missing by exact E. by destruct m.
Qed.

Lemma restore_after_possess m : s_light (to_restore (after_possess m)) = s_light (to_restore m).
Proof. unfold after_possess. by destruct (w_cdo w). Qed.

Lemma capsule_after m o : object_at (after_light (after_possess m)) o "CapsuleComponent" = object_at m o "CapsuleComponent".
Proof.
  assert (forall m', object_at (after_light m') o "CapsuleComponent" = object_at m' o "CapsuleComponent") as ->.
  { intros m'. unfold after_light. repeat case_match; [by apply object_set_other|done..]. }
  unfold after_possess. by destruct (w_cdo w).
Qed.

Lemma flags_after m o n : flag_slot (after_light (after_possess m)) o n = flag_slot m o n.
Proof. unfold after_light, after_possess. by repeat case_match. Qed.

Lemma restore_after_light m : s_overlap (to_restore (after_light (after_possess m))) = s_overlap (to_restore m).
Proof.
  cbn [s_overlap to_restore]. destruct (t_no_overlap t); [|done]. destruct (w_cdo w) as [cdo|]; [|done]. cbn.
  rewrite capsule_after. destruct (object_at m cdo "CapsuleComponent") as [cap|]; [|done]. cbn. by rewrite flags_after.
Qed.

(** The class's defaults before [SpawnActor]: what is saved, what it runs with. *)
Lemma suppress_held m : suppress w t m = Some ([], to_restore m, held_back m).
Proof.
  unfold suppress, wbind. rewrite suppress_possess_held, suppress_light_held, suppress_overlap_held. cbv beta iota.
  rewrite restore_after_possess, restore_after_light. done.
Qed.

Lemma overlap_slots m o n : object_slot (after_overlap m) o n = object_slot m o n.
Proof. unfold after_overlap. by repeat case_match. Qed.
Lemma overlap_bytes m o n : byte_slot (after_overlap m) o n = byte_slot m o n.
Proof. unfold after_overlap. by repeat case_match. Qed.
Lemma light_bytes m o n : byte_slot (after_light m) o n = byte_slot m o n.
Proof. unfold after_light. by repeat case_match. Qed.
Lemma possess_slots m o n : object_slot (after_possess m) o n = object_slot m o n.
Proof. unfold after_possess. by case_match. Qed.
Lemma light_objects m o n : n <> "ChildActorClass"%string -> object_at (after_light m) o n = object_at m o n.
Proof. intros Hn. unfold after_light. repeat case_match; [by apply object_set_other|done..]. Qed.

Lemma held_objects m o n : n <> "ChildActorClass"%string -> object_at (held_back m) o n = object_at m o n.
Proof.
  intros Hn. unfold held_back, object_at. rewrite overlap_slots. change (object_at (after_light (after_possess m)) o n = object_at m o n).
  rewrite light_objects by done. unfold object_at. by rewrite possess_slots.
Qed.

Lemma suppressed_held m : suppressed (held_back m).
Proof.
  split.
  - intros cdo v Hc. unfold held_back. rewrite overlap_bytes, light_bytes. unfold after_possess. rewrite Hc. apply byte_set_possess.
  - intros c Ht. rewrite (template_same m) by (intros o; by apply held_objects). intros Hc.
    assert (object_at (after_light (after_possess m)) c "ChildActorClass" = None) as <-.
    { unfold after_light. rewrite Ht. rewrite (template_same m) by (intros o; unfold after_possess; by destruct (w_cdo w)).
      rewrite Hc. apply object_set_none. by right. }
    unfold held_back, object_at. by rewrite overlap_slots.
  - intros cdo cap v Ht Hc. rewrite held_objects by done. intros Hcap. unfold held_back, after_overlap. rewrite Ht, Hc. cbn.
    rewrite capsule_after, Hcap, flag_slot_set, bool_decide_eq_true_2 by done. by destruct (flag_slot _ _ _); intros [= <-].
Qed.

(** What was to be put back resolves in the fields the spawn starts from. *)
Lemma resolves_held m : resolves (to_restore m) (held_back m).
Proof.
  split.
  - intros c v. cbn [s_light to_restore]. destruct (t_vertexlight_killed t) eqn:Ht; [|done].
    destruct (light_template w m) as [c'|] eqn:Ec; [|done]. cbn. destruct (object_slot m c' "ChildActorClass") as [v'|] eqn:E; [|done]. cbn.
    intros [= <- <-]. assert (is_Some (object_slot (after_light (after_possess m)) c' "ChildActorClass")) as H.
    { unfold after_light. rewrite Ht, (template_same m), Ec by (intros o; unfold after_possess; by destruct (w_cdo w)).
      rewrite slot_set, bool_decide_eq_true_2 by done. rewrite possess_slots, E. by eexists. }
    unfold held_back. by rewrite overlap_slots.
  - intros c v. cbn [s_overlap to_restore]. destruct (t_no_overlap t) eqn:Ht; [|done]. destruct (w_cdo w) as [cdo|] eqn:Ew; [|done]. cbn.
    destruct (object_at m cdo "CapsuleComponent") as [cap|] eqn:Ec; [|done]. cbn.
    destruct (flag_slot m cap "bGenerateOverlapEvents") as [v'|] eqn:E; [|done]. cbn. intros [= <- <-].
    unfold held_back, after_overlap. rewrite Ht, Ew. cbn. rewrite capsule_after, Ec, flag_slot_set, bool_decide_eq_true_2 by done.
    rewrite flags_after, E. by eexists.
Qed.

Lemma const_map {A B} (o : option A) (v : B) : is_Some o -> (fun _ => v) <$> o = Some v.
Proof. by intros [x ->]. Qed.

Lemma restored_put_back s m :
  resolves s m -> exists m', put_back s m = Some ([], tt, m') /\ restored s m' /\
    (forall o n, n <> "ChildActorClass"%string -> object_at m' o n = object_at m o n).
Proof.
  intros [Hl Ho]. unfold put_back, wbind, edit. eexists. split; [done|]. destruct s as [ov li po]. cbn in *. split.
  - split; cbn.
    + intros c v ->. unfold byte_slot. cbn. by rewrite lookup_insert_eq.
    + intros c v ->. specialize (Hl c v eq_refl). destruct po as [[c1 v1]|], ov as [[c2 v2]|]; cbn;
        unfold object_slot; cbn; rewrite lookup_put, bool_decide_eq_true_2 by done; by apply const_map.
    + intros c v ->. specialize (Ho c v eq_refl). destruct po as [[c1 v1]|], li as [[c2 v2]|]; cbn;
        unfold flag_slot; cbn; rewrite lookup_put, bool_decide_eq_true_2 by done; by apply const_map.
  - intros o n Hn. destruct po as [[c1 v1]|], li as [[c2 v2]|], ov as [[c3 v3]|]; try done;
      unfold object_at, object_slot; cbn; rewrite lookup_put, bool_decide_eq_false_2; try done; by intros [= _ ?].
Qed.
End Templates.

(** No reflected call of the setup writes what was saved of the templates. *)
Record leaves_templates (s : saved) (after : process -> memory -> memory) : Prop := LeavesTemplates {
  lt_byte c m o v : s_possess s = Some (o, v) -> byte_slot (after c m) o "AutoPossessPlayer" = byte_slot m o "AutoPossessPlayer";
  lt_object c m o v : s_light s = Some (o, v) -> object_slot (after c m) o "ChildActorClass" = object_slot m o "ChildActorClass";
  lt_flag c m o v : s_overlap s = Some (o, v) ->
    flag_slot (after c m) o "bGenerateOverlapEvents" = flag_slot m o "bGenerateOverlapEvents"
}.

Lemma quiet_restored after s : leaves_templates s after -> quiet (after := after) (restored s).
Proof.
  intros [Hb Ho Hf]. split.
  - intros c m [H1 H2 H3]. split; intros o v E; [erewrite Hb|erewrite Ho|erewrite Hf]; eauto.
  - intros k m [H1 H2 H3]. by split.
  - intros o n v m Hn [H1 H2 H3]. split; [|done..]. intros c v' E. rewrite byte_slot_set, bool_decide_eq_false_2; [by apply H1|].
    intros [= _ ->]. unfold BYTES in Hn. set_solver.
Qed.

Lemma restored_clear s a n m : n ∈ SHARED -> restored s m -> restored s (set_object (a, n) None m).
Proof.
  intros Hn [H1 H2 H3]. split; [done| |done]. intros c v E. rewrite slot_set_any, bool_decide_eq_false_2; [by apply H2|].
  intros [= _ ->]. unfold SHARED in Hn. set_solver.
Qed.

Lemma setup_unfold e after w t spawn m a m1 s' m2 :
  spawn (held_back w t m) = (Some a, m1) -> t_bare t = false -> put_back (to_restore w t m) m1 = Some ([], tt, m2) -> s' = m2 ->
  setup e after w t spawn m = dress e after w t a s'.
Proof.
  intros Hs Hb Hp ->. unfold setup, wbind. rewrite suppress_held, Hs, Hb. cbv beta iota. unfold wbind. rewrite Hp. cbv beta iota.
  by destruct (dress e after w t a m2) as [[[cs r] m3]|].
Qed.

(** Only the last step of several gives the answer. *)
Definition answers {A} (Q : A -> Prop) (x : W A) : Prop := forall m cs r m', x m = Some (cs, r, m') -> Q r.
Lemma answers_bind {A B} (x : W A) (k : A -> W B) Q : (forall a, answers Q (k a)) -> answers Q (wbind x k).
Proof.
  intros Hk m cs r m'. unfold wbind. destruct (x m) as [[[c a] m1]|]; [|done].
  destruct (k a m1) as [[[c' b] m2]|] eqn:E; [|done]. intros [= _ <- _]. by eapply Hk.
Qed.
Lemma dress_answers e after w t a : answers (fun r => r <> NoPawn) (dress e after w t a).
Proof. unfold dress. repeat (apply answers_bind; intros). by intros m cs r m' [= _ <- _]. Qed.

(** With [bare_ghost.txt] nothing is given back: the fields are what [SpawnActor] made of
    the suppressed ones. *)
Lemma bare_keeps_templates_suppressed e after w t spawn m a :
  t_bare t = true -> (spawn (held_back w t m)).1 = Some a ->
  setup e after w t spawn m = Some ([], Untouched a, (spawn (held_back w t m)).2).
Proof.
  intros Hb Ha. unfold setup, wbind. rewrite suppress_held. destruct (spawn (held_back w t m)) as [o m1]. cbn in Ha. subst o.
  cbv beta iota. by rewrite Hb.
Qed.

(** C7: the spawn gives back what it borrows: [SpawnActor] runs with the class's
    [AutoPossessPlayer] at zero and, where the toggles say so, with no child actor in the
    light's template and no overlap events in the capsule's, and once the setup is done
    (and it always answers) every one of them that resolved holds the value it had,
    whether [SpawnActor] returned a pawn or not.  The one exception is a pawn spawned
    with [bare_ghost.txt] there: it is left untouched and nothing is given back, the
    fields being what [SpawnActor] made of the suppressed ones.  Assumed of the engine:
    what was saved still resolves on its template after [SpawnActor], and the reflected
    calls made on the new pawn do not write those fields of the templates. *)
Theorem templates_restored (e : engine) (R : Reflected e) (after : process -> memory -> memory) (w : spawn_world) (t : spawn_toggles)
    (spawn : memory -> option Z * memory) (m : memory)
    (Hafter : leaves_templates (to_restore w t m) after)
    (Hspawn : forall m0, resolves (to_restore w t m) m0 -> resolves (to_restore w t m) (spawn m0).2) :
  exists m0 cs r m', suppressed w t m0 /\ setup e after w t spawn m = Some (cs, r, m')
    /\ (r = NoPawn <-> (spawn m0).1 = None)
    /\ match (spawn m0).1 with
       | Some a => if t_bare t then r = Untouched a /\ cs = [] /\ m' = (spawn m0).2 else restored (to_restore w t m) m'
       | None => restored (to_restore w t m) m'
       end.
Proof.
  exists (held_back w t m). pose proof (Hspawn _ (resolves_held w t m)) as Hr.
  destruct (spawn (held_back w t m)) as [actor m1] eqn:Es. cbn [fst snd] in *.
  destruct (restored_put_back _ _ Hr) as (m2 & Ep & H2 & _). destruct actor as [a|]; [destruct (t_bare t) eqn:Hbare|].
  - exists [], (Untouched a), m1. split; [apply suppressed_held|].
    pose proof (bare_keeps_templates_suppressed e after w t spawn m a Hbare) as Hb. rewrite Es in Hb. by rewrite Hb.
  - destruct (keeps_dress w t a (restored (to_restore w t m)) (quiet_restored after _ Hafter) (fun n m => restored_clear _ a n m) m2 H2)
      as (cs & r & m' & E & H'). exists cs, r, m'. split; [apply suppressed_held|]. split; [by rewrite (setup_unfold _ _ _ _ _ _ _ _ _ _ Es Hbare Ep eq_refl)|].
    split; [|done]. split; [|done]. intros ->. by apply dress_answers in E.
  - exists [], NoPawn, m2. split; [apply suppressed_held|]. split; [|done]. unfold setup, wbind. rewrite suppress_held, Es.
    cbv beta iota. unfold wbind. by rewrite Ep.
Qed.

Lemma put_back_objects s m :
  exists m', put_back s m = Some ([], tt, m') /\ forall o n, n <> "ChildActorClass"%string -> object_at m' o n = object_at m o n.
Proof.
  unfold put_back, wbind, edit. eexists. split; [done|]. intros o n Hn. destruct s as [ov li po]; cbn.
  destruct po as [[c1 v1]|], li as [[c2 v2]|], ov as [[c3 v3]|]; try done;
    unfold object_at, object_slot; cbn; rewrite lookup_put, bool_decide_eq_false_2; try done; by intros [= _ ?].
Qed.

Lemma setup_dressed e (R : Reflected e) after w t spawn m a :
  leaves_ghost after a -> (forall m0, (spawn m0).1 = Some a) -> t_bare t = false ->
  decoupled_off t "hud" = false -> decoupled_off t "refs" = false ->
  let m1 := (spawn (held_back w t m)).2 in
  exists cs stripped m', setup e after w t spawn m = Some (cs, Dressed a (own_hit w a (object_at m1 a "BP_HpHitable")) stripped, m')
    /\ harmless a m' /\ hud_removed (e := e) (object_at m1 a "UI_HudRef") cs.
Proof.
  intros HL Ha Hb Hh Hr m1. specialize (Ha (held_back w t m)). destruct (spawn (held_back w t m)) as [o m1'] eqn:Es.
  cbn in Ha, m1. subst o m1. destruct (put_back_objects (to_restore w t m) m1') as (m2 & Ep & Ho).
  destruct (runs_dress w t a HL (object_at m1' a "BP_HpHitable") (object_at m1' a "UI_HudRef") Hh Hr m2) as (cs & r & m' & E & stripped & -> & H1 & H2);
    [split; by apply Ho|].
  exists cs, stripped, m'. split; [|done]. by rewrite (setup_unfold _ _ _ _ _ _ _ _ _ _ Es Hb Ep eq_refl).
Qed.

(** C8: a spawned ghost is cut off from the player: where a spawn is allowed, no
    [bare_ghost.txt] asks for the pawn to be left alone, [decouple_off.txt] keeps neither
    the hud nor the references, and [SpawnActor] returns a pawn, the setup answers, the
    entry holds the pawn, and at the end the pawn holds none of the references it shares
    with the player, its damage numbers and its projectile are zero; its HUD, if it had
    one, was asked to leave the viewport; its hit component is kept aside exactly where it
    is the pawn's own.  Assumed of the engine: the reflected calls the setup makes on the
    pawn do not themselves write those references and numbers. *)
Theorem spawned_ghost_cut_off (e : engine) (R : Reflected e) (after : process -> memory -> memory) (w : spawn_world) (t : spawn_toggles)
    (spawn : memory -> option Z * memory) (env : spawn_env) (id : bytes) (p : plugin) (m : memory) (world a : Z) (loc : vec3)
    (Hallowed : spawn_allowed env p id = Some (world, loc)) (Hafter : leaves_ghost after a) (Ha : forall m0, (spawn m0).1 = Some a)
    (Hbare : t_bare t = false) (Hhud : decoupled_off t "hud" = false) (Hrefs : decoupled_off t "refs" = false) :
  exists m0 cs p' g m', suppressed w t m0
    /\ spawn_ghost e after w t spawn env id p m = Some (cs, p', m')
    /\ remotes p' !! id = Some g /\ ghost (engine_objects g) = Some a
    /\ drive_own_hitable (engine_objects g) = own_hit w a (object_at (spawn m0).2 a "BP_HpHitable")
    /\ harmless a m' /\ hud_removed (e := e) (object_at (spawn m0).2 a "UI_HudRef") cs.
Proof.
  destruct (setup_dressed e R after w t spawn m a Hafter Ha Hbare Hhud Hrefs) as (cs & stripped & m' & E & H1 & H2).
  unfold spawn_ghost, wbind. rewrite Hallowed, E.
  set (env' := answered t env _).
  assert (spawn_allowed env' p id = Some (world, loc)) as Hal by exact Hallowed.
  exists (held_back w t m), (cs ++ []), (ensure_ghost_spawned id env' p), (spawned_entry env' a world loc (remote_of id p)), m'.
  split; [apply suppressed_held|]. split; [done|]. unfold ensure_ghost_spawned. rewrite Hal. cbn [spawned_actor env' answered bare_ghost].
  split; [apply lookup_insert_eq|]. destruct loc as [[x y] z]. split_and!; [done..|]. by rewrite app_nil_r.
Qed.

(** Control is asked back for the player's own pawn, and only where the controller does
    not hold it. *)
Lemma hand_back_for_player e after w m cs m' :
  (0 <= w_pawn w < 2 ^ 64)%Z -> hand_back e after w m = Some (cs, tt, m') ->
  (object_slot m (w_controller w) "Pawn" = Some (Some (w_pawn w)) -> cs = [])
  /\ Forall (fun d => exists f b, d = Asked (Process (w_controller w) f (Some b)) /\ load 0 8 b = Some (w_pawn w)) cs.
Proof.
  intros Hw. unfold hand_back, wbind, look. cbv beta iota. case_bool_decide as Hh; [by intros [= <- _]|].
  destruct (function_of e (w_controller w) "Possess") as [f|]; [|by intros [= <- _]]. unfold call, call_ufunction_with_leading_actor_arg.
  destruct (Z.ltb_spec (parms_size f) 8) as [|H8]; [by intros [= <- _]|]. unfold new_frame.
  destruct (Z.ltb_spec (parms_size f) 0); [lia|]. cbn [bind ret]. destruct (store 0 _ _) as [b|] eqn:Eb; [|done].
  cbn. intros [= <- _]. split; [done|]. apply Forall_singleton. exists f, b. split; [done|].
  apply holds_ptr; [|done]. unfold holds. cbn. by apply (load_store _ _ _ _ Eb).
Qed.

(** * A sample spawn *)

Definition sample_world : spawn_world :=
  SpawnWorld (fun o => if (o =? 20)%Z then Some "NiagaraComponent"%string else if (o =? 21)%Z then Some "BP_AIController_C"%string else None)
    (fun o => if (o =? 30)%Z then Some 77%Z else None)
    (fun o => if (o =? 22)%Z then str "NiagaraSystem /Game/FX/NE_Particles_System" else [])
    (fun o => if (o =? 23)%Z then Some [Some 20%Z; None] else None)
    (Some 10%Z) 5 [(11%Z, str "Other_GEN_VARIABLE"); (12%Z, str "PlayerLight_GEN_VARIABLE")] (fun o => if (o =? 12)%Z then [4; 5]%Z else []) 3 2.
Definition sample_spawn_toggles : spawn_toggles := SpawnToggles true true false false false true (str "install wall decoupled").

Definition sample_memory : memory := Memory
  (list_to_map [((12%Z, "ChildActorClass"%string), Some 99%Z); ((10%Z, "CapsuleComponent"%string), Some 13%Z);
                ((3%Z, "Pawn"%string), Some 77%Z); ((77%Z, "UI_HudRef"%string), Some 40%Z); ((77%Z, "BP_HpHitable"%string), Some 30%Z);
                ((77%Z, "LastHitBy"%string), None); ((77%Z, "RootComponent"%string), Some 23%Z); ((20%Z, "Asset"%string), Some 22%Z);
                ((77%Z, "Controller"%string), Some 21%Z); ((77%Z, "VisualMesh"%string), Some 24%Z)])
  (list_to_map [((10%Z, "AutoPossessPlayer"%string), 1%Z); ((77%Z, "obtainedProjectile?"%string), 1%Z); ((24%Z, "VisibilityBasedAnimTickOption"%string), 0%Z)])
  (list_to_map [((13%Z, "bGenerateOverlapEvents"%string), true)])
  (list_to_map [((77%Z, "lightAttackDamage"%string), of_Z 2); ((77%Z, "heavyAttackDamage"%string), of_Z 4)]).

(** The engine of CallProps.v, and a [RemoveFromParent]. *)
Definition spawn_table : list (string * ufunction) := ("RemoveFromParent"%string, UFunction "RemoveFromParent" 0 []) :: sample_table.
Lemma spawn_reflected : Reflected (engine_of spawn_table).
Proof. by apply checked_engine. Qed.

Lemma templates_restored_witness :
  to_restore sample_world sample_spawn_toggles sample_memory = Saved (Some (13%Z, true)) (Some (12%Z, Some 99%Z)) (Some (10%Z, 1%Z)) /\
  exists m0 cs r m', suppressed sample_world sample_spawn_toggles m0
    /\ setup (engine_of spawn_table) (fun _ m => m) sample_world sample_spawn_toggles (fun m => (Some 77%Z, m)) sample_memory = Some (cs, r, m')
    /\ (r = NoPawn <-> Some 77%Z = None)
    /\ restored (to_restore sample_world sample_spawn_toggles sample_memory) m'.
Proof.
  split; [by vm_compute|].
  apply (templates_restored (engine_of spawn_table) spawn_reflected (fun _ m => m) sample_world sample_spawn_toggles (fun m => (Some 77%Z, m)));
    [by split|done].
Defined.

Lemma spawned_ghost_cut_off_witness :
  exists m0 cs p' g m', suppressed sample_world sample_spawn_toggles m0
    /\ spawn_ghost (engine_of spawn_table) (fun _ m => m) sample_world sample_spawn_toggles (fun _ => (Some 77%Z, sample_memory))
         sample_spawn (str "p1") plugin0 sample_memory = Some (cs, p', m')
    /\ remotes p' !! str "p1" = Some g /\ ghost (engine_objects g) = Some 77%Z
    /\ drive_own_hitable (engine_objects g) = own_hit sample_world 77 (object_at sample_memory 77 "BP_HpHitable")
    /\ harmless 77 m' /\ hud_removed (e := engine_of spawn_table) (object_at sample_memory 77 "UI_HudRef") cs.
Proof.
  apply (spawned_ghost_cut_off (engine_of spawn_table) spawn_reflected (fun _ m => m) sample_world sample_spawn_toggles
           (fun _ => (Some 77%Z, sample_memory)) sample_spawn (str "p1") plugin0 sample_memory 2 77 (of_Z 300, of_Z 40, of_Z 5));
    [by vm_compute|by split|done|done|by vm_compute|by vm_compute].
Defined.

(** The run itself: what is asked, what is stashed, whether the particles were found. *)
Example sample_spawn_runs :
  (fun x => (length x.1.1, x.1.2)) <$> setup (engine_of spawn_table) (fun _ m => m) sample_world sample_spawn_toggles (fun m => (Some 77%Z, m)) sample_memory
  = Some (3, Dressed 77 (Some 30%Z) true).
Proof. by vm_compute. Qed.
